(* ===== verification/_CoqProject ===== *)
-Q . S2P
Prelude.v
Radix.v
ByteOrder.v
KsuidTypes.v
LongDiv.v
Base62.v
Simd.v
Base62Simd.v
Libc.v
Compare.v
Rand.v
Ksuid.v
KsuidSequence.v
Rows.v
EncodeBatch.v
EncodeAvx2.v
Dispatch.v
EncodeDispatch.v
Hex.v
HexSsse3.v
Uuidv7.v
HexBatch.v
Uuidv7Sequence.v
SequenceClock.v
Wipe.v
Chacha20.v
RandOs.v
RandTls.v
Keystream.v
Machine.v
TlsRng.v
TlsLayout.v
Threads.v
Extra.v
Processes.v
ThreadEnd.v
FlsExit.v
RaMemory.v
Override.v
OverrideMemory.v
DispatchMemory.v
System.v
Stdio.v
Calendar.v
Cli.v
Render.v
CliSpec.v
StdoutMode.v
EndToEnd.v
SequenceStack.v
Vectors.v
