(* ===== verification/Prelude.v ===== *)
(** * libchronoid: a verification development

    libchronoid (src/) generates and parses two kinds of sortable identifiers:
    KSUIDs, 20 bytes of a 32-bit timestamp and 16 random bytes, written as 27
    base62 characters; and UUIDs of version 7 (RFC 9562), 16 bytes of 48 bits of
    milliseconds, 12 bits [rand_a] and 62 bits [rand_b], written as 36
    hexadecimal characters and hyphens.  The C functions of the library and of its
    command-line tool are modelled here as executable functions over machine
    integers, arrays and an explicit environment, and proved correct.

    ** Parts and how they interact

    The codecs turn values into text and back: base62 (ksuid/base62.c, with SSE2
    and NEON validation kernels, the latter for 32-bit and 64-bit ARM), hexadecimal (uuidv7/hex.c, with an SSSE3
    kernel).  The value types (ksuid/ksuid.c, uuidv7/uuidv7.c) build on them and
    on the big-endian helpers of byteorder.h, and compare through one of three
    20-byte kernels or [memcmp].  Sequences (ksuid/sequence.c,
    uuidv7/uuidv7_sequence.c) hand out monotonic runs.  Bulk formatting
    (ksuid/encode_batch.c, uuidv7/hex_batch.c) picks an AVX2 or a scalar kernel
    at run time through an atomic function pointer.  Generation draws from
    [chronoid_internal_fill_random] (ksuid.c): a hook the application installs,
    or the per-thread ChaCha20 generator of rand_tls.c over chacha20.c, which
    seeds itself from rand_os.c, erases what it hands out (wipe.h) and wipes
    itself at thread exit.  examples/chronoid-gen.c puts a command line on top.

    ** Files

    - Foundations.  Prelude: fixed-width integers, C strings, arrays with bounds
      ([store], [memcpy], [at_offset]), the option monad, the tactics.  Radix:
      positional notation, the reference of every codec.  ByteOrder:
      byteorder.h.  Libc, Simd, Stdio: the C library functions and vector
      intrinsics the code uses, from their documentation.  Calendar: the dates of
      Stdio are those of the Gregorian calendar.
    - KSUID.  KsuidTypes: ksuid.h.  LongDiv, Base62, Base62Simd: base62.c and
      the validation kernels.  Compare: compare_*.c.  Ksuid: ksuid.c.
      KsuidSequence: sequence.c.  EncodeBatch, EncodeAvx2, EncodeDispatch:
      encode_batch.c and encode_avx2.c, with divisor_magic.h.
    - UUIDv7.  Hex, HexSsse3: hex.c and hex_ssse3.c.  Uuidv7: uuidv7.c.
      Uuidv7Sequence: uuidv7_sequence.c.  SequenceClock: the times in its ids
      against the clock.  HexBatch: hex_batch.c, hex_avx2.c.
    - Bulk formatting.  Rows: arrays of fixed-length rows.  Dispatch: the
      dispatcher both bulk encoders contain, alone and with threads.
    - Atomics.  RaMemory: a memory with release stores and acquire loads.
      OverrideMemory, DispatchMemory: the two hook slots of ksuid.c and the
      function pointers of the dispatchers on it.
    - Randomness.  Rand: what the generators need, as interfaces.  Wipe: wipe.h.
      Chacha20: chacha20.c.  RandOs: rand_os.c.  RandTls: rand_tls.c, the
      definitions; Keystream and TlsRng: their theory; Machine: an instance of
      the environment; TlsLayout: the storage of the generator's struct and the
      test helpers on it; Threads: any number of threads; Extra: environments with
      one more component; Processes: threads and forks; ThreadEnd: the exit of a
      thread; FlsExit: the same on Windows; Override: the hook slots of ksuid.c
      and the complete random source; System, SequenceStack: KSUIDs and UUIDv7
      sequences drawn from it.
    - Command line.  Cli: chronoid-gen.c.  Render: what each projection prints.
      CliSpec: what the tool does.  StdoutMode: text and binary mode of its output.
      EndToEnd: the tool over every other part.
    - Vectors: what the tests of the repository (tests/) fix, evaluated on the
      model with every kernel.

    ** Conventions

    Definitions have the names of the C functions.  A [w]-bit unsigned value is
    a [Z] with its wrap-around written as [wrap w]; signed overflow has no result
    ([None]).  An array is a [list Z]; an access outside it has no result either,
    so that [f x = Some y] says that the call stays inside its arrays.  An output
    parameter is passed in with its old value and returned with its new one, so
    that "untouched on error" is a statement.  Error codes are inductive types.
    What the platform chooses is a parameter where it can be seen: the width of
    [long] ([c_long] of Stdio, 32 or 64 bits, in the option -n), the size of [size_t]
    in the generator's struct and the rest of its layout ([layout] of TlsLayout), the
    kernels and the reduction on ARM.  Elsewhere [size_t] is a [nat], or 64 bits wide
    in the window position of RandTls, whose values are at most 64, but for the
    sentinel of the test helper, which is never used as a position.
    Everything outside a component is a type [W] under a class of operations
    with their laws ([RandomSource], [Clock], [NowMs], [EntropySource],
    [ProcessId], [ThreadExit], [Syscalls], [Memcmp], [TimeZone]); the classes
    [Translate16], [Compare20], [HexEncode16] and [StringBatch] are the choices
    of kernel the preprocessor or the dispatcher makes, each with one law that
    every kernel is proved to meet.  Properties carry an identifier (C1, C2, ...)
    in their comments; an [Example] or a lemma with suffix [_witness] applies a
    property to concrete values.

    ** What the theorems show

    - Codecs (Ksuid, Uuidv7).  Parse inverts format, format inverts parse up to
      the case of hexadecimal digits, the result of parsing is known for every
      string, the order of the texts is the order of the values.
    - Values (Ksuid, Uuidv7).  Construction and generation on every branch, with
      the output untouched on every error; the one signed overflow the code has is
      a case of the statements.
    - Sequences (KsuidSequence, Uuidv7Sequence).  A KSUID sequence is the
      enumeration of the 65536 values of its suffix and then exhaustion; the ids
      of a UUIDv7 sequence increase whatever the clock and the random source do,
      and stay between the clock and one millisecond per call ahead of it
      (SequenceClock); one call is known exactly, with its draws and its counter; the bounds functions bound what they say; a UUIDv7 sequence
      copes with any contents of its public struct.
    - Kernels (EncodeAvx2, HexBatch).  The vector code writes what the scalar
      code writes, for every count; the reciprocal division by 62 is exact.
    - Dispatch (Dispatch, EncodeDispatch, HexBatch, DispatchMemory).  Concurrent
      callers get the reference result, also when a load of the pointer returns an
      old value; no kernel runs on a CPU without it; in every interleaving a call
      has returned the reference result after at most four steps of its own thread.
    - Randomness (Chacha20, RandOs, TlsRng, TlsLayout, Threads, Processes,
      ThreadEnd, FlsExit, OverrideMemory).  The block
      function is that of RFC 8439 with a 64-bit counter; entropy fills the
      buffer or the call fails, no descriptor leaks, the retry loops end; a draw
      is the next bytes of the keystream of the seed, and the bytes handed out
      are erased; when reseeding happens; the wipe clears everything, every byte
      of the struct under any layout, and has cleared it when a thread has exited,
      whatever its other destructors draw, unless the C library refused the
      registration, in which case the generator stays; on Windows the end of a
      thread clears exactly the registered ones, which is every one unless a call
      is refused; every generator of every thread stays well formed, and it is
      known when a draw has no result; across threads and forks no byte of a keystream is handed out
      twice, as long as the system does not hand out a process id again (and a
      run in which it does repeats bytes).  A draw never uses a hook with an older
      context, nor either of them from before a swap that had returned when it
      began; relaxed accesses or overlapping swaps would break this, and lemmas
      show how.
    - Command line and whole stack (CliSpec, EndToEnd, SequenceStack).  The
      outcome of every command line in both modes; the printed ids of a process,
      and the ids of a UUIDv7 sequence, carry consecutive pieces of the keystream
      of the 44 bytes the system gave it.  StdoutMode: raw output reaches the
      device unchanged on Windows too.

    ** Bounds and fuel

    Loops over a length the caller gives recur on it.  [encode_loop] and
    [decode_loop] of Base62 carry fuel for the digits of the output, which the
    theorems show to be enough.  [draw_loop] gets one round more than bytes asked
    for; every round draws at least one byte.  The retry loops of RandOs carry
    fuel because the system decides how often they go round; with a bound on the
    interruptions ([Patient]) they are proved to end.  [udec] prints at most 20
    digits, enough for 64 bits.  [exit_run] of ThreadEnd takes at most [weight] rounds,
    which bounds every exit.  The generators' theorems that need the source
    to answer say so ([Answers]).

    ** Not modelled

    - That the compiler keeps the stores of [chronoid_explicit_bzero]: this is
      not a property of the values an execution computes.
    - Behaviours of relaxed atomics beyond RaMemory (a load that depends on a
      later store).  The accesses of the code are release stores and acquire
      loads, but for the counter of wipes, which nothing in the library reads.
    - The probes of the dispatcher (CPUID, XGETBV, [getenv]), the time zone, the
      clock and the system calls are inputs; their answers are arbitrary within
      the laws of their classes.
    - Whether Windows runs the callback of the slot again when another callback of
      the thread draws after it, which its documentation leaves open: FlsExit says
      what holds after each run of the callback.
    - NULL arguments.
    - The test programs but for what Vectors evaluates, tools/, hooks/ and the build
      files, which are not part of the library. *)
From Stdlib Require Export ZArith Lia.
From Stdlib Require Import Ascii String.
From stdpp Require Export base tactics option list numbers.
Open Scope Z_scope.

(** ** Fixed-width integers *)

(** Conversion to an unsigned type of [w] bits: reduction modulo [2^w]. *)
Definition wrap (w x : Z) : Z := x mod 2 ^ w.

Abbreviation u8 := (wrap 8).
Abbreviation u16 := (wrap 16).
Abbreviation u32 := (wrap 32).
Abbreviation u64 := (wrap 64).

Definition UINT16_MAX : Z := 65535.
Definition UINT32_MAX : Z := 4294967295.
Definition INT64_MIN : Z := - 2 ^ 63.
Definition INT64_MAX : Z := 2 ^ 63 - 1.

(** [uint w x] says that [x] is a value of the unsigned type of [w] bits. *)
Definition uint (w x : Z) : Prop := 0 <= x < 2 ^ w.

(** [int64 x] says that [x] is a value of [int64_t]. *)
Definition int64 (x : Z) : Prop := INT64_MIN <= x <= INT64_MAX.

(** Signed 64-bit arithmetic.  C leaves an overflowing signed operation
    undefined; the model has no result ([None]) for it. *)
Definition i64 (x : Z) : option Z :=
  if (INT64_MIN <=? x) && (x <=? INT64_MAX) then Some x else None.

Definition i64_add (x y : Z) : option Z := i64 (x + y).
Definition i64_sub (x y : Z) : option Z := i64 (x - y).
Definition i64_mul (x y : Z) : option Z := i64 (x * y).

(** Conversion of a [uint64_t] to [int64_t] (two's complement). *)
Definition int64_of_u64 (x : Z) : Z := if x <? 2 ^ 63 then x else x - 2 ^ 64.

(** ** Byte arrays

    A C array of [uint8_t] (or [char]) is a list of numbers below 256.
    Reading index [i] is [a !! i]; an access outside the array has no result. *)
Definition bytes (l : list Z) : Prop := Forall (uint 8) l.

(** A string literal as the character codes it is stored as, without and with
    its terminating NUL. *)
Definition str (s : string) : list Z :=
  map (fun c => Z.of_N (N_of_ascii c)) (list_ascii_of_string s).
Definition cstr (s : string) : list Z := str s ++ [0].

(** Contents of a local array before its first store; no modelled body reads
    such a cell. *)
Definition uninit (n : nat) : list Z := replicate n 0xcc.

Definition store (a : list Z) (i : nat) (v : Z) : option (list Z) :=
  if decide (i < length a)%nat then Some (<[i:=v]> a) else None.

(** [memcpy (dst + doff, src + soff, n)]. *)
Definition memcpy (dst : list Z) (doff : nat) (src : list Z) (soff n : nat)
    : option (list Z) :=
  if decide (doff + n <= length dst /\ soff + n <= length src)%nat
  then Some (take doff dst ++ take n (drop soff src) ++ drop (doff + n) dst)
  else None.

(** [memset (dst + doff, c, n)]. *)
Definition memset (dst : list Z) (doff : nat) (c : Z) (n : nat)
    : option (list Z) :=
  memcpy dst doff (replicate n c) 0 n.

(** Call [f] on the [n] cells at [p + off]: what a callee that gets the pointer
    [p + off] and writes at most [n] cells does to the whole array. *)
Definition at_offset (p : list Z) (off n : nat) (f : list Z -> option (list Z))
    : option (list Z) :=
  if decide (off + n <= length p)%nat then
    q ← f (take n (drop off p));
    Some (take off p ++ q ++ drop (off + n) p)
  else None.

(** Three-way lexicographic comparison, the order [memcmp] decides. *)
Fixpoint lex (a b : list Z) : comparison :=
  match a, b with
  | [], [] => Eq
  | [], _ :: _ => Lt
  | _ :: _, [] => Gt
  | x :: a', y :: b' =>
      match x ?= y with
      | Eq => lex a' b'
      | c => c
      end
  end.

(** ** Hint databases and tactics *)

Create HintDb chronoid.
Create HintDb lens.

Ltac inv_some :=
  repeat match goal with
  | H : Some _ = Some _ |- _ => injection H as H; try subst
  | H : None = Some _ |- _ => discriminate H
  | H : Some _ = None |- _ => discriminate H
  end.

(** Split a hypothesis [m ≫= k = Some r] into the run of [m] and of [k]. *)
Ltac inv_bind :=
  repeat match goal with
  | H : (?m ≫= _) = Some _ |- _ =>
      let x := fresh "x" in let Hx := fresh "Hx" in
      apply bind_Some in H as (x & Hx & H)
  | H : _ /\ _ |- _ => destruct H
  end; inv_some.

(** Turn a list of known length into its elements. *)
Ltac explode l :=
  match goal with
  | H : length l = ?n |- _ =>
      let rec go l H :=
        match type of H with
        | length l = 0%nat => apply nil_length_inv in H; subst l
        | length l = S _ =>
            let x := fresh "x" in let l' := fresh "l" in
            destruct l as [|x l']; [discriminate H|];
            cbn [length] in H; injection H as H; go l' H
        end in
      go l H
  end.

(** ** Integers *)

Lemma wrap_range w x : 0 <= w -> uint w (wrap w x).
Proof. intros Hw. unfold uint, wrap. apply Z.mod_pos_bound. lia. Qed.

Lemma wrap_small w x : uint w x -> wrap w x = x.
Proof. intros H. apply Z.mod_small, H. Qed.

Lemma wrap_wrap w x : 0 <= w -> wrap w (wrap w x) = wrap w x.
Proof. intros Hw. apply wrap_small, wrap_range, Hw. Qed.

Lemma uint_mono w w' x : 0 <= w <= w' -> uint w x -> uint w' x.
Proof.
  unfold uint. intros Hw Hx.
  pose proof (Z.pow_le_mono_r 2 w w'). lia.
Qed.

Lemma shiftr_wrap w v k :
  0 <= w -> 0 <= k -> wrap w (Z.shiftr v k) = (v / 2 ^ k) mod 2 ^ w.
Proof. intros. unfold wrap. rewrite Z.shiftr_div_pow2; [done|lia]. Qed.

(** Bits that do not overlap: [|] is [+]. *)
Lemma lor_add a b k :
  0 <= k -> 0 <= b < 2 ^ k -> a mod 2 ^ k = 0 -> Z.lor a b = a + b.
Proof.
  intros Hk Hb Ha. symmetry. rewrite Z.add_nocarry_lxor.
  - apply Z.bits_inj'. intros n Hn. rewrite Z.lxor_spec, Z.lor_spec.
    destruct (Z.lt_ge_cases n k) as [Hlt|Hge].
    + rewrite <- (Z.mod_pow2_bits_low a k n) by lia.
      rewrite Ha, Z.bits_0. by destruct (Z.testbit b n).
    + rewrite <- (Z.mod_small b (2 ^ k)) by lia.
      rewrite Z.mod_pow2_bits_high by lia. by destruct (Z.testbit a n).
  - apply Z.bits_inj'. intros n Hn. rewrite Z.land_spec, Z.bits_0.
    destruct (Z.lt_ge_cases n k) as [Hlt|Hge].
    + rewrite <- (Z.mod_pow2_bits_low a k n) by lia.
      by rewrite Ha, Z.bits_0.
    + rewrite <- (Z.mod_small b (2 ^ k)) by lia.
      rewrite Z.mod_pow2_bits_high by lia. apply andb_false_r.
Qed.

Lemma lor_shiftl a b k :
  0 <= k -> 0 <= b < 2 ^ k -> Z.lor (Z.shiftl a k) b = a * 2 ^ k + b.
Proof.
  intros Hk Hb. rewrite Z.shiftl_mul_pow2 by lia.
  apply (lor_add _ _ k); [lia..|]. apply Z.mod_mul. lia.
Qed.

Lemma land_ones_mod x k : 0 <= k -> Z.land x (Z.ones k) = x mod 2 ^ k.
Proof. apply Z.land_ones. Qed.

Lemma i64_Some x : int64 x -> i64 x = Some x.
Proof.
  intros [H1 H2]. unfold i64.
  by rewrite (proj2 (Z.leb_le _ _) H1), (proj2 (Z.leb_le _ _) H2).
Qed.

Lemma i64_None x : ~ int64 x -> i64 x = None.
Proof.
  unfold i64, int64. intros H.
  destruct (Z.leb_spec INT64_MIN x), (Z.leb_spec x INT64_MAX); simpl; try done.
  destruct H. lia.
Qed.

#[export] Hint Resolve wrap_range : chronoid.

(** ** Byte arrays *)

Lemma bytes_nil : bytes [].
Proof. constructor. Qed.

Lemma bytes_cons x l : bytes (x :: l) <-> uint 8 x /\ bytes l.
Proof. apply Forall_cons_iff. Qed.

Lemma bytes_app l k : bytes (l ++ k) <-> bytes l /\ bytes k.
Proof. apply Forall_app. Qed.

Lemma bytes_lookup l i x : bytes l -> l !! i = Some x -> uint 8 x.
Proof. intros Hl Hi. by eapply Forall_lookup_1. Qed.

Lemma bytes_insert l i x : bytes l -> uint 8 x -> bytes (<[i:=x]> l).
Proof. intros. by apply Forall_insert. Qed.

Lemma bytes_replicate n x : uint 8 x -> bytes (replicate n x).
Proof. intros. by apply Forall_replicate. Qed.

Lemma bytes_take n l : bytes l -> bytes (take n l).
Proof. apply Forall_take. Qed.

Lemma bytes_drop n l : bytes l -> bytes (drop n l).
Proof. apply Forall_drop. Qed.

#[export] Hint Resolve bytes_nil bytes_insert bytes_replicate
  bytes_take bytes_drop : chronoid.

Lemma length_uninit n : length (uninit n) = n.
Proof. apply length_replicate. Qed.

Lemma store_Some a i v : (i < length a)%nat -> store a i v = Some (<[i:=v]> a).
Proof. intros H. unfold store. by rewrite decide_True. Qed.

Lemma store_inv a i v a' :
  store a i v = Some a' -> (i < length a)%nat /\ a' = <[i:=v]> a.
Proof. unfold store. case_decide; intros; simplify_eq; done. Qed.

Lemma memcpy_Some dst doff src soff n :
  (doff + n <= length dst)%nat -> (soff + n <= length src)%nat ->
  memcpy dst doff src soff n
  = Some (take doff dst ++ take n (drop soff src) ++ drop (doff + n) dst).
Proof. intros. unfold memcpy. by rewrite decide_True. Qed.

Lemma at_offset_Some pre q post f q' off n :
  length pre = off -> length q = n -> f q = Some q' ->
  at_offset (pre ++ q ++ post) off n f = Some (pre ++ q' ++ post).
Proof.
  intros <- <- Hf. unfold at_offset. rewrite decide_True by (rewrite !length_app; lia).
  rewrite drop_app_length, (take_app_length q), Hf. cbn [mbind option_bind].
  by rewrite take_app_length, <- drop_drop, !drop_app_length.
Qed.

(** A store into the middle part of an array. *)
Lemma store_middle pre q post off i v :
  length pre = off -> (i < length q)%nat ->
  store (pre ++ q ++ post) (off + i) v = Some (pre ++ <[i:=v]> q ++ post).
Proof.
  intros <- Hi. rewrite store_Some by (rewrite !length_app; lia).
  by rewrite insert_app_r, insert_app_l by lia.
Qed.

Lemma length_concat_rows {A} (rows : list (list A)) m :
  Forall (fun r => length r = m) rows -> length (concat rows) = (length rows * m)%nat.
Proof.
  induction 1 as [|r rows Hr Hrows IH]; [done|]. cbn [concat length].
  rewrite length_app, IH. lia.
Qed.

(** An array cut into rows. *)
Lemma split_rows (l : list Z) m n :
  length l = (n * m)%nat ->
  exists rows, l = concat rows /\ Forall (fun r => length r = m) rows /\ length rows = n.
Proof.
  revert l. induction n as [|n IH]; intros l Hl.
  - exists []. by rewrite (nil_length_inv l Hl).
  - destruct (IH (drop m l)) as (rows & E & Hrows & Hn).
    { rewrite length_drop. lia. }
    exists (take m l :: rows). cbn [concat length]. rewrite <- E, take_drop.
    split; [done|]. split; [|by rewrite Hn].
    constructor; [|done]. rewrite length_take. lia.
Qed.

(** Filling an array from the front: [p] has been written so far. *)
Lemma memcpy_append p out src k off n :
  length p = k -> (k + n <= length out)%nat -> (off + n <= length src)%nat ->
  memcpy (p ++ drop k out) k src off n
  = Some ((p ++ take n (drop off src)) ++ drop (k + n) out).
Proof.
  intros <- Hk Hn. rewrite memcpy_Some by (rewrite ?length_app, ?length_drop; lia).
  rewrite take_app_length, <- drop_drop, drop_app_length, drop_drop.
  by rewrite <- app_assoc.
Qed.

Lemma store_append p out k v :
  length p = k -> (k < length out)%nat ->
  store (p ++ drop k out) k v = Some ((p ++ [v]) ++ drop (k + 1) out).
Proof.
  intros <- Hk. destruct (drop (length p) out) as [|x q] eqn:E.
  { apply (f_equal length) in E. rewrite length_drop in E. cbn in E. lia. }
  rewrite store_Some by (rewrite length_app; cbn; lia).
  rewrite <- (Nat.add_0_r (length p)) at 1. rewrite insert_app_r. cbn.
  rewrite <- app_assoc. cbn. by rewrite <- drop_drop, E.
Qed.

(** Row [i] of an array of rows of equal length. *)
Lemma concat_row {A} (rows : list (list A)) m i r :
  Forall (fun r => length r = m) rows -> rows !! i = Some r ->
  take m (drop (i * m) (concat rows)) = r.
Proof.
  intros Hrows Hi. rewrite <- (take_drop_middle rows i r Hi), concat_app.
  apply Forall_take with (n := i) in Hrows as Hpre.
  pose proof (Forall_lookup_1 _ _ _ _ Hrows Hi) as Hr.
  rewrite drop_app_length'.
  - cbn [concat]. by apply take_app_length'.
  - rewrite (length_concat_rows _ m), length_take by done.
    apply lookup_lt_Some in Hi. lia.
Qed.

(** Overwriting a whole array. *)
Lemma memcpy_full dst src n :
  length dst = n -> length src = n -> memcpy dst 0 src 0 n = Some src.
Proof.
  intros <- Hs. rewrite memcpy_Some by lia.
  rewrite take_0, drop_0, (take_ge src), (drop_ge dst) by lia.
  by rewrite app_nil_r.
Qed.

Lemma memcpy_length dst doff src soff n dst' :
  memcpy dst doff src soff n = Some dst' -> length dst' = length dst.
Proof.
  unfold memcpy. case_decide; intros; simplify_eq.
  rewrite !length_app, !length_take, !length_drop. lia.
Qed.

Lemma memcpy_bytes dst doff src soff n dst' :
  bytes dst -> bytes src -> memcpy dst doff src soff n = Some dst' -> bytes dst'.
Proof.
  unfold memcpy. case_decide; intros; simplify_eq.
  rewrite !bytes_app. auto with chronoid.
Qed.

(** ** Lexicographic order *)

Lemma lex_refl a : lex a a = Eq.
Proof. induction a as [|x a IH]; simpl; [done|]. by rewrite Z.compare_refl. Qed.

Lemma lex_eq a b : lex a b = Eq <-> a = b.
Proof.
  split; [|intros ->; apply lex_refl].
  revert b. induction a as [|x a IH]; intros [|y b]; simpl; try done.
  destruct (Z.compare_spec x y) as [->| |]; try done.
  intros H. by rewrite (IH b H).
Qed.

Lemma lex_antisym a b : lex b a = CompOpp (lex a b).
Proof.
  revert b. induction a as [|x a IH]; intros [|y b]; simpl; try done.
  rewrite (Z.compare_antisym x y). destruct (x ?= y); simpl; [apply IH|done|done].
Qed.

Lemma lex_trans a b c : lex a b = Lt -> lex b c = Lt -> lex a c = Lt.
Proof.
  revert b c. induction a as [|x a IH]; intros [|y b] [|z c]; simpl; try done.
  destruct (Z.compare_spec x y), (Z.compare_spec y z); try done;
    intros; subst;
    repeat match goal with
    | |- context [?p ?= ?q] => destruct (Z.compare_spec p q); try lia; try done
    end; eauto.
Qed.

Lemma lex_app_eq p a b : lex (p ++ a) (p ++ b) = lex a b.
Proof. induction p as [|x p IH]; simpl; [done|]. by rewrite Z.compare_refl. Qed.

Lemma lex_app_l a b a' b' :
  length a = length b ->
  lex (a ++ a') (b ++ b') = match lex a b with Eq => lex a' b' | c => c end.
Proof.
  revert b. induction a as [|x a IH]; intros [|y b]; simpl; try done.
  intros [= H]. destruct (x ?= y); [by apply IH|done|done].
Qed.

(** ** Consecutive stores *)

(** The effect of a run of stores to consecutive indices; the modelled bodies
    spell the stores out, and are proved to be such a run. *)
Fixpoint stores (a : list Z) (off : nat) (vs : list Z) : option (list Z) :=
  match vs with
  | [] => Some a
  | v :: vs' => a' ← store a off v; stores a' (S off) vs'
  end.

Lemma stores_Some a off vs :
  (off + length vs <= length a)%nat ->
  stores a off vs = Some (take off a ++ vs ++ drop (off + length vs) a).
Proof.
  revert a off. induction vs as [|v vs IH]; intros a off; cbn [stores length].
  - intros _. rewrite Nat.add_0_r. simpl. by rewrite take_drop.
  - intros H. rewrite store_Some by lia. cbn [mbind option_bind].
    rewrite IH by (rewrite length_insert; lia). f_equal.
    rewrite drop_insert_lt by lia.
    rewrite (take_S_r _ off v) by (apply list_lookup_insert_eq; lia).
    rewrite take_insert_ge by lia.
    by rewrite <- app_assoc, Nat.add_succ_comm.
Qed.

Lemma stores_length a off vs a' :
  stores a off vs = Some a' -> length a' = length a.
Proof.
  revert a off. induction vs as [|v vs IH]; intros a off; cbn [stores].
  - intros. by simplify_eq.
  - intros (a1 & H1 & H2)%bind_Some. apply store_inv in H1 as [_ ->].
    rewrite (IH _ _ H2). apply length_insert.
Qed.

(** ** Finite case analysis on byte values *)

Lemma byte_cases (P : Z -> bool) :
  forallb P (seqZ 0 256) = true -> forall c, uint 8 c -> P c = true.
Proof.
  intros H c Hc. rewrite forallb_forall in H. apply H.
  apply list_elem_of_In, elem_of_seqZ. unfold uint in Hc. lia.
Qed.

Lemma range_cases n (P : Z -> bool) :
  forallb P (seqZ 0 n) = true -> forall c, 0 <= c < n -> P c = true.
Proof.
  intros H c Hc. rewrite forallb_forall in H. apply H.
  apply list_elem_of_In, elem_of_seqZ. lia.
Qed.

Lemma mapM_lookup_take {A} (l : list A) k :
  (k <= length l)%nat -> mapM (fun i => l !! i) (seq 0 k) = Some (take k l).
Proof.
  intros Hk. apply mapM_Some, Forall2_same_length_lookup_2.
  - rewrite length_seq, length_take. lia.
  - intros i x y Hx Hy. apply lookup_seq in Hx as [-> Hi].
    by rewrite lookup_take_lt in Hy by lia.
Qed.

(** Running [f] on every index of a list. *)
Lemma mapM_seq {A B} (f : nat -> option B) (g : A -> B) l n :
  length l = n -> (forall i x, l !! i = Some x -> f i = Some (g x)) ->
  mapM f (seq 0 n) = Some (map g l).
Proof.
  intros <- Hf. apply mapM_Some, Forall2_same_length_lookup_2.
  - by rewrite length_seq, length_map.
  - intros i x y Hx Hy. apply lookup_seq in Hx as [-> Hi].
    apply list_lookup_fmap_Some_1 in Hy as (z & -> & Hz). by apply Hf.
Qed.

Lemma drop_insert_cons (l : list Z) n v :
  (n < length l)%nat -> drop n (<[n:=v]> l) = v :: drop (S n) l.
Proof.
  intros Hn. rewrite (drop_S _ v) by (by apply list_lookup_insert_eq).
  by rewrite drop_insert_lt by lia.
Qed.
