(* ===== verification/Radix.v ===== *)
(** * Positional notation

    The mathematical reference for every codec of the library: the value of a
    big-endian list of digits, the fixed-length list of digits of a value, and
    the fact that lexicographic order on equal-length digit strings is numeric
    order.  Nothing here models code; the codecs are proved equal to it. *)
From S2P Require Import Prelude.

Section Radix.
Context (B : Z) (HB : 1 < B).

(** Value of a big-endian digit string. *)
Definition val (l : list Z) : Z := foldl (fun acc d => acc * B + d) 0 l.

(** The [k] low digits of [n], most significant first. *)
Fixpoint to_digits (k : nat) (n : Z) : list Z :=
  match k with
  | O => []
  | S k' => to_digits k' (n / B) ++ [n mod B]
  end.

Definition digits (l : list Z) : Prop := Forall (fun d => 0 <= d < B) l.

Lemma val_nil : val [] = 0.
Proof. done. Qed.

Lemma val_snoc l d : val (l ++ [d]) = val l * B + d.
Proof. unfold val. by rewrite foldl_app. Qed.

Lemma val_app l k : val (l ++ k) = val l * B ^ Z.of_nat (length k) + val k.
Proof using B.
  induction k as [|d k IH] using rev_ind.
  - rewrite app_nil_r, val_nil. simpl. lia.
  - rewrite app_assoc, !val_snoc, IH, length_app. simpl.
    rewrite Nat.add_1_r, Nat2Z.inj_succ, Z.pow_succ_r by lia. lia.
Qed.

Lemma val_cons d l : val (d :: l) = d * B ^ Z.of_nat (length l) + val l.
Proof using B. apply (val_app [d] l). Qed.

Lemma pow_pos k : 0 < B ^ Z.of_nat k.
Proof using HB. apply Z.pow_pos_nonneg; lia. Qed.

Lemma val_bound l : digits l -> 0 <= val l < B ^ Z.of_nat (length l).
Proof using HB.
  induction l as [|d l IH] using rev_ind.
  - rewrite val_nil. simpl. lia.
  - intros [Hl Hd]%Forall_app. apply Forall_cons_1 in Hd as [Hd _].
    rewrite val_snoc, length_app. simpl.
    rewrite Nat.add_1_r, Nat2Z.inj_succ, Z.pow_succ_r by lia.
    specialize (IH Hl). nia.
Qed.

Lemma length_to_digits k n : length (to_digits k n) = k.
Proof.
  revert n. induction k as [|k IH]; intros n; simpl; [done|].
  rewrite length_app, IH. simpl. lia.
Qed.

Lemma digits_to_digits k n : digits (to_digits k n).
Proof using HB.
  revert n. induction k as [|k IH]; intros n; simpl; [constructor|].
  apply Forall_app; split; [apply IH|]. constructor; [|constructor].
  apply Z.mod_pos_bound. lia.
Qed.

Lemma val_to_digits k n : val (to_digits k n) = n mod B ^ Z.of_nat k.
Proof using HB.
  revert n. induction k as [|k IH]; intros n; cbn [to_digits].
  - rewrite Z.mod_1_r. done.
  - rewrite val_snoc, IH, Nat2Z.inj_succ, Z.pow_succ_r by lia.
    rewrite Z.rem_mul_r by (try apply pow_pos; pose proof (pow_pos k); lia). lia.
Qed.

Lemma val_to_digits_small k n :
  0 <= n < B ^ Z.of_nat k -> val (to_digits k n) = n.
Proof using HB. intros H. rewrite val_to_digits. by apply Z.mod_small. Qed.

Lemma to_digits_val l : digits l -> to_digits (length l) (val l) = l.
Proof using HB.
  induction l as [|d l IH] using rev_ind; [done|].
  intros [Hl Hd]%Forall_app. apply Forall_cons_1 in Hd as [Hd _].
  rewrite length_app, Nat.add_1_r. cbn [length to_digits].
  rewrite val_snoc, Z.div_add_l, Z.div_small, Z.add_0_r, IH by (done || lia).
  f_equal. f_equal. rewrite Z.add_comm, Z.mod_add by lia. by apply Z.mod_small.
Qed.

Lemma to_digits_app j k n :
  to_digits (j + k) n = to_digits j (n / B ^ Z.of_nat k) ++ to_digits k n.
Proof using HB.
  revert n. induction k as [|k IH]; intros n.
  - rewrite Nat.add_0_r, Z.div_1_r. simpl. by rewrite app_nil_r.
  - rewrite Nat.add_succ_r. cbn [to_digits].
    rewrite IH, <- app_assoc. do 2 f_equal.
    rewrite Nat2Z.inj_succ, Z.pow_succ_r, Z.div_div by (pose proof (pow_pos k); lia).
    done.
Qed.

Lemma to_digits_mod k n : to_digits k (n mod B ^ Z.of_nat k) = to_digits k n.
Proof using HB.
  rewrite <- val_to_digits, <- (length_to_digits k n) at 1.
  apply to_digits_val, digits_to_digits.
Qed.

Lemma to_digits_0 k : to_digits k 0 = replicate k 0.
Proof using HB.
  induction k as [|k IH]; [done|]. cbn [to_digits].
  rewrite Z.div_0_l, Z.mod_0_l, IH by lia. symmetry. apply replicate_S_end.
Qed.

(** The value of a slice of a digit string. *)
Lemma val_slice l i k :
  digits l -> (i + k <= length l)%nat ->
  val (take k (drop i l))
  = val l / B ^ Z.of_nat (length l - i - k) mod B ^ Z.of_nat k.
Proof using HB.
  intros Hl Hik.
  rewrite <- (take_drop i l), <- (take_drop k (drop i l)) at 2.
  set (x := take i l). set (y := take k (drop i l)). set (z := drop k (drop i l)).
  assert (length z = length l - i - k)%nat as Hz
    by (subst z; rewrite !length_drop; lia).
  assert (length y = k) as Hy by (subst y; rewrite length_take, length_drop; lia).
  assert (digits y) as Dy by (apply Forall_take, Forall_drop, Hl).
  assert (digits z) as Dz by (apply Forall_drop, Forall_drop, Hl).
  rewrite <- Hz, !val_app, length_app, Nat2Z.inj_add, Z.pow_add_r by lia.
  pose proof (val_bound z Dz). pose proof (val_bound y Dy) as Hyb. rewrite Hy in Hyb.
  pose proof (pow_pos (length z)).
  replace (val x * (B ^ Z.of_nat (length y) * B ^ Z.of_nat (length z))
           + (val y * B ^ Z.of_nat (length z) + val z))
    with ((val x * B ^ Z.of_nat (length y) + val y) * B ^ Z.of_nat (length z) + val z)
    by ring.
  rewrite Z.div_add_l, (Z.div_small (val z)), Z.add_0_r by lia.
  rewrite Hy, Z.add_comm, Z.mod_add by (pose proof (pow_pos k); lia).
  symmetry. by apply Z.mod_small.
Qed.

(** A digit string with a non-zero head is at least a power of the base. *)
Lemma val_head_nonzero d l :
  d <> 0 -> digits (d :: l) -> B ^ Z.of_nat (length l) <= val (d :: l).
Proof using HB.
  intros Hd H. apply Forall_cons_1 in H as [Hd' Hl]. rewrite val_cons.
  pose proof (val_bound l Hl). nia.
Qed.

(** Lexicographic order on equal-length digit strings is numeric order. *)
Lemma lex_val a b :
  length a = length b -> digits a -> digits b -> lex a b = (val a ?= val b).
Proof using HB.
  revert b. induction a as [|x a IH]; intros [|y b]; try done.
  intros [= Hlen] Ha Hb.
  apply Forall_cons_1 in Ha as [Hx Ha]. apply Forall_cons_1 in Hb as [Hy Hb].
  rewrite !val_cons, Hlen. cbn [lex].
  pose proof (val_bound a Ha) as Va. pose proof (val_bound b Hb) as Vb.
  rewrite Hlen in Va. destruct (Z.compare_spec x y) as [->|Hlt|Hgt].
  - rewrite (IH b) by done. symmetry.
    destruct (Z.compare_spec (val a) (val b));
      [apply Z.compare_eq_iff|apply Z.compare_lt_iff|apply Z.compare_gt_iff]; lia.
  - symmetry. apply Z.compare_lt_iff. nia.
  - symmetry. apply Z.compare_gt_iff. nia.
Qed.

Lemma lex_to_digits k m n :
  0 <= m < B ^ Z.of_nat k -> 0 <= n < B ^ Z.of_nat k ->
  lex (to_digits k m) (to_digits k n) = (m ?= n).
Proof using HB.
  intros Hm Hn. rewrite lex_val; try apply digits_to_digits.
  - by rewrite !val_to_digits_small.
  - by rewrite !length_to_digits.
Qed.

End Radix.

#[export] Hint Resolve digits_to_digits length_to_digits : chronoid.

Lemma bytes_digits l : bytes l <-> digits 256 l.
Proof. done. Qed.

(** Regrouping: a string over the base [C ^ m] has the value of the string over
    [C] obtained by spelling each of its digits with [m] digits. *)
Lemma val_concat C m ll :
  1 < C -> Forall (fun l => length l = m) ll ->
  val C (concat ll) = val (C ^ Z.of_nat m) (map (val C) ll).
Proof.
  intros HC. induction ll as [|l ll IH] using rev_ind; [done|].
  intros [Hll Hl]%Forall_app. apply Forall_cons_1 in Hl as [Hl _].
  rewrite concat_app, map_app. cbn [concat map].
  rewrite app_nil_r, val_app, val_snoc, IH, Hl by done. done.
Qed.
