(* ===== verification/ByteOrder.v ===== *)
(** * Big-endian helpers: chronoid/byteorder.h

    A pointer argument [p] is an array and an offset into it.  The loads and
    stores are proved equal to positional notation in base 256. *)
From S2P Require Import Prelude Radix.

Definition chronoid_be32_load (p : list Z) (off : nat) : option Z :=
  p0 ← p !! off;
  p1 ← p !! (off + 1)%nat;
  p2 ← p !! (off + 2)%nat;
  p3 ← p !! (off + 3)%nat;
  Some (Z.lor (Z.lor (Z.lor (u32 (Z.shiftl p0 24)) (u32 (Z.shiftl p1 16)))
                     (u32 (Z.shiftl p2 8)))
              (u32 p3)).

Definition chronoid_be32_store (p : list Z) (off : nat) (v : Z)
    : option (list Z) :=
  p ← store p off (u8 (Z.shiftr v 24));
  p ← store p (off + 1) (u8 (Z.shiftr v 16));
  p ← store p (off + 2) (u8 (Z.shiftr v 8));
  store p (off + 3) (u8 v).

Definition chronoid_be64_load (p : list Z) (off : nat) : option Z :=
  p0 ← p !! off;
  p1 ← p !! (off + 1)%nat;
  p2 ← p !! (off + 2)%nat;
  p3 ← p !! (off + 3)%nat;
  p4 ← p !! (off + 4)%nat;
  p5 ← p !! (off + 5)%nat;
  p6 ← p !! (off + 6)%nat;
  p7 ← p !! (off + 7)%nat;
  Some (Z.lor (Z.lor (Z.lor (Z.lor (Z.lor (Z.lor (Z.lor
          (u64 (Z.shiftl p0 56)) (u64 (Z.shiftl p1 48)))
          (u64 (Z.shiftl p2 40))) (u64 (Z.shiftl p3 32)))
          (u64 (Z.shiftl p4 24))) (u64 (Z.shiftl p5 16)))
          (u64 (Z.shiftl p6 8))) (u64 p7)).

Definition chronoid_be64_store (p : list Z) (off : nat) (v : Z)
    : option (list Z) :=
  p ← store p off (u8 (Z.shiftr v 56));
  p ← store p (off + 1) (u8 (Z.shiftr v 48));
  p ← store p (off + 2) (u8 (Z.shiftr v 40));
  p ← store p (off + 3) (u8 (Z.shiftr v 32));
  p ← store p (off + 4) (u8 (Z.shiftr v 24));
  p ← store p (off + 5) (u8 (Z.shiftr v 16));
  p ← store p (off + 6) (u8 (Z.shiftr v 8));
  store p (off + 7) (u8 v).

(** ** Shared facts about byte composition *)

(** Appending one byte below an accumulator whose low bits are clear. *)
Lemma lor_low_byte w a b k :
  0 <= k -> k + 8 <= w -> uint 8 b -> a mod 2 ^ (k + 8) = 0 ->
  Z.lor a (wrap w (Z.shiftl b k)) = a + b * 2 ^ k.
Proof.
  intros Hk Hw Hb Ha. unfold uint in Hb.
  rewrite Z.shiftl_mul_pow2 by lia.
  assert (0 <= b * 2 ^ k < 2 ^ (k + 8)) as Hr by (rewrite Z.pow_add_r by lia; nia).
  pose proof (Z.pow_le_mono_r 2 (k + 8) w).
  rewrite wrap_small by (unfold uint; lia).
  by apply (lor_add _ _ (k + 8)); [lia|lia|].
Qed.

Lemma shl_byte w b k :
  0 <= k -> k + 8 <= w -> uint 8 b ->
  wrap w (Z.shiftl b k) = b * 2 ^ k.
Proof.
  intros. rewrite <- (Z.lor_0_l (wrap _ _)), lor_low_byte; [lia|done..].
Qed.

(** Solve [a mod 2^j = 0] for a sum of multiples of constants. *)
Ltac solve_mod0 :=
  match goal with
  | |- ?a mod ?m = 0 => apply Z.mod_divide; [done|];
      repeat apply Z.divide_add_r; apply Z.divide_mul_r;
      match goal with |- (?m | ?k) => exists (k / m); reflexivity end
  end.

Ltac join_bytes :=
  repeat match goal with
  | |- context [Z.lor ?a (wrap ?w (Z.shiftl ?b ?k))] =>
      lazymatch a with
      | context [Z.lor _ _] => fail
      | _ => rewrite (lor_low_byte w a b k) by (done || lia || solve_mod0)
      end
  end.

Lemma be32_load_val p off q :
  take 4 (drop off p) = q -> length q = 4%nat -> bytes q ->
  chronoid_be32_load p off = Some (val 256 q).
Proof.
  intros Hq Hlen Hb. unfold chronoid_be32_load.
  assert (forall i, (i < 4)%nat -> p !! (off + i)%nat = q !! i) as Hp.
  { intros i Hi. by rewrite <- Hq, lookup_take_lt, lookup_drop. }
  rewrite <- (Nat.add_0_r off) at 1. rewrite !Hp by lia.
  explode q. repeat rewrite bytes_cons in Hb. destruct_and! Hb.
  cbn [lookup list_lookup mbind option_bind]. f_equal.
  rewrite shl_byte by (done || lia).
  rewrite <- (Z.shiftl_0_r x2) at 1. join_bytes.
  unfold val. cbn [foldl]. lia.
Qed.

Lemma u8_shiftr v k : 0 <= k -> u8 (Z.shiftr v k) = (v / 2 ^ k) mod 256.
Proof. intros. by rewrite shiftr_wrap. Qed.

(** [to_digits 256] with every nested division written as one. *)
Lemma to_digits_256_4 v :
  to_digits 256 4 v
  = [ (v / 2 ^ 24) mod 256; (v / 2 ^ 16) mod 256; (v / 2 ^ 8) mod 256; v mod 256 ].
Proof. cbn [to_digits app]. by rewrite !Z.div_div by lia. Qed.

Lemma be32_store_stores p off v :
  chronoid_be32_store p off v = stores p off (to_digits 256 4 v).
Proof.
  unfold chronoid_be32_store. rewrite to_digits_256_4, !u8_shiftr by lia.
  change (u8 v) with (v mod 256).
  cbn [stores]. rewrite !Nat.add_succ_r, !Nat.add_0_r.
  repeat (apply option_bind_ext_fun; intros ?).
  match goal with |- ?m = _ => by destruct m end.
Qed.

(** A store writes the four base-256 digits and leaves the rest alone. *)
Lemma be32_store_val p off v :
  (off + 4 <= length p)%nat ->
  chronoid_be32_store p off v
  = Some (take off p ++ to_digits 256 4 v ++ drop (off + 4) p).
Proof. intros H. by rewrite be32_store_stores, stores_Some. Qed.

Lemma to_digits_256_8 v :
  to_digits 256 8 v
  = [ (v / 2 ^ 56) mod 256; (v / 2 ^ 48) mod 256; (v / 2 ^ 40) mod 256;
      (v / 2 ^ 32) mod 256; (v / 2 ^ 24) mod 256; (v / 2 ^ 16) mod 256;
      (v / 2 ^ 8) mod 256; v mod 256 ].
Proof. cbn [to_digits app]. by rewrite !Z.div_div by lia. Qed.

Lemma to_digits_256_6 v :
  to_digits 256 6 v
  = [ (v / 2 ^ 40) mod 256; (v / 2 ^ 32) mod 256; (v / 2 ^ 24) mod 256;
      (v / 2 ^ 16) mod 256; (v / 2 ^ 8) mod 256; v mod 256 ].
Proof. cbn [to_digits app]. by rewrite !Z.div_div by lia. Qed.

Lemma be64_store_val p off v :
  (off + 8 <= length p)%nat ->
  chronoid_be64_store p off v
  = Some (take off p ++ to_digits 256 8 v ++ drop (off + 8) p).
Proof.
  intros H. rewrite <- stores_Some by done.
  unfold chronoid_be64_store. rewrite to_digits_256_8, !u8_shiftr by lia.
  change (u8 v) with (v mod 256).
  cbn [stores]. rewrite !Nat.add_succ_r, !Nat.add_0_r.
  repeat (apply option_bind_ext_fun; intros ?).
  match goal with |- ?m = _ => by destruct m end.
Qed.

Lemma be64_load_val p off q :
  take 8 (drop off p) = q -> length q = 8%nat -> bytes q ->
  chronoid_be64_load p off = Some (val 256 q).
Proof.
  intros Hq Hlen Hb. unfold chronoid_be64_load.
  assert (forall i, (i < 8)%nat -> p !! (off + i)%nat = q !! i) as Hp.
  { intros i Hi. by rewrite <- Hq, lookup_take_lt, lookup_drop. }
  rewrite <- (Nat.add_0_r off) at 1. rewrite !Hp by lia.
  explode q. repeat rewrite bytes_cons in Hb. destruct_and! Hb.
  cbn [lookup list_lookup mbind option_bind]. f_equal.
  rewrite shl_byte by (done || lia).
  rewrite <- (Z.shiftl_0_r x6) at 1. join_bytes.
  unfold val. cbn [foldl]. lia.
Qed.
