(* ===== verification/KsuidTypes.v ===== *)
(** * The KSUID value type and error codes: chronoid/ksuid.h *)
From S2P Require Import Prelude.

Definition CHRONOID_KSUID_BYTES : nat := 20.
Definition CHRONOID_KSUID_STRING_LEN : nat := 27.
Definition CHRONOID_KSUID_PAYLOAD_LEN : nat := 16.
Definition CHRONOID_KSUID_TIMESTAMP_LEN : nat := 4.
Definition CHRONOID_KSUID_EPOCH_SECONDS : Z := 1400000000.

(** [struct ksuid]: exactly its byte array. *)
Record chronoid_ksuid_t := Ksuid { ksuid_b : list Z }.

Inductive chronoid_ksuid_err_t :=
  | CHRONOID_KSUID_OK
  | CHRONOID_KSUID_ERR_SIZE
  | CHRONOID_KSUID_ERR_STR_SIZE
  | CHRONOID_KSUID_ERR_STR_VALUE
  | CHRONOID_KSUID_ERR_PAYLOAD_SIZE
  | CHRONOID_KSUID_ERR_RNG
  | CHRONOID_KSUID_ERR_EXHAUSTED
  | CHRONOID_KSUID_ERR_TIME_RANGE.

(** The value of each enumerator. *)
Definition ksuid_err_code (e : chronoid_ksuid_err_t) : Z :=
  match e with
  | CHRONOID_KSUID_OK => 0
  | CHRONOID_KSUID_ERR_SIZE => -1
  | CHRONOID_KSUID_ERR_STR_SIZE => -2
  | CHRONOID_KSUID_ERR_STR_VALUE => -3
  | CHRONOID_KSUID_ERR_PAYLOAD_SIZE => -4
  | CHRONOID_KSUID_ERR_RNG => -5
  | CHRONOID_KSUID_ERR_EXHAUSTED => -6
  | CHRONOID_KSUID_ERR_TIME_RANGE => -7
  end.

#[export] Instance ksuid_err_eq_dec : EqDecision chronoid_ksuid_err_t.
Proof. solve_decision. Defined.
#[export] Instance ksuid_eq_dec : EqDecision chronoid_ksuid_t.
Proof. solve_decision. Defined.

Definition CHRONOID_KSUID_NIL : chronoid_ksuid_t := Ksuid (replicate 20 0).
Definition CHRONOID_KSUID_MAX : chronoid_ksuid_t := Ksuid (replicate 20 0xff).

(** The type invariant: 20 bytes. *)
Definition wf_ksuid (id : chronoid_ksuid_t) : Prop :=
  length (ksuid_b id) = 20%nat /\ bytes (ksuid_b id).

Lemma ksuid_nil_wf : wf_ksuid CHRONOID_KSUID_NIL.
Proof. split; [done|]. by apply bytes_replicate. Qed.

Lemma ksuid_max_wf : wf_ksuid CHRONOID_KSUID_MAX.
Proof. split; [done|]. by apply bytes_replicate. Qed.

#[export] Hint Resolve ksuid_nil_wf ksuid_max_wf : chronoid.
