(* ===== verification/LongDiv.v ===== *)
(** * One pass of multi-limb long division

    Both directions of the base62 codec (chronoid/ksuid/base62.c) divide a
    big-endian limb string by a fixed divisor with the same inner loop:
    encode works on base-2^32 limbs and divides by 62, decode works on base-62
    limbs and divides by 2^32.  The loop is modelled once, with its 64-bit
    arithmetic and the narrowing cast of the quotient digit written out. *)
From S2P Require Import Prelude Radix.

Section LongDiv.
Context (radix divisor : Z) (cast : Z -> Z) (cap : nat).

(** [bq[bq_len++] = d] on an array of [cap] cells, of which [bq] is the part
    in use. *)
Definition push (bq : list Z) (d : Z) : option (list Z) :=
  if decide (length bq < cap)%nat then Some (bq ++ [d]) else None.

(** [for (i = 0; i < bp_len; ++i) { ... }]: the limbs still to visit, the
    quotient so far, the running remainder. *)
Fixpoint div_pass (bp bq : list Z) (remainder : Z) : option (list Z * Z) :=
  match bp with
  | [] => Some (bq, remainder)
  | b :: bp' =>
      let value := u64 (b + u64 (remainder * radix)) in
      let digit := value / divisor in
      let remainder' := value mod divisor in
      bq' ← (if negb (Nat.eqb (length bq) 0) || negb (digit =? 0)
             then push bq (cast digit) else Some bq);
      div_pass bp' bq' remainder'
  end.

(** A quotient carries no leading zero limb. *)
Definition canonical (q : list Z) : Prop :=
  digits radix q /\ head q <> Some 0.

Context (Hradix : 1 < radix) (Hdiv : 1 < divisor)
        (Hfit : radix * divisor <= 2 ^ 64)
        (Hcast : forall d, 0 <= d < radix -> cast d = d).

Lemma canonical_nil : canonical [].
Proof using. by split; [constructor|]. Qed.

Lemma canonical_val0 q : canonical q -> val radix q = 0 -> q = [].
Proof using Hradix.
  intros [Hq Hhd]. destruct q as [|d q]; [done|]. intros H0.
  pose proof (val_head_nonzero radix Hradix d q ltac:(intros ->; by apply Hhd) Hq).
  pose proof (pow_pos radix Hradix (length q)). lia.
Qed.

Lemma canonical_push q d :
  canonical q -> 0 <= d < radix -> q <> [] \/ d <> 0 -> canonical (q ++ [d]).
Proof using.
  intros [Hq Hhd] Hd Hne. split.
  - apply Forall_app; split; [done|]. by constructor.
  - destruct q as [|x q]; simpl in *; [|done]. destruct Hne; congruence.
Qed.

Lemma div_pass_step b bp bq rem :
  canonical bq -> 0 <= rem < divisor -> 0 <= b < radix ->
  (length bq < cap)%nat ->
  exists bq',
    div_pass (b :: bp) bq rem
    = div_pass bp bq' ((rem * radix + b) mod divisor) /\
    canonical bq' /\
    val radix bq' = val radix bq * radix + (rem * radix + b) / divisor /\
    (length bq' <= length bq + 1)%nat.
Proof using Hradix Hdiv Hfit Hcast.
  intros Hbq Hrem Hb Hcap. cbn [div_pass].
  assert (0 <= rem * radix + b < radix * divisor) as Hv by nia.
  rewrite (wrap_small 64 (rem * radix)) by (unfold uint; nia).
  rewrite wrap_small, (Z.add_comm b) by (unfold uint; lia).
  set (v := rem * radix + b) in *.
  assert (0 <= v / divisor < radix) as Hd.
  { split; [apply Z.div_pos; lia|apply Z.div_lt_upper_bound; lia]. }
  rewrite Hcast by done.
  destruct (negb (length bq =? 0)%nat || negb (v / divisor =? 0)) eqn:E.
  - exists (bq ++ [v / divisor]).
    unfold push. rewrite decide_True by done. split; [done|]. split.
    + apply canonical_push; [done..|].
      apply orb_prop in E as [E|E]; [left|right; lia]. intros ->. done.
    + by rewrite val_snoc, length_app.
  - apply orb_false_elim in E as [E1 E2].
    destruct bq; [|done]. exists []. split; [done|]. split; [done|].
    rewrite val_nil. split; [lia|simpl; lia].
Qed.

(** The pass divides: its quotient and remainder are [/] and [mod]. *)
Lemma div_pass_spec bp bq rem :
  digits radix bp -> canonical bq -> 0 <= rem < divisor ->
  (length bq + length bp <= cap)%nat ->
  let p := radix ^ Z.of_nat (length bp) in
  exists q,
    div_pass bp bq rem = Some (q, (rem * p + val radix bp) mod divisor) /\
    canonical q /\
    val radix q = val radix bq * p + (rem * p + val radix bp) / divisor /\
    (length q <= length bq + length bp)%nat.
Proof using Hradix Hdiv Hfit Hcast.
  revert bq rem. induction bp as [|b bp IH]; intros bq rem Hbp Hbq Hrem Hcap p.
  - exists bq. subst p. cbn [div_pass length]. rewrite val_nil, Nat2Z.inj_0.
    rewrite Z.pow_0_r, Z.mul_1_r, Z.add_0_r, Z.mod_small, Z.div_small by lia.
    split_and!; [done|done|lia|lia].
  - apply Forall_cons_1 in Hbp as [Hb Hbp]. cbn [length] in Hcap.
    destruct (div_pass_step b bp bq rem) as (bq' & -> & Hbq' & Hv' & Hl');
      [done..|lia|].
    destruct (IH bq' ((rem * radix + b) mod divisor)) as (q & Hq & Hc & Hv & Hl).
    + done.
    + done.
    + apply Z.mod_pos_bound. lia.
    + lia.
    + exists q. rewrite Hq. clear Hq IH.
      subst p. rewrite val_cons, Hv, Hv'. cbn [length].
      rewrite Nat2Z.inj_succ, Z.pow_succ_r by lia.
      pose proof (pow_pos radix Hradix (length bp)).
      set (P := radix ^ Z.of_nat (length bp)) in *.
      set (v := rem * radix + b) in *.
      pose proof (Z.div_mod v divisor ltac:(lia)) as Hdm.
      replace (rem * (radix * P) + (b * P + val radix bp))
        with (v mod divisor * P + val radix bp + v / divisor * P * divisor)
        by (subst v; nia).
      rewrite Z.mod_add, Z.div_add by lia.
      split_and!; [done|done|lia|lia].
Qed.

End LongDiv.
