(* ===== verification/Base62.v ===== *)
(** * Base62 codec, scalar: chronoid/ksuid/base62.c

    Encode turns 20 bytes into 27 characters, decode is its partial inverse.
    The 16-byte translate-and-validate kernel that decode calls is chosen at
    compile time; here it is the interface [Translate16], which the scalar
    kernel of this file and the SIMD kernels of Base62Simd.v implement. *)
From Stdlib Require Import String.
From S2P Require Import Prelude Radix ByteOrder KsuidTypes LongDiv.

Definition kB62Alphabet : list Z :=
  cstr "0123456789ABCDEFGHIJKLMNOPQRSTUVWXYZabcdefghijklmnopqrstuvwxyz".

Definition kB62Value : list Z :=
  [ (* 0x00 *) 0xff; 0xff; 0xff; 0xff; 0xff; 0xff; 0xff; 0xff;
    (* 0x08 *) 0xff; 0xff; 0xff; 0xff; 0xff; 0xff; 0xff; 0xff;
    (* 0x10 *) 0xff; 0xff; 0xff; 0xff; 0xff; 0xff; 0xff; 0xff;
    (* 0x18 *) 0xff; 0xff; 0xff; 0xff; 0xff; 0xff; 0xff; 0xff;
    (* 0x20 *) 0xff; 0xff; 0xff; 0xff; 0xff; 0xff; 0xff; 0xff;
    (* 0x28 *) 0xff; 0xff; 0xff; 0xff; 0xff; 0xff; 0xff; 0xff;
    (* 0x30 *) 0x00; 0x01; 0x02; 0x03; 0x04; 0x05; 0x06; 0x07;
    (* 0x38 *) 0x08; 0x09; 0xff; 0xff; 0xff; 0xff; 0xff; 0xff;
    (* 0x40 *) 0xff;
    0x0a; 0x0b; 0x0c; 0x0d; 0x0e; 0x0f; 0x10;
    (* 0x48 *) 0x11; 0x12; 0x13; 0x14; 0x15; 0x16; 0x17; 0x18;
    (* 0x50 *) 0x19; 0x1a; 0x1b; 0x1c; 0x1d; 0x1e; 0x1f; 0x20;
    (* 0x58 *) 0x21; 0x22; 0x23; 0xff; 0xff; 0xff; 0xff; 0xff;
    (* 0x60 *) 0xff;
    0x24; 0x25; 0x26; 0x27; 0x28; 0x29; 0x2a;
    (* 0x68 *) 0x2b; 0x2c; 0x2d; 0x2e; 0x2f; 0x30; 0x31; 0x32;
    (* 0x70 *) 0x33; 0x34; 0x35; 0x36; 0x37; 0x38; 0x39; 0x3a;
    (* 0x78 *) 0x3b; 0x3c; 0x3d; 0xff; 0xff; 0xff; 0xff; 0xff ]
  (* 0x80..0xff *)
  ++ replicate 128 0xff.

(** ** Encode *)

(** The inner [for] loop of [chronoid_base62_encode]: five base-2^32 limbs
    divided by 62, quotient limbs cast to [uint32_t]. *)
Definition encode_pass (bp bq : list Z) (remainder : Z) :=
  div_pass 4294967296 62 u32 5 bp bq remainder.

(** [while (bp_len > 0)]: [n] is the index the last digit went to. *)
Fixpoint encode_loop (fuel : nat) (bp : list Z) (n : nat) (out : list Z)
    : option (nat * list Z) :=
  match bp, fuel with
  | [], _ => Some (n, out)
  | _ :: _, O => None
  | _ :: _, S fuel' =>
      '(bq, remainder) ← encode_pass bp [] 0;
      match n with
      | O => None
      | S n' =>
          c ← kB62Alphabet !! Z.to_nat remainder;
          out ← store out n' (u8 c);
          encode_loop fuel' bq n' out
      end
  end.

Definition chronoid_base62_encode (out inp : list Z) : option (list Z) :=
  bp0 ← chronoid_be32_load inp 0;
  bp1 ← chronoid_be32_load inp 4;
  bp2 ← chronoid_be32_load inp 8;
  bp3 ← chronoid_be32_load inp 12;
  bp4 ← chronoid_be32_load inp 16;
  '(n, out) ← encode_loop 27 [bp0; bp1; bp2; bp3; bp4]
                CHRONOID_KSUID_STRING_LEN out;
  if (0 <? n)%nat then memset out 0 48 n else Some out.

(** ** Translate and validate 16 characters *)

Fixpoint translate16_loop (k i : nat) (out inp : list Z) (valid : Z)
    : option (list Z * Z) :=
  match k with
  | O => Some (out, valid)
  | S k' =>
      c ← inp !! i;
      v ← kB62Value !! Z.to_nat c;
      out ← store out i v;
      translate16_loop k' (S i) out inp (if v =? 0xff then 0 else valid)
  end.

Definition chronoid_base62_translate16_scalar (out inp : list Z)
    : option (Z * list Z) :=
  '(out, valid) ← translate16_loop 16 0 out inp 1;
  Some (if negb (valid =? 0) then 0 else -1, out).

(** What the table says of a byte; used to state the kernels' contract. *)
Definition b62_value (c : Z) : Z := default 0xff (kB62Value !! Z.to_nat c).
Definition b62_valid (c : Z) : bool := negb (b62_value c =? 0xff).

(** The contract every [CHRONOID_BASE62_TRANSLATE16] kernel meets: it
    translates the first 16 bytes and reports whether all were digits. *)
Class Translate16 := {
  translate16 : list Z -> list Z -> option (Z * list Z);
  translate16_ok : forall out inp,
    (16 <= length out)%nat -> (16 <= length inp)%nat -> bytes inp ->
    translate16 out inp
    = Some (if forallb b62_valid (take 16 inp) then 0 else -1,
            map b62_value (take 16 inp) ++ drop 16 out)
}.

(** ** Decode *)

(** The inner [for] loop of [chronoid_base62_decode]: base-62 limbs divided by
    2^32, quotient limbs cast to [uint8_t]. *)
Definition decode_pass (bp bq : list Z) (remainder : Z) :=
  div_pass 62 4294967296 u8 27 bp bq remainder.

(** The scalar lookups for characters 16..26; [inl] is the early return. *)
Fixpoint decode_tail (k i : nat) (bp inp : list Z)
    : option (chronoid_ksuid_err_t + list Z) :=
  match k with
  | O => Some (inr bp)
  | S k' =>
      c ← inp !! i;
      v ← kB62Value !! Z.to_nat c;
      if v =? 0xff then Some (inl CHRONOID_KSUID_ERR_STR_VALUE)
      else bp ← store bp i v; decode_tail k' (S i) bp inp
  end.

Fixpoint decode_loop (fuel : nat) (bp : list Z) (n : nat) (out : list Z)
    : option (chronoid_ksuid_err_t * nat * list Z) :=
  match bp, fuel with
  | [], _ => Some (CHRONOID_KSUID_OK, n, out)
  | _ :: _, O => None
  | _ :: _, S fuel' =>
      '(bq, remainder) ← decode_pass bp [] 0;
      if (n <? 4)%nat then Some (CHRONOID_KSUID_ERR_STR_VALUE, n, out)
      else
        out ← store out (n - 4) (u8 (Z.shiftr remainder 24));
        out ← store out (n - 3) (u8 (Z.shiftr remainder 16));
        out ← store out (n - 2) (u8 (Z.shiftr remainder 8));
        out ← store out (n - 1) (u8 remainder);
        decode_loop fuel' bq (n - 4) out
  end.

Definition chronoid_base62_decode `{Translate16} (out inp : list Z)
    : option (chronoid_ksuid_err_t * list Z) :=
  '(r, bp) ← translate16 (uninit CHRONOID_KSUID_STRING_LEN) inp;
  if r <? 0 then Some (CHRONOID_KSUID_ERR_STR_VALUE, out)
  else
    t ← decode_tail (CHRONOID_KSUID_STRING_LEN - 16) 16 bp inp;
    match t with
    | inl e => Some (e, out)
    | inr bp =>
        '(e, n, out) ← decode_loop 6 bp CHRONOID_KSUID_BYTES out;
        match e with
        | CHRONOID_KSUID_OK =>
            out ← (if (0 <? n)%nat then memset out 0 0 n else Some out);
            Some (CHRONOID_KSUID_OK, out)
        | _ => Some (e, out)
        end
    end.

(** ** Reference codec *)

Definition b62_char (d : Z) : Z := default 0 (kB62Alphabet !! Z.to_nat d).

(** The number 20 bytes spell, in 27 base-62 digits. *)
Definition b62_encode_ref (b : list Z) : list Z :=
  map b62_char (to_digits 62 27 (val 256 b)).

(** The inverse: every character a digit, and the number below 2^160. *)
Definition b62_decode_ref (s : list Z) : option (list Z) :=
  if forallb b62_valid s && (val 62 (map b62_value s) <? 2 ^ 160)
  then Some (to_digits 256 20 (val 62 (map b62_value s))) else None.

(** ** The tables *)

Lemma b62_char_spec d :
  0 <= d < 62 ->
  kB62Alphabet !! Z.to_nat d = Some (b62_char d) /\ uint 8 (b62_char d) /\
  b62_value (b62_char d) = d /\ b62_valid (b62_char d) = true.
Proof.
  intros Hd.
  assert (forallb (fun d =>
    bool_decide (kB62Alphabet !! Z.to_nat d = Some (b62_char d)) &&
    (0 <=? b62_char d) && (b62_char d <? 256) &&
    (b62_value (b62_char d) =? d) && b62_valid (b62_char d))
    (seqZ 0 62) = true) as H by (vm_compute; reflexivity).
  apply (range_cases 62 _ H) in Hd.
  rewrite !andb_true_iff, bool_decide_eq_true in Hd.
  unfold uint. destruct_and! Hd. split_and!; (done || lia).
Qed.

Lemma b62_value_spec c :
  uint 8 c ->
  kB62Value !! Z.to_nat c = Some (b62_value c) /\ uint 8 (b62_value c) /\
  (b62_valid c = true -> 0 <= b62_value c < 62 /\ b62_char (b62_value c) = c).
Proof.
  intros Hc.
  assert (forallb (fun c =>
    bool_decide (kB62Value !! Z.to_nat c = Some (b62_value c)) &&
    (0 <=? b62_value c) && (b62_value c <? 256) &&
    (negb (b62_valid c) ||
     ((b62_value c <? 62) && (b62_char (b62_value c) =? c))))
    (seqZ 0 256) = true) as H by (vm_compute; reflexivity).
  apply (byte_cases _ H) in Hc.
  rewrite !andb_true_iff, bool_decide_eq_true in Hc. unfold uint.
  destruct_and! Hc. split_and!; [done|lia|lia|].
  intros Hv. rewrite Hv in *. cbn [negb orb] in *. lia.
Qed.

(** The alphabet is in ASCII order. *)
Lemma b62_char_compare x y :
  0 <= x < 62 -> 0 <= y < 62 -> (b62_char x ?= b62_char y) = (x ?= y).
Proof.
  intros Hx Hy.
  assert (forallb (fun x => forallb (fun y =>
    bool_decide ((b62_char x ?= b62_char y) = (x ?= y))) (seqZ 0 62))
    (seqZ 0 62) = true) as H by (vm_compute; reflexivity).
  apply (range_cases 62 _ H) in Hx. cbv beta in Hx.
  by apply (range_cases 62 _ Hx), bool_decide_eq_true in Hy.
Qed.

Lemma lex_b62_char a b :
  digits 62 a -> digits 62 b -> lex (map b62_char a) (map b62_char b) = lex a b.
Proof.
  revert b. induction a as [|x a IH]; intros [|y b]; try done.
  intros Ha Hb. apply Forall_cons_1 in Ha as [Hx Ha].
  apply Forall_cons_1 in Hb as [Hy Hb].
  simpl. rewrite b62_char_compare, IH by done. done.
Qed.

(** ** Encode is the reference *)

Lemma encode_pass_spec bp :
  digits (2 ^ 32) bp -> (length bp <= 5)%nat ->
  exists q,
    encode_pass bp [] 0 = Some (q, val (2 ^ 32) bp mod 62) /\
    canonical (2 ^ 32) q /\ val (2 ^ 32) q = val (2 ^ 32) bp / 62 /\
    (length q <= length bp)%nat.
Proof.
  intros Hbp Hlen.
  destruct (div_pass_spec (2 ^ 32) 62 u32 5 eq_refl eq_refl ltac:(lia)
              (fun d Hd => wrap_small 32 d Hd) bp [] 0)
    as (q & Hq & Hc & Hv & Hl); [done|apply canonical_nil|lia|simpl; lia|].
  exists q. rewrite val_nil, !Z.mul_0_l, !Z.add_0_l in *.
  split_and!; [done|done|done|simpl in Hl; lia].
Qed.

Lemma encode_loop_spec fuel n bp out :
  digits (2 ^ 32) bp -> (length bp <= 5)%nat ->
  (n = 0%nat -> bp = []) -> val (2 ^ 32) bp < 62 ^ Z.of_nat n ->
  (n <= fuel)%nat -> (n <= length out)%nat ->
  exists m, (m <= n)%nat /\ val (2 ^ 32) bp < 62 ^ Z.of_nat (n - m) /\
    encode_loop fuel bp n out
    = Some (m, take m out
               ++ map b62_char (to_digits 62 (n - m) (val (2 ^ 32) bp))
               ++ drop n out).
Proof.
  revert fuel bp out. induction n as [|n IH]; intros fuel bp out Hd Hl H0 HV Hf Ho.
  - rewrite (H0 eq_refl) in *. exists 0%nat. split; [lia|]. split; [done|].
    destruct fuel; done.
  - destruct bp as [|b bp].
    { exists (S n). rewrite Nat.sub_diag. split; [lia|]. split; [done|].
      simpl. rewrite take_drop. by destruct fuel. }
    destruct fuel as [|fuel]; [lia|].
    destruct (encode_pass_spec (b :: bp) Hd Hl) as (q & Hq & Hc & Hv & Hlq).
    set (V := val (2 ^ 32) (b :: bp)) in *.
    cbn [encode_loop]. rewrite Hq. cbn [mbind option_bind].
    destruct (b62_char_spec (V mod 62)) as (Hch & Hu & _ & _).
    { apply Z.mod_pos_bound. lia. }
    rewrite Hch. cbn [mbind option_bind]. rewrite wrap_small by done.
    rewrite store_Some by lia. cbn [mbind option_bind].
    pose proof (val_bound (2 ^ 32) eq_refl (b :: bp) Hd) as HV0. fold V in HV0.
    assert (V / 62 < 62 ^ Z.of_nat n) as HVn.
    { apply Z.div_lt_upper_bound; [lia|].
      rewrite Nat2Z.inj_succ, Z.pow_succ_r in HV by lia. lia. }
    destruct (IH fuel q (<[n:=b62_char (V mod 62)]> out)) as (m & Hm & HVm & Heq).
    + apply Hc.
    + cbn [length] in *. lia.
    + intros ->. apply (canonical_val0 (2 ^ 32) eq_refl q Hc).
      rewrite Hv. change (62 ^ Z.of_nat 0) with 1 in HVn.
      pose proof (Z.div_pos V 62 ltac:(lia) ltac:(lia)). lia.
    + by rewrite Hv.
    + lia.
    + rewrite length_insert. lia.
    + exists m. split; [lia|]. rewrite Nat.sub_succ_l by lia. split.
      { rewrite Nat2Z.inj_succ, Z.pow_succ_r by lia. rewrite Hv in HVm.
        pose proof (Z.div_mod V 62 ltac:(lia)).
        pose proof (Z.mod_pos_bound V 62 ltac:(lia)). nia. }
      rewrite Heq, Hv. do 2 f_equal.
      rewrite take_insert_ge by lia. f_equal. cbn [to_digits].
      rewrite map_app, <- app_assoc. f_equal.
      by rewrite drop_insert_cons by lia.
Qed.

(** The five limbs loaded from the input have the value of its 20 bytes. *)
Lemma limbs_val inp :
  length inp = 20%nat -> bytes inp ->
  exists bp0 bp1 bp2 bp3 bp4,
    chronoid_be32_load inp 0 = Some bp0 /\ chronoid_be32_load inp 4 = Some bp1 /\
    chronoid_be32_load inp 8 = Some bp2 /\ chronoid_be32_load inp 12 = Some bp3 /\
    chronoid_be32_load inp 16 = Some bp4 /\
    digits (2 ^ 32) [bp0; bp1; bp2; bp3; bp4] /\
    val (2 ^ 32) [bp0; bp1; bp2; bp3; bp4] = val 256 inp.
Proof.
  intros Hlen Hb.
  set (q j := take 4 (drop (4 * j) inp)).
  assert (forall j, (j < 5)%nat -> length (q j) = 4%nat) as Hql.
  { intros j Hj. unfold q. rewrite length_take, length_drop. lia. }
  assert (forall j, bytes (q j)) as Hqb by (intros; unfold q; auto with chronoid).
  exists (val 256 (q 0%nat)), (val 256 (q 1%nat)), (val 256 (q 2%nat)),
    (val 256 (q 3%nat)), (val 256 (q 4%nat)).
  split_and!; try (apply be32_load_val; [done|by apply Hql; lia|done]).
  - unfold digits. repeat constructor;
      match goal with |- context [q ?j] =>
        pose proof (val_bound 256 eq_refl (q j) (Hqb j)) as H;
        rewrite (Hql j) in H by lia end; apply H.
  - change [val 256 (q 0%nat); val 256 (q 1%nat); val 256 (q 2%nat);
            val 256 (q 3%nat); val 256 (q 4%nat)]
      with (map (val 256) [q 0%nat; q 1%nat; q 2%nat; q 3%nat; q 4%nat]).
    change (2 ^ 32) with (256 ^ Z.of_nat 4).
    rewrite <- (val_concat 256 4); [f_equal|done|].
    + unfold q. by explode inp.
    + repeat constructor; apply Hql; lia.
Qed.

Lemma encode_spec out inp :
  length out = 27%nat -> length inp = 20%nat -> bytes inp ->
  chronoid_base62_encode out inp = Some (b62_encode_ref inp).
Proof.
  intros Hout Hinp Hb.
  destruct (limbs_val inp Hinp Hb)
    as (p0 & p1 & p2 & p3 & p4 & H0 & H1 & H2 & H3 & H4 & Hd & Hv).
  unfold chronoid_base62_encode. rewrite H0, H1, H2, H3, H4.
  cbn [mbind option_bind]. unfold CHRONOID_KSUID_STRING_LEN.
  pose proof (val_bound 256 eq_refl inp Hb) as HV. rewrite Hinp in HV.
  destruct (encode_loop_spec 27 27 [p0; p1; p2; p3; p4] out)
    as (m & Hm & HVm & ->); [done|simpl; lia|done| |lia|lia|].
  { rewrite Hv. change (256 ^ Z.of_nat 20) with (2 ^ 160) in HV. lia. }
  cbn [mbind option_bind]. rewrite Hv in *.
  rewrite (drop_ge out), app_nil_r by lia. unfold b62_encode_ref.
  replace 27%nat with (m + (27 - m))%nat at 3 by lia.
  rewrite to_digits_app, (Z.div_small (val 256 inp)), to_digits_0, map_app by lia.
  assert (map b62_char (replicate m 0) = replicate m 48) as ->.
  { clear. induction m; simpl; [done|by f_equal]. }
  destruct (Nat.ltb_spec 0 m).
  - unfold memset. rewrite memcpy_Some;
      rewrite ?length_app, ?length_take, ?length_map, ?length_to_digits,
        ?length_replicate; [|lia..].
    rewrite drop_0, take_0, (take_ge (replicate _ _)) by (rewrite length_replicate; lia).
    simpl. rewrite drop_app_length' by (rewrite length_take; lia). done.
  - by assert (m = 0%nat) as -> by lia.
Qed.

(** ** The scalar kernel meets the contract *)

Lemma translate16_loop_spec k i out inp valid :
  (i + k <= length out)%nat -> (i + k <= length inp)%nat -> bytes inp ->
  translate16_loop k i out inp valid
  = Some (take i out ++ map b62_value (take k (drop i inp)) ++ drop (i + k) out,
          if forallb b62_valid (take k (drop i inp)) then valid else 0).
Proof.
  revert i out valid. induction k as [|k IH]; intros i out valid Ho Hi Hb.
  - rewrite Nat.add_0_r. simpl. by rewrite take_drop.
  - destruct (lookup_lt_is_Some_2 inp i ltac:(lia)) as [c Hc].
    destruct (b62_value_spec c (bytes_lookup _ _ _ Hb Hc)) as [Hv _].
    cbn [translate16_loop]. rewrite Hc. cbn [mbind option_bind]. rewrite Hv.
    cbn [mbind option_bind]. rewrite store_Some by lia. cbn [mbind option_bind].
    rewrite IH by (rewrite ?length_insert; done || lia).
    rewrite (drop_S inp c i Hc). cbn [take map forallb].
    rewrite (take_S_r _ i (b62_value c)) by (apply list_lookup_insert_eq; lia).
    rewrite take_insert_ge, drop_insert_lt, <- app_assoc by lia.
    rewrite Nat.add_succ_comm. f_equal. f_equal.
    unfold b62_valid at 2. destruct (b62_value c =? 255); [|done].
    simpl. by destruct (forallb _ _).
Qed.

Lemma translate16_scalar_ok out inp :
  (16 <= length out)%nat -> (16 <= length inp)%nat -> bytes inp ->
  chronoid_base62_translate16_scalar out inp
  = Some (if forallb b62_valid (take 16 inp) then 0 else -1,
          map b62_value (take 16 inp) ++ drop 16 out).
Proof.
  intros Ho Hi Hb. unfold chronoid_base62_translate16_scalar.
  rewrite translate16_loop_spec by (done || lia). cbn [mbind option_bind].
  rewrite drop_0, take_0. by destruct (forallb _ _).
Qed.

#[export] Instance translate16_scalar : Translate16 :=
  { translate16 := chronoid_base62_translate16_scalar;
    translate16_ok := translate16_scalar_ok }.

(** ** Decode is the reference *)

Lemma decode_tail_spec k i bp inp :
  length inp = (i + k)%nat -> length bp = (i + k)%nat -> bytes inp ->
  decode_tail k i bp inp
  = Some (if forallb b62_valid (drop i inp)
          then inr (take i bp ++ map b62_value (drop i inp))
          else inl CHRONOID_KSUID_ERR_STR_VALUE).
Proof.
  revert i bp. induction k as [|k IH]; intros i bp Hi Ho Hb.
  - rewrite drop_ge, take_ge by lia. simpl. by rewrite app_nil_r.
  - destruct (lookup_lt_is_Some_2 inp i ltac:(lia)) as [c Hc].
    destruct (b62_value_spec c (bytes_lookup _ _ _ Hb Hc)) as [Hv _].
    cbn [decode_tail]. rewrite Hc. cbn [mbind option_bind]. rewrite Hv.
    cbn [mbind option_bind]. rewrite (drop_S inp c i Hc). cbn [forallb map].
    unfold b62_valid at 1. destruct (b62_value c =? 255); [done|].
    rewrite store_Some by lia. cbn [mbind option_bind].
    rewrite IH by (rewrite ?length_insert; done || lia).
    rewrite (take_S_r _ i (b62_value c)) by (apply list_lookup_insert_eq; lia).
    rewrite take_insert_ge, <- app_assoc by lia. done.
Qed.

Lemma decode_pass_spec bp :
  digits 62 bp -> (length bp <= 27)%nat ->
  exists q,
    decode_pass bp [] 0 = Some (q, val 62 bp mod 2 ^ 32) /\
    canonical 62 q /\ val 62 q = val 62 bp / 2 ^ 32 /\
    (length q <= length bp)%nat.
Proof.
  intros Hbp Hlen.
  assert (forall d, 0 <= d < 62 -> u8 d = d) as Hc8.
  { intros d Hd. apply wrap_small. unfold uint. lia. }
  destruct (div_pass_spec 62 (2 ^ 32) u8 27 eq_refl eq_refl ltac:(lia)
              Hc8 bp [] 0)
    as (q & Hq & Hc & Hv & Hl); [done|apply canonical_nil|lia|simpl; lia|].
  exists q. rewrite val_nil, !Z.mul_0_l, !Z.add_0_l in *.
  split_and!; [done|done|done|simpl in Hl; lia].
Qed.

(** One 4-byte write at the tail of the destination. *)
Lemma store_limb {A} out j r (k : list Z -> option A) :
  (4 * S j <= length out)%nat ->
  (out ← store out (4 * S j - 4) (u8 (Z.shiftr r 24));
   out ← store out (4 * S j - 3) (u8 (Z.shiftr r 16));
   out ← store out (4 * S j - 2) (u8 (Z.shiftr r 8));
   out ← store out (4 * S j - 1) (u8 r);
   k out)
  = k (take (4 * j) out ++ to_digits 256 4 r ++ drop (4 * S j) out).
Proof.
  intros H. replace (4 * S j)%nat with (4 * j + 4)%nat in * by lia.
  pose proof (be32_store_val out (4 * j) r H) as E.
  unfold chronoid_be32_store in E. inv_bind.
  replace (4 * j + 4 - 4)%nat with (4 * j)%nat by lia.
  replace (4 * j + 4 - 3)%nat with (4 * j + 1)%nat by lia.
  replace (4 * j + 4 - 2)%nat with (4 * j + 2)%nat by lia.
  replace (4 * j + 4 - 1)%nat with (4 * j + 3)%nat by lia.
  repeat match goal with H : store _ _ _ = Some _ |- _ =>
    rewrite H; clear H; cbn [mbind option_bind] end.
  done.
Qed.

Lemma decode_loop_nil fuel j out :
  if val 62 [] <? 2 ^ (32 * Z.of_nat j)
  then exists i, (i <= j)%nat /\
    val 62 [] < 2 ^ (32 * Z.of_nat (j - i)) /\
    decode_loop fuel [] (4 * j) out
    = Some (CHRONOID_KSUID_OK, (4 * i)%nat,
            take (4 * i) out ++ to_digits 256 (4 * (j - i)) (val 62 [])
            ++ drop (4 * j) out)
  else False.
Proof.
  pose proof (Z.pow_pos_nonneg 2 (32 * Z.of_nat j) ltac:(lia) ltac:(lia)).
  rewrite val_nil. destruct (Z.ltb_spec 0 (2 ^ (32 * Z.of_nat j))); [|lia].
  exists j. rewrite Nat.sub_diag. split; [lia|]. split; [done|].
  rewrite Nat.mul_0_r. cbn [to_digits app]. rewrite take_drop.
  by destruct fuel.
Qed.

(** Dividing by a limb takes one limb off a bound. *)
Lemma div_limb_lt V k :
  V / 2 ^ 32 < 2 ^ (32 * Z.of_nat k) <-> V < 2 ^ (32 * Z.of_nat (S k)).
Proof.
  replace (32 * Z.of_nat (S k)) with (32 + 32 * Z.of_nat k) by lia.
  rewrite Z.pow_add_r by lia. split; intros Hlt.
  - pose proof (Z.div_mod V (2 ^ 32) ltac:(done)).
    pose proof (Z.mod_pos_bound V (2 ^ 32) ltac:(done)). nia.
  - by apply Z.div_lt_upper_bound.
Qed.

Lemma decode_loop_spec fuel j bp out :
  digits 62 bp -> (length bp <= 27)%nat -> (j = 0%nat -> canonical 62 bp) ->
  (4 * j <= length out)%nat -> (j < fuel)%nat ->
  if val 62 bp <? 2 ^ (32 * Z.of_nat j)
  then exists i, (i <= j)%nat /\
    val 62 bp < 2 ^ (32 * Z.of_nat (j - i)) /\
    decode_loop fuel bp (4 * j) out
    = Some (CHRONOID_KSUID_OK, (4 * i)%nat,
            take (4 * i) out ++ to_digits 256 (4 * (j - i)) (val 62 bp)
            ++ drop (4 * j) out)
  else exists n out',
    decode_loop fuel bp (4 * j) out
    = Some (CHRONOID_KSUID_ERR_STR_VALUE, n, out') /\ length out' = length out.
Proof.
  revert fuel bp out. induction j as [|j IH]; intros fuel bp out Hd Hl Hc Ho Hf.
  all: destruct fuel as [|fuel]; [lia|].
  all: destruct bp as [|b bp];
    [match goal with |- context [(4 * ?j)%nat] =>
       pose proof (decode_loop_nil (S fuel) j out) as Hn;
       destruct (val 62 [] <? 2 ^ (32 * Z.of_nat j)); [exact Hn|done] end|].
  all: pose proof (val_bound 62 eq_refl (b :: bp) Hd) as HV0;
    destruct (decode_pass_spec (b :: bp) Hd Hl) as (q & Hq & Hcq & Hv & Hlq);
    set (V := val 62 (b :: bp)) in *.
  - destruct (Z.ltb_spec V (2 ^ (32 * Z.of_nat 0))) as [Hlt|].
    + change (2 ^ (32 * Z.of_nat 0)) with 1 in Hlt.
      specialize (Hc eq_refl). apply canonical_val0 in Hc; [done|done|]. fold V. lia.
    + eexists _, _. cbn [decode_loop]. by rewrite Hq.
  - cbn [decode_loop]. rewrite Hq. cbn [mbind option_bind].
    destruct (Nat.ltb_spec (4 * S j) 4); [lia|].
    rewrite store_limb by done.
    replace (4 * S j - 4)%nat with (4 * j)%nat by lia.
    set (out1 := take (4 * j) out ++ _).
    assert (length out1 = length out) as Hlo1.
    { subst out1. rewrite !length_app, length_take, length_drop, length_to_digits. lia. }
    specialize (IH fuel q out1 (proj1 Hcq) ltac:(cbn [length] in *; lia)
      (fun _ => Hcq) ltac:(lia) ltac:(lia)).
    rewrite Hv in IH.
    pose proof (div_limb_lt V j) as HS.
    destruct (Z.ltb_spec (V / 2 ^ 32) (2 ^ (32 * Z.of_nat j))),
      (Z.ltb_spec V (2 ^ (32 * Z.of_nat (S j)))); [|lia|lia|].
    + destruct IH as (i & Hi & HVi & ->). exists i. split; [lia|]. split.
      { rewrite Nat.sub_succ_l by lia. by apply div_limb_lt. }
      do 2 f_equal. subst out1.
      rewrite take_app_le by (rewrite length_take; lia).
      rewrite take_take, Nat.min_l by lia. f_equal.
      rewrite drop_app_length' by (rewrite length_take; lia).
      replace (4 * (S j - i))%nat with (4 * (j - i) + 4)%nat by lia.
      rewrite (to_digits_app 256 eq_refl _ 4 V), <- app_assoc.
      do 2 f_equal. change (2 ^ 32) with (256 ^ Z.of_nat 4).
      by rewrite to_digits_mod.
    + destruct IH as (n & out' & Heq & Hlo). exists n, out'. split; [done|lia].
Qed.

Lemma digits_b62_value s :
  bytes s -> forallb b62_valid s = true -> digits 62 (map b62_value s).
Proof.
  induction s as [|c s IH]; [constructor|].
  intros [Hc Hb]%bytes_cons [Hv Hvs]%andb_prop. constructor; [|by apply IH].
  by apply (b62_value_spec c Hc).
Qed.

(** Clearing the bytes in front of the result. *)
Lemma memset_front n (a d : list Z) :
  length a = n -> memset (a ++ d) 0 0 n = Some (replicate n 0 ++ d).
Proof.
  intros Ha. unfold memset. rewrite memcpy_Some by (rewrite ?length_app, ?length_replicate; lia).
  rewrite drop_0, take_0, (take_ge (replicate _ _)) by (rewrite length_replicate; lia).
  cbn [app Nat.add]. by rewrite drop_app_length' by done.
Qed.

Lemma decode_spec `{Translate16} out inp :
  length out = 20%nat -> length inp = 27%nat -> bytes inp ->
  match b62_decode_ref inp with
  | Some b => chronoid_base62_decode out inp = Some (CHRONOID_KSUID_OK, b)
  | None => exists out',
      chronoid_base62_decode out inp = Some (CHRONOID_KSUID_ERR_STR_VALUE, out') /\
      length out' = 20%nat
  end.
Proof.
  intros Hout Hinp Hb. unfold chronoid_base62_decode, b62_decode_ref.
  assert (forallb b62_valid inp = forallb b62_valid (take 16 inp)
            && forallb b62_valid (drop 16 inp)) as Hsplit.
  { by rewrite <- forallb_app, take_drop. }
  rewrite Hsplit.
  rewrite translate16_ok by (done || simpl; lia). cbn [mbind option_bind].
  destruct (forallb b62_valid (take 16 inp)) eqn:E1; cbn [andb Z.ltb Z.compare].
  2: { exists out. done. }
  set (bp := map b62_value (take 16 inp) ++ _).
  assert (length bp = 27%nat) as Hbp.
  { subst bp. rewrite length_app, length_map, length_take, length_drop, length_uninit.
    unfold CHRONOID_KSUID_STRING_LEN. lia. }
  rewrite decode_tail_spec by done. cbn [mbind option_bind].
  destruct (forallb b62_valid (drop 16 inp)) eqn:E2; cbn [andb].
  2: { exists out. done. }
  assert (take 16 bp ++ map b62_value (drop 16 inp) = map b62_value inp) as ->.
  { subst bp. rewrite take_app_length' by (rewrite length_map, length_take; lia).
    by rewrite <- map_app, take_drop. }
  assert (digits 62 (map b62_value inp)) as Hd by by apply digits_b62_value.
  pose proof (decode_loop_spec 6 5 (map b62_value inp) out Hd
    ltac:(rewrite length_map; lia) ltac:(done) ltac:(lia) ltac:(lia)) as Hl.
  change (32 * Z.of_nat 5) with 160 in Hl. change (4 * 5)%nat with 20%nat in Hl.
  unfold CHRONOID_KSUID_BYTES. set (V := val 62 (map b62_value inp)) in *.
  pose proof (val_bound 62 eq_refl _ Hd) as HV0. fold V in HV0.
  destruct (V <? 2 ^ 160) eqn:EV.
  2: { destruct Hl as (n & out' & -> & Ho'). exists out'. split; [done|lia]. }
  destruct Hl as (i & Hi & HVi & ->). cbn [mbind option_bind].
  rewrite (drop_ge out), app_nil_r by lia.
  replace 20%nat with (4 * i + 4 * (5 - i))%nat by lia.
  rewrite to_digits_app, (Z.div_small V), to_digits_0 by
    (try done; replace (Z.of_nat (4 * (5 - i))) with (4 * Z.of_nat (5 - i)) by lia;
     rewrite (Z.pow_mul_r 256 4) by lia; change (256 ^ 4) with (2 ^ 32);
     rewrite <- Z.pow_mul_r by lia; lia).
  destruct (Nat.ltb_spec 0 (4 * i)).
  - by rewrite memset_front by (rewrite length_take; lia).
  - by assert (i = 0%nat) as -> by lia.
Qed.

(** ** Facts about the reference codec *)

Lemma b62_encode_ref_length b : length (b62_encode_ref b) = 27%nat.
Proof. unfold b62_encode_ref. by rewrite length_map, length_to_digits. Qed.

Lemma map_b62_value_char l :
  digits 62 l ->
  map b62_value (map b62_char l) = l /\ forallb b62_valid (map b62_char l) = true.
Proof.
  induction l as [|d l IH]; [done|]. intros Hl.
  apply Forall_cons_1 in Hl as [Hd Hl]. destruct (IH Hl) as [IH1 IH2].
  destruct (b62_char_spec d Hd) as (_ & _ & E1 & E2).
  simpl. by rewrite E1, E2, IH1, IH2.
Qed.

Lemma map_b62_char_value s :
  bytes s -> forallb b62_valid s = true -> map b62_char (map b62_value s) = s.
Proof.
  induction s as [|c s IH]; [done|]. intros Hb [Hc Hs]%andb_prop.
  apply bytes_cons in Hb as [Hc8 Hb]. simpl. rewrite IH by done.
  f_equal. by apply (b62_value_spec c Hc8).
Qed.

Lemma b62_encode_ref_bytes b : bytes (b62_encode_ref b).
Proof.
  unfold b62_encode_ref.
  pose proof (digits_to_digits 62 eq_refl 27 (val 256 b)) as H.
  induction H as [|d l Hd Hl IH]; [constructor|].
  constructor; [apply (b62_char_spec d Hd)|done].
Qed.

Lemma val_256_bound b :
  length b = 20%nat -> bytes b -> 0 <= val 256 b < 2 ^ 160.
Proof.
  intros Hl Hb. pose proof (val_bound 256 eq_refl b Hb) as H.
  by rewrite Hl in H.
Qed.

Lemma b62_decode_encode b :
  length b = 20%nat -> bytes b -> b62_decode_ref (b62_encode_ref b) = Some b.
Proof.
  intros Hl Hb. pose proof (val_256_bound b Hl Hb) as HV.
  unfold b62_decode_ref, b62_encode_ref.
  destruct (map_b62_value_char (to_digits 62 27 (val 256 b))) as [-> ->].
  { apply digits_to_digits. lia. }
  rewrite val_to_digits_small by (assert (2 ^ 160 < 62 ^ Z.of_nat 27) by done; lia).
  rewrite (proj2 (Z.ltb_lt _ _)) by lia. cbn [andb].
  by rewrite <- Hl, to_digits_val.
Qed.

Lemma b62_encode_decode s b :
  length s = 27%nat -> bytes s -> b62_decode_ref s = Some b ->
  b62_encode_ref b = s /\ length b = 20%nat /\ bytes b.
Proof.
  intros Hl Hb. unfold b62_decode_ref.
  destruct (forallb b62_valid s) eqn:E; [|done].
  pose proof (digits_b62_value s Hb E) as Hd.
  pose proof (val_bound 62 eq_refl _ Hd) as HV.
  destruct (Z.ltb_spec (val 62 (map b62_value s)) (2 ^ 160)); [|done].
  intros <-%(inj Some). split_and!.
  - unfold b62_encode_ref. rewrite val_to_digits_small by (done || lia).
    rewrite <- Hl, <- (length_map b62_value s), to_digits_val by done.
    by apply map_b62_char_value.
  - apply length_to_digits.
  - by apply digits_to_digits.
Qed.

Lemma b62_encode_ref_lex a b :
  length a = 20%nat -> length b = 20%nat -> bytes a -> bytes b ->
  lex (b62_encode_ref a) (b62_encode_ref b) = lex a b.
Proof.
  intros Ha Hb Ba Bb. unfold b62_encode_ref.
  pose proof (val_256_bound a Ha Ba). pose proof (val_256_bound b Hb Bb).
  assert (2 ^ 160 < 62 ^ Z.of_nat 27) by done.
  assert (forall n, digits 62 (to_digits 62 27 n)) as Hd
    by (intros n; apply (digits_to_digits 62); lia).
  rewrite lex_b62_char by apply Hd.
  rewrite lex_to_digits by lia. symmetry.
  apply (lex_val 256); [lia|congruence|exact Ba|exact Bb].
Qed.
