(* ===== verification/Simd.v ===== *)
(** * The vector intrinsics the kernels use

    The compiler's SSE2 / SSSE3 / AVX2 / NEON intrinsics, as the instruction
    sets document them.  A register is the list of its lanes in memory order:
    16 bytes for a 128-bit register; for a 256-bit register, four 64-bit lanes
    in the base62 kernel and two 16-byte halves in the hex kernel.  They belong
    to the language the sources are written in, so no map entry names them. *)
From S2P Require Import Prelude.

(** ** Byte lanes *)

Definition mm_loadu_si128 (p : list Z) (off : nat) : option (list Z) :=
  if decide (off + 16 <= length p)%nat then Some (take 16 (drop off p)) else None.

Definition mm_storeu_si128 (p : list Z) (off : nat) (v : list Z)
    : option (list Z) := memcpy p off v 0 16.

Definition mm_set1_epi8 (c : Z) : list Z := replicate 16 (u8 c).

Definition mm_sub_epi8 := zip_with (fun x y => u8 (x - y)).
Definition mm_add_epi8 := zip_with (fun x y => u8 (x + y)).
Definition mm_min_epu8 := zip_with Z.min.
Definition mm_cmpeq_epi8 := zip_with (fun x y : Z => if x =? y then 0xff else 0).
Definition mm_and_si128 := zip_with Z.land.
Definition mm_or_si128 := zip_with Z.lor.
(** [andnot a b] is [~a & b]. *)
Definition mm_andnot_si128 := zip_with (fun x y => Z.ldiff y x).

(** Bit [i] of the mask is the top bit of lane [i]. *)
Fixpoint mm_movemask_epi8 (v : list Z) : Z :=
  match v with
  | [] => 0
  | x :: v' => Z.b2z (Z.testbit x 7) + 2 * mm_movemask_epi8 v'
  end.

(** Logical right shift of each 16-bit lane; lanes are little-endian pairs. *)
Fixpoint mm_srli_epi16 (v : list Z) (k : Z) : list Z :=
  match v with
  | lo :: hi :: v' =>
      let x := Z.shiftr (Z.lor lo (Z.shiftl hi 8)) k in
      u8 x :: u8 (Z.shiftr x 8) :: mm_srli_epi16 v' k
  | _ => v
  end.

(** PSHUFB: lane [i] selects the table byte its low four bits name, or zero
    when its top bit is set. *)
Definition mm_shuffle_epi8 (tbl idx : list Z) : list Z :=
  map (fun i => if Z.testbit i 7 then 0
                else default 0 (tbl !! Z.to_nat (Z.land i 0xf))) idx.

Fixpoint interleave (a b : list Z) : list Z :=
  match a, b with
  | x :: a', y :: b' => x :: y :: interleave a' b'
  | _, _ => []
  end.
Definition mm_unpacklo_epi8 (a b : list Z) : list Z :=
  interleave (take 8 a) (take 8 b).
Definition mm_unpackhi_epi8 (a b : list Z) : list Z :=
  interleave (drop 8 a) (drop 8 b).

(** ** NEON *)

Definition vld1q_u8 (p : list Z) (off : nat) := mm_loadu_si128 p off.
Definition vst1q_u8 (p : list Z) (off : nat) (v : list Z) := mm_storeu_si128 p off v.
Definition vdupq_n_u8 (c : Z) := mm_set1_epi8 c.
Definition vsubq_u8 := mm_sub_epi8.
Definition vaddq_u8 := mm_add_epi8.
Definition vandq_u8 := mm_and_si128.
Definition vorrq_u8 := mm_or_si128.
Definition vcleq_u8 := zip_with (fun x y : Z => if x <=? y then 0xff else 0).
Definition vceqq_u8 := mm_cmpeq_epi8.
(** [vbicq a b] is [a & ~b]. *)
Definition vbicq_u8 := zip_with Z.ldiff.
Definition vminvq_u8 (v : list Z) : Z := foldr Z.min 0xff v.

(** The 64-bit halves of a register (32-bit ARM). *)
Definition vget_low_u8 (v : list Z) : list Z := take 8 v.
Definition vget_high_u8 (v : list Z) : list Z := drop 8 v.
Definition vand_u8 := zip_with Z.land.
Fixpoint pairs_min (v : list Z) : list Z :=
  match v with x :: y :: v' => Z.min x y :: pairs_min v' | _ => [] end.
(** Minima of neighbours, those of the first operand first. *)
Definition vpmin_u8 (a b : list Z) : list Z := pairs_min (a ++ b).
Definition vget_lane_u8 (v : list Z) (i : nat) : option Z := v !! i.

(** ** 64-bit lanes (AVX2) *)

Definition mm256_set1_epi64x (x : Z) : list Z := replicate 4 (u64 x).
Definition mm256_setzero_si256 : list Z := replicate 4 0.
Definition mm256_srli_epi64 (v : list Z) (k : Z) : list Z :=
  map (fun x => Z.shiftr x k) v.
Definition mm256_slli_epi64 (v : list Z) (k : Z) : list Z :=
  map (fun x => u64 (Z.shiftl x k)) v.
Definition mm256_add_epi64 := zip_with (fun x y => u64 (x + y)).
Definition mm256_sub_epi64 := zip_with (fun x y => u64 (x - y)).
(** Product of the low 32 bits of each lane. *)
Definition mm256_mul_epu32 := zip_with (fun x y => u64 (u32 x * u32 y)).
Definition mm256_and_si256 := zip_with Z.land.
Definition mm256_or_si256 := zip_with Z.lor.

(** A 64-bit lane read as a signed number. *)
Definition s64 (x : Z) : Z := if x <? 2 ^ 63 then x else x - 2 ^ 64.
Definition mm256_cmpgt_epi64 :=
  zip_with (fun x y => if s64 y <? s64 x then 2 ^ 64 - 1 else 0).

(** ** Lane-wise reasoning

    A computation over whole registers is the same computation on each lane of
    the one register it starts from. *)

Lemma lanes_map2 (f : Z -> Z -> Z) (g h : Z -> Z) v :
  zip_with f (map g v) (map h v) = map (fun x => f (g x) (h x)) v.
Proof. induction v as [|x v IH]; simpl; [done|by rewrite IH]. Qed.

Lemma lanes_map_l (f : Z -> Z -> Z) (h : Z -> Z) v :
  zip_with f v (map h v) = map (fun x => f x (h x)) v.
Proof. induction v as [|x v IH]; simpl; [done|by rewrite IH]. Qed.

Lemma lanes_map_r (f : Z -> Z -> Z) (g : Z -> Z) v :
  zip_with f (map g v) v = map (fun x => f (g x) x) v.
Proof. induction v as [|x v IH]; simpl; [done|by rewrite IH]. Qed.

Lemma lanes_const n (c : Z) (v : list Z) :
  length v = n -> replicate n c = map (fun _ => c) v.
Proof. intros <-. induction v as [|x v IH]; simpl; [done|by rewrite IH]. Qed.

Lemma loadu_Some p off :
  (off + 16 <= length p)%nat ->
  mm_loadu_si128 p off = Some (take 16 (drop off p)).
Proof. intros. unfold mm_loadu_si128. by rewrite decide_True. Qed.

Lemma storeu_head p v :
  (16 <= length p)%nat -> length v = 16%nat ->
  mm_storeu_si128 p 0 v = Some (v ++ drop 16 p).
Proof.
  intros Hp Hv. unfold mm_storeu_si128. rewrite memcpy_Some by lia.
  by rewrite take_0, drop_0, take_ge by lia.
Qed.

Lemma movemask_range v :
  0 <= mm_movemask_epi8 v < 2 ^ Z.of_nat (length v).
Proof.
  induction v as [|x v IH]; cbn [mm_movemask_epi8 length].
  - done.
  - rewrite Nat2Z.inj_succ, Z.pow_succ_r by lia.
    destruct (Z.testbit x 7); cbn [Z.b2z]; lia.
Qed.

(** All lanes set. *)
Lemma movemask_full v :
  mm_movemask_epi8 v = 2 ^ Z.of_nat (length v) - 1 <->
  Forall (fun x => Z.testbit x 7 = true) v.
Proof.
  induction v as [|x v IH]; cbn [mm_movemask_epi8 length]; [done|].
  rewrite Nat2Z.inj_succ, Z.pow_succ_r, Forall_cons_iff, <- IH by lia.
  pose proof (movemask_range v).
  destruct (Z.testbit x 7); cbn [Z.b2z]; split; intros; try split; try lia; try done.
  all: destruct_and?; try done; lia.
Qed.

(** ** Count trailing zeros *)

Fixpoint pos_ctz (p : positive) : nat :=
  match p with
  | xO p' => S (pos_ctz p')
  | _ => O
  end.

(** [__builtin_ctz] has no result for zero. *)
Definition builtin_ctz (x : Z) : option nat :=
  match x with Zpos p => Some (pos_ctz p) | _ => None end.

Lemma ctz_odd m : 0 <= m -> builtin_ctz (1 + 2 * m) = Some 0%nat.
Proof. intros Hm. by destruct m. Qed.

Lemma ctz_even m k : builtin_ctz m = Some k -> builtin_ctz (2 * m) = Some (S k).
Proof. destruct m; simpl; try done. by intros [= <-]. Qed.

(** The lowest clear bit of a lane mask is the first lane whose top bit is
    clear. *)
Lemma ctz_movemask p x v :
  Forall (fun x => Z.testbit x 7 = true) p -> Z.testbit x 7 = false ->
  builtin_ctz (2 ^ Z.of_nat (length (p ++ x :: v)) - 1
               - mm_movemask_epi8 (p ++ x :: v)) = Some (length p).
Proof.
  intros Hp Hx. pose proof (movemask_range v) as Hv.
  induction Hp as [|y p Hy Hp IH]; cbn [app mm_movemask_epi8 length];
    rewrite Nat2Z.inj_succ, Z.pow_succ_r by lia.
  - rewrite Hx. cbn [Z.b2z].
    rewrite <- (ctz_odd (2 ^ Z.of_nat (length v) - 1 - mm_movemask_epi8 v)) by lia.
    f_equal. lia.
  - rewrite Hy. cbn [Z.b2z]. rewrite <- (ctz_even _ _ IH). f_equal. lia.
Qed.

(** [~mask & 0xffff] on a 16-bit mask. *)
Lemma lnot_mask16 m : 0 <= m < 2 ^ 16 -> Z.land (Z.lnot m) 0xffff = 2 ^ 16 - 1 - m.
Proof.
  intros Hm. change 0xffff with (Z.ones 16). rewrite Z.land_ones by lia.
  rewrite <- (Z.mod_small (2 ^ 16 - 1 - m) (2 ^ 16)) by lia.
  unfold Z.lnot. replace (2 ^ 16 - 1 - m) with (Z.pred (- m) + 1 * 2 ^ 16) by lia.
  by rewrite Z.mod_add.
Qed.

(** Turn every register computed from [v] into one [map] over [v]. *)
Ltac lanes v :=
  repeat match goal with
  | |- context [replicate ?n ?c] =>
      rewrite (lanes_const n c v)
        by (rewrite ?length_take, ?length_drop; lia)
  end;
  repeat first [ rewrite !lanes_map2 | rewrite !lanes_map_l
               | rewrite !lanes_map_r | rewrite !map_map ].

(** ** Masks

    A comparison leaves 0xff or 0 in every lane; both ways to reduce such a
    register on ARM give 0xff exactly when all lanes are set. *)

Definition mask_u8 (b : bool) : Z := if b then 0xff else 0.

Lemma mask_land a b : Z.land (mask_u8 a) (mask_u8 b) = mask_u8 (a && b).
Proof. by destruct a, b. Qed.

Lemma mask_min a b : Z.min (mask_u8 a) (mask_u8 b) = mask_u8 (a && b).
Proof. by destruct a, b. Qed.

Lemma mask_set b : (mask_u8 b =? 0xff) = b.
Proof. by destruct b. Qed.

Lemma minv_masks bs : vminvq_u8 (map mask_u8 bs) = mask_u8 (forallb id bs).
Proof.
  induction bs as [|b bs IH]; [done|]. cbn [map forallb vminvq_u8 foldr].
  fold (vminvq_u8 (map mask_u8 bs)). by rewrite IH, mask_min.
Qed.

(** The pairwise reduction the two NEON kernels fall back to without minv. *)
Lemma pairwise_masks bs :
  length bs = 16%nat ->
  let v := map mask_u8 bs in
  let both := vand_u8 (vget_low_u8 v) (vget_high_u8 v) in
  let r := vpmin_u8 both both in
  let r := vpmin_u8 r r in
  let r := vpmin_u8 r r in
  vget_lane_u8 r 0 = Some (mask_u8 (forallb id bs)).
Proof.
  intros Hl. cbv zeta. explode bs.
  cbn [map vget_low_u8 vget_high_u8 take drop vand_u8 zip_with].
  rewrite !mask_land. unfold vpmin_u8. cbn [app pairs_min]. rewrite !mask_min.
  cbn [vget_lane_u8 lookup list_lookup]. do 2 f_equal. apply eq_true_iff_eq.
  cbn [forallb]. unfold id. rewrite !andb_true_iff. tauto.
Qed.
