(* ===== verification/Base62Simd.v ===== *)
(** * SIMD base62 validation: chronoid/ksuid/base62_sse2.c, base62_neon.c

    Three packed range tests and a sentinel fill, in SSE2 and in NEON.  Both
    are instances of the interface the decoder is proved against. *)
From S2P Require Import Prelude Radix KsuidTypes Base62 Simd.

Definition chronoid_base62_translate16_sse2 (out inp : list Z)
    : option (Z * list Z) :=
  v ← mm_loadu_si128 inp 0;
  let d := mm_sub_epi8 v (mm_set1_epi8 48) in
  let d_mask := mm_cmpeq_epi8 (mm_min_epu8 d (mm_set1_epi8 9)) d in
  let d_val := mm_and_si128 d_mask d in
  let u := mm_sub_epi8 v (mm_set1_epi8 65) in
  let u_mask := mm_cmpeq_epi8 (mm_min_epu8 u (mm_set1_epi8 25)) u in
  let u_val := mm_and_si128 u_mask (mm_add_epi8 u (mm_set1_epi8 10)) in
  let l := mm_sub_epi8 v (mm_set1_epi8 97) in
  let l_mask := mm_cmpeq_epi8 (mm_min_epu8 l (mm_set1_epi8 25)) l in
  let l_val := mm_and_si128 l_mask (mm_add_epi8 l (mm_set1_epi8 36)) in
  let any_mask := mm_or_si128 (mm_or_si128 d_mask u_mask) l_mask in
  let values := mm_or_si128 (mm_or_si128 d_val u_val) l_val in
  let invalid_fill := mm_andnot_si128 any_mask (mm_set1_epi8 0xff) in
  let result := mm_or_si128 values invalid_fill in
  out ← mm_storeu_si128 out 0 result;
  Some (if mm_movemask_epi8 any_mask =? 0xffff then 0 else -1, out).

(** [aarch64]: is the file compiled for 64-bit ARM?  The reduction differs. *)
Definition chronoid_base62_translate16_neon (aarch64 : bool) (out inp : list Z)
    : option (Z * list Z) :=
  v ← vld1q_u8 inp 0;
  let d := vsubq_u8 v (vdupq_n_u8 48) in
  let d_mask := vcleq_u8 d (vdupq_n_u8 9) in
  let d_val := vandq_u8 d_mask d in
  let u := vsubq_u8 v (vdupq_n_u8 65) in
  let u_mask := vcleq_u8 u (vdupq_n_u8 25) in
  let u_val := vandq_u8 u_mask (vaddq_u8 u (vdupq_n_u8 10)) in
  let l := vsubq_u8 v (vdupq_n_u8 97) in
  let l_mask := vcleq_u8 l (vdupq_n_u8 25) in
  let l_val := vandq_u8 l_mask (vaddq_u8 l (vdupq_n_u8 36)) in
  let any_mask := vorrq_u8 (vorrq_u8 d_mask u_mask) l_mask in
  let values := vorrq_u8 (vorrq_u8 d_val u_val) l_val in
  let invalid_fill := vbicq_u8 (vdupq_n_u8 0xff) any_mask in
  let result := vorrq_u8 values invalid_fill in
  out ← vst1q_u8 out 0 result;
  if aarch64 then Some (if vminvq_u8 any_mask =? 0xff then 0 else -1, out)
  else
    let lo := vget_low_u8 any_mask in
    let hi := vget_high_u8 any_mask in
    let both := vand_u8 lo hi in
    let r := vpmin_u8 both both in
    let r := vpmin_u8 r r in
    let r := vpmin_u8 r r in
    lane ← vget_lane_u8 r 0;
    Some (if lane =? 0xff then 0 else -1, out).

(** ** One lane

    The whole kernel on a single byte: what the lane stores, and its mask. *)

Definition range_mask (c base span : Z) : Z :=
  if Z.min (u8 (c - base)) span =? u8 (c - base) then 0xff else 0.

Definition lane_mask (c : Z) : Z :=
  Z.lor (Z.lor (range_mask c 48 9) (range_mask c 65 25)) (range_mask c 97 25).

Definition lane_value (c : Z) : Z :=
  Z.lor
    (Z.lor
      (Z.lor (Z.land (range_mask c 48 9) (u8 (c - 48)))
             (Z.land (range_mask c 65 25) (u8 (u8 (c - 65) + 10))))
      (Z.land (range_mask c 97 25) (u8 (u8 (c - 97) + 36))))
    (Z.ldiff 0xff (lane_mask c)).

Lemma lane_spec c :
  uint 8 c ->
  lane_value c = b62_value c /\ lane_mask c = (if b62_valid c then 0xff else 0).
Proof.
  intros Hc.
  assert (forallb (fun c => (lane_value c =? b62_value c) &&
    (lane_mask c =? (if b62_valid c then 0xff else 0))) (seqZ 0 256) = true)
    as H by (vm_compute; reflexivity).
  apply (byte_cases _ H) in Hc. lia.
Qed.

Lemma map_lane_value v : bytes v -> map lane_value v = map b62_value v.
Proof.
  induction 1 as [|c v Hc Hv IH]; [done|]. simpl. rewrite IH. f_equal.
  by apply lane_spec.
Qed.

Lemma movemask_lanes v :
  bytes v -> length v = 16%nat ->
  (mm_movemask_epi8 (map lane_mask v) =? 0xffff) = forallb b62_valid v.
Proof.
  intros Hv Hl. apply eq_true_iff_eq. rewrite Z.eqb_eq, forallb_forall.
  change 0xffff with (2 ^ Z.of_nat 16 - 1).
  rewrite <- Hl, <- (length_map lane_mask v), movemask_full. clear Hl.
  induction Hv as [|c v Hc Hv IH]; simpl; [by split; [|constructor]|].
  rewrite Forall_cons_iff, IH.
  destruct (lane_spec c Hc) as [_ ->]. destruct (b62_valid c) eqn:E; split.
  - intros [_ H] x [<-|Hx]; auto.
  - intros H. split; [done|]. auto.
  - by intros [H _].
  - intros H. specialize (H c (or_introl eq_refl)). congruence.
Qed.

(** The masks as booleans. *)
Lemma lane_masks v : bytes v -> map lane_mask v = map mask_u8 (map b62_valid v).
Proof.
  induction 1 as [|c v Hc Hv IH]; [done|]. cbn [map]. rewrite IH. f_equal. by apply lane_spec.
Qed.

Lemma forallb_valid v : forallb id (map b62_valid v) = forallb b62_valid v.
Proof. induction v as [|c v IH]; [done|]. cbn. by rewrite IH. Qed.

Lemma translate16_sse2_ok out inp :
  (16 <= length out)%nat -> (16 <= length inp)%nat -> bytes inp ->
  chronoid_base62_translate16_sse2 out inp
  = Some (if forallb b62_valid (take 16 inp) then 0 else -1,
          map b62_value (take 16 inp) ++ drop 16 out).
Proof.
  intros Ho Hi Hb. unfold chronoid_base62_translate16_sse2.
  rewrite loadu_Some by lia. rewrite drop_0. cbn [mbind option_bind].
  set (v := take 16 inp).
  assert (length v = 16%nat) as Hv by (subst v; rewrite length_take; lia).
  assert (bytes v) as Hbv by (subst v; auto with chronoid).
  clearbody v. cbv zeta.
  unfold mm_set1_epi8, mm_sub_epi8, mm_add_epi8, mm_min_epu8, mm_cmpeq_epi8,
    mm_and_si128, mm_or_si128, mm_andnot_si128.
  lanes v.
  match goal with |- context [mm_storeu_si128 out 0 (map ?f v)] =>
    change f with lane_value end.
  match goal with |- context [mm_movemask_epi8 (map ?g v)] =>
    change g with lane_mask end.
  rewrite storeu_head; [|done|by rewrite length_map].
  cbn [mbind option_bind]. rewrite movemask_lanes, <- map_lane_value by done.
  done.
Qed.

(** NEON compares directly where SSE2 takes a minimum and tests equality. *)
Lemma range_mask_leb c base span :
  (if u8 (c - base) <=? span then 0xff else 0) = range_mask c base span.
Proof.
  unfold range_mask.
  destruct (Z.leb_spec (u8 (c - base)) span);
    [rewrite Z.min_l, Z.eqb_refl by lia; done|].
  rewrite Z.min_r by lia. destruct (Z.eqb_spec span (u8 (c - base))); [lia|done].
Qed.

Definition neon_lane_mask (c : Z) : Z :=
  Z.lor (Z.lor (if u8 (c - 48) <=? 9 then 0xff else 0)
               (if u8 (c - 65) <=? 25 then 0xff else 0))
        (if u8 (c - 97) <=? 25 then 0xff else 0).

Definition neon_lane_value (c : Z) : Z :=
  Z.lor
    (Z.lor
      (Z.lor (Z.land (if u8 (c - 48) <=? 9 then 0xff else 0) (u8 (c - 48)))
             (Z.land (if u8 (c - 65) <=? 25 then 0xff else 0)
                     (u8 (u8 (c - 65) + 10))))
      (Z.land (if u8 (c - 97) <=? 25 then 0xff else 0) (u8 (u8 (c - 97) + 36))))
    (Z.ldiff 0xff (neon_lane_mask c)).

Lemma neon_lane_eq c :
  neon_lane_mask c = lane_mask c /\ neon_lane_value c = lane_value c.
Proof.
  assert (neon_lane_mask c = lane_mask c) as E
    by (unfold neon_lane_mask; by rewrite !range_mask_leb).
  split; [done|]. unfold neon_lane_value, lane_value.
  by rewrite E, !range_mask_leb.
Qed.

Lemma translate16_neon_ok aarch64 out inp :
  (16 <= length out)%nat -> (16 <= length inp)%nat -> bytes inp ->
  chronoid_base62_translate16_neon aarch64 out inp
  = Some (if forallb b62_valid (take 16 inp) then 0 else -1,
          map b62_value (take 16 inp) ++ drop 16 out).
Proof.
  intros Ho Hi Hb. unfold chronoid_base62_translate16_neon, vld1q_u8, vst1q_u8.
  rewrite loadu_Some by lia. rewrite drop_0. cbn [mbind option_bind].
  set (v := take 16 inp).
  assert (length v = 16%nat) as Hv by (subst v; rewrite length_take; lia).
  assert (bytes v) as Hbv by (subst v; auto with chronoid).
  clearbody v. cbv zeta.
  unfold vdupq_n_u8, vsubq_u8, vaddq_u8, vandq_u8, vorrq_u8, vcleq_u8, vbicq_u8,
    mm_set1_epi8, mm_sub_epi8, mm_add_epi8, mm_and_si128, mm_or_si128.
  lanes v.
  match goal with |- context [mm_storeu_si128 out 0 (map ?f v)] =>
    change f with neon_lane_value end.
  match goal with |- context [vminvq_u8 (map ?g v)] =>
    change g with neon_lane_mask end.
  rewrite (map_ext neon_lane_value lane_value) by apply neon_lane_eq.
  rewrite (map_ext neon_lane_mask lane_mask) by apply neon_lane_eq.
  rewrite storeu_head; [|done|by rewrite length_map].
  cbn [mbind option_bind].
  rewrite lane_masks, minv_masks, pairwise_masks by (done || by rewrite length_map).
  cbn [mbind option_bind]. rewrite mask_set, forallb_valid, <- map_lane_value by done.
  by destruct aarch64.
Qed.

#[export] Instance translate16_sse2 : Translate16 | 10 :=
  { translate16 := chronoid_base62_translate16_sse2;
    translate16_ok := translate16_sse2_ok }.

#[export] Instance translate16_neon : Translate16 | 20 :=
  { translate16 := chronoid_base62_translate16_neon true;
    translate16_ok := translate16_neon_ok true }.

#[export] Instance translate16_armv7 : Translate16 | 20 :=
  { translate16 := chronoid_base62_translate16_neon false;
    translate16_ok := translate16_neon_ok false }.
