(* ===== verification/Libc.v ===== *)
(** * The C library functions with an unspecified part

    [memcmp] fixes only the sign of its result.  It is an interface: what the
    standard promises is its law, and two concrete implementations show the
    law can be met with different results. *)
From S2P Require Import Prelude.

Definition cmp_sign (c : comparison) : Z :=
  match c with Lt => -1 | Eq => 0 | Gt => 1 end.

Lemma cmp_sign_opp c : cmp_sign (CompOpp c) = - cmp_sign c.
Proof. by destruct c. Qed.

Lemma cmp_sign_eq0 c : cmp_sign c = 0 <-> c = Eq.
Proof. by destruct c. Qed.

Lemma cmp_sign_lt0 c : cmp_sign c < 0 <-> c = Lt.
Proof. destruct c; simpl; split; intros; (done || lia). Qed.

Class Memcmp := {
  memcmp : list Z -> list Z -> nat -> option Z;
  memcmp_ok : forall a b n,
    (n <= length a)%nat -> (n <= length b)%nat ->
    exists r, memcmp a b n = Some r /\
      Z.sgn r = cmp_sign (lex (take n a) (take n b))
}.

(** A byte-by-byte loop returning the difference of the first bytes that
    differ. *)
Fixpoint memcmp_diff (a b : list Z) (n : nat) {struct n} : option Z :=
  match n, a, b with
  | O, _, _ => Some 0
  | S n', x :: a', y :: b' => if x =? y then memcmp_diff a' b' n' else Some (x - y)
  | _, _, _ => None
  end.

Lemma memcmp_diff_ok a b n :
  (n <= length a)%nat -> (n <= length b)%nat ->
  exists r, memcmp_diff a b n = Some r /\
    Z.sgn r = cmp_sign (lex (take n a) (take n b)).
Proof.
  revert a b. induction n as [|n IH]; intros a b Ha Hb.
  - by exists 0.
  - destruct a as [|x a], b as [|y b]; simpl in Ha, Hb; try lia.
    cbn [memcmp_diff take lex].
    destruct (Z.eqb_spec x y) as [->|Hne].
    + rewrite Z.compare_refl. apply IH; lia.
    + exists (x - y). split; [done|].
      destruct (Z.compare_spec x y); simpl; lia.
Qed.

#[export] Instance memcmp_difference : Memcmp :=
  { memcmp := memcmp_diff; memcmp_ok := memcmp_diff_ok }.
