(* ===== verification/Compare.v ===== *)
(** * The 20-byte compare kernels: chronoid/ksuid/compare_*.c

    Scalar, SSE2 and NEON, all instances of one contract: the sign of the
    lexicographic comparison. *)
From S2P Require Import Prelude Libc Simd.

Definition chronoid_ksuid_compare20_scalar `{Memcmp} (a b : list Z) : option Z :=
  r ← memcmp a b 20;
  Some (Z.b2z (0 <? r) - Z.b2z (r <? 0)).

(** The byte loops of the vector kernels: bytes [i], [i+1], ... for [k] of
    them.  [Some (Some c)] is the early return of [c]. *)
Fixpoint cmp_scan (k i : nat) (a b : list Z) : option (option Z) :=
  match k with
  | O => Some None
  | S k' =>
      x ← a !! i;
      y ← b !! i;
      if negb (x =? y) then Some (Some (if x <? y then -1 else 1))
      else cmp_scan k' (S i) a b
  end.

(** [__builtin_ctz], or [_BitScanForward] under the other compiler: the index of
    the lowest bit set, no result for zero. *)
Definition chronoid_ksuid_ctz32 (x : Z) : option nat := builtin_ctz x.

Definition chronoid_ksuid_first_diff_sse2 (eq_mask : Z) : option nat :=
  let diff := Z.land (u32 (Z.lnot eq_mask)) 0xffff in
  if diff =? 0 then Some 16%nat else chronoid_ksuid_ctz32 diff.

Definition chronoid_ksuid_compare20_sse2 (a b : list Z) : option Z :=
  va ← mm_loadu_si128 a 0;
  vb ← mm_loadu_si128 b 0;
  let veq := mm_cmpeq_epi8 va vb in
  let eq_mask := mm_movemask_epi8 veq in
  idx ← chronoid_ksuid_first_diff_sse2 eq_mask;
  if (idx <? 16)%nat then
    x ← a !! idx;
    y ← b !! idx;
    Some (if x <? y then -1 else 1)
  else
    r ← cmp_scan 4 16 a b;
    Some (default 0 r).

(** [aarch64]: is the file compiled for 64-bit ARM?  The reduction differs. *)
Definition chronoid_ksuid_compare20_neon (aarch64 : bool) (a b : list Z) : option Z :=
  va ← vld1q_u8 a 0;
  vb ← vld1q_u8 b 0;
  let veq := vceqq_u8 va vb in
  differ ← (if aarch64 then Some (negb (vminvq_u8 veq =? 0xff))
            else
              let lo := vget_low_u8 veq in
              let hi := vget_high_u8 veq in
              let both := vand_u8 lo hi in
              let r := vpmin_u8 both both in
              let r := vpmin_u8 r r in
              let r := vpmin_u8 r r in
              lane ← vget_lane_u8 r 0;
              Some (negb (lane =? 0xff)));
  head ← (if (differ : bool) then cmp_scan 16 0 a b else Some None);
  match head with
  | Some c => Some c
  | None => r ← cmp_scan 4 16 a b; Some (default 0 r)
  end.

(** The contract of [CHRONOID_KSUID_COMPARE20]. *)
Class Compare20 := {
  compare20 : list Z -> list Z -> option Z;
  compare20_ok : forall a b,
    length a = 20%nat -> length b = 20%nat ->
    compare20 a b = Some (cmp_sign (lex a b))
}.

(** ** Shared facts *)

Lemma compare20_scalar_ok `{Memcmp} a b :
  length a = 20%nat -> length b = 20%nat ->
  chronoid_ksuid_compare20_scalar a b = Some (cmp_sign (lex a b)).
Proof.
  intros Ha Hb. unfold chronoid_ksuid_compare20_scalar.
  destruct (memcmp_ok a b 20) as (r & -> & Hr); [lia..|].
  rewrite !take_ge in Hr by lia. cbn [mbind option_bind]. rewrite <- Hr. f_equal.
  destruct (Z.ltb_spec 0 r), (Z.ltb_spec r 0); simpl; lia.
Qed.

(** Two equal-length strings are equal or differ first somewhere. *)
Lemma first_difference (a b : list Z) :
  length a = length b ->
  a = b \/ exists p x y a' b', a = p ++ x :: a' /\ b = p ++ y :: b' /\ x <> y.
Proof.
  revert b. induction a as [|x a IH]; intros [|y b]; try done; [by left|].
  intros [= H]. destruct (Z.eq_dec x y) as [->|Hne].
  - destruct (IH b H) as [->|(p & x' & y' & a' & b' & -> & -> & Hne)]; [by left|].
    right. by exists (y :: p), x', y', a', b'.
  - right. by exists [], x, y, a, b.
Qed.

Lemma lex_first_difference p x y a b :
  x <> y ->
  cmp_sign (lex (p ++ x :: a) (p ++ y :: b)) = if x <? y then -1 else 1.
Proof.
  intros Hne. rewrite lex_app_eq. simpl.
  destruct (Z.compare_spec x y), (Z.ltb_spec x y); try lia; done.
Qed.

(** The scan finds the first difference in its window. *)
Lemma cmp_scan_spec k i a b :
  (i + k <= length a)%nat -> (i + k <= length b)%nat ->
  cmp_scan k i a b
  = Some (match lex (take k (drop i a)) (take k (drop i b)) with
          | Eq => None | c => Some (cmp_sign c) end).
Proof.
  revert i. induction k as [|k IH]; intros i Ha Hb; [done|].
  destruct (lookup_lt_is_Some_2 a i ltac:(lia)) as [x Hx].
  destruct (lookup_lt_is_Some_2 b i ltac:(lia)) as [y Hy].
  cbn [cmp_scan]. rewrite Hx, Hy. cbn [mbind option_bind].
  rewrite (drop_S a x i Hx), (drop_S b y i Hy). cbn [take lex].
  destruct (Z.eqb_spec x y) as [->|Hne]; cbn [negb].
  - rewrite Z.compare_refl. apply IH; lia.
  - destruct (Z.compare_spec x y), (Z.ltb_spec x y); try lia; done.
Qed.

(** The 16-byte head and the 4-byte tail decide the whole comparison. *)
Lemma lex_head_tail a b :
  length a = 20%nat -> length b = 20%nat ->
  lex a b = match lex (take 16 a) (take 16 b) with
            | Eq => lex (take 4 (drop 16 a)) (take 4 (drop 16 b))
            | c => c end.
Proof.
  intros Ha Hb. rewrite <- (take_drop 16 a) at 1. rewrite <- (take_drop 16 b) at 1.
  rewrite lex_app_l by (rewrite !length_take; lia).
  by rewrite !(take_ge (drop 16 _)) by (rewrite length_drop; lia).
Qed.

Lemma cmp_tail a b :
  length a = 20%nat -> length b = 20%nat ->
  (r ← cmp_scan 4 16 a b; Some (default 0 r))
  = Some (cmp_sign (lex (take 4 (drop 16 a)) (take 4 (drop 16 b)))).
Proof.
  intros Ha Hb. rewrite cmp_scan_spec by lia. cbn [mbind option_bind]. f_equal.
  by destruct (lex _ _).
Qed.

(** ** SSE2 *)

Lemma cmpeq_self_bits p : 
  Forall (fun x => Z.testbit x 7 = true) (mm_cmpeq_epi8 p p).
Proof.
  unfold mm_cmpeq_epi8.
  induction p as [|x p IH]; simpl; constructor; [by rewrite Z.eqb_refl|done].
Qed.

Lemma first_diff_mask m :
  0 <= m < 2 ^ 16 ->
  chronoid_ksuid_first_diff_sse2 m
  = if m =? 2 ^ 16 - 1 then Some 16%nat else builtin_ctz (2 ^ 16 - 1 - m).
Proof.
  intros Hm. unfold chronoid_ksuid_first_diff_sse2.
  assert (Z.land (u32 (Z.lnot m)) 0xffff = 2 ^ 16 - 1 - m) as ->.
  { rewrite <- (lnot_mask16 m Hm). change 0xffff with (Z.ones 16).
    rewrite !Z.land_ones by lia. unfold wrap.
    apply Z.mod_mod_divide. by exists (2 ^ 16). }
  destruct (Z.eqb_spec (2 ^ 16 - 1 - m) 0), (Z.eqb_spec m (2 ^ 16 - 1)); (done || lia).
Qed.

Lemma first_diff_equal p :
  length p = 16%nat ->
  chronoid_ksuid_first_diff_sse2 (mm_movemask_epi8 (mm_cmpeq_epi8 p p)) = Some 16%nat.
Proof.
  intros Hp.
  assert (length (mm_cmpeq_epi8 p p) = 16%nat) as Hl
    by (unfold mm_cmpeq_epi8; rewrite length_zip_with; lia).
  pose proof (proj2 (movemask_full _) (cmpeq_self_bits p)) as Hm.
  rewrite Hl in Hm. rewrite first_diff_mask by (rewrite Hm; done).
  by rewrite Hm.
Qed.

Lemma first_diff_found p x y a b :
  x <> y -> length a = length b -> (length p + S (length a) = 16)%nat ->
  chronoid_ksuid_first_diff_sse2
    (mm_movemask_epi8 (mm_cmpeq_epi8 (p ++ x :: a) (p ++ y :: b))) = Some (length p).
Proof.
  intros Hne Hab Hl. set (v := mm_cmpeq_epi8 _ _).
  assert (v = mm_cmpeq_epi8 p p ++ 0 :: mm_cmpeq_epi8 a b) as Ev.
  { subst v. unfold mm_cmpeq_epi8. rewrite zip_with_app by done. simpl.
    by rewrite (proj2 (Z.eqb_neq x y) Hne). }
  assert (length (mm_cmpeq_epi8 p p) = length p) as Hlp
    by (unfold mm_cmpeq_epi8; rewrite length_zip_with; lia).
  assert (length v = 16%nat) as Hlv.
  { rewrite Ev, length_app, Hlp. unfold mm_cmpeq_epi8. simpl.
    rewrite length_zip_with. lia. }
  pose proof (ctz_movemask _ 0 (mm_cmpeq_epi8 a b) (cmpeq_self_bits p) eq_refl) as Hc.
  rewrite <- Ev, Hlv, Hlp in Hc.
  pose proof (movemask_range v) as Hr. rewrite Hlv in Hr.
  rewrite first_diff_mask by done.
  destruct (Z.eqb_spec (mm_movemask_epi8 v) (2 ^ 16 - 1)) as [E|]; [|done].
  rewrite E in Hc. done.
Qed.

Lemma compare20_sse2_ok a b :
  length a = 20%nat -> length b = 20%nat ->
  chronoid_ksuid_compare20_sse2 a b = Some (cmp_sign (lex a b)).
Proof.
  intros Ha Hb. unfold chronoid_ksuid_compare20_sse2.
  rewrite !loadu_Some by lia. rewrite !drop_0. cbn [mbind option_bind]. cbv zeta.
  rewrite lex_head_tail by done.
  destruct (first_difference (take 16 a) (take 16 b))
    as [E|(p & x & y & a' & b' & Ea & Eb & Hne)].
  { rewrite !length_take. lia. }
  - rewrite E, first_diff_equal by (rewrite length_take; lia).
    rewrite lex_refl. cbn [mbind option_bind Nat.ltb Nat.leb]. by apply cmp_tail.
  - pose proof (f_equal length Ea) as La. pose proof (f_equal length Eb) as Lb.
    rewrite length_take, length_app in La, Lb. cbn [length] in La, Lb.
    rewrite Ea, Eb, first_diff_found by (done || lia). cbn [mbind option_bind].
    destruct (Nat.ltb_spec (length p) 16); [|lia].
    assert (a !! length p = Some x) as ->.
    { rewrite <- (lookup_take_lt a 16), Ea by lia. by apply list_lookup_middle. }
    assert (b !! length p = Some y) as ->.
    { rewrite <- (lookup_take_lt b 16), Eb by lia. by apply list_lookup_middle. }
    cbn [mbind option_bind].
    rewrite <- (lex_first_difference p x y a' b' Hne), lex_app_eq. simpl.
    by destruct (Z.compare_spec x y).
Qed.

(** ** NEON *)

Lemma cmpeq_masks a b : mm_cmpeq_epi8 a b = map mask_u8 (zip_with Z.eqb a b).
Proof. revert b. induction a as [|x a IH]; intros [|y b]; simpl; [done..|]. by rewrite <- IH. Qed.

Lemma all_equal a b : length a = length b -> forallb id (zip_with Z.eqb a b) = true <-> a = b.
Proof.
  revert b. induction a as [|x a IH]; intros [|y b]; try done. intros [= Hl].
  cbn [zip_with forallb]. unfold id at 1. rewrite andb_true_iff, Z.eqb_eq, IH by done.
  split; [by intros [-> ->]|by intros [= -> ->]].
Qed.

Lemma compare20_neon_ok aarch64 a b :
  length a = 20%nat -> length b = 20%nat ->
  chronoid_ksuid_compare20_neon aarch64 a b = Some (cmp_sign (lex a b)).
Proof.
  intros Ha Hb. unfold chronoid_ksuid_compare20_neon, vld1q_u8, vceqq_u8.
  rewrite !loadu_Some by lia. rewrite !drop_0. cbn [mbind option_bind]. cbv zeta.
  rewrite lex_head_tail by done.
  assert (length (take 16 a) = 16%nat /\ length (take 16 b) = 16%nat) as [La Lb]
    by (rewrite !length_take; lia).
  pose proof (all_equal (take 16 a) (take 16 b) ltac:(lia)) as Heq.
  rewrite (cmp_scan_spec 16 0) by lia. rewrite !drop_0.
  rewrite cmpeq_masks, minv_masks, pairwise_masks by (rewrite length_zip_with; lia).
  cbn [mbind option_bind]. rewrite mask_set.
  destruct (forallb id (zip_with Z.eqb (take 16 a) (take 16 b))).
  - rewrite (proj1 Heq eq_refl), lex_refl. destruct aarch64; by apply cmp_tail.
  - assert (take 16 a <> take 16 b) as Hne by (by intros ?%Heq).
    destruct aarch64; cbn [negb mbind option_bind];
      (destruct (lex (take 16 a) (take 16 b)) eqn:E; [by apply lex_eq in E|done..]).
Qed.

#[export] Instance compare20_scalar `{Memcmp} : Compare20 :=
  { compare20 := chronoid_ksuid_compare20_scalar;
    compare20_ok := compare20_scalar_ok }.
#[export] Instance compare20_sse2 : Compare20 | 10 :=
  { compare20 := chronoid_ksuid_compare20_sse2;
    compare20_ok := compare20_sse2_ok }.
#[export] Instance compare20_neon : Compare20 | 20 :=
  { compare20 := chronoid_ksuid_compare20_neon true;
    compare20_ok := compare20_neon_ok true }.
#[export] Instance compare20_armv7 : Compare20 | 20 :=
  { compare20 := chronoid_ksuid_compare20_neon false;
    compare20_ok := compare20_neon_ok false }.
