(* ===== verification/Rand.v ===== *)
(** * What the generators need from the random source and the clock

    chronoid/rand.h declares the services ksuid.c, uuidv7.c and
    uuidv7_sequence.c draw on.  They are interfaces over an abstract state [W]
    of everything outside the caller: the generators are proved against the
    laws, and Override.v implements them on the per-thread generator of RandTls.v. *)
From S2P Require Import Prelude.

(** [chronoid_internal_fill_random (buf, n)]: the return code and the contents
    of the [n]-byte buffer afterwards.  No result when the call does not
    return.  A zero return code means success; nothing is promised about the
    value of the bytes, only that they are bytes. *)
Class RandomSource (W : Type) := {
  fill_random : nat -> W -> option (Z * list Z * W);
  fill_random_ok : forall n w r buf w',
    fill_random n w = Some (r, buf, w') -> length buf = n /\ bytes buf
}.

(** [timespec_get (&ts, TIME_UTC)]: [None] when it does not return
    [TIME_UTC], else [(tv_sec, tv_nsec)].  The C standard bounds [tv_nsec]. *)
Class Clock (W : Type) := {
  timespec_get : W -> option (Z * Z) * W;
  timespec_get_ok : forall w s ns w',
    timespec_get w = (Some (s, ns), w') -> int64 s /\ 0 <= ns <= 999999999
}.

(** [chronoid_now_ms ()]: milliseconds since the epoch, or -1.  No result when
    the multiplication by 1000 overflows [int64_t]. *)
Class NowMs (W : Type) := {
  now_ms : W -> option (Z * W);
  now_ms_ok : forall w t w', now_ms w = Some (t, w') -> int64 t
}.

(** A concrete environment, for evaluating the generators: the state is the
    byte the random source repeats and the time the clock shows; a negative
    byte makes the source fail, a negative time makes the clock fail. *)
Record toy_env := ToyEnv { toy_byte : Z; toy_time : Z }.

Definition toy_fill (n : nat) (w : toy_env) : option (Z * list Z * toy_env) :=
  Some (if toy_byte w <? 0 then -1 else 0, replicate n (u8 (toy_byte w)), w).

Lemma toy_fill_ok n w r buf w' :
  toy_fill n w = Some (r, buf, w') -> length buf = n /\ bytes buf.
Proof.
  intros [= _ <- _]. split; [apply length_replicate|].
  apply bytes_replicate, wrap_range. lia.
Qed.

Definition toy_timespec (w : toy_env) : option (Z * Z) * toy_env :=
  (if (0 <=? toy_time w) && (toy_time w <=? INT64_MAX)
   then Some (toy_time w, 0) else None, w).

Lemma toy_timespec_ok w s ns w' :
  toy_timespec w = (Some (s, ns), w') -> int64 s /\ 0 <= ns <= 999999999.
Proof.
  unfold toy_timespec, int64, INT64_MIN, INT64_MAX.
  destruct (Z.leb_spec 0 (toy_time w)), (Z.leb_spec (toy_time w) (2 ^ 63 - 1));
    cbn [andb]; intros [=]; subst; lia.
Qed.

Definition toy_now (w : toy_env) : option (Z * toy_env) :=
  t ← i64 (toy_time w); Some (t, w).

Lemma toy_now_ok w t w' : toy_now w = Some (t, w') -> int64 t.
Proof.
  unfold toy_now, i64, int64. destruct (Z.leb_spec INT64_MIN (toy_time w)),
    (Z.leb_spec (toy_time w) INT64_MAX); cbn; intros [=]; subst; lia.
Qed.

#[export] Instance toy_random : RandomSource toy_env | 100 :=
  { fill_random := toy_fill; fill_random_ok := toy_fill_ok }.
#[export] Instance toy_clock : Clock toy_env | 100 :=
  { timespec_get := toy_timespec; timespec_get_ok := toy_timespec_ok }.
#[export] Instance toy_now_ms : NowMs toy_env | 100 :=
  { now_ms := toy_now; now_ms_ok := toy_now_ok }.
