(* ===== verification/Ksuid.v ===== *)
(** * The KSUID type: chronoid/ksuid/ksuid.c

    Predicates, construction, accessors, text form and generation.  An output
    parameter is passed in with the value it had and comes back with the value
    it has, so that "untouched on error" is a statement about results. *)
From Stdlib Require Import String.
From S2P Require Import Prelude Radix ByteOrder Libc KsuidTypes Base62 Compare Rand.

Section Ops.
Context `{Memcmp} `{Compare20} `{Translate16}.

Definition chronoid_ksuid_is_nil (id : chronoid_ksuid_t) : option bool :=
  r ← memcmp (ksuid_b id) (replicate CHRONOID_KSUID_BYTES 0) CHRONOID_KSUID_BYTES;
  Some (r =? 0).

Definition chronoid_ksuid_compare (a b : chronoid_ksuid_t) : option Z :=
  compare20 (ksuid_b a) (ksuid_b b).

Definition chronoid_ksuid_from_bytes (out : chronoid_ksuid_t) (b : list Z) (n : nat)
    : option (chronoid_ksuid_err_t * chronoid_ksuid_t) :=
  if negb (n =? CHRONOID_KSUID_BYTES)%nat then Some (CHRONOID_KSUID_ERR_SIZE, out)
  else
    o ← memcpy (ksuid_b out) 0 b 0 CHRONOID_KSUID_BYTES;
    Some (CHRONOID_KSUID_OK, Ksuid o).

Definition chronoid_ksuid_from_parts (out : chronoid_ksuid_t) (unix_seconds : Z)
    (payload : list Z) (payload_len : nat)
    : option (chronoid_ksuid_err_t * chronoid_ksuid_t) :=
  if negb (payload_len =? CHRONOID_KSUID_PAYLOAD_LEN)%nat
  then Some (CHRONOID_KSUID_ERR_PAYLOAD_SIZE, out)
  else
    corrected ← i64_sub unix_seconds CHRONOID_KSUID_EPOCH_SECONDS;
    if (corrected <? 0) || (UINT32_MAX <? corrected)
    then Some (CHRONOID_KSUID_ERR_TIME_RANGE, out)
    else
      o ← chronoid_be32_store (ksuid_b out) 0 (u32 corrected);
      o ← memcpy o CHRONOID_KSUID_TIMESTAMP_LEN payload 0 CHRONOID_KSUID_PAYLOAD_LEN;
      Some (CHRONOID_KSUID_OK, Ksuid o).

Definition chronoid_ksuid_timestamp (id : chronoid_ksuid_t) : option Z :=
  chronoid_be32_load (ksuid_b id) 0.

Definition chronoid_ksuid_time_unix (id : chronoid_ksuid_t) : option Z :=
  t ← chronoid_ksuid_timestamp id;
  i64_add t CHRONOID_KSUID_EPOCH_SECONDS.

(** A pointer into [id]: the array and the offset. *)
Definition chronoid_ksuid_payload (id : chronoid_ksuid_t) : list Z * nat :=
  (ksuid_b id, CHRONOID_KSUID_TIMESTAMP_LEN).

Definition chronoid_ksuid_parse (out : chronoid_ksuid_t) (s : list Z) (len : nat)
    : option (chronoid_ksuid_err_t * chronoid_ksuid_t) :=
  if negb (len =? CHRONOID_KSUID_STRING_LEN)%nat
  then Some (CHRONOID_KSUID_ERR_STR_SIZE, out)
  else
    '(e, tmp) ← chronoid_base62_decode (uninit CHRONOID_KSUID_BYTES) s;
    if bool_decide (e <> CHRONOID_KSUID_OK) then Some (e, out)
    else Some (CHRONOID_KSUID_OK, Ksuid tmp).

Definition chronoid_ksuid_format (id : chronoid_ksuid_t) (out : list Z)
    : option (list Z) :=
  chronoid_base62_encode out (ksuid_b id).

(** ** Generation *)

Section Generate.
Context {W : Type} `{RandomSource W} `{Clock W}.

Definition chronoid_ksuid_new_with_time (out : chronoid_ksuid_t)
    (unix_seconds : Z) (w : W)
    : option (chronoid_ksuid_err_t * chronoid_ksuid_t * W) :=
  corrected ← i64_sub unix_seconds CHRONOID_KSUID_EPOCH_SECONDS;
  if (corrected <? 0) || (UINT32_MAX <? corrected)
  then Some (CHRONOID_KSUID_ERR_TIME_RANGE, out, w)
  else
    '(r, payload, w) ← fill_random CHRONOID_KSUID_PAYLOAD_LEN w;
    if negb (r =? 0) then Some (CHRONOID_KSUID_ERR_RNG, out, w)
    else
      o ← chronoid_be32_store (ksuid_b out) 0 (u32 corrected);
      o ← memcpy o CHRONOID_KSUID_TIMESTAMP_LEN payload 0 CHRONOID_KSUID_PAYLOAD_LEN;
      Some (CHRONOID_KSUID_OK, Ksuid o, w).

Definition chronoid_ksuid_new (out : chronoid_ksuid_t) (w : W)
    : option (chronoid_ksuid_err_t * chronoid_ksuid_t * W) :=
  match timespec_get w with
  | (None, w) => Some (CHRONOID_KSUID_ERR_TIME_RANGE, out, w)
  | (Some (tv_sec, _), w) => chronoid_ksuid_new_with_time out tv_sec w
  end.
End Generate.
End Ops.

(** ** Specification: a KSUID is a 32-bit timestamp and a 16-byte payload *)

Definition ksuid_of (ts : Z) (payload : list Z) : chronoid_ksuid_t :=
  Ksuid (to_digits 256 4 ts ++ payload).

Definition ksuid_ts (id : chronoid_ksuid_t) : Z := val 256 (take 4 (ksuid_b id)).

(** The seconds the 32-bit field can hold. *)
Definition in_lifetime (t : Z) : bool :=
  (CHRONOID_KSUID_EPOCH_SECONDS <=? t) &&
  (t <=? CHRONOID_KSUID_EPOCH_SECONDS + UINT32_MAX).

Lemma ksuid_of_wf ts payload :
  length payload = 16%nat -> bytes payload -> wf_ksuid (ksuid_of ts payload).
Proof.
  intros Hl Hb. split; unfold ksuid_of; cbn [ksuid_b].
  - rewrite length_app, length_to_digits. lia.
  - apply bytes_app; split; [|done]. by apply digits_to_digits.
Qed.

Lemma ksuid_parts id :
  wf_ksuid id -> id = ksuid_of (ksuid_ts id) (drop 4 (ksuid_b id)).
Proof.
  destruct id as [b]. intros [Hl Hb]. unfold ksuid_of, ksuid_ts.
  cbn [ksuid_b] in *. f_equal.
  assert (length (take 4 b) = 4%nat) as Hl4 by (rewrite length_take; lia).
  rewrite <- Hl4 at 1. rewrite to_digits_val; [|lia|apply bytes_take, Hb].
  symmetry. apply take_drop.
Qed.

Lemma ksuid_ts_range id : wf_ksuid id -> uint 32 (ksuid_ts id).
Proof.
  intros [Hl Hb].
  pose proof (val_bound 256 eq_refl (take 4 (ksuid_b id)) (bytes_take _ _ Hb)) as Hv.
  rewrite length_take, Hl in Hv. apply Hv.
Qed.

Lemma ksuid_ts_of ts payload : uint 32 ts -> ksuid_ts (ksuid_of ts payload) = ts.
Proof.
  intros Ht. unfold ksuid_ts, ksuid_of. cbn [ksuid_b].
  rewrite take_app_length' by (by rewrite length_to_digits).
  apply val_to_digits_small; [lia|]. apply Ht.
Qed.

Lemma timestamp_spec id :
  wf_ksuid id -> chronoid_ksuid_timestamp id = Some (ksuid_ts id).
Proof.
  intros [Hl Hb]. apply be32_load_val; rewrite ?drop_0; [done| |by apply bytes_take].
  rewrite length_take. lia.
Qed.

(** The two stores both generators end with. *)
Lemma write_parts out ts payload :
  wf_ksuid out -> length payload = 16%nat ->
  (o ← chronoid_be32_store (ksuid_b out) 0 ts;
   memcpy o CHRONOID_KSUID_TIMESTAMP_LEN payload 0 CHRONOID_KSUID_PAYLOAD_LEN)
  = Some (ksuid_b (ksuid_of ts payload)).
Proof.
  intros [Hl Hb] Hp. rewrite be32_store_val by lia. cbn [mbind option_bind].
  rewrite take_0. cbn [app].
  unfold CHRONOID_KSUID_TIMESTAMP_LEN, CHRONOID_KSUID_PAYLOAD_LEN.
  rewrite memcpy_Some; [|rewrite length_app, length_to_digits, length_drop; lia|lia].
  rewrite take_app_length', drop_0, take_ge by (rewrite ?length_to_digits; lia).
  rewrite (drop_ge (_ ++ _)), app_nil_r; [done|].
  rewrite length_app, length_to_digits, length_drop. lia.
Qed.

(** The range check of the corrected timestamp. *)
Lemma corrected_spec t :
  int64 t -> INT64_MIN + CHRONOID_KSUID_EPOCH_SECONDS <= t ->
  i64_sub t CHRONOID_KSUID_EPOCH_SECONDS = Some (t - CHRONOID_KSUID_EPOCH_SECONDS) /\
  (((t - CHRONOID_KSUID_EPOCH_SECONDS <? 0) ||
    (UINT32_MAX <? t - CHRONOID_KSUID_EPOCH_SECONDS)) = negb (in_lifetime t)) /\
  (in_lifetime t = true -> uint 32 (t - CHRONOID_KSUID_EPOCH_SECONDS)).
Proof.
  unfold int64, in_lifetime, uint, UINT32_MAX, CHRONOID_KSUID_EPOCH_SECONDS.
  intros [H1 H2] H3. split_and!.
  - apply i64_Some. unfold int64. lia.
  - lia.
  - lia.
Qed.

Lemma parse_spec `{Translate16} out s len :
  length s = len -> bytes s ->
  chronoid_ksuid_parse out s len
  = Some (if negb (len =? 27)%nat then (CHRONOID_KSUID_ERR_STR_SIZE, out)
          else match b62_decode_ref s with
               | Some b => (CHRONOID_KSUID_OK, Ksuid b)
               | None => (CHRONOID_KSUID_ERR_STR_VALUE, out)
               end).
Proof.
  intros Hl Hb. unfold chronoid_ksuid_parse, CHRONOID_KSUID_STRING_LEN.
  destruct (Nat.eqb_spec len 27) as [->|]; cbn [negb]; [|done].
  pose proof (decode_spec (uninit CHRONOID_KSUID_BYTES) s (length_uninit _) Hl Hb) as Hd.
  destruct (b62_decode_ref s) as [b|]; [by rewrite Hd|].
  by destruct Hd as (o & -> & _).
Qed.

Lemma format_spec id buf :
  wf_ksuid id -> length buf = 27%nat ->
  chronoid_ksuid_format id buf = Some (b62_encode_ref (ksuid_b id)).
Proof. intros [Hl Hb] Hbuf. by apply encode_spec. Qed.

Lemma compare_spec `{Compare20} a b :
  wf_ksuid a -> wf_ksuid b ->
  chronoid_ksuid_compare a b = Some (cmp_sign (lex (ksuid_b a) (ksuid_b b))).
Proof. intros [Ha _] [Hb _]. by apply compare20_ok. Qed.

(** Lexicographic order reads the timestamp first. *)
Lemma lex_ksuid_ts a b :
  wf_ksuid a -> wf_ksuid b ->
  lex (ksuid_b a) (ksuid_b b)
  = match ksuid_ts a ?= ksuid_ts b with
    | Eq => lex (drop 4 (ksuid_b a)) (drop 4 (ksuid_b b))
    | c => c
    end.
Proof.
  intros [La Ba] [Lb Bb]. unfold ksuid_ts.
  rewrite <- (lex_val 256); [|lia|rewrite !length_take; lia|by apply bytes_take..].
  rewrite <- lex_app_l by (rewrite !length_take; lia). by rewrite !take_drop.
Qed.

Lemma new_with_time_spec {W} `{RandomSource W} out t (w : W) :
  wf_ksuid out -> int64 t -> INT64_MIN + CHRONOID_KSUID_EPOCH_SECONDS <= t ->
  chronoid_ksuid_new_with_time out t w
  = if in_lifetime t then
      match fill_random 16 w with
      | Some (0, payload, w') =>
          Some (CHRONOID_KSUID_OK,
                ksuid_of (t - CHRONOID_KSUID_EPOCH_SECONDS) payload, w')
      | Some (_, _, w') => Some (CHRONOID_KSUID_ERR_RNG, out, w')
      | None => None
      end
    else Some (CHRONOID_KSUID_ERR_TIME_RANGE, out, w).
Proof.
  intros Hout Ht Hlo. unfold chronoid_ksuid_new_with_time.
  destruct (corrected_spec t Ht Hlo) as (-> & E & Hu). cbn [mbind option_bind].
  rewrite E. destruct (in_lifetime t); cbn [negb]; [|done].
  change CHRONOID_KSUID_PAYLOAD_LEN with 16%nat.
  destruct (fill_random 16 w) as [[[r payload] w']|] eqn:Ef; [|done].
  cbn [mbind option_bind].
  destruct (fill_random_ok _ _ _ _ _ Ef) as [Hl _].
  destruct (Z.eqb_spec r 0) as [->|Hr]; cbn [negb]; [|by destruct r].
  pose proof (write_parts out (t - CHRONOID_KSUID_EPOCH_SECONDS) payload Hout Hl) as Hw.
  change CHRONOID_KSUID_PAYLOAD_LEN with 16%nat in Hw.
  rewrite wrap_small by (by apply Hu).
  apply bind_Some in Hw as (o & -> & Hw). cbn [mbind option_bind].
  rewrite Hw. done.
Qed.

(** ** Properties *)

(** C1: parse inverts format.  For every KSUID, [chronoid_ksuid_format] writes
    27 characters, and [chronoid_ksuid_parse] reads exactly them back to the
    same KSUID, whatever translate kernel was compiled in. *)
Theorem ksuid_parse_format `{Translate16} id buf out :
  wf_ksuid id -> length buf = 27%nat ->
  exists s, chronoid_ksuid_format id buf = Some s /\ length s = 27%nat /\
    chronoid_ksuid_parse out s 27 = Some (CHRONOID_KSUID_OK, id).
Proof.
  intros Hid Hbuf. exists (b62_encode_ref (ksuid_b id)). split_and!.
  - by apply format_spec.
  - apply b62_encode_ref_length.
  - rewrite parse_spec by (apply b62_encode_ref_length || apply b62_encode_ref_bytes).
    destruct id as [b], Hid as [Hl Hb]. by rewrite b62_decode_encode.
Qed.

Lemma ksuid_parse_format_witness :
  wf_ksuid CHRONOID_KSUID_MAX /\ length (replicate 27 0) = 27%nat /\
  exists s, chronoid_ksuid_format CHRONOID_KSUID_MAX (replicate 27 0) = Some s /\
    length s = 27%nat /\
    chronoid_ksuid_parse CHRONOID_KSUID_NIL s 27
    = Some (CHRONOID_KSUID_OK, CHRONOID_KSUID_MAX).
Proof.
  split; [apply ksuid_max_wf|]. split; [reflexivity|].
  apply (ksuid_parse_format CHRONOID_KSUID_MAX (replicate 27 0) CHRONOID_KSUID_NIL);
    [apply ksuid_max_wf|reflexivity].
Defined.

(** C2: what [chronoid_ksuid_parse] accepts and what it leaves alone.  A wrong
    length is ERR_STR_SIZE; a non-alphanumeric character or a value above
    2^160 - 1 is ERR_STR_VALUE; both return the output unchanged.  Anything
    else is OK and yields the 20 big-endian bytes of the base-62 value. *)
Theorem ksuid_parse_outcomes `{Translate16} out s len :
  length s = len -> bytes s ->
  chronoid_ksuid_parse out s len
  = Some (if negb (len =? 27)%nat then (CHRONOID_KSUID_ERR_STR_SIZE, out)
          else if negb (forallb b62_valid s) then (CHRONOID_KSUID_ERR_STR_VALUE, out)
          else if 2 ^ 160 <=? val 62 (map b62_value s)
          then (CHRONOID_KSUID_ERR_STR_VALUE, out)
          else (CHRONOID_KSUID_OK,
                Ksuid (to_digits 256 20 (val 62 (map b62_value s))))).
Proof.
  intros Hl Hb. rewrite parse_spec by done. unfold b62_decode_ref.
  rewrite Z.leb_antisym. destruct (len =? 27)%nat, (forallb b62_valid s); try done.
  cbn [negb andb]. by destruct (val 62 (map b62_value s) <? 2 ^ 160).
Qed.

(** C3: accepted strings are canonical.  When [chronoid_ksuid_parse] accepts a
    string, formatting the KSUID it produced gives that very string back, so
    no two accepted strings denote the same KSUID. *)
Theorem ksuid_format_parse `{Translate16} out s id buf :
  length s = 27%nat -> bytes s -> length buf = 27%nat ->
  chronoid_ksuid_parse out s 27 = Some (CHRONOID_KSUID_OK, id) ->
  wf_ksuid id /\ chronoid_ksuid_format id buf = Some s.
Proof.
  intros Hl Hb Hbuf. rewrite parse_spec by done. cbn [Nat.eqb negb].
  destruct (b62_decode_ref s) as [b|] eqn:E; [|done]. intros [= <-].
  apply b62_encode_decode in E as (E & Lb & Bb); [|done..].
  assert (wf_ksuid (Ksuid b)) as Hid by done.
  split; [done|]. rewrite format_spec by done. by rewrite <- E.
Qed.

(** C4: the text form sorts like the binary form.  Comparing two formatted
    strings byte by byte gives the result [chronoid_ksuid_compare] returns on
    the two KSUIDs. *)
Theorem ksuid_format_monotone `{Compare20} a b bufa bufb :
  wf_ksuid a -> wf_ksuid b -> length bufa = 27%nat -> length bufb = 27%nat ->
  exists sa sb, chronoid_ksuid_format a bufa = Some sa /\
    chronoid_ksuid_format b bufb = Some sb /\
    chronoid_ksuid_compare a b = Some (cmp_sign (lex sa sb)).
Proof.
  intros Ha Hb La Lb. eexists _, _. split_and!; [by apply format_spec..|].
  rewrite compare_spec by done. destruct Ha, Hb. by rewrite b62_encode_ref_lex.
Qed.

(** KSUIDs sort by time.  [chronoid_ksuid_compare] returns -1, 0 or 1; an
    earlier timestamp always compares below a later one, and for equal
    timestamps the payloads decide; the result is 0 only for equal KSUIDs. *)
Theorem ksuid_compare_time_order `{Compare20} a b :
  wf_ksuid a -> wf_ksuid b ->
  exists c, chronoid_ksuid_compare a b = Some c /\ -1 <= c <= 1 /\
    (ksuid_ts a < ksuid_ts b -> c = -1) /\
    (ksuid_ts a > ksuid_ts b -> c = 1) /\
    (c = 0 <-> a = b) /\
    chronoid_ksuid_compare b a = Some (- c).
Proof.
  intros Ha Hb. eexists. split; [by apply compare_spec|].
  rewrite compare_spec by done.
  rewrite (lex_antisym (ksuid_b a)), cmp_sign_opp, cmp_sign_eq0, lex_eq.
  pose proof (lex_ksuid_ts a b Ha Hb) as E.
  split_and!; try done.
  - destruct (lex _ _); simpl; lia.
  - destruct (lex _ _); simpl; lia.
  - intros Hlt. apply Z.compare_lt_iff in Hlt. rewrite Hlt in E. by rewrite E.
  - intros Hgt. rewrite E, (proj2 (Z.compare_gt_iff _ _)); [done|lia].
  - destruct a, b; simpl. split; [by intros ->|by intros [=]].
Qed.

(** C5: [chronoid_ksuid_from_parts] on every input whose subtraction is
    defined.  A payload that is not 16 bytes is ERR_PAYLOAD_SIZE, a time
    outside the closed 32-bit lifetime is ERR_TIME_RANGE, both with the output
    unchanged; otherwise the result carries exactly the time and the payload
    back out of the accessors. *)
Theorem ksuid_from_parts_outcomes out t payload len :
  wf_ksuid out -> length payload = len -> bytes payload -> int64 t ->
  INT64_MIN + CHRONOID_KSUID_EPOCH_SECONDS <= t ->
  if (len =? 16)%nat && in_lifetime t then
    exists id, chronoid_ksuid_from_parts out t payload len
               = Some (CHRONOID_KSUID_OK, id) /\ wf_ksuid id /\
      chronoid_ksuid_time_unix id = Some t /\
      chronoid_ksuid_timestamp id = Some (t - CHRONOID_KSUID_EPOCH_SECONDS) /\
      (let '(p, off) := chronoid_ksuid_payload id in drop off p = payload)
  else chronoid_ksuid_from_parts out t payload len
       = Some (if (len =? 16)%nat then CHRONOID_KSUID_ERR_TIME_RANGE
               else CHRONOID_KSUID_ERR_PAYLOAD_SIZE, out).
Proof.
  intros Hout Hl Hb Ht Hlo.
  unfold chronoid_ksuid_from_parts.
  change (len =? CHRONOID_KSUID_PAYLOAD_LEN)%nat with (len =? 16)%nat.
  destruct (Nat.eqb_spec len 16) as [->|]; cbn [negb andb]; [|done].
  destruct (corrected_spec t Ht Hlo) as (-> & E & Hu). cbn [mbind option_bind].
  rewrite E. destruct (in_lifetime t) eqn:El; cbn [negb]; [|done].
  specialize (Hu eq_refl). rewrite wrap_small by done.
  set (ts := t - CHRONOID_KSUID_EPOCH_SECONDS) in *.
  exists (ksuid_of ts payload).
  pose proof (ksuid_of_wf ts payload Hl Hb) as Hwf.
  assert (chronoid_ksuid_timestamp (ksuid_of ts payload) = Some ts) as Hts
    by (by rewrite timestamp_spec, ksuid_ts_of).
  pose proof (write_parts out ts payload Hout Hl) as Hw.
  apply bind_Some in Hw as (o & -> & Hw). cbn [mbind option_bind].
  rewrite Hw. cbn [mbind option_bind]. split_and!; [done|done| |done|].
  - unfold chronoid_ksuid_time_unix. rewrite Hts. cbn [mbind option_bind].
    unfold i64_add. replace (ts + CHRONOID_KSUID_EPOCH_SECONDS) with t by lia.
    by apply i64_Some.
  - unfold chronoid_ksuid_payload, ksuid_of. cbn [ksuid_b].
    apply drop_app_length'. by rewrite length_to_digits.
Qed.

(** C6: the subtraction overflows at the low end.  With a 16-byte payload,
    [chronoid_ksuid_from_parts] has a defined result exactly when
    [unix_seconds - EPOCH] is an [int64_t]; for times within 1.4 billion
    seconds of INT64_MIN the C expression is undefined although the header
    promises ERR_TIME_RANGE for every time out of range. *)
Theorem ksuid_from_parts_overflow out t payload :
  wf_ksuid out -> length payload = 16%nat -> bytes payload -> int64 t ->
  chronoid_ksuid_from_parts out t payload 16 = None <->
  t < INT64_MIN + CHRONOID_KSUID_EPOCH_SECONDS.
Proof.
  intros Hout Hl Hb Ht. split.
  - intros Hn. apply Z.nle_gt. intros Hlo. revert Hn.
    unfold chronoid_ksuid_from_parts. cbn [Nat.eqb CHRONOID_KSUID_PAYLOAD_LEN negb].
    destruct (corrected_spec t Ht Hlo) as (-> & E & Hu). cbn [mbind option_bind].
    rewrite E. destruct (in_lifetime t); cbn [negb]; [|done].
    rewrite wrap_small by (by apply Hu).
    pose proof (write_parts out (t - CHRONOID_KSUID_EPOCH_SECONDS) payload Hout Hl) as Hw.
    apply bind_Some in Hw as (o & -> & Hw). cbn [mbind option_bind].
    by rewrite Hw.
  - intros Hlt. unfold chronoid_ksuid_from_parts.
    cbn [Nat.eqb CHRONOID_KSUID_PAYLOAD_LEN negb].
    unfold i64_sub. rewrite i64_None; [done|]. unfold int64. lia.
Qed.

(** C7: [chronoid_ksuid_new] in every environment, with no condition on what the
    clock says.  When the clock gives no time, the result is ERR_TIME_RANGE.  A
    second below INT64_MIN plus the epoch offset makes the signed subtraction
    overflow: the call has no defined result (only such a second does this).  Any other second outside the 32-bit lifetime is ERR_TIME_RANGE.  In
    these cases no random bytes are drawn.  Inside the lifetime 16 bytes are drawn:
    when the random source fails the result is ERR_RNG; when it does not answer
    there is none either; otherwise the KSUID carries the clock's second and the bytes
    drawn.  On every error the output is unchanged. *)
Theorem ksuid_new_outcomes {W} `{RandomSource W} `{Clock W} out (w : W) :
  wf_ksuid out ->
  match timespec_get w with
  | (None, w1) =>
      chronoid_ksuid_new out w = Some (CHRONOID_KSUID_ERR_TIME_RANGE, out, w1)
  | (Some (t, _), w1) =>
      if t <? INT64_MIN + CHRONOID_KSUID_EPOCH_SECONDS then
        chronoid_ksuid_new out w = None
      else if in_lifetime t then
        match fill_random 16 w1 with
        | Some (0, payload, w2) =>
            exists id, chronoid_ksuid_new out w = Some (CHRONOID_KSUID_OK, id, w2) /\
              wf_ksuid id /\ chronoid_ksuid_time_unix id = Some t /\
              drop 4 (ksuid_b id) = payload
        | Some (_, _, w2) =>
            chronoid_ksuid_new out w = Some (CHRONOID_KSUID_ERR_RNG, out, w2)
        | None => chronoid_ksuid_new out w = None
        end
      else chronoid_ksuid_new out w = Some (CHRONOID_KSUID_ERR_TIME_RANGE, out, w1)
  end.
Proof.
  intros Hout. unfold chronoid_ksuid_new.
  destruct (timespec_get w) as [[[t ns]|] w1] eqn:Et; [|done].
  destruct (timespec_get_ok _ _ _ _ Et) as [Ht _].
  destruct (Z.ltb_spec t (INT64_MIN + CHRONOID_KSUID_EPOCH_SECONDS)) as [Hlt|Hlo].
  { unfold chronoid_ksuid_new_with_time, i64_sub. rewrite i64_None; [done|].
    unfold int64. lia. }
  rewrite new_with_time_spec by done.
  destruct (in_lifetime t) eqn:El; [|done].
  destruct (fill_random 16 w1) as [[[r payload] w2]|] eqn:Ef; [|done].
  destruct r; try done. destruct (fill_random_ok _ _ _ _ _ Ef) as [Hl Hb].
  destruct (corrected_spec t Ht Hlo) as (_ & _ & Hu). specialize (Hu El).
  eexists. split; [done|]. split; [by apply ksuid_of_wf|]. split.
  - unfold chronoid_ksuid_time_unix.
    rewrite timestamp_spec by (by apply ksuid_of_wf). rewrite ksuid_ts_of by done.
    cbn [mbind option_bind]. unfold i64_add. rewrite Z.sub_add. by apply i64_Some.
  - unfold ksuid_of. cbn [ksuid_b]. apply drop_app_length'. by rewrite length_to_digits.
Qed.

(** ** Witnesses *)

Lemma ksuid_parse_outcomes_witness :
  length (replicate 27 122) = 27%nat /\ bytes (replicate 27 122) /\
  chronoid_ksuid_parse CHRONOID_KSUID_NIL (replicate 27 122) 27
  = Some (CHRONOID_KSUID_ERR_STR_VALUE, CHRONOID_KSUID_NIL).
Proof.
  assert (bytes (replicate 27 122)) as Hb by (apply bytes_replicate; split; lia).
  split; [reflexivity|]. split; [exact Hb|].
  rewrite (ksuid_parse_outcomes CHRONOID_KSUID_NIL (replicate 27 122) 27 eq_refl Hb).
  vm_compute. reflexivity.
Defined.

Lemma ksuid_format_parse_witness :
  let s := str "aWgEPTl1tmebfsQzFP4bxwgy80V" in
  let id := Ksuid (replicate 20 255) in
  wf_ksuid id /\ chronoid_ksuid_format id (replicate 27 0) = Some s.
Proof.
  cbv zeta.
  apply (ksuid_format_parse CHRONOID_KSUID_NIL (str "aWgEPTl1tmebfsQzFP4bxwgy80V")).
  - reflexivity.
  - unfold bytes, uint. vm_compute. repeat constructor; discriminate.
  - reflexivity.
  - vm_compute. reflexivity.
Defined.

Lemma ksuid_format_monotone_witness :
  exists sa sb, chronoid_ksuid_format CHRONOID_KSUID_NIL (replicate 27 0) = Some sa /\
    chronoid_ksuid_format CHRONOID_KSUID_MAX (replicate 27 0) = Some sb /\
    chronoid_ksuid_compare CHRONOID_KSUID_NIL CHRONOID_KSUID_MAX
    = Some (cmp_sign (lex sa sb)).
Proof.
  apply (ksuid_format_monotone CHRONOID_KSUID_NIL CHRONOID_KSUID_MAX
           (replicate 27 0) (replicate 27 0));
    [apply ksuid_nil_wf|apply ksuid_max_wf|reflexivity|reflexivity].
Defined.

Lemma ksuid_compare_time_order_witness :
  exists c, chronoid_ksuid_compare CHRONOID_KSUID_NIL CHRONOID_KSUID_MAX = Some c /\
    -1 <= c <= 1 /\
    (ksuid_ts CHRONOID_KSUID_NIL < ksuid_ts CHRONOID_KSUID_MAX -> c = -1) /\
    (ksuid_ts CHRONOID_KSUID_NIL > ksuid_ts CHRONOID_KSUID_MAX -> c = 1) /\
    (c = 0 <-> CHRONOID_KSUID_NIL = CHRONOID_KSUID_MAX) /\
    chronoid_ksuid_compare CHRONOID_KSUID_MAX CHRONOID_KSUID_NIL = Some (- c).
Proof.
  apply (ksuid_compare_time_order CHRONOID_KSUID_NIL CHRONOID_KSUID_MAX);
    [apply ksuid_nil_wf|apply ksuid_max_wf].
Defined.

Lemma ksuid_from_parts_outcomes_witness :
  let t := 1500000000 in let payload := replicate 16 7 in
  exists id, chronoid_ksuid_from_parts CHRONOID_KSUID_NIL t payload 16
             = Some (CHRONOID_KSUID_OK, id) /\ wf_ksuid id /\
    chronoid_ksuid_time_unix id = Some t /\
    chronoid_ksuid_timestamp id = Some (t - CHRONOID_KSUID_EPOCH_SECONDS) /\
    (let '(p, off) := chronoid_ksuid_payload id in drop off p = payload).
Proof.
  cbv zeta.
  refine (ksuid_from_parts_outcomes CHRONOID_KSUID_NIL 1500000000 (replicate 16 7) 16
           ksuid_nil_wf eq_refl (bytes_replicate 16 7 _) _ _).
  - split; lia.
  - unfold int64, INT64_MIN, INT64_MAX. lia.
  - unfold INT64_MIN, CHRONOID_KSUID_EPOCH_SECONDS. lia.
Defined.

Lemma ksuid_from_parts_overflow_witness :
  chronoid_ksuid_from_parts CHRONOID_KSUID_NIL INT64_MIN (replicate 16 7) 16 = None.
Proof.
  apply (ksuid_from_parts_overflow CHRONOID_KSUID_NIL INT64_MIN (replicate 16 7)).
  - apply ksuid_nil_wf.
  - reflexivity.
  - apply bytes_replicate. split; lia.
  - unfold int64, INT64_MIN, INT64_MAX. lia.
  - unfold INT64_MIN, CHRONOID_KSUID_EPOCH_SECONDS. lia.
Defined.

Lemma ksuid_new_outcomes_witness :
  let w := ToyEnv 7 1500000000 in
  exists id, chronoid_ksuid_new CHRONOID_KSUID_NIL w = Some (CHRONOID_KSUID_OK, id, w) /\
    wf_ksuid id /\ chronoid_ksuid_time_unix id = Some 1500000000 /\
    drop 4 (ksuid_b id) = replicate 16 7.
Proof.
  cbv zeta.
  exact (ksuid_new_outcomes CHRONOID_KSUID_NIL (ToyEnv 7 1500000000) ksuid_nil_wf).
Defined.

(** The overflow on the smallest second a clock can give, and the first second
    past it. *)
Example ksuid_new_overflow :
  chronoid_ksuid_new_with_time CHRONOID_KSUID_NIL INT64_MIN (ToyEnv 7 0) = None /\
  chronoid_ksuid_new_with_time CHRONOID_KSUID_NIL
    (INT64_MIN + CHRONOID_KSUID_EPOCH_SECONDS) (ToyEnv 7 0)
  = Some (CHRONOID_KSUID_ERR_TIME_RANGE, CHRONOID_KSUID_NIL, ToyEnv 7 0).
Proof. split; reflexivity. Qed.
