(* ===== verification/KsuidSequence.v ===== *)
(** * Monotonic KSUID runs: chronoid/ksuid/sequence.c

    A sequence is a seed and a 32-bit count; it hands out 65536 KSUIDs that
    differ in their last two bytes, then reports exhaustion. *)
From S2P Require Import Prelude Radix ByteOrder Libc KsuidTypes Compare Ksuid.

Record chronoid_ksuid_sequence_t := KsuidSeq {
  kseq_seed : chronoid_ksuid_t;
  kseq_count : Z
}.

Definition chronoid_ksuid_sequence_apply_count (id : chronoid_ksuid_t) (n : Z)
    : option chronoid_ksuid_t :=
  let p := (CHRONOID_KSUID_BYTES - 2)%nat in
  b ← store (ksuid_b id) p (u8 (Z.shiftr n 8));
  b ← store b (p + 1) (u8 n);
  Some (Ksuid b).

Definition chronoid_ksuid_sequence_init (s : chronoid_ksuid_sequence_t)
    (seed : chronoid_ksuid_t) : chronoid_ksuid_sequence_t :=
  KsuidSeq seed 0.

Definition chronoid_ksuid_sequence_next (s : chronoid_ksuid_sequence_t)
    (out : chronoid_ksuid_t)
    : option (chronoid_ksuid_err_t * chronoid_ksuid_sequence_t * chronoid_ksuid_t) :=
  if UINT16_MAX <? kseq_count s then Some (CHRONOID_KSUID_ERR_EXHAUSTED, s, out)
  else
    out ← chronoid_ksuid_sequence_apply_count (kseq_seed s) (u16 (kseq_count s));
    Some (CHRONOID_KSUID_OK, KsuidSeq (kseq_seed s) (u32 (kseq_count s + 1)), out).

Definition chronoid_ksuid_sequence_bounds (s : chronoid_ksuid_sequence_t)
    : option (chronoid_ksuid_t * chronoid_ksuid_t) :=
  let lo := kseq_count s in
  let lo := if UINT16_MAX <? lo then UINT16_MAX else lo in
  min ← chronoid_ksuid_sequence_apply_count (kseq_seed s) (u16 lo);
  max ← chronoid_ksuid_sequence_apply_count (kseq_seed s) UINT16_MAX;
  Some (min, max).

(** [n] successive calls into the same output buffer, with every result. *)
Fixpoint ksuid_sequence_calls (n : nat) (s : chronoid_ksuid_sequence_t)
    (out : chronoid_ksuid_t)
    : option (list (chronoid_ksuid_err_t * chronoid_ksuid_t)
              * chronoid_ksuid_sequence_t) :=
  match n with
  | O => Some ([], s)
  | S n' =>
      '(e, s, out) ← chronoid_ksuid_sequence_next s out;
      '(rs, s) ← ksuid_sequence_calls n' s out;
      Some ((e, out) :: rs, s)
  end.

(** ** Specification *)

(** The seed with its last two bytes replaced by the number [n]. *)
Definition numbered (seed : chronoid_ksuid_t) (n : Z) : chronoid_ksuid_t :=
  Ksuid (take 18 (ksuid_b seed) ++ to_digits 256 2 n).

Definition wf_kseq (s : chronoid_ksuid_sequence_t) : Prop :=
  wf_ksuid (kseq_seed s) /\ 0 <= kseq_count s <= 65536.

(** The abstract sequence: call number [k] (from 0) on a seed, with [last] the
    most recent KSUID handed out. *)
Definition spec_call (seed : chronoid_ksuid_t) (k : Z)
    : chronoid_ksuid_err_t * chronoid_ksuid_t :=
  if k <? 65536 then (CHRONOID_KSUID_OK, numbered seed k)
  else (CHRONOID_KSUID_ERR_EXHAUSTED, numbered seed 65535).

Lemma numbered_wf seed n : wf_ksuid seed -> wf_ksuid (numbered seed n).
Proof.
  intros [Hl Hb]. split; unfold numbered; cbn [ksuid_b].
  - rewrite length_app, length_take, length_to_digits. lia.
  - apply bytes_app; split; [by apply bytes_take|]. apply (digits_to_digits 256). lia.
Qed.

Lemma to_digits_256_2 v : to_digits 256 2 v = [ (v / 2 ^ 8) mod 256; v mod 256 ].
Proof. done. Qed.

Lemma apply_count_spec seed n :
  wf_ksuid seed ->
  chronoid_ksuid_sequence_apply_count seed n = Some (numbered seed n).
Proof.
  intros [Hl Hb]. unfold chronoid_ksuid_sequence_apply_count, numbered.
  rewrite u8_shiftr by lia. change (u8 n) with (n mod 256).
  change (CHRONOID_KSUID_BYTES - 2)%nat with 18%nat.
  pose proof (stores_Some (ksuid_b seed) 18 (to_digits 256 2 n)) as H.
  rewrite length_to_digits, (drop_ge (ksuid_b seed)), app_nil_r in H by lia.
  specialize (H ltac:(lia)). rewrite to_digits_256_2 in H. cbn [stores] in H.
  apply bind_Some in H as (b1 & H1 & H). apply bind_Some in H as (b2 & H2 & H).
  rewrite H1. cbn [mbind option_bind]. change (18 + 1)%nat with 19%nat.
  rewrite H2. cbn [mbind option_bind]. rewrite to_digits_256_2. by inv_some.
Qed.

Lemma lex_numbered seed m n :
  0 <= m < 65536 -> 0 <= n < 65536 ->
  lex (ksuid_b (numbered seed m)) (ksuid_b (numbered seed n)) = (m ?= n).
Proof.
  intros Hm Hn. unfold numbered. cbn [ksuid_b]. rewrite lex_app_eq.
  by apply (lex_to_digits 256).
Qed.

Lemma sequence_next_spec s out :
  wf_kseq s ->
  chronoid_ksuid_sequence_next s out
  = if kseq_count s <? 65536
    then Some (CHRONOID_KSUID_OK, KsuidSeq (kseq_seed s) (kseq_count s + 1),
               numbered (kseq_seed s) (kseq_count s))
    else Some (CHRONOID_KSUID_ERR_EXHAUSTED, s, out).
Proof.
  intros [Hs Hc]. unfold chronoid_ksuid_sequence_next, UINT16_MAX.
  destruct (Z.ltb_spec 65535 (kseq_count s)), (Z.ltb_spec (kseq_count s) 65536);
    try lia; [done|].
  rewrite apply_count_spec by done. cbn [mbind option_bind].
  by rewrite !wrap_small by (unfold uint; lia).
Qed.

Lemma sequence_next_wf s out e s' out' :
  wf_kseq s -> chronoid_ksuid_sequence_next s out = Some (e, s', out') -> wf_kseq s'.
Proof.
  intros Hs. rewrite sequence_next_spec by done. destruct Hs as [Hs Hc].
  destruct (Z.ltb_spec (kseq_count s) 65536); intros [= <- <- <-]; split; simpl;
    (done || lia).
Qed.

(** The [n] outcomes from call number [k] on. *)
Definition spec_calls (seed : chronoid_ksuid_t) (k : Z) (n : nat) :=
  map (fun i => spec_call seed (k + Z.of_nat i)) (seq 0 n).

Lemma spec_calls_S seed k n :
  spec_calls seed k (S n) = spec_call seed k :: spec_calls seed (k + 1) n.
Proof.
  unfold spec_calls. cbn [seq map]. rewrite Z.add_0_r. f_equal.
  rewrite <- seq_shift, map_map. apply map_ext. intros i. f_equal. lia.
Qed.

Lemma spec_calls_exhausted seed k k' n :
  65536 <= k -> 65536 <= k' -> spec_calls seed k n = spec_calls seed k' n.
Proof.
  intros Hk Hk'. apply map_ext. intros i. unfold spec_call.
  destruct (Z.ltb_spec (k + Z.of_nat i) 65536); [lia|].
  destruct (Z.ltb_spec (k' + Z.of_nat i) 65536); [lia|done].
Qed.

Lemma sequence_calls_spec n seed k out :
  wf_ksuid seed -> 0 <= k <= 65536 ->
  (k = 65536 -> out = numbered seed 65535) ->
  ksuid_sequence_calls n (KsuidSeq seed k) out
  = Some (spec_calls seed k n, KsuidSeq seed (Z.min 65536 (k + Z.of_nat n))).
Proof.
  intros Hs. revert k out. induction n as [|n IH]; intros k out Hk Ho.
  { simpl. by rewrite Z.add_0_r, Z.min_r by lia. }
  cbn [ksuid_sequence_calls]. rewrite spec_calls_S.
  rewrite sequence_next_spec by (split; [done|simpl; lia]).
  cbn [kseq_count kseq_seed]. unfold spec_call.
  destruct (Z.ltb_spec k 65536); cbn [mbind option_bind].
  - rewrite IH; [|lia|intros E; f_equal; lia]. cbn [mbind option_bind].
    by replace (k + 1 + Z.of_nat n) with (k + Z.of_nat (S n)) by lia.
  - rewrite Ho by lia. rewrite IH; [|lia|done]. cbn [mbind option_bind].
    rewrite (spec_calls_exhausted seed k (k + 1)) by lia.
    by rewrite !Z.min_l by lia.
Qed.

(** What any run of calls hands out: the numbers from the current count on. *)
Lemma sequence_calls_handed n s out rs s' id :
  wf_kseq s -> ksuid_sequence_calls n s out = Some (rs, s') ->
  In (CHRONOID_KSUID_OK, id) rs ->
  exists k, kseq_count s <= k < 65536 /\ id = numbered (kseq_seed s) k.
Proof.
  revert s out rs. induction n as [|n IH]; intros s out rs Hs; cbn [ksuid_sequence_calls].
  { intros [= <- <-] []. }
  rewrite sequence_next_spec by done. pose proof Hs as [Hseed Hc].
  destruct (Z.ltb_spec (kseq_count s) 65536); cbn [mbind option_bind];
    intros ([rs1 s1] & Hrun & E1)%bind_Some; injection E1 as <- <-;
    intros [E|Hin]; try done.
  - exists (kseq_count s). split; [lia|]. by inversion E.
  - assert (wf_kseq (KsuidSeq (kseq_seed s) (kseq_count s + 1))) as Hs1
      by (split; simpl; [done|lia]).
    destruct (IH _ _ _ Hs1 Hrun Hin) as (k & Hk & ->).
    cbn [kseq_count kseq_seed] in *. exists k. split; [lia|done].
  - exact (IH _ _ _ Hs Hrun Hin).
Qed.

Lemma sequence_bounds_spec s :
  wf_kseq s ->
  chronoid_ksuid_sequence_bounds s
  = Some (numbered (kseq_seed s) (Z.min 65535 (kseq_count s)),
          numbered (kseq_seed s) 65535).
Proof.
  intros [Hs Hc]. unfold chronoid_ksuid_sequence_bounds, UINT16_MAX.
  rewrite !apply_count_spec by done. cbn [mbind option_bind].
  destruct (Z.ltb_spec 65535 (kseq_count s)).
  - by rewrite Z.min_l, wrap_small by (unfold uint; lia).
  - by rewrite Z.min_r, wrap_small by (unfold uint; lia).
Qed.

(** ** Properties *)

(** C8: a fresh sequence implements its abstract specification.  Whatever the
    number of calls after [chronoid_ksuid_sequence_init], call number [k]
    (from 0) succeeds for [k < 65536] with the seed numbered [k], and every
    later call reports exhaustion and leaves the last KSUID in place. *)
Theorem ksuid_sequence_refines_spec s0 seed out n :
  wf_ksuid seed ->
  ksuid_sequence_calls n (chronoid_ksuid_sequence_init s0 seed) out
  = Some (map (fun i => spec_call seed (Z.of_nat i)) (seq 0 n),
          KsuidSeq seed (Z.min 65536 (Z.of_nat n))).
Proof. intros Hs. by apply (sequence_calls_spec n seed 0). Qed.

(** C9: KSUIDs of one sequence strictly increase.  In any state, two
    successive successful calls hand out KSUIDs of which the first compares
    below the second, and both keep the 18 leading bytes of the seed. *)
Theorem ksuid_sequence_increasing `{Compare20} s out s1 id1 s2 id2 :
  wf_kseq s ->
  chronoid_ksuid_sequence_next s out = Some (CHRONOID_KSUID_OK, s1, id1) ->
  chronoid_ksuid_sequence_next s1 id1 = Some (CHRONOID_KSUID_OK, s2, id2) ->
  chronoid_ksuid_compare id1 id2 = Some (-1) /\
  take 18 (ksuid_b id1) = take 18 (ksuid_b (kseq_seed s)) /\
  take 18 (ksuid_b id2) = take 18 (ksuid_b (kseq_seed s)).
Proof.
  intros Hs H1 H2. pose proof (sequence_next_wf _ _ _ _ _ Hs H1) as Hs1.
  rewrite sequence_next_spec in H1, H2 by done. destruct Hs as [Hseed Hc].
  destruct (Z.ltb_spec (kseq_count s) 65536); [|done]. injection H1 as <- <-.
  cbn [kseq_count kseq_seed] in H2.
  destruct (Z.ltb_spec (kseq_count s + 1) 65536); [|done]. injection H2 as <- <-.
  destruct Hseed as [Hl Hb].
  rewrite compare_spec, lex_numbered by (by apply numbered_wf || lia).
  split_and!.
  - rewrite (proj2 (Z.compare_lt_iff _ _)); [done|lia].
  - unfold numbered. cbn [ksuid_b]. apply take_app_length'. rewrite length_take. lia.
  - unfold numbered. cbn [ksuid_b]. apply take_app_length'. rewrite length_take. lia.
Qed.

Lemma ksuid_sequence_refines_spec_witness :
  wf_ksuid CHRONOID_KSUID_MAX /\
  ksuid_sequence_calls 3
    (chronoid_ksuid_sequence_init (KsuidSeq CHRONOID_KSUID_NIL 9) CHRONOID_KSUID_MAX)
    CHRONOID_KSUID_NIL
  = Some (map (fun i => spec_call CHRONOID_KSUID_MAX (Z.of_nat i)) (seq 0 3),
          KsuidSeq CHRONOID_KSUID_MAX (Z.min 65536 (Z.of_nat 3))).
Proof.
  split; [apply ksuid_max_wf|].
  exact (ksuid_sequence_refines_spec (KsuidSeq CHRONOID_KSUID_NIL 9)
    CHRONOID_KSUID_MAX CHRONOID_KSUID_NIL 3 ksuid_max_wf).
Defined.

Lemma wf_kseq_max c : 0 <= c <= 65536 -> wf_kseq (KsuidSeq CHRONOID_KSUID_MAX c).
Proof. intros Hc. split; [apply ksuid_max_wf|apply Hc]. Qed.

Lemma ksuid_sequence_increasing_witness :
  let s := KsuidSeq CHRONOID_KSUID_MAX 255 in
  chronoid_ksuid_compare (numbered CHRONOID_KSUID_MAX 255)
    (numbered CHRONOID_KSUID_MAX 256) = Some (-1) /\
  take 18 (ksuid_b (numbered CHRONOID_KSUID_MAX 255))
  = take 18 (ksuid_b (kseq_seed s)) /\
  take 18 (ksuid_b (numbered CHRONOID_KSUID_MAX 256))
  = take 18 (ksuid_b (kseq_seed s)).
Proof.
  apply (ksuid_sequence_increasing (KsuidSeq CHRONOID_KSUID_MAX 255) CHRONOID_KSUID_NIL
    (KsuidSeq CHRONOID_KSUID_MAX 256) _ (KsuidSeq CHRONOID_KSUID_MAX 257)).
  - apply wf_kseq_max. lia.
  - vm_compute. reflexivity.
  - vm_compute. reflexivity.
Defined.

(** [chronoid_ksuid_sequence_bounds] bounds everything still to come.  It
    answers in every state without changing it, and every KSUID any number of
    later calls hands out compares at or above the minimum and at or below the
    maximum; while numbers are left, the very next call returns the minimum. *)
Theorem ksuid_sequence_bounds_sound `{Compare20} s out n rs s' id :
  wf_kseq s -> ksuid_sequence_calls n s out = Some (rs, s') ->
  In (CHRONOID_KSUID_OK, id) rs ->
  exists mn mx clo chi,
    chronoid_ksuid_sequence_bounds s = Some (mn, mx) /\
    chronoid_ksuid_compare mn id = Some clo /\ clo <= 0 /\
    chronoid_ksuid_compare id mx = Some chi /\ chi <= 0 /\
    chronoid_ksuid_sequence_next s out
    = Some (CHRONOID_KSUID_OK, KsuidSeq (kseq_seed s) (kseq_count s + 1), mn).
Proof.
  intros Hs Hrun Hin.
  destruct (sequence_calls_handed _ _ _ _ _ _ Hs Hrun Hin) as (k & Hk & ->).
  pose proof Hs as [Hseed Hc].
  rewrite sequence_bounds_spec, sequence_next_spec by done.
  rewrite Z.min_r by lia.
  destruct (Z.ltb_spec (kseq_count s) 65536); [|lia].
  eexists _, _, _, _. split; [done|].
  rewrite !compare_spec, !lex_numbered by (by apply numbered_wf || lia).
  split_and!; try done.
  - destruct (Z.compare_spec (kseq_count s) k); simpl; lia.
  - destruct (Z.compare_spec k 65535); simpl; lia.
Qed.

Lemma ksuid_sequence_bounds_sound_witness :
  let s := KsuidSeq CHRONOID_KSUID_MAX 65534 in
  exists mn mx clo chi,
    chronoid_ksuid_sequence_bounds s = Some (mn, mx) /\
    chronoid_ksuid_compare mn CHRONOID_KSUID_MAX = Some clo /\ clo <= 0 /\
    chronoid_ksuid_compare CHRONOID_KSUID_MAX mx = Some chi /\ chi <= 0 /\
    chronoid_ksuid_sequence_next s CHRONOID_KSUID_NIL
    = Some (CHRONOID_KSUID_OK, KsuidSeq (kseq_seed s) (kseq_count s + 1), mn).
Proof.
  apply (ksuid_sequence_bounds_sound (KsuidSeq CHRONOID_KSUID_MAX 65534)
    CHRONOID_KSUID_NIL 3
    [(CHRONOID_KSUID_OK, numbered CHRONOID_KSUID_MAX 65534);
     (CHRONOID_KSUID_OK, CHRONOID_KSUID_MAX);
     (CHRONOID_KSUID_ERR_EXHAUSTED, CHRONOID_KSUID_MAX)]
    (KsuidSeq CHRONOID_KSUID_MAX 65536)).
  - apply wf_kseq_max. lia.
  - vm_compute. reflexivity.
  - right. left. reflexivity.
Defined.
