(* ===== verification/Rows.v ===== *)
(** * Arrays of fixed-length rows

    The bulk encoders write the text of id [i] into row [i] of one buffer.
    This file holds the loop both scalar kernels are, the result every bulk
    kernel must produce, and the lemmas their proofs share. *)
From S2P Require Import Prelude.

(** [for (i = 0; i < n; ++i) format (&ids[i], out + i * m)], [k] iterations
    from [i] on. *)
Fixpoint row_loop {Id} (m : nat) (format : Id -> list Z -> option (list Z))
    (k i : nat) (ids : list Id) (out : list Z) : option (list Z) :=
  match k with
  | O => Some out
  | S k' =>
      id ← ids !! i;
      out ← at_offset out (i * m) m (format id);
      row_loop m format k' (S i) ids out
  end.

Section Rows.
Context {Id : Type} (m : nat) (enc : Id -> list Z) (wf : Id -> Prop).
Context (enc_length : forall id, wf id -> length (enc id) = m).

(** The texts in order, the rest of the buffer untouched. *)
Definition rows_ref (ids : list Id) (out : list Z) (n : nat) : list Z :=
  concat (map enc (take n ids)) ++ drop (n * m) out.

Definition rows_pre (ids : list Id) (out : list Z) (n : nat) : Prop :=
  Forall wf ids /\ (n <= length ids)%nat /\ (n * m <= length out)%nat.

Lemma rows_length ids :
  Forall wf ids -> length (concat (map enc ids)) = (length ids * m)%nat.
Proof using enc_length.
  intros Hids. rewrite (length_concat_rows _ m), length_map; [done|].
  apply Forall_map. induction Hids; constructor; auto.
Qed.

Lemma rows_take_length ids n :
  Forall wf ids -> (n <= length ids)%nat ->
  length (concat (map enc (take n ids))) = (n * m)%nat.
Proof using enc_length.
  intros Hids Hn. rewrite rows_length by (by apply Forall_take).
  rewrite length_take. f_equal. lia.
Qed.

Lemma rows_ref_0 ids out : rows_ref ids out 0 = out.
Proof. unfold rows_ref. by rewrite take_0, drop_0. Qed.

Lemma rows_ref_length ids out n :
  rows_pre ids out n -> length (rows_ref ids out n) = length out.
Proof using enc_length.
  intros (Hids & Hn & Ho). unfold rows_ref.
  rewrite length_app, rows_take_length, length_drop by done. lia.
Qed.

Lemma rows_ref_rest ids out n :
  rows_pre ids out n -> drop (n * m) (rows_ref ids out n) = drop (n * m) out.
Proof using enc_length.
  intros (Hids & Hn & Ho). apply drop_app_length'. symmetry.
  by apply rows_take_length.
Qed.

Lemma rows_ref_row ids out n i id :
  rows_pre ids out n -> (i < n)%nat -> ids !! i = Some id ->
  take m (drop (i * m) (rows_ref ids out n)) = enc id.
Proof using enc_length.
  intros (Hids & Hn & Ho) Hi Hid. unfold rows_ref.
  pose proof (rows_take_length ids n Hids Hn) as Hl.
  assert (i * m + m <= n * m)%nat by nia.
  rewrite drop_app_le, take_app_le by (rewrite ?length_drop; lia).
  apply concat_row.
  - apply Forall_map. apply Forall_take with (n := n) in Hids.
    clear - Hids enc_length. induction Hids; constructor; auto.
  - by rewrite list_lookup_fmap, lookup_take_lt, Hid by done.
Qed.

(** Encoding a prefix and then the rest is encoding everything. *)
Lemma rows_ref_app ids out a b :
  concat (map enc (take a ids)) ++ rows_ref (drop a ids) (drop (a * m) out) b
  = rows_ref ids out (a + b).
Proof.
  unfold rows_ref.
  rewrite app_assoc, <- concat_app, <- map_app, <- take_take_drop, drop_drop.
  by rewrite Nat.mul_add_distr_r.
Qed.

(** The scalar loop, where [pre] is what the earlier iterations wrote. *)
Lemma row_loop_spec format k i ids pre out :
  (forall id buf, wf id -> length buf = m -> format id buf = Some (enc id)) ->
  Forall wf ids -> (i + k <= length ids)%nat ->
  length pre = (i * m)%nat -> (k * m <= length out)%nat ->
  row_loop m format k i ids (pre ++ out)
  = Some (pre ++ rows_ref (drop i ids) out k).
Proof using enc_length.
  intros Hf Hids. revert i pre out. induction k as [|k IH]; intros i pre out Hk Hpre Hout.
  - by rewrite rows_ref_0.
  - destruct (lookup_lt_is_Some_2 ids i ltac:(lia)) as [id Hid].
    cbn [row_loop]. rewrite Hid. cbn [mbind option_bind].
    pose proof (Forall_lookup_1 _ _ _ _ Hids Hid) as Hwf.
    rewrite <- (take_drop m out) at 1.
    assert (length (take m out) = m) as Hrow by (rewrite length_take; lia).
    rewrite (at_offset_Some _ _ _ _ (enc id)) by (done || by apply Hf).
    cbn [mbind option_bind].
    rewrite app_assoc, IH by (rewrite ?length_app, ?length_drop, ?enc_length; done || lia).
    rewrite <- app_assoc. do 2 f_equal.
    change (S k) with (1 + k)%nat.
    rewrite <- (rows_ref_app (drop i ids) out 1 k), drop_drop, Nat.mul_1_l.
    rewrite (drop_S ids id i Hid), Nat.add_1_r. cbn [take map concat].
    by rewrite firstn_O, app_nil_r.
Qed.

(** The call a bulk kernel ends with: the last rows by another kernel. *)
Lemma rows_tail kernel ids out a n :
  rows_pre ids out n -> (a <= n)%nat ->
  (rows_pre (drop a ids) (drop (a * m) out) (n - a) ->
   kernel (drop (a * m) out) = Some (rows_ref (drop a ids) (drop (a * m) out) (n - a))) ->
  at_offset (rows_ref ids out a) (a * m) (length (rows_ref ids out a) - a * m) kernel
  = Some (rows_ref ids out n).
Proof using enc_length.
  intros (Hids & Hn & Ho) Ha Hk.
  assert (rows_pre (drop a ids) (drop (a * m) out) (n - a)) as Hpre.
  { split; [by apply Forall_drop|]. rewrite !length_drop. nia. }
  specialize (Hk Hpre).
  assert (length (concat (map enc (take a ids))) = (a * m)%nat) as Hl
    by (apply rows_take_length; [done|lia]).
  rewrite rows_ref_length by (split_and!; [done|lia|nia]).
  unfold rows_ref at 1. rewrite <- (app_nil_r (drop (a * m) out)) at 1.
  rewrite (at_offset_Some _ _ _ _ _ _ _ Hl (length_drop _ _) Hk).
  rewrite app_nil_r, rows_ref_app. do 2 f_equal. lia.
Qed.
End Rows.
