(* ===== verification/EncodeBatch.v ===== *)
(** * Bulk KSUID encoding, scalar: chronoid/ksuid/encode_batch.c

    [chronoid_ksuid_string_batch_scalar] and the contract every bulk KSUID
    kernel meets: [n] ids become [n] consecutive 27-character rows.  The
    dispatcher of the same file is in Dispatch.v and EncodeDispatch.v. *)
From S2P Require Import Prelude Radix KsuidTypes Base62 Ksuid Rows.

Definition chronoid_ksuid_string_batch_scalar (ids : list chronoid_ksuid_t)
    (out_27n : list Z) (n : nat) : option (list Z) :=
  row_loop CHRONOID_KSUID_STRING_LEN chronoid_ksuid_format n 0 ids out_27n.

Definition ksuid_text (id : chronoid_ksuid_t) : list Z := b62_encode_ref (ksuid_b id).
Definition ksuid_batch_ref := rows_ref 27 ksuid_text.
Definition ksuid_batch_pre := rows_pre (Id := chronoid_ksuid_t) 27 wf_ksuid.

Lemma length_ksuid_text id : wf_ksuid id -> length (ksuid_text id) = 27%nat.
Proof. intros _. apply b62_encode_ref_length. Qed.

Lemma ksuid_batch_scalar_spec ids out n :
  ksuid_batch_pre ids out n ->
  chronoid_ksuid_string_batch_scalar ids out n = Some (ksuid_batch_ref ids out n).
Proof.
  intros (Hids & Hn & Ho). unfold chronoid_ksuid_string_batch_scalar.
  apply (row_loop_spec 27 ksuid_text wf_ksuid length_ksuid_text _ n 0 ids [] out);
    [apply format_spec|done|lia|done|lia].
Qed.

(** What a caller of a bulk kernel sees: the rows are what
    [chronoid_ksuid_format] writes, and nothing else changes. *)
Lemma ksuid_batch_ref_rows ids out n :
  ksuid_batch_pre ids out n ->
  length (ksuid_batch_ref ids out n) = length out /\
  drop (n * 27) (ksuid_batch_ref ids out n) = drop (n * 27) out /\
  forall i id buf, (i < n)%nat -> ids !! i = Some id -> length buf = 27%nat ->
    chronoid_ksuid_format id buf
    = Some (take 27 (drop (i * 27) (ksuid_batch_ref ids out n))).
Proof.
  intros Hpre. split_and!.
  - by apply (rows_ref_length 27 ksuid_text wf_ksuid length_ksuid_text).
  - by apply (rows_ref_rest 27 ksuid_text wf_ksuid length_ksuid_text).
  - intros i id buf Hi Hid Hbuf.
    rewrite format_spec by (done || exact (Forall_lookup_1 _ _ _ _ (proj1 Hpre) Hid)).
    f_equal. symmetry.
    by apply (rows_ref_row 27 ksuid_text wf_ksuid length_ksuid_text).
Qed.
