(* ===== verification/EncodeAvx2.v ===== *)
(** * Bulk KSUID encoding, AVX2: chronoid/ksuid/encode_avx2.c, divisor_magic.h

    Eight ids at a time in structure-of-arrays form.  A 256-bit register is its
    four 64-bit lanes; limb [j] of lanes 0..3 and 4..7 is one register each.
    Division by 62 is a multiplication by a reciprocal and one correction. *)
From Stdlib Require Import String.
From S2P Require Import Prelude Radix ByteOrder KsuidTypes Base62 Simd.
From S2P Require Import Ksuid Rows EncodeBatch.

Definition CHRONOID_KSUID_DIV62_M : Z := 0x421084210842108.

Definition k_avx2_b62_alphabet : list Z :=
  cstr "0123456789ABCDEFGHIJKLMNOPQRSTUVWXYZabcdefghijklmnopqrstuvwxyz" ++ [0].

Definition chronoid_ksuid_mulhi64_avx2 (a b : list Z) : list Z :=
  let mask32 := mm256_set1_epi64x 0xFFFFFFFF in
  let a_hi := mm256_srli_epi64 a 32 in
  let b_hi := mm256_srli_epi64 b 32 in
  let ll := mm256_mul_epu32 a b in
  let lh := mm256_mul_epu32 a b_hi in
  let hl := mm256_mul_epu32 a_hi b in
  let hh := mm256_mul_epu32 a_hi b_hi in
  let ll_hi := mm256_srli_epi64 ll 32 in
  let lh_lo := mm256_and_si256 lh mask32 in
  let hl_lo := mm256_and_si256 hl mask32 in
  let lh_hi := mm256_srli_epi64 lh 32 in
  let hl_hi := mm256_srli_epi64 hl 32 in
  let mid_low := mm256_add_epi64 (mm256_add_epi64 lh_lo hl_lo) ll_hi in
  let mid_carry := mm256_srli_epi64 mid_low 32 in
  mm256_add_epi64 (mm256_add_epi64 hh lh_hi) (mm256_add_epi64 hl_hi mid_carry).

(** The two output registers, [(q_out, r_out)]. *)
Definition chronoid_ksuid_divmod62_avx2 (value mag : list Z) : list Z * list Z :=
  let q := chronoid_ksuid_mulhi64_avx2 value mag in
  let q62 := mm256_sub_epi64 (mm256_slli_epi64 q 6) (mm256_slli_epi64 q 1) in
  let r := mm256_sub_epi64 value q62 in
  let ge62 := mm256_cmpgt_epi64 r (mm256_set1_epi64x 61) in
  let k62 := mm256_set1_epi64x 62 in
  let one := mm256_set1_epi64x 1 in
  (mm256_add_epi64 q (mm256_and_si256 ge62 one),
   mm256_sub_epi64 r (mm256_and_si256 ge62 k62)).

(** The pack loop: [base_p] is the id array read as bytes. *)
Definition avx2_pack_limb (base_p : list Z) (off j : nat)
    : option (list Z * list Z) :=
  plo ← mapM (fun lane => chronoid_be32_load base_p
               (off + lane * CHRONOID_KSUID_BYTES + j * 4)) (seq 0 4);
  phi ← mapM (fun lane => chronoid_be32_load base_p
               (off + (lane + 4) * CHRONOID_KSUID_BYTES + j * 4)) (seq 0 4);
  Some (plo, phi).

Definition avx2_pack (ids : list chronoid_ksuid_t) (base : nat)
    : option (list (list Z * list Z)) :=
  mapM (avx2_pack_limb (concat (map ksuid_b ids)) (base * CHRONOID_KSUID_BYTES))
    (seq 0 5).

(** One pass over the limbs [(Llo[j], Lhi[j])]: the new limbs and the two
    remainder registers. *)
Fixpoint avx2_limb_loop (L : list (list Z * list Z)) (mag rem_lo rem_hi : list Z)
    : list (list Z * list Z) * list Z * list Z :=
  match L with
  | [] => ([], rem_lo, rem_hi)
  | (Llo, Lhi) :: L' =>
      let v_lo := mm256_or_si256 Llo (mm256_slli_epi64 rem_lo 32) in
      let v_hi := mm256_or_si256 Lhi (mm256_slli_epi64 rem_hi 32) in
      let '(q_lo, r_lo) := chronoid_ksuid_divmod62_avx2 v_lo mag in
      let '(q_hi, r_hi) := chronoid_ksuid_divmod62_avx2 v_hi mag in
      let '(L'', rem_lo, rem_hi) := avx2_limb_loop L' mag r_lo r_hi in
      ((q_lo, q_hi) :: L'', rem_lo, rem_hi)
  end.

(** The scatter loop over [rems[lane]], from [lane] on. *)
Fixpoint avx2_scatter (rems : list Z) (lane base col : nat) (out_27n : list Z)
    : option (list Z) :=
  match rems with
  | [] => Some out_27n
  | r :: rems' =>
      c ← k_avx2_b62_alphabet !! Z.to_nat r;
      out_27n ← store out_27n ((base + lane) * CHRONOID_KSUID_STRING_LEN + col) c;
      avx2_scatter rems' (S lane) base col out_27n
  end.

(** [for (col = 26; col >= 0; --col)]; the argument is [col + 1]. *)
Fixpoint avx2_col_loop (ncol : nat) (L : list (list Z * list Z)) (mag : list Z)
    (base : nat) (out_27n : list Z) : option (list Z) :=
  match ncol with
  | O => Some out_27n
  | S col =>
      let '(L, rem_lo, rem_hi) :=
        avx2_limb_loop L mag mm256_setzero_si256 mm256_setzero_si256 in
      out_27n ← avx2_scatter (rem_lo ++ rem_hi) 0 base col out_27n;
      avx2_col_loop col L mag base out_27n
  end.

(** [for (base = 0; base < bulk; base += 8)]. *)
Fixpoint avx2_block_loop (fuel base bulk : nat) (ids : list chronoid_ksuid_t)
    (mag out_27n : list Z) : option (list Z) :=
  if (base <? bulk)%nat then
    match fuel with
    | O => None
    | S fuel' =>
        L ← avx2_pack ids base;
        out_27n ← avx2_col_loop CHRONOID_KSUID_STRING_LEN L mag base out_27n;
        avx2_block_loop fuel' (base + 8) bulk ids mag out_27n
    end
  else Some out_27n.

Definition chronoid_ksuid_string_batch_avx2 (ids : list chronoid_ksuid_t)
    (out_27n : list Z) (n : nat) : option (list Z) :=
  let bulk := Nat.ldiff n 7 in
  let mag := mm256_set1_epi64x CHRONOID_KSUID_DIV62_M in
  out_27n ← avx2_block_loop n 0 bulk ids mag out_27n;
  if (bulk <? n)%nat then
    at_offset out_27n (bulk * CHRONOID_KSUID_STRING_LEN)
      (length out_27n - bulk * CHRONOID_KSUID_STRING_LEN)
      (fun out => chronoid_ksuid_string_batch_scalar (drop bulk ids) out (n - bulk))
  else Some out_27n.

(** ** One lane *)

Definition mulhi_lane (a b : Z) : Z :=
  let a_hi := Z.shiftr a 32 in
  let b_hi := Z.shiftr b 32 in
  let ll := u64 (u32 a * u32 b) in
  let lh := u64 (u32 a * u32 b_hi) in
  let hl := u64 (u32 a_hi * u32 b) in
  let hh := u64 (u32 a_hi * u32 b_hi) in
  let mid_low := u64 (u64 (Z.land lh (u64 0xFFFFFFFF) + Z.land hl (u64 0xFFFFFFFF))
                      + Z.shiftr ll 32) in
  u64 (u64 (hh + Z.shiftr lh 32) + u64 (Z.shiftr hl 32 + Z.shiftr mid_low 32)).

Lemma mulhi_lanes (f g : Z -> Z) v :
  length v = 4%nat ->
  chronoid_ksuid_mulhi64_avx2 (map f v) (map g v)
  = map (fun x => mulhi_lane (f x) (g x)) v.
Proof.
  intros Hv. unfold chronoid_ksuid_mulhi64_avx2. cbv zeta.
  unfold mm256_set1_epi64x, mm256_srli_epi64, mm256_mul_epu32, mm256_and_si256,
    mm256_add_epi64.
  lanes v. done.
Qed.

Definition cross (ah al bh bl : Z) : Z :=
  ah * bh + (al * bh) / 2 ^ 32 + (ah * bl) / 2 ^ 32
  + ((al * bh) mod 2 ^ 32 + (ah * bl) mod 2 ^ 32 + (al * bl) / 2 ^ 32) / 2 ^ 32.

Lemma cross_spec ah al bh bl :
  uint 32 ah -> uint 32 al -> uint 32 bh -> uint 32 bl ->
  cross ah al bh bl = ((ah * 2 ^ 32 + al) * (bh * 2 ^ 32 + bl)) / 2 ^ 64.
Proof.
  unfold uint, cross. change (2 ^ 64) with (2 ^ 32 * 2 ^ 32).
  set (B := 2 ^ 32). assert (0 < B) as HB by (subst B; lia). intros Hah Hal Hbh Hbl.
  pose proof (Z.div_mod (al * bh) B ltac:(lia)) as E1.
  pose proof (Z.div_mod (ah * bl) B ltac:(lia)) as E2.
  pose proof (Z.div_mod (al * bl) B ltac:(lia)) as E3.
  pose proof (Z.mod_pos_bound (al * bl) B HB) as M3.
  set (q1 := (al * bh) / B) in *. set (r1 := (al * bh) mod B) in *.
  set (q2 := (ah * bl) / B) in *. set (r2 := (ah * bl) mod B) in *.
  set (q3 := (al * bl) / B) in *. set (r3 := (al * bl) mod B) in *.
  pose proof (Z.div_mod (r1 + r2 + q3) B ltac:(lia)) as E4.
  pose proof (Z.mod_pos_bound (r1 + r2 + q3) B HB) as M4.
  set (q4 := (r1 + r2 + q3) / B) in *. set (r4 := (r1 + r2 + q3) mod B) in *.
  clearbody q1 r1 q2 r2 q3 r3 q4 r4 B.
  apply (Z.div_unique _ _ _ (r4 * B + r3)); [left; nia|].
  replace ((ah * B + al) * (bh * B + bl))
    with (ah * bh * (B * B) + (ah * bl) * B + (al * bh) * B + al * bl) by ring.
  rewrite E1, E2, E3. replace r4 with (r1 + r2 + q3 - B * q4) by lia. ring.
Qed.

Lemma u32_div_range x : uint 64 x -> uint 32 (x / 2 ^ 32).
Proof.
  unfold uint. intros Hx. split; [apply Z.div_pos; lia|].
  apply Z.div_lt_upper_bound; lia.
Qed.

Lemma mul32_range x y : uint 32 x -> uint 32 y -> 0 <= x * y <= (2 ^ 32 - 1) * (2 ^ 32 - 1).
Proof.
  unfold uint. intros Hx Hy. split; [nia|]. apply Z.mul_le_mono_nonneg; lia.
Qed.

(** No step of the kernel wraps. *)
Lemma mulhi_lane_cross a b :
  uint 64 a -> uint 64 b ->
  mulhi_lane a b = cross (a / 2 ^ 32) (a mod 2 ^ 32) (b / 2 ^ 32) (b mod 2 ^ 32).
Proof.
  intros Ha Hb. unfold mulhi_lane, cross. cbv zeta.
  rewrite !Z.shiftr_div_pow2 by lia.
  change (u64 0xFFFFFFFF) with (Z.ones 32). rewrite !Z.land_ones by lia.
  pose proof (u32_div_range a Ha) as Hah. pose proof (u32_div_range b Hb) as Hbh.
  rewrite (wrap_small 32 (a / 2 ^ 32)), (wrap_small 32 (b / 2 ^ 32)) by done.
  change (u32 a) with (a mod 2 ^ 32). change (u32 b) with (b mod 2 ^ 32).
  assert (uint 32 (a mod 2 ^ 32)) as Hal by (apply Z.mod_pos_bound; lia).
  assert (uint 32 (b mod 2 ^ 32)) as Hbl by (apply Z.mod_pos_bound; lia).
  set (ah := a / 2 ^ 32) in *. set (al := a mod 2 ^ 32) in *.
  set (bh := b / 2 ^ 32) in *. set (bl := b mod 2 ^ 32) in *.
  clearbody ah al bh bl. clear a b Ha Hb.
  pose proof (mul32_range al bl Hal Hbl). pose proof (mul32_range al bh Hal Hbh).
  pose proof (mul32_range ah bl Hah Hbl). pose proof (mul32_range ah bh Hah Hbh).
  set (ll := al * bl) in *. set (lh := al * bh) in *.
  set (hl := ah * bl) in *. set (hh := ah * bh) in *.
  clearbody ll lh hl hh. clear ah al bh bl Hah Hal Hbh Hbl.
  rewrite (wrap_small 64 ll), (wrap_small 64 lh), (wrap_small 64 hl), (wrap_small 64 hh)
    by (unfold uint; lia).
  assert (forall x, 0 <= x <= (2 ^ 32 - 1) * (2 ^ 32 - 1) -> 0 <= x / 2 ^ 32 <= 2 ^ 32 - 2)
    as Hdiv.
  { intros x Hx. split; [apply Z.div_pos; lia|].
    apply Z.lt_succ_r, Z.div_lt_upper_bound; lia. }
  pose proof (Hdiv ll ltac:(lia)). pose proof (Hdiv lh ltac:(lia)).
  pose proof (Hdiv hl ltac:(lia)).
  pose proof (Z.mod_pos_bound lh (2 ^ 32) ltac:(lia)).
  pose proof (Z.mod_pos_bound hl (2 ^ 32) ltac:(lia)).
  rewrite (wrap_small 64 (lh mod 2 ^ 32 + hl mod 2 ^ 32)) by (unfold uint; lia).
  rewrite (wrap_small 64 (lh mod 2 ^ 32 + hl mod 2 ^ 32 + ll / 2 ^ 32))
    by (unfold uint; lia).
  set (mid := lh mod 2 ^ 32 + hl mod 2 ^ 32 + ll / 2 ^ 32) in *.
  assert (0 <= mid / 2 ^ 32 < 3).
  { subst mid. split; [apply Z.div_pos; lia|]. apply Z.div_lt_upper_bound; lia. }
  rewrite (wrap_small 64 (hh + lh / 2 ^ 32)), (wrap_small 64 (hl / 2 ^ 32 + mid / 2 ^ 32))
    by (unfold uint; lia).
  rewrite wrap_small by (unfold uint; lia). lia.
Qed.

Lemma mulhi_lane_spec a b :
  uint 64 a -> uint 64 b -> mulhi_lane a b = a * b / 2 ^ 64.
Proof.
  intros Ha Hb. rewrite mulhi_lane_cross by done.
  rewrite cross_spec by (by apply u32_div_range || by apply Z.mod_pos_bound; lia).
  f_equal. rewrite (Z.div_mod a (2 ^ 32)) at 3 by lia.
  rewrite (Z.div_mod b (2 ^ 32)) at 3 by lia. ring.
Qed.

Definition divmod_lane (x : Z) : Z * Z :=
  let q := mulhi_lane x (u64 CHRONOID_KSUID_DIV62_M) in
  let q62 := u64 (u64 (Z.shiftl q 6) - u64 (Z.shiftl q 1)) in
  let r := u64 (x - q62) in
  let ge62 := if s64 (u64 61) <? s64 r then 2 ^ 64 - 1 else 0 in
  (u64 (q + Z.land ge62 (u64 1)), u64 (r - Z.land ge62 (u64 62))).

(** The reciprocal's quotient is exact or one too small. *)
Lemma reciprocal_range x q :
  uint 64 x -> q = x * CHRONOID_KSUID_DIV62_M / 2 ^ 64 ->
  0 <= q /\ 62 * q <= x < 62 * q + 124.
Proof.
  unfold uint, CHRONOID_KSUID_DIV62_M. intros Hx Hq.
  pose proof (Z.div_mod (x * 0x421084210842108) (2 ^ 64) ltac:(lia)) as E.
  pose proof (Z.mod_pos_bound (x * 0x421084210842108) (2 ^ 64) ltac:(lia)) as M.
  rewrite <- Hq in E. lia.
Qed.

Lemma mag_uint : uint 64 CHRONOID_KSUID_DIV62_M.
Proof. unfold uint, CHRONOID_KSUID_DIV62_M. lia. Qed.

(** With the correction the division is exact, on every 64-bit lane. *)
Lemma divmod_lane_spec x : uint 64 x -> divmod_lane x = (x / 62, x mod 62).
Proof.
  intros Hx. unfold divmod_lane. cbv zeta.
  rewrite (wrap_small 64 CHRONOID_KSUID_DIV62_M) by apply mag_uint.
  rewrite mulhi_lane_spec by (done || apply mag_uint).
  pose proof (reciprocal_range x _ Hx eq_refl) as Hq.
  set (q := x * CHRONOID_KSUID_DIV62_M / 2 ^ 64) in *. clearbody q.
  unfold uint in Hx. rewrite !Z.shiftl_mul_pow2 by lia.
  rewrite (wrap_small 64 (q * 2 ^ 1)) by (unfold uint; lia).
  assert (u64 (u64 (q * 2 ^ 6) - q * 2 ^ 1) = 62 * q) as ->.
  { unfold wrap. rewrite Zminus_mod_idemp_l.
    rewrite <- (Z.mod_small (62 * q) (2 ^ 64)) by lia. f_equal. lia. }
  rewrite (wrap_small 64 (x - 62 * q)) by (unfold uint; lia).
  rewrite (wrap_small 64 61), (wrap_small 64 1), (wrap_small 64 62)
    by (unfold uint; lia).
  unfold s64. destruct (Z.ltb_spec 61 (2 ^ 63)); [|lia].
  destruct (Z.ltb_spec (x - 62 * q) (2 ^ 63)); [|lia].
  destruct (Z.ltb_spec 61 (x - 62 * q)).
  - change (Z.land (2 ^ 64 - 1) 1) with 1. change (Z.land (2 ^ 64 - 1) 62) with 62.
    rewrite !wrap_small by (unfold uint; lia). f_equal.
    + apply (Z.div_unique _ _ _ (x - 62 * q - 62)); lia.
    + apply (Z.mod_unique _ _ (q + 1)); lia.
  - rewrite !Z.land_0_l, Z.add_0_r, Z.sub_0_r, !wrap_small by (unfold uint; lia).
    f_equal.
    + apply (Z.div_unique _ _ _ (x - 62 * q)); lia.
    + apply (Z.mod_unique _ _ q); lia.
Qed.

Definition avx2_mag : list Z := mm256_set1_epi64x CHRONOID_KSUID_DIV62_M.

Lemma divmod62_lanes (f : Z -> Z) v :
  length v = 4%nat -> Forall (fun x => uint 64 (f x)) v ->
  chronoid_ksuid_divmod62_avx2 (map f v) avx2_mag
  = (map (fun x => f x / 62) v, map (fun x => f x mod 62) v).
Proof.
  intros Hv Hf. unfold chronoid_ksuid_divmod62_avx2. cbv zeta.
  unfold avx2_mag, mm256_set1_epi64x. lanes v. rewrite mulhi_lanes by done.
  unfold mm256_sub_epi64, mm256_slli_epi64, mm256_cmpgt_epi64, mm256_add_epi64,
    mm256_and_si256.
  lanes v. rewrite Forall_forall in Hf.
  f_equal; apply map_ext_in; intros x Hx;
    specialize (divmod_lane_spec (f x) (Hf x Hx)) as E; unfold divmod_lane in E;
    cbv zeta in E; injection E as E1 E2; assumption.
Qed.

(** ** One pass over the limbs

    The lanes hold 160-bit numbers; limb [i] (from the least significant) of
    lane value [V] is [limb i V]. *)

Definition limb (i : nat) (V : Z) : Z := V / (2 ^ 32) ^ Z.of_nat i mod 2 ^ 32.

Definition limb_regs (k : nat) (lo hi : list Z) : list (list Z * list Z) :=
  map (fun i => (map (limb i) lo, map (limb i) hi)) (rev (seq 0 k)).

Lemma limb_regs_S k lo hi :
  limb_regs (S k) lo hi = (map (limb k) lo, map (limb k) hi) :: limb_regs k lo hi.
Proof. unfold limb_regs. by rewrite seq_S, rev_app_distr. Qed.

Lemma limb_regs_ext k lo hi lo' hi' :
  (forall i, (i < k)%nat -> map (limb i) lo = map (limb i) lo' /\
                            map (limb i) hi = map (limb i) hi') ->
  limb_regs k lo hi = limb_regs k lo' hi'.
Proof.
  intros H. apply map_ext_in. intros i Hi.
  rewrite <- in_rev, in_seq in Hi. destruct (H i) as [-> ->]; [lia|done].
Qed.

Lemma limb_range i V : uint 32 (limb i V).
Proof. apply Z.mod_pos_bound. lia. Qed.

(** Dividing the top limb, with the remainder [r] so far: the quotient limb,
    and what is left for the limbs below. *)
Lemma limb_step k V r :
  0 <= r < 62 ->
  let W := r * (2 ^ 32) ^ Z.of_nat (S k) + V mod (2 ^ 32) ^ Z.of_nat (S k) in
  let v := limb k V + r * 2 ^ 32 in
  let W' := (v mod 62) * (2 ^ 32) ^ Z.of_nat k + V mod (2 ^ 32) ^ Z.of_nat k in
  uint 64 v /\ W mod 62 = W' mod 62 /\ limb k (W / 62) = v / 62 /\
  forall i, (i < k)%nat -> limb i (W / 62) = limb i (W' / 62).
Proof.
  intros Hr. cbv zeta. pose proof (limb_range k V) as Hl. unfold uint in *.
  rewrite Nat2Z.inj_succ, Z.pow_succ_r by lia.
  set (P := (2 ^ 32) ^ Z.of_nat k) in *.
  assert (0 < P) as HP by (subst P; apply Z.pow_pos_nonneg; lia).
  assert (V mod (2 ^ 32 * P) = limb k V * P + V mod P) as EV.
  { unfold limb. fold P. rewrite (Z.mul_comm (2 ^ 32) P), Z.rem_mul_r by lia. lia. }
  rewrite EV. set (l := limb k V) in *.
  replace (r * (2 ^ 32 * P) + (l * P + V mod P)) with ((l + r * 2 ^ 32) * P + V mod P)
    by ring.
  set (v := l + r * 2 ^ 32) in *.
  pose proof (Z.mod_pos_bound V P HP) as HVP.
  assert (0 <= v < 62 * 2 ^ 32) as Hv by (subst v; lia).
  pose proof (Z.div_mod v 62 ltac:(lia)) as Ev.
  assert (v * P + V mod P = v / 62 * P * 62 + (v mod 62 * P + V mod P)) as EW.
  { rewrite Ev at 1. ring. }
  rewrite EW. clear EW EV.
  set (W' := v mod 62 * P + V mod P).
  rewrite Z.div_add_l by lia.
  pose proof (Z.mod_pos_bound v 62 ltac:(lia)) as Hm.
  assert (0 <= W' < 62 * P) as HW' by (subst W'; nia).
  split; [lia|]. split; [by rewrite Z.add_comm, Z.mod_add by lia|]. split.
  - unfold limb. fold P. rewrite Z.div_add_l by lia.
    rewrite (Z.div_small (W' / 62)).
    + rewrite Z.add_0_r. apply Z.mod_small. split; [apply Z.div_pos; lia|].
      apply Z.div_lt_upper_bound; lia.
    + split; [apply Z.div_pos; lia|]. apply Z.div_lt_upper_bound; lia.
  - intros i Hi. unfold limb. subst P. clear - Hi.
    replace (Z.of_nat k) with (Z.of_nat i + 1 + (Z.of_nat k - Z.of_nat i - 1)) by lia.
    rewrite !Z.pow_add_r by lia. set (Q := (2 ^ 32) ^ Z.of_nat i).
    assert (0 < Q) by (subst Q; apply Z.pow_pos_nonneg; lia).
    set (T := (2 ^ 32) ^ (Z.of_nat k - Z.of_nat i - 1)).
    replace (v / 62 * (Q * (2 ^ 32) ^ 1 * T)) with (v / 62 * T * 2 ^ 32 * Q) by ring.
    rewrite Z.div_add_l, Z.add_comm, Z.mod_add by lia. done.
Qed.

Definition lanes4 (v : list Z) : Prop := length v = 4%nat.

(** The remainder and the value still to divide when [k] limbs are left. *)
Definition rest_val (k : nat) (r : Z -> Z) (V : Z) : Z :=
  r V * (2 ^ 32) ^ Z.of_nat k + V mod (2 ^ 32) ^ Z.of_nat k.

Lemma or_limb (f r : Z -> Z) v :
  (forall V, uint 32 (f V)) -> (forall V, 0 <= r V < 62) ->
  mm256_or_si256 (map f v) (mm256_slli_epi64 (map r v) 32)
  = map (fun V => f V + r V * 2 ^ 32) v.
Proof.
  intros Hf Hr. unfold mm256_or_si256, mm256_slli_epi64. lanes v.
  apply map_ext. intros V. specialize (Hf V). specialize (Hr V).
  rewrite wrap_small, Z.lor_comm, lor_shiftl; [lia|lia|apply Hf|].
  unfold uint. rewrite Z.shiftl_mul_pow2; lia.
Qed.

Lemma limb_loop_spec k lo hi (r : Z -> Z) :
  lanes4 lo -> lanes4 hi -> (forall V, 0 <= r V < 62) ->
  avx2_limb_loop (limb_regs k lo hi) avx2_mag (map r lo) (map r hi)
  = (limb_regs k (map (fun V => rest_val k r V / 62) lo)
                 (map (fun V => rest_val k r V / 62) hi),
     map (fun V => rest_val k r V mod 62) lo,
     map (fun V => rest_val k r V mod 62) hi).
Proof.
  intros Hlo Hhi. revert r. induction k as [|k IH]; intros r Hr.
  - cbn [avx2_limb_loop limb_regs seq rev map]. unfold limb_regs. cbn [seq rev map].
    f_equal; [f_equal|]; apply map_ext; intros V; unfold rest_val;
      rewrite Z.mod_1_r, Z.mod_small; specialize (Hr V); cbn; lia.
  - rewrite !limb_regs_S. cbn [avx2_limb_loop].
    rewrite !or_limb by (apply limb_range || done).
    assert (forall V, uint 64 (limb k V + r V * 2 ^ 32)) as Hv
      by (intros V; apply (limb_step k V (r V)), Hr).
    rewrite !divmod62_lanes by (done || by apply Forall_true).
    set (r' := fun V => (limb k V + r V * 2 ^ 32) mod 62).
    rewrite (IH r') by (intros V; apply Z.mod_pos_bound; lia).
    assert (forall v, map (fun V => rest_val k r' V mod 62) v
                      = map (fun V => rest_val (S k) r V mod 62) v) as Er.
    { intros v. apply map_ext. intros V. symmetry. apply (limb_step k V (r V)), Hr. }
    rewrite !Er. do 2 f_equal. f_equal.
    + f_equal; rewrite map_map; apply map_ext; intros V; symmetry;
        apply (limb_step k V (r V)), Hr.
    + apply limb_regs_ext.
      intros i Hi. rewrite !map_map. split; apply map_ext; intros V; symmetry;
        apply (limb_step k V (r V)); done.
Qed.

(** ** Pack *)

Definition ksuid_val (id : chronoid_ksuid_t) : Z := val 256 (ksuid_b id).

Lemma ksuid_val_range id : wf_ksuid id -> 0 <= ksuid_val id < 2 ^ 160.
Proof.
  intros [Hl Hb]. pose proof (val_bound 256 eq_refl _ Hb) as H.
  rewrite Hl in H. exact H.
Qed.

(** Limb [j] of an id, loaded from the array of all of them. *)
Lemma pack_load ids i j id :
  Forall wf_ksuid ids -> ids !! i = Some id -> (j < 5)%nat ->
  chronoid_be32_load (concat (map ksuid_b ids)) (i * 20 + j * 4)
  = Some (limb (4 - j) (ksuid_val id)).
Proof.
  intros Hids Hi Hj.
  pose proof (Forall_lookup_1 _ _ _ _ Hids Hi) as [Hl Hb].
  set (q := take 4 (drop (j * 4) (ksuid_b id))).
  assert (length q = 4%nat) as Hq
    by (subst q; rewrite length_take, length_drop; lia).
  rewrite (be32_load_val _ _ q); [|subst q|done|subst q; auto with chronoid].
  - f_equal. subst q. rewrite val_slice by (done || lia).
    unfold limb, ksuid_val. rewrite Hl. change (256 ^ Z.of_nat 4) with (2 ^ 32).
    do 2 f_equal. change (2 ^ 32) with (256 ^ 4). rewrite <- Z.pow_mul_r by lia.
    f_equal. lia.
  - assert (take 20 (drop (i * 20) (concat (map ksuid_b ids))) = ksuid_b id) as <-.
    { apply concat_row; [|by rewrite list_lookup_fmap, Hi].
      apply Forall_map. eapply Forall_impl; [|exact Hids]. by intros x [Hx _]. }
    rewrite <- drop_drop. set (m := drop (i * 20) _).
    rewrite !take_drop_commute, take_take. do 2 f_equal. lia.
Qed.

Lemma avx2_pack_spec ids base :
  Forall wf_ksuid ids -> (base + 8 <= length ids)%nat ->
  avx2_pack ids base
  = Some (limb_regs 5 (map ksuid_val (take 4 (drop base ids)))
                      (map ksuid_val (take 4 (drop (base + 4) ids)))).
Proof.
  intros Hids Hlen. unfold avx2_pack, limb_regs. cbn [seq rev app].
  assert (forall j, (j < 5)%nat ->
    avx2_pack_limb (concat (map ksuid_b ids)) (base * CHRONOID_KSUID_BYTES) j
    = Some (map (limb (4 - j)) (map ksuid_val (take 4 (drop base ids))),
            map (limb (4 - j)) (map ksuid_val (take 4 (drop (base + 4) ids))))) as H.
  { intros j Hj. unfold avx2_pack_limb, CHRONOID_KSUID_BYTES.
    rewrite !map_map.
    assert (forall c f, (base + c + 4 <= length ids)%nat ->
      (forall i, f i = chronoid_be32_load (concat (map ksuid_b ids))
                         ((base + c + i) * 20 + j * 4)) ->
      mapM f (seq 0 4) = Some (map (fun id => limb (4 - j) (ksuid_val id))
                                 (take 4 (drop (base + c) ids)))) as Hc.
    { intros c f Hlc Hf. apply mapM_seq.
      - rewrite length_take, length_drop. lia.
      - intros i x Hx. apply lookup_take_Some in Hx as [Hx _].
        rewrite lookup_drop in Hx. rewrite Hf. by apply pack_load. }
    rewrite (Hc 4%nat) by (lia || (intros i; f_equal; lia)).
    rewrite (Hc 0%nat) by (lia || (intros i; f_equal; lia)).
    by rewrite Nat.add_0_r. }
  cbn [mapM]. rewrite !H by lia. done.
Qed.

(** ** Scatter and the column loop *)

(** What one column does to the eight rows. *)
Definition put_col (col : nat) (rows : list (list Z)) (rems : list Z) :=
  zip_with (fun row r => <[col:=b62_char r]> row) rows rems.

Lemma avx2_alphabet r :
  0 <= r < 62 -> k_avx2_b62_alphabet !! Z.to_nat r = Some (b62_char r).
Proof. intros Hr. apply lookup_app_l_Some. by apply b62_char_spec. Qed.

Lemma avx2_scatter_spec rows rems lane base col pre post :
  Forall (fun row => length row = 27%nat) rows -> Forall (fun r => 0 <= r < 62) rems ->
  length rows = length rems -> (col < 27)%nat ->
  length pre = ((base + lane) * 27)%nat ->
  avx2_scatter rems lane base col (pre ++ concat rows ++ post)
  = Some (pre ++ concat (put_col col rows rems) ++ post).
Proof.
  intros Hrows Hrems. revert rows Hrows lane pre.
  induction Hrems as [|r rems Hr Hrems IH]; intros rows Hrows lane pre Hlen Hcol Hpre.
  - destruct rows; [done|discriminate].
  - destruct Hrows as [|row rows Hrow Hrows]; [discriminate|].
    injection Hlen as Hlen. cbn [avx2_scatter].
    rewrite avx2_alphabet by done. cbn [mbind option_bind concat].
    unfold CHRONOID_KSUID_STRING_LEN. rewrite <- app_assoc.
    rewrite store_middle by (done || lia). cbn [mbind option_bind].
    rewrite app_assoc, IH; try done.
    + cbn [put_col zip_with concat]. by rewrite <- !app_assoc.
    + rewrite length_app, length_insert. lia.
Qed.

(** Rows after the columns below [ncol] have been written. *)
Definition put_cols (ncol : nat) (rows : list (list Z)) (Vs : list Z) :=
  zip_with (fun row V => map b62_char (to_digits 62 ncol V) ++ drop ncol row) rows Vs.

Lemma put_cols_S ncol rows Vs :
  Forall (fun row => length row = 27%nat) rows -> (ncol < 27)%nat ->
  put_cols ncol (put_col ncol rows (map (fun V => V mod 62) Vs))
    (map (fun V => V / 62) Vs)
  = put_cols (S ncol) rows Vs.
Proof.
  intros Hrows Hn. unfold put_cols, put_col. revert Vs.
  induction Hrows as [|row rows Hrow Hrows IH]; intros [|V Vs]; try done.
  cbn [map zip_with]. rewrite IH. f_equal. cbn [to_digits].
  rewrite drop_insert_cons, map_app, <- app_assoc by lia. done.
Qed.

Lemma put_col_rows col rows rems :
  Forall (fun row => length row = 27%nat) rows -> length rows = length rems ->
  Forall (fun row => length row = 27%nat) (put_col col rows rems) /\
  length (put_col col rows rems) = length rems.
Proof.
  intros Hrows Hl. unfold put_col. rewrite length_zip_with. split; [|lia].
  clear Hl. revert rems. induction Hrows as [|row rows Hrow Hrows IH]; intros [|r rems];
    constructor; [by rewrite length_insert|apply IH].
Qed.

Lemma avx2_col_loop_spec ncol lo hi base rows pre post :
  lanes4 lo -> lanes4 hi -> Forall (fun V => 0 <= V < 2 ^ 160) (lo ++ hi) ->
  Forall (fun row => length row = 27%nat) rows -> length rows = 8%nat ->
  (ncol <= 27)%nat -> length pre = (base * 27)%nat ->
  avx2_col_loop ncol (limb_regs 5 lo hi) avx2_mag base (pre ++ concat rows ++ post)
  = Some (pre ++ concat (put_cols ncol rows (lo ++ hi)) ++ post).
Proof.
  unfold lanes4. revert lo hi rows.
  induction ncol as [|ncol IH]; intros lo hi rows Hlo Hhi HV Hrows Hl Hn Hpre.
  - cbn [avx2_col_loop]. do 3 f_equal. unfold put_cols. cbn [to_digits map app].
    assert (length rows = length (lo ++ hi)) as E by (rewrite length_app; lia).
    clear - E. revert E. generalize (lo ++ hi). clear.
    induction rows as [|row rows IH]; intros [|V Vs]; try done.
    intros [= E]. cbn [zip_with concat]. by rewrite <- (IH Vs E), drop_0.
  - cbn [avx2_col_loop].
    change mm256_setzero_si256 with (replicate 4 0) at 1 2.
    rewrite (lanes_const 4 0 lo Hlo) at 1. rewrite (lanes_const 4 0 hi Hhi).
    rewrite limb_loop_spec by (done || lia).
    assert (forall v, Forall (fun V => 0 <= V < 2 ^ 160) v ->
      map (fun V => rest_val 5 (fun _ => 0) V / 62) v = map (fun V => V / 62) v /\
      map (fun V => rest_val 5 (fun _ => 0) V mod 62) v = map (fun V => V mod 62) v)
      as HR.
    { intros v Hv. split; apply map_ext_in; intros V Hin;
        (eapply Forall_forall in Hv; [|exact Hin]);
        unfold rest_val; rewrite Z.mul_0_l, Z.add_0_l, (Z.mod_small V); done. }
    apply Forall_app in HV as [HVlo HVhi].
    destruct (HR lo HVlo) as [-> ->], (HR hi HVhi) as [-> ->].
    rewrite <- map_app, avx2_scatter_spec.
    + cbn [mbind option_bind].
      destruct (put_col_rows ncol rows (map (fun V => V mod 62) (lo ++ hi)) Hrows) as [Hr Hr'].
      { rewrite length_map, length_app. lia. }
      rewrite IH, <- map_app, put_cols_S; try done; try lia.
      * by rewrite length_map.
      * by rewrite length_map.
      * rewrite <- map_app. apply Forall_map.
        eapply Forall_impl; [|apply Forall_app; split; [exact HVlo|exact HVhi]].
        intros V HV. cbv beta in *. split; [apply Z.div_pos; lia|].
        apply Z.div_lt_upper_bound; lia.
      * rewrite Hr', length_map, length_app. lia.
    + done.
    + apply Forall_map, Forall_true. intros V. apply Z.mod_pos_bound. lia.
    + rewrite length_map, length_app. lia.
    + lia.
    + lia.
Qed.

(** ** Blocks *)

(** After all 27 columns the rows are the reference texts. *)
Lemma put_cols_all rows ids :
  Forall (fun row => length row = 27%nat) rows -> length rows = length ids ->
  put_cols 27 rows (map ksuid_val ids) = map ksuid_text ids.
Proof.
  intros Hrows. revert ids. induction Hrows as [|row rows Hrow Hrows IH];
    intros [|id ids]; try done.
  intros [= Hl]. unfold put_cols in *. cbn [map zip_with].
  rewrite (IH ids Hl), drop_ge, app_nil_r by lia. done.
Qed.

Lemma avx2_block_spec ids base pre out :
  Forall wf_ksuid ids -> (base + 8 <= length ids)%nat ->
  length pre = (base * 27)%nat -> (8 * 27 <= length out)%nat ->
  (L ← avx2_pack ids base;
   avx2_col_loop CHRONOID_KSUID_STRING_LEN L avx2_mag base (pre ++ out))
  = Some (pre ++ concat (map ksuid_text (take 8 (drop base ids)))
          ++ drop (8 * 27) out).
Proof.
  intros Hids Hb Hpre Hout. rewrite avx2_pack_spec by done. cbn [mbind option_bind].
  rewrite <- (take_drop (8 * 27) out) at 1.
  destruct (split_rows (take (8 * 27) out) 27 8) as (rows & -> & Hrows & Hl).
  { rewrite length_take. lia. }
  change CHRONOID_KSUID_STRING_LEN with 27%nat.
  rewrite avx2_col_loop_spec; try done.
  - assert (take 4 (drop base ids) ++ take 4 (drop (base + 4) ids)
            = take 8 (drop base ids)) as E8
      by (rewrite <- (drop_drop ids 4 base);
          apply (take_take_drop (drop base ids) 4 4)).
    rewrite <- map_app, E8.
    rewrite put_cols_all; [done|done|].
    rewrite length_take, length_drop. lia.
  - unfold lanes4. rewrite length_map, length_take, length_drop. lia.
  - unfold lanes4. rewrite length_map, length_take, length_drop. lia.
  - apply Forall_app; split; apply Forall_map;
      (eapply Forall_impl; [|apply Forall_take, Forall_drop, Hids]);
      intros id Hid; by apply ksuid_val_range.
Qed.

Lemma avx2_block_loop_spec m fuel ids base pre out :
  Forall wf_ksuid ids -> (base + 8 * m <= length ids)%nat -> (m <= fuel)%nat ->
  length pre = (base * 27)%nat -> (8 * m * 27 <= length out)%nat ->
  avx2_block_loop fuel base (base + 8 * m) ids avx2_mag (pre ++ out)
  = Some (pre ++ ksuid_batch_ref (drop base ids) out (8 * m)).
Proof.
  intros Hids. revert fuel base pre out.
  induction m as [|m IH]; intros fuel base pre out Hb Hf Hpre Hout.
  - unfold ksuid_batch_ref. rewrite Nat.mul_0_r, Nat.add_0_r, rows_ref_0.
    destruct fuel; cbn [avx2_block_loop]; by rewrite Nat.ltb_irrefl.
  - destruct fuel as [|fuel]; [lia|]. cbn [avx2_block_loop].
    destruct (Nat.ltb_spec base (base + 8 * S m)); [|lia].
    pose proof (avx2_block_spec ids base pre out Hids ltac:(lia) Hpre ltac:(lia)) as Hblk.
    apply bind_Some in Hblk as (L & -> & Hblk). cbn [mbind option_bind].
    rewrite Hblk. cbn [mbind option_bind].
    replace (base + 8 * S m)%nat with (base + 8 + 8 * m)%nat by lia.
    rewrite app_assoc, IH; try lia.
    + rewrite <- app_assoc. f_equal. f_equal. unfold ksuid_batch_ref.
      rewrite <- drop_drop, rows_ref_app. f_equal. lia.
    + rewrite length_app, (rows_take_length 27 _ wf_ksuid length_ksuid_text);
        [lia|by apply Forall_drop|rewrite length_drop; lia].
    + rewrite length_drop. lia.
Qed.

Lemma ldiff_7 n : Nat.ldiff n 7 = (8 * (n / 8))%nat.
Proof.
  change 7%nat with (Nat.ones 3).
  rewrite Nat.ldiff_ones_r, Nat.shiftr_div_pow2, Nat.shiftl_mul_pow2. cbn. lia.
Qed.

(** The AVX2 kernel meets the contract of the scalar one. *)
Lemma ksuid_batch_avx2_spec ids out n :
  ksuid_batch_pre ids out n ->
  chronoid_ksuid_string_batch_avx2 ids out n = Some (ksuid_batch_ref ids out n).
Proof.
  intros (Hids & Hn & Ho). unfold chronoid_ksuid_string_batch_avx2.
  rewrite ldiff_7. set (m := (n / 8)%nat).
  assert (8 * m <= n)%nat as Hm by (subst m; apply Nat.Div0.mul_div_le).
  pose proof (avx2_block_loop_spec m n ids 0 [] out Hids ltac:(lia) ltac:(lia)
                eq_refl ltac:(lia)) as H.
  cbn [app Nat.add] in H. fold avx2_mag. rewrite H. cbn [mbind option_bind].
  rewrite drop_0. clear H.
  destruct (Nat.ltb_spec (8 * m) n).
  - apply (rows_tail 27 ksuid_text wf_ksuid length_ksuid_text); [done|lia|].
    apply ksuid_batch_scalar_spec.
  - by replace (8 * m)%nat with n by lia.
Qed.

(** ** Properties *)

(** C10: the bulk AVX2 kernel is the scalar loop.  For every number of ids, with
    any tail below eight, [chronoid_ksuid_string_batch_avx2] writes exactly
    what [chronoid_ksuid_string_batch_scalar] writes: the text of id [i] in
    row [i], and nothing beyond the [n] rows. *)
Theorem ksuid_batch_avx2_eq_scalar ids out n :
  Forall wf_ksuid ids -> (n <= length ids)%nat -> (n * 27 <= length out)%nat ->
  chronoid_ksuid_string_batch_avx2 ids out n
  = chronoid_ksuid_string_batch_scalar ids out n /\
  exists r, chronoid_ksuid_string_batch_avx2 ids out n = Some r /\
    length r = length out /\ drop (n * 27) r = drop (n * 27) out /\
    forall i id buf, (i < n)%nat -> ids !! i = Some id -> length buf = 27%nat ->
      chronoid_ksuid_format id buf = Some (take 27 (drop (i * 27) r)).
Proof.
  intros Hids Hn Ho. assert (ksuid_batch_pre ids out n) as Hpre by done.
  rewrite ksuid_batch_avx2_spec, ksuid_batch_scalar_spec by done.
  split; [done|]. eexists. split; [done|]. by apply ksuid_batch_ref_rows.
Qed.

Lemma ksuid_batch_avx2_eq_scalar_witness :
  let ids := replicate 9 CHRONOID_KSUID_MAX in
  let out := replicate 250 0 in
  chronoid_ksuid_string_batch_avx2 ids out 9
  = chronoid_ksuid_string_batch_scalar ids out 9 /\
  exists r, chronoid_ksuid_string_batch_avx2 ids out 9 = Some r /\
    length r = length out /\ drop (9 * 27) r = drop (9 * 27) out /\
    forall i id buf, (i < 9)%nat -> ids !! i = Some id -> length buf = 27%nat ->
      chronoid_ksuid_format id buf = Some (take 27 (drop (i * 27) r)).
Proof.
  apply (ksuid_batch_avx2_eq_scalar (replicate 9 CHRONOID_KSUID_MAX) (replicate 250 0) 9).
  - apply Forall_replicate, ksuid_max_wf.
  - vm_compute. lia.
  - vm_compute. lia.
Defined.

(** Division by 62 without dividing.  On every register, whatever the four
    64-bit lanes hold, [chronoid_ksuid_divmod62_avx2] with the magic constant
    yields exactly quotient and remainder by 62 in each lane: the reciprocal
    underestimates by at most one, and the correction step recovers it. *)
Theorem divmod62_avx2_exact (value : list Z) :
  length value = 4%nat -> Forall (uint 64) value ->
  chronoid_ksuid_divmod62_avx2 value (mm256_set1_epi64x CHRONOID_KSUID_DIV62_M)
  = (map (fun x => x / 62) value, map (fun x => x mod 62) value).
Proof.
  intros Hl Hv. rewrite <- (map_id value) at 1. by apply divmod62_lanes.
Qed.

Lemma divmod62_avx2_exact_witness :
  chronoid_ksuid_divmod62_avx2 [0; 61; 62; 2 ^ 64 - 1]
    (mm256_set1_epi64x CHRONOID_KSUID_DIV62_M)
  = (map (fun x => x / 62) [0; 61; 62; 2 ^ 64 - 1],
     map (fun x => x mod 62) [0; 61; 62; 2 ^ 64 - 1]).
Proof.
  apply (divmod62_avx2_exact [0; 61; 62; 2 ^ 64 - 1]); [reflexivity|].
  repeat constructor; unfold uint; lia.
Defined.
