(* ===== verification/Dispatch.v ===== *)
(** * Run-time choice of a bulk kernel: ksuid/encode_batch.c, uuidv7/hex_batch.c

    Both files hold the same dispatcher: an atomic function pointer that starts
    at a trampoline; the trampoline asks the environment and the CPU, stores its
    choice and makes the call.  It is modelled once, over the interface
    [StringBatch] the two kernel pairs implement, first as a function on the
    pointer, then as a step relation in which threads interleave. *)
From Stdlib Require Import String.
From S2P Require Import Prelude.

(** What a pair of bulk kernels promises: under the precondition both write
    the reference result. *)
Class StringBatch (Id : Type) := {
  batch_scalar : list Id -> list Z -> nat -> option (list Z);
  batch_avx2 : list Id -> list Z -> nat -> option (list Z);
  batch_pre : list Id -> list Z -> nat -> Prop;
  batch_ref : list Id -> list Z -> nat -> list Z;
  batch_scalar_ok : forall ids out n, batch_pre ids out n ->
    batch_scalar ids out n = Some (batch_ref ids out n);
  batch_avx2_ok : forall ids out n, batch_pre ids out n ->
    batch_avx2 ids out n = Some (batch_ref ids out n);
  batch_ref_0 : forall ids out, batch_ref ids out 0 = out
}.

(** ** The two probes *)

(** [getenv]: [None] when unset, else the characters before the NUL. *)
Definition chronoid_force_scalar_env (v : option (list Z)) : bool :=
  match v with
  | None => false
  | Some v =>
      if bool_decide (v = []) then false
      else if bool_decide (v = str "0") || bool_decide (v = str "false")
              || bool_decide (v = str "FALSE") then false
      else true
  end.

(** What the CPU answers: [__builtin_cpu_supports ("avx2")], EBX of leaf 7 from
    [__get_cpuid_count] ([None] when the leaf does not exist), and, for the
    other compiler, EBX from [__cpuidex] and the result of [_xgetbv (0)]. *)
Record cpu_t := Cpu {
  builtin_avx2 : bool;
  cpuid_count_7_ebx : option Z;
  cpuidex_7_ebx : Z;
  xgetbv_0 : Z
}.

Inductive compiler := GNUC | MSVC | OTHER_CC.

Definition chronoid_cpu_supports_avx2 (cc : compiler) (cpu : cpu_t) : bool :=
  match cc with
  | GNUC =>
      if negb (builtin_avx2 cpu) then false
      else match cpuid_count_7_ebx cpu with
           | None => false
           | Some ebx => negb (Z.land ebx (Z.shiftl 1 5) =? 0)
           end
  | MSVC =>
      if Z.land (cpuidex_7_ebx cpu) (Z.shiftl 1 5) =? 0 then false
      else Z.land (xgetbv_0 cpu) 0x6 =? 0x6
  | OTHER_CC => false
  end.

(** The values the pointer takes. *)
Inductive batch_fn := INIT_TRAMPOLINE | BATCH_SCALAR | BATCH_AVX2.

#[export] Instance batch_fn_eq_dec : EqDecision batch_fn.
Proof. solve_decision. Defined.

(** The build and the machine: is the AVX2 kernel compiled in, by which
    compiler, on which CPU. *)
Record host := Host { have_avx2 : bool; host_cc : compiler; host_cpu : cpu_t }.

Definition resolve (h : host) (env : option (list Z)) : batch_fn :=
  if have_avx2 h then
    if negb (chronoid_force_scalar_env env)
       && chronoid_cpu_supports_avx2 (host_cc h) (host_cpu h)
    then BATCH_AVX2 else BATCH_SCALAR
  else BATCH_SCALAR.

Section Dispatcher.
Context {Id : Type} `{StringBatch Id} (h : host).

(** Calling a kernel.  A trampoline that resolved to itself would call itself
    without end: no result. *)
Definition run_kernel (f : batch_fn) (ids : list Id) (out : list Z) (n : nat)
    : option (list Z) :=
  match f with
  | BATCH_SCALAR => batch_scalar ids out n
  | BATCH_AVX2 => batch_avx2 ids out n
  | INIT_TRAMPOLINE => None
  end.

(** Returns the buffer and the new value of the pointer. *)
Definition string_batch_init_trampoline (env : option (list Z)) (ids : list Id)
    (out : list Z) (n : nat) : option (list Z * batch_fn) :=
  let resolved := resolve h env in
  out ← run_kernel resolved ids out n;
  Some (out, resolved).

Definition string_batch (env : option (list Z)) (g : batch_fn) (ids : list Id)
    (out : list Z) (n : nat) : option (list Z * batch_fn) :=
  if (n =? 0)%nat then Some (out, g)
  else match g with
       | INIT_TRAMPOLINE => string_batch_init_trampoline env ids out n
       | f => out ← run_kernel f ids out n; Some (out, g)
       end.

(** ** Threads *)

Record call := Call { call_ids : list Id; call_out : list Z; call_n : nat }.

Definition call_ok (c : call) : Prop := batch_pre (call_ids c) (call_out c) (call_n c).
Definition call_ref (c : call) : list Z := batch_ref (call_ids c) (call_out c) (call_n c).

(** Where a thread is in [string_batch]: about to load the pointer, holding the
    loaded pointer, in the trampoline with its choice not yet stored, about to
    call the function the trampoline chose or the pointer gave, or returned. *)
Inductive thread :=
  | Entered (c : call)
  | Loaded (c : call) (f : batch_fn)
  | Resolved (c : call) (f : batch_fn)
  | Running (c : call) (f : batch_fn)
  | Returned (c : call) (out : list Z).

(** The process: the atomic pointer, the environment variable, the threads,
    and how often the variable has been read. *)
Record proc := Proc {
  g_batch_impl : batch_fn;
  proc_env : option (list Z);
  getenv_count : nat;
  threads : list thread
}.

(** One step of one thread: its new state, the pointer, and how often it read
    the environment variable.  A thread that calls the trampoline, from the loaded
    pointer or from the trampoline itself, goes through it (again); a thread whose
    kernel gives no result has no step. *)
Definition thread_step (env : option (list Z)) (g : batch_fn) (t : thread)
    : option (thread * batch_fn * nat) :=
  match t with
  | Entered c =>
      if (call_n c =? 0)%nat then Some (Returned c (call_out c), g, 0%nat)
      else Some (Loaded c g, g, 0%nat)
  | Loaded c INIT_TRAMPOLINE | Running c INIT_TRAMPOLINE =>
      Some (Resolved c (resolve h env), g, if have_avx2 h then 1 else 0)%nat
  | Loaded c f => Some (Running c f, g, 0%nat)
  | Resolved c f => Some (Running c f, f, 0%nat)
  | Running c f =>
      out ← run_kernel f (call_ids c) (call_out c) (call_n c);
      Some (Returned c out, g, 0%nat)
  | Returned _ _ => None
  end.

Inductive step : proc -> proc -> Prop :=
  | step_thread g env k ts i t t' g' r :
      ts !! i = Some t -> thread_step env g t = Some (t', g', r) ->
      step (Proc g env k ts) (Proc g' env (k + r) (<[i:=t']> ts))
  | step_call g env k ts c :
      call_ok c -> step (Proc g env k ts) (Proc g env k (ts ++ [Entered c]))
  | step_setenv g env env' k ts :
      step (Proc g env k ts) (Proc g env' k ts).

Inductive reachable : proc -> Prop :=
  | reach_start env : reachable (Proc INIT_TRAMPOLINE env 0 [])
  | reach_step p q : reachable p -> step p q -> reachable q.

(** ** Invariant *)

Definition usable (f : batch_fn) : Prop :=
  match f with
  | INIT_TRAMPOLINE => False
  | BATCH_SCALAR => True
  | BATCH_AVX2 =>
      have_avx2 h = true /\ chronoid_cpu_supports_avx2 (host_cc h) (host_cpu h) = true
  end.

Definition pointer_ok (g : batch_fn) : Prop := g = INIT_TRAMPOLINE \/ usable g.

Definition thread_inv (t : thread) : Prop :=
  match t with
  | Entered c => call_ok c
  | Loaded c f => call_ok c /\ pointer_ok f
  | Resolved c f | Running c f => call_ok c /\ usable f
  | Returned c out => call_ok c /\ out = call_ref c
  end.

Definition proc_inv (p : proc) : Prop :=
  pointer_ok (g_batch_impl p) /\ Forall thread_inv (threads p).

Lemma resolve_usable env : usable (resolve h env).
Proof.
  unfold resolve. destruct (have_avx2 h) eqn:E1; [|done].
  destruct (chronoid_force_scalar_env env); [done|].
  destruct (chronoid_cpu_supports_avx2 _ _) eqn:E2; done.
Qed.

Lemma run_usable f c :
  call_ok c -> usable f ->
  run_kernel f (call_ids c) (call_out c) (call_n c) = Some (call_ref c).
Proof.
  intros Hc Hf. destruct f; [done|by apply batch_scalar_ok|by apply batch_avx2_ok].
Qed.

Lemma thread_step_inv env g t t' g' r :
  pointer_ok g -> thread_inv t -> thread_step env g t = Some (t', g', r) ->
  pointer_ok g' /\ thread_inv t'.
Proof using Type.
  intros Hg Ht. destruct t as [c|c f|c f|c f|c o]; cbn [thread_step].
  - destruct (Nat.eqb_spec (call_n c) 0) as [E|]; intros [= <- <- <-]; split; try done.
    split; [done|]. unfold call_ref. by rewrite E, batch_ref_0.
  - destruct Ht as [Hc Hf]. destruct f; intros [= <- <- <-]; split; try done.
    + split; [done|apply resolve_usable].
    + split; [done|]. by destruct Hf.
  - destruct Ht as [Hc Hf]. intros [= <- <- <-]. split; [by right|done].
  - destruct Ht as [Hc Hf]. rewrite run_usable by done.
    destruct f; [done|..]; intros [= <- <- <-]; by split.
  - done.
Qed.

Lemma reachable_inv p : reachable p -> proc_inv p.
Proof using Type.
  induction 1 as [env|p q Hp [IHg IHt] Hs]; [by split; [left|constructor]|].
  destruct Hs as [g env k ts i t t' g' r Hi Hstep|g env k ts c Hc|g env env' k ts];
    cbn [g_batch_impl threads] in *.
  - pose proof (Forall_lookup_1 _ _ _ _ IHt Hi) as Ht.
    destruct (thread_step_inv _ _ _ _ _ _ IHg Ht Hstep) as [Hg' Ht'].
    split; [done|]. by apply Forall_insert.
  - split; [done|]. apply Forall_app. split; [done|]. by constructor.
  - by split.
Qed.

(** One call of the dispatcher, alone: the result and the pointer after it. *)
Lemma string_batch_spec env g ids out n :
  batch_pre ids out n -> pointer_ok g ->
  exists g', string_batch env g ids out n = Some (batch_ref ids out n, g') /\
    g' = (if (n =? 0)%nat then g
          else if bool_decide (g = INIT_TRAMPOLINE) then resolve h env else g) /\
    pointer_ok g'.
Proof using Type.
  intros Hpre Hg.
  assert (forall f, usable f -> run_kernel f ids out n = Some (batch_ref ids out n))
    as Hrun by (intros f Hf; exact (run_usable f (Call ids out n) Hpre Hf)).
  unfold string_batch, string_batch_init_trampoline.
  destruct (Nat.eqb_spec n 0) as [->|Hn0].
  { exists g. by rewrite batch_ref_0. }
  destruct Hg as [->|Hu].
  - exists (resolve h env). rewrite Hrun by apply resolve_usable.
    rewrite bool_decide_eq_true_2 by done.
    split_and!; [done|done|]. right. apply resolve_usable.
  - exists g. assert (g <> INIT_TRAMPOLINE) as Hne by (by intros ->).
    rewrite bool_decide_eq_false_2 by done.
    split_and!; [|done|by right]. destruct g; [done|by rewrite Hrun..].
Qed.

(** Own steps a thread has left. *)
Definition steps_left (t : thread) : nat :=
  match t with
  | Entered _ => 4
  | Loaded _ _ => 3
  | Resolved _ _ => 2
  | Running _ _ => 1
  | Returned _ _ => 0
  end.

(** The call a thread makes. *)
Definition thread_call (t : thread) : call :=
  match t with
  | Entered c | Loaded c _ | Resolved c _ | Running c _ | Returned c _ => c
  end.

(** A thread as the invariant has it can always step, until it has returned,
    and comes closer to that with every step. *)
Lemma thread_step_progress env g t :
  thread_inv t ->
  (exists out, t = Returned (thread_call t) out) \/
  (exists t' g' r, thread_step env g t = Some (t', g', r)).
Proof using Type.
  destruct t as [c|c f|c f|c f|c o]; cbn [thread_step thread_inv thread_call];
    [..|by left; eexists]; right.
  - destruct (_ =? _)%nat; by eexists _, _, _.
  - destruct f; by eexists _, _, _.
  - by eexists _, _, _.
  - destruct H0 as [Hc Hf]. rewrite run_usable by done. destruct f; by eexists _, _, _.
Qed.

Lemma thread_step_measure env g t t' g' r :
  thread_inv t -> thread_step env g t = Some (t', g', r) ->
  (steps_left t' < steps_left t)%nat /\ thread_call t' = thread_call t.
Proof using Type.
  destruct t as [c|c f|c f|c f|c o]; cbn [thread_step thread_inv].
  - destruct (_ =? _)%nat; intros _ [= <- <- <-]; cbn; by split; [lia|].
  - destruct f; intros _ [= <- <- <-]; cbn; by split; [lia|].
  - intros _ [= <- <- <-]; cbn; by split; [lia|].
  - intros [Hc Hf]. rewrite run_usable by done.
    destruct f; [done|..]; intros [= <- <- <-]; cbn; by split; [lia|].
  - done.
Qed.

(** ** Interleavings, as one thread sees them *)

(** A step of the process in which thread [i] moves. *)
Definition own_step (i : nat) (p q : proc) : Prop :=
  step p q /\ threads q !! i <> threads p !! i.

(** The process goes from [p] to [q], and [k] of the steps are steps of
    thread [i]; the others are of any other thread, new calls, or changes of the
    environment variable. *)
Inductive interleaved (i : nat) (p : proc) : nat -> proc -> Prop :=
  | interleaved_refl : interleaved i p 0 p
  | interleaved_own k q r :
      interleaved i p k q -> own_step i q r -> interleaved i p (S k) r
  | interleaved_other k q r :
      interleaved i p k q -> step q r -> threads r !! i = threads q !! i ->
      interleaved i p k r.

Lemma interleaved_reachable i p k q : interleaved i p k q -> reachable p -> reachable q.
Proof.
  intros Hi Hp. induction Hi as [|k q r _ IH [Hs _]|k q r _ IH Hs _]; eauto using reach_step.
Qed.

(** An own step is a step of that thread. *)
Lemma own_step_thread i p q t :
  own_step i p q -> threads p !! i = Some t ->
  exists t' g' r, thread_step (proc_env p) (g_batch_impl p) t = Some (t', g', r) /\
    threads q !! i = Some t'.
Proof.
  intros [Hs Hne] Hi.
  destruct Hs as [g env k ts j u u' g' r Hj Hstep|g env k ts c Hc|g env env' k ts];
    cbn [threads proc_env g_batch_impl] in *.
  - destruct (decide (j = i)) as [->|Hji].
    + rewrite Hi in Hj. injection Hj as <-. exists u', g', r. split; [done|].
      apply list_lookup_insert_eq. by apply lookup_lt_Some in Hi.
    + by rewrite list_lookup_insert_ne in Hne.
  - rewrite lookup_app_l in Hne by (by apply lookup_lt_Some in Hi). done.
  - done.
Qed.

(** Along an interleaving the call stays the same and every own step is paid for. *)
Lemma interleaved_measure i p k q t :
  reachable p -> interleaved i p k q -> threads p !! i = Some t ->
  exists t', threads q !! i = Some t' /\ thread_call t' = thread_call t /\
    (k + steps_left t' <= steps_left t)%nat.
Proof using Type.
  intros Hp Hi Ht. induction Hi as [|k q r Hi IH Hown|k q r Hi IH Hs Hsame].
  - by exists t.
  - destruct IH as (u & Hu & Hc & Hk).
    destruct (reachable_inv q (interleaved_reachable _ _ _ _ Hi Hp)) as [_ Hall].
    pose proof (Forall_lookup_1 _ _ _ _ Hall Hu) as Hinv.
    destruct (own_step_thread _ _ _ _ Hown Hu) as (u' & g' & n & Es & Hu').
    destruct (thread_step_measure _ _ _ _ _ _ Hinv Es) as [Hlt Hc'].
    exists u'. split; [done|]. split; [congruence|lia].
  - destruct IH as (u & Hu & Hc & Hk). exists u. by rewrite Hsame.
Qed.
End Dispatcher.

Arguments Proc {Id}.
Arguments Call {Id}.

(** ** Properties *)

(** Concurrent first calls are harmless.  In every reachable state of the
    dispatcher, whatever the interleaving of threads and changes of the
    environment variable: a call that has returned wrote exactly the reference
    result; a thread that runs the AVX2 kernel does so on a CPU that passed the
    probe; and once the pointer has left the trampoline no step puts it back. *)
Theorem dispatch_safe {Id} `{StringBatch Id} h (p : proc) :
  reachable h p ->
  (forall i c out, threads p !! i = Some (Returned c out) ->
     out = batch_ref (call_ids c) (call_out c) (call_n c)) /\
  (forall i c, threads p !! i = Some (Running c BATCH_AVX2) ->
     have_avx2 h = true /\ chronoid_cpu_supports_avx2 (host_cc h) (host_cpu h) = true) /\
  (forall q, step h p q -> g_batch_impl p <> INIT_TRAMPOLINE ->
     g_batch_impl q <> INIT_TRAMPOLINE).
Proof.
  intros Hp. destruct (reachable_inv h p Hp) as [Hg Ht]. split_and!.
  - intros i c out Hi. by apply (Forall_lookup_1 _ _ _ _ Ht) in Hi as [_ ->].
  - intros i c Hi. by apply (Forall_lookup_1 _ _ _ _ Ht) in Hi as [_ Hu].
  - intros q Hs Hne.
    destruct Hs as [g env k ts i t t' g' r Hi Hstep|g env k ts c Hc|g env env' k ts];
      cbn [g_batch_impl threads] in *; [|done..].
    pose proof (Forall_lookup_1 _ _ _ _ Ht Hi) as Hti.
    destruct t as [c|c f|c f|c f|c o]; cbn [thread_step] in Hstep.
    + destruct (_ =? _)%nat; by injection Hstep as <- <- <-.
    + destruct f; by injection Hstep as <- <- <-.
    + injection Hstep as <- <- <-. destruct Hti as [_ Hu]. by intros ->.
    + destruct Hti as [Hc Hu]. rewrite (run_usable h) in Hstep by done.
      destruct f; by injection Hstep as <- <- <-.
    + done.
Qed.

(** C21: no call waits for another, and every call returns the right result.
    Take any reachable state and any thread in it, and let the process run on in
    any interleaving with the other threads, with new calls and with changes of
    the environment variable.  The thread is still at the same call; it has made
    at most four steps; and it has either returned, with exactly the reference
    result, or it can make its next step at once, by itself.  So the fourth own
    step at the latest has returned the result. *)
Theorem dispatch_wait_free {Id} `{StringBatch Id} h (p : proc) i t k q :
  reachable h p -> threads p !! i = Some t -> interleaved h i p k q ->
  (k <= steps_left t <= 4)%nat /\
  exists t', threads q !! i = Some t' /\ thread_call t' = thread_call t /\
    ((exists out, t' = Returned (thread_call t) out /\ out = call_ref (thread_call t)) \/
     ((k < steps_left t)%nat /\ exists r, own_step h i q r)).
Proof.
  intros Hp Ht Hi. destruct (interleaved_measure h i p k q t Hp Hi Ht) as (t' & Ht' & Hc & Hk).
  split; [split; [lia|destruct t; cbn; lia]|]. exists t'. split; [done|]. split; [done|].
  destruct (reachable_inv h q (interleaved_reachable _ _ _ _ _ Hi Hp)) as [_ Hall].
  pose proof (Forall_lookup_1 _ _ _ _ Hall Ht') as Hinv. rewrite <- Hc.
  destruct (thread_step_progress h (proc_env q) (g_batch_impl q) t' Hinv)
    as [[out E]|(u & g' & n & Es)].
  - left. exists out. split; [done|]. rewrite E in Hinv. apply Hinv.
  - right. destruct (thread_step_measure h _ _ _ _ _ _ Hinv Es) as [Hlt _].
    split; [lia|]. destruct q as [g env m ts]. eexists. split; [by eapply step_thread|].
    cbn [threads] in *. rewrite list_lookup_insert_eq by (by apply lookup_lt_Some in Ht').
    rewrite Ht'. intros [= ->]. lia.
Qed.

(** Which values of CHRONOID_FORCE_SCALAR pin the scalar kernel: exactly
    the set values other than the empty string, "0", "false" and "FALSE".  On
    any host, an unforced first call picks AVX2 exactly when the kernel is
    compiled in and the CPU passes the probe. *)
Theorem force_scalar_env_spec (h : host) (env : option (list Z)) :
  (chronoid_force_scalar_env env = true <->
   exists v, env = Some v /\ v <> [] /\ v <> str "0" /\ v <> str "false"
             /\ v <> str "FALSE") /\
  (resolve h env = BATCH_AVX2 <->
   have_avx2 h = true /\ chronoid_force_scalar_env env = false /\
   chronoid_cpu_supports_avx2 (host_cc h) (host_cpu h) = true) /\
  resolve h env <> INIT_TRAMPOLINE.
Proof.
  split.
  - destruct env as [v|]; cbn [chronoid_force_scalar_env];
      [|by split; [|intros (v & ? & _)]].
    repeat case_bool_decide; cbn [orb]; split; try done;
      [intros (u & [= <-] & ?); tauto..|].
    intros _. by exists v.
  - unfold resolve. destruct (have_avx2 h), (chronoid_force_scalar_env env),
      (chronoid_cpu_supports_avx2 (host_cc h) (host_cpu h)); cbn;
      split_and!; try done; by split; intros; destruct_and?.
Qed.
