(* ===== verification/EncodeDispatch.v ===== *)
(** * The KSUID bulk encoder as callers see it: chronoid/ksuid/encode_batch.c

    The dispatcher of Dispatch.v over the two KSUID kernels. *)
From Stdlib Require Import String.
From S2P Require Import Prelude Radix KsuidTypes Base62 Ksuid Rows.
From S2P Require Import EncodeBatch EncodeAvx2 Dispatch.

#[export] Program Instance ksuid_string_batch_kernels : StringBatch chronoid_ksuid_t := {
  batch_scalar := chronoid_ksuid_string_batch_scalar;
  batch_avx2 := chronoid_ksuid_string_batch_avx2;
  batch_pre := ksuid_batch_pre;
  batch_ref := ksuid_batch_ref
}.
Next Obligation. intros. by apply ksuid_batch_scalar_spec. Qed.
Next Obligation. intros. by apply ksuid_batch_avx2_spec. Qed.
Next Obligation. intros. apply rows_ref_0. Qed.

Definition chronoid_ksuid_string_batch_init_trampoline (h : host)
    (env : option (list Z)) (ids : list chronoid_ksuid_t) (out_27n : list Z) (n : nat) :=
  string_batch_init_trampoline h env ids out_27n n.

Definition chronoid_ksuid_string_batch (h : host) (env : option (list Z))
    (g_batch_impl : batch_fn) (ids : list chronoid_ksuid_t) (out_27n : list Z)
    (n : nat) : option (list Z * batch_fn) :=
  string_batch h env g_batch_impl ids out_27n n.

(** C22: the bulk encoder agrees with formatting one by one.  Whatever kernel
    the pointer names or the trampoline picks, [chronoid_ksuid_string_batch]
    returns; row [i] is what [chronoid_ksuid_format] writes for id [i]; the
    rest of the buffer is untouched; and the pointer names a kernel the host
    can run, chosen by the environment variable on the first call. *)
Theorem ksuid_string_batch_correct h env g ids out n :
  Forall wf_ksuid ids -> (n <= length ids)%nat -> (n * 27 <= length out)%nat ->
  pointer_ok h g ->
  exists r g', chronoid_ksuid_string_batch h env g ids out n = Some (r, g') /\
    g' = (if (n =? 0)%nat then g
          else if bool_decide (g = INIT_TRAMPOLINE) then resolve h env else g) /\
    pointer_ok h g' /\
    drop (n * 27) r = drop (n * 27) out /\
    forall i id buf, (i < n)%nat -> ids !! i = Some id -> length buf = 27%nat ->
      chronoid_ksuid_format id buf = Some (take 27 (drop (i * 27) r)).
Proof.
  intros Hids Hn Ho Hg. exists (ksuid_batch_ref ids out n).
  assert (ksuid_batch_pre ids out n) as Hpre by done.
  destruct (ksuid_batch_ref_rows ids out n Hpre) as (_ & Hd & Hf).
  destruct (string_batch_spec (H := ksuid_string_batch_kernels) h env g ids out n Hpre Hg) as (g' & Hr & Hg' & Hok).
  exists g'. by split_and!.
Qed.

(** A host that passes the probes, and the example calls of the witnesses. *)
Definition avx2_host : host := Host true GNUC (Cpu true (Some 32) 32 6).
Definition one_call : call :=
  Call [CHRONOID_KSUID_MAX] (replicate 27 0) 1.

Lemma one_call_ok : call_ok one_call.
Proof.
  split; [constructor; [apply ksuid_max_wf|constructor]|].
  cbn [call_ids call_out call_n one_call]. rewrite length_replicate. cbn. lia.
Qed.

Lemma ksuid_string_batch_correct_witness :
  let ids := replicate 9 CHRONOID_KSUID_MAX in
  let out := replicate 250 0 in
  exists r g', chronoid_ksuid_string_batch avx2_host None INIT_TRAMPOLINE ids out 9
               = Some (r, g') /\
    g' = (if (9 =? 0)%nat then INIT_TRAMPOLINE
          else if bool_decide (INIT_TRAMPOLINE = INIT_TRAMPOLINE)
               then resolve avx2_host None else INIT_TRAMPOLINE) /\
    pointer_ok avx2_host g' /\
    drop (9 * 27) r = drop (9 * 27) out /\
    forall i id buf, (i < 9)%nat -> ids !! i = Some id -> length buf = 27%nat ->
      chronoid_ksuid_format id buf = Some (take 27 (drop (i * 27) r)).
Proof.
  apply (ksuid_string_batch_correct avx2_host None INIT_TRAMPOLINE
           (replicate 9 CHRONOID_KSUID_MAX) (replicate 250 0) 9).
  - apply Forall_replicate, ksuid_max_wf.
  - vm_compute. lia.
  - vm_compute. lia.
  - left. reflexivity.
Defined.

(** Two threads that both load the pointer before either stores it. *)
Definition race_env : option (list Z) := Some (str "1").
Definition race_proc : proc :=
  Proc BATCH_SCALAR race_env 2 [Running one_call BATCH_SCALAR;
                                Running one_call BATCH_SCALAR].

Lemma race_reachable : reachable avx2_host race_proc.
Proof.
  unfold race_proc. set (E := race_env).
  eapply reach_step; [eapply reach_step; [eapply reach_step; [eapply reach_step;
    [eapply reach_step; [eapply reach_step; [eapply reach_step; [eapply reach_step;
    [eapply reach_step; [apply (reach_start _ None)|]|]|]|]|]|]|]|]|].
  - apply (step_setenv _ _ None E).
  - apply (step_call _ _ _ _ _ one_call), one_call_ok.
  - apply (step_call _ _ _ _ _ one_call), one_call_ok.
  - by apply (step_thread _ _ E _ _ 0 (Entered one_call) (Loaded one_call INIT_TRAMPOLINE)).
  - by apply (step_thread _ _ E _ _ 1 (Entered one_call) (Loaded one_call INIT_TRAMPOLINE)).
  - by apply (step_thread _ _ E _ _ 0 (Loaded one_call INIT_TRAMPOLINE)
               (Resolved one_call BATCH_SCALAR)).
  - by apply (step_thread _ _ E _ _ 1 (Loaded one_call INIT_TRAMPOLINE)
               (Resolved one_call BATCH_SCALAR)).
  - by apply (step_thread _ _ E _ _ 0 (Resolved one_call BATCH_SCALAR)
               (Running one_call BATCH_SCALAR)).
  - exact (step_thread avx2_host BATCH_SCALAR E 2
             [Running one_call BATCH_SCALAR; Resolved one_call BATCH_SCALAR]
             1 (Resolved one_call BATCH_SCALAR) (Running one_call BATCH_SCALAR)
             BATCH_SCALAR 0 eq_refl eq_refl).
Qed.

(** The state one step later: the first thread has returned. *)
Definition race_result : list Z :=
  default [] (run_kernel BATCH_SCALAR (call_ids one_call) (call_out one_call) (call_n one_call)).

Lemma race_run :
  run_kernel BATCH_SCALAR (call_ids one_call) (call_out one_call) (call_n one_call)
  = Some race_result.
Proof. unfold race_result. by rewrite (run_usable avx2_host) by (done || apply one_call_ok). Qed.

Definition race_done : proc :=
  Proc BATCH_SCALAR race_env 2 [Returned one_call race_result; Running one_call BATCH_SCALAR].

Lemma race_last_step : own_step avx2_host 0 race_proc race_done.
Proof.
  split; [|discriminate].
  apply (step_thread avx2_host BATCH_SCALAR race_env 2
           [Running one_call BATCH_SCALAR; Running one_call BATCH_SCALAR]
           0 (Running one_call BATCH_SCALAR) (Returned one_call race_result)
           BATCH_SCALAR 0 eq_refl).
  cbn [thread_step]. by rewrite race_run.
Qed.

Lemma race_returned : reachable avx2_host race_done.
Proof. eapply reach_step; [exact race_reachable|apply race_last_step]. Qed.

Lemma dispatch_safe_witness :
  race_result = batch_ref (call_ids one_call) (call_out one_call) (call_n one_call).
Proof.
  apply (proj1 (dispatch_safe avx2_host _ race_returned) 0%nat one_call). reflexivity.
Defined.

(** In the race, thread 0 stands before its kernel; its next step returns. *)
Lemma dispatch_wait_free_witness :
  (1 <= steps_left (Running one_call BATCH_SCALAR) <= 4)%nat /\
  exists t', threads race_done !! 0%nat = Some t' /\ thread_call t' = one_call /\
    ((exists out, t' = Returned one_call out /\ out = call_ref one_call) \/
     ((1 < steps_left (Running one_call BATCH_SCALAR))%nat /\
      exists r, own_step avx2_host 0 race_done r)).
Proof.
  exact (dispatch_wait_free avx2_host race_proc 0 (Running one_call BATCH_SCALAR) 1 race_done
           race_reachable eq_refl
           (interleaved_own _ _ _ _ _ _ (interleaved_refl _ _ _) race_last_step)).
Defined.

(** The environment variable may be read more than once.  The comment on
    [chronoid_force_scalar_env] says the variable "is consulted exactly once";
    two threads that both enter before either has stored its choice each read
    it. *)
Theorem force_scalar_env_read_twice :
  exists p : @proc chronoid_ksuid_t, reachable avx2_host p /\ getenv_count p = 2%nat.
Proof.
  exists race_proc. split; [exact race_reachable|done].
Qed.
