(* ===== verification/Hex.v ===== *)
(** * Hexadecimal codec of the UUID text form: chronoid/uuidv7/hex.c

    16 bytes and the 36 characters of the 8-4-4-4-12 layout.  The encoder is
    chosen at compile time; the interface [HexEncode16] is what the scalar
    kernel here and the SSSE3 kernel of HexSsse3.v promise. *)
From Stdlib Require Import String.
From S2P Require Import Prelude.

Definition kHexLower : list Z := cstr "0123456789abcdef".

Definition kHexValue : list Z :=
  [ (* 0x00 *) 0xff; 0xff; 0xff; 0xff; 0xff; 0xff; 0xff; 0xff;
    (* 0x08 *) 0xff; 0xff; 0xff; 0xff; 0xff; 0xff; 0xff; 0xff;
    (* 0x10 *) 0xff; 0xff; 0xff; 0xff; 0xff; 0xff; 0xff; 0xff;
    (* 0x18 *) 0xff; 0xff; 0xff; 0xff; 0xff; 0xff; 0xff; 0xff;
    (* 0x20 *) 0xff; 0xff; 0xff; 0xff; 0xff; 0xff; 0xff; 0xff;
    (* 0x28 *) 0xff; 0xff; 0xff; 0xff; 0xff; 0xff; 0xff; 0xff;
    (* 0x30 *) 0x00; 0x01; 0x02; 0x03; 0x04; 0x05; 0x06; 0x07;
    (* 0x38 *) 0x08; 0x09; 0xff; 0xff; 0xff; 0xff; 0xff; 0xff;
    (* 0x40 *) 0xff;
    0x0a; 0x0b; 0x0c; 0x0d; 0x0e; 0x0f;
    (* 0x47 *) 0xff; 0xff; 0xff; 0xff; 0xff; 0xff; 0xff; 0xff;
    (* 0x4f *) 0xff;
    (* 0x50 *) 0xff; 0xff; 0xff; 0xff; 0xff; 0xff; 0xff; 0xff;
    (* 0x58 *) 0xff; 0xff; 0xff; 0xff; 0xff; 0xff; 0xff; 0xff;
    (* 0x60 *) 0xff;
    0x0a; 0x0b; 0x0c; 0x0d; 0x0e; 0x0f;
    (* 0x67 *) 0xff; 0xff; 0xff; 0xff; 0xff; 0xff; 0xff; 0xff;
    (* 0x6f *) 0xff;
    (* 0x70 *) 0xff; 0xff; 0xff; 0xff; 0xff; 0xff; 0xff; 0xff;
    (* 0x78 *) 0xff; 0xff; 0xff; 0xff; 0xff; 0xff; 0xff; 0xff ]
  (* 0x80..0xff *)
  ++ replicate 128 0xff.

(** Character offset of the high nibble of each byte. *)
Definition kCharOff : list nat :=
  [0; 2; 4; 6; 9; 11; 14; 16; 19; 21; 24; 26; 28; 30; 32; 34]%nat.

(** ** Encode *)

(** [for (i = 0; i < 16; ++i)], over [kCharOff[i]]. *)
Fixpoint hex_encode_loop (offs : list nat) (i : nat) (out inp : list Z)
    : option (list Z) :=
  match offs with
  | [] => Some out
  | off :: offs' =>
      b ← inp !! i;
      hi ← kHexLower !! Z.to_nat (Z.land (Z.shiftr b 4) 0x0F);
      out ← store out off hi;
      lo ← kHexLower !! Z.to_nat (Z.land b 0x0F);
      out ← store out (off + 1) lo;
      hex_encode_loop offs' (S i) out inp
  end.

Definition chronoid_hex_encode_lower_scalar (out inp : list Z) : option (list Z) :=
  out ← hex_encode_loop kCharOff 0 out inp;
  out ← store out 8 45;
  out ← store out 13 45;
  out ← store out 18 45;
  store out 23 45.

(** ** Decode *)

Fixpoint hex_decode_loop (offs : list nat) (i : nat) (tmp s : list Z) (bad : Z)
    : option (list Z * Z) :=
  match offs with
  | [] => Some (tmp, bad)
  | off :: offs' =>
      c ← s !! off;
      hi ← kHexValue !! Z.to_nat c;
      c ← s !! (off + 1)%nat;
      lo ← kHexValue !! Z.to_nat c;
      let bad := Z.lor bad hi in
      let bad := Z.lor bad lo in
      tmp ← store tmp i (u8 (Z.lor (Z.shiftl hi 4) lo));
      hex_decode_loop offs' (S i) tmp s bad
  end.

Definition chronoid_hex_decode (out s : list Z) (len : nat) : option (Z * list Z) :=
  if negb (len =? 36)%nat then Some (-1, out)
  else
    c8 ← s !! 8%nat;
    c13 ← s !! 13%nat;
    c18 ← s !! 18%nat;
    c23 ← s !! 23%nat;
    if negb (c8 =? 45) || negb (c13 =? 45) || negb (c18 =? 45) || negb (c23 =? 45)
    then Some (-1, out)
    else
      '(tmp, bad) ← hex_decode_loop kCharOff 0 (uninit 16) s 0;
      if negb (Z.land bad 0xF0 =? 0) then Some (-1, out)
      else
        out ← memcpy out 0 tmp 0 16;
        Some (0, out).

(** ** Reference *)

Definition hex_char (d : Z) : Z := default 0 (kHexLower !! Z.to_nat d).
Definition hex_value (c : Z) : Z := default 0xff (kHexValue !! Z.to_nat c).
Definition hex_valid (c : Z) : bool := negb (hex_value c =? 0xff).

(** Two characters per byte, high nibble first. *)
Fixpoint hex_digits (b : list Z) : list Z :=
  match b with
  | [] => []
  | x :: b' => hex_char (x / 16) :: hex_char (x mod 16) :: hex_digits b'
  end.

(** The 8-4-4-4-12 layout. *)
Definition dashed (h : list Z) : list Z :=
  take 8 h ++ 45 :: take 4 (drop 8 h) ++ 45 :: take 4 (drop 12 h)
  ++ 45 :: take 4 (drop 16 h) ++ 45 :: take 12 (drop 20 h).

Definition hex_ref (b : list Z) : list Z := dashed (hex_digits b).

(** The contract of [CHRONOID_HEX_ENCODE16_LOWER]. *)
Class HexEncode16 := {
  hex_encode16 : list Z -> list Z -> option (list Z);
  hex_encode16_ok : forall out inp,
    length out = 36%nat -> length inp = 16%nat -> bytes inp ->
    hex_encode16 out inp = Some (hex_ref inp)
}.

Definition chronoid_hex_encode_lower `{HexEncode16} (out inp : list Z)
    : option (list Z) := hex_encode16 out inp.

(** What the decoder accepts and yields. *)
Definition hex_pair_ok (s : list Z) (off : nat) : bool :=
  hex_valid (nth off s 0) && hex_valid (nth (off + 1) s 0).
Definition hex_pair (s : list Z) (off : nat) : Z :=
  16 * hex_value (nth off s 0) + hex_value (nth (off + 1) s 0).

Definition is_uuid_text (s : list Z) : bool :=
  (length s =? 36)%nat &&
  forallb (fun p => nth p s 0 =? 45) [8; 13; 18; 23]%nat &&
  forallb (hex_pair_ok s) kCharOff.

(** ** The tables *)

Lemma hex_char_spec d :
  0 <= d < 16 ->
  kHexLower !! Z.to_nat d = Some (hex_char d) /\ uint 8 (hex_char d) /\
  hex_value (hex_char d) = d /\ hex_valid (hex_char d) = true.
Proof.
  intros Hd.
  assert (forallb (fun d =>
    bool_decide (kHexLower !! Z.to_nat d = Some (hex_char d)) &&
    (0 <=? hex_char d) && (hex_char d <? 256) &&
    (hex_value (hex_char d) =? d) && hex_valid (hex_char d))
    (seqZ 0 16) = true) as H by (vm_compute; reflexivity).
  apply (range_cases 16 _ H) in Hd.
  rewrite !andb_true_iff, bool_decide_eq_true in Hd.
  unfold uint. destruct_and! Hd. split_and!; (done || lia).
Qed.

(** ASCII lower case of a hexadecimal digit. *)
Definition tolower (c : Z) : Z := if (65 <=? c) && (c <=? 70) then c + 32 else c.

Lemma hex_value_spec c :
  uint 8 c ->
  kHexValue !! Z.to_nat c = Some (hex_value c) /\ uint 8 (hex_value c) /\
  (hex_valid c = true -> 0 <= hex_value c < 16 /\ hex_char (hex_value c) = tolower c) /\
  (Z.land (hex_value c) 0xF0 = 0 <-> hex_valid c = true).
Proof.
  intros Hc.
  assert (forallb (fun c =>
    bool_decide (kHexValue !! Z.to_nat c = Some (hex_value c)) &&
    (0 <=? hex_value c) && (hex_value c <? 256) &&
    (negb (hex_valid c) ||
     ((hex_value c <? 16) && (hex_char (hex_value c) =? tolower c))) &&
    Bool.eqb (Z.land (hex_value c) 0xF0 =? 0) (hex_valid c))
    (seqZ 0 256) = true) as H by (vm_compute; reflexivity).
  apply (byte_cases _ H) in Hc.
  rewrite !andb_true_iff, bool_decide_eq_true in Hc. unfold uint.
  destruct_and! Hc. split_and!; [done|lia|lia| |].
  - intros Hv. rewrite Hv in *. cbn [negb orb] in *. lia.
  - match goal with E : Bool.eqb _ _ = true |- _ => apply eqb_prop in E; rewrite <- E end.
    by rewrite Z.eqb_eq.
Qed.

Lemma hex_char_compare x y :
  0 <= x < 16 -> 0 <= y < 16 -> (hex_char x ?= hex_char y) = (x ?= y).
Proof.
  intros Hx Hy.
  assert (forallb (fun x => forallb (fun y =>
    bool_decide ((hex_char x ?= hex_char y) = (x ?= y))) (seqZ 0 16))
    (seqZ 0 16) = true) as H by (vm_compute; reflexivity).
  apply (range_cases 16 _ H) in Hx. cbv beta in Hx.
  by apply (range_cases 16 _ Hx), bool_decide_eq_true in Hy.
Qed.

(** ** Nibbles *)

Lemma nibbles x : uint 8 x -> 0 <= x / 16 < 16 /\ 0 <= x mod 16 < 16.
Proof.
  unfold uint. intros Hx. split; [|apply Z.mod_pos_bound; lia].
  split; [apply Z.div_pos; lia|]. apply Z.div_lt_upper_bound; lia.
Qed.

Lemma high_nibble x : uint 8 x -> Z.land (Z.shiftr x 4) 0x0F = x / 16.
Proof.
  intros Hx. change 0x0F with (Z.ones 4).
  rewrite Z.land_ones, Z.shiftr_div_pow2 by lia. apply Z.mod_small.
  by apply nibbles.
Qed.

Lemma low_nibble x : Z.land x 0x0F = x mod 16.
Proof. change 0x0F with (Z.ones 4). by rewrite Z.land_ones by lia. Qed.

Lemma hex_high x :
  uint 8 x ->
  kHexLower !! Z.to_nat (Z.land (Z.shiftr x 4) 0x0F) = Some (hex_char (x / 16)).
Proof. intros Hx. rewrite high_nibble by done. by apply hex_char_spec, nibbles. Qed.

Lemma hex_low x :
  uint 8 x -> kHexLower !! Z.to_nat (Z.land x 0x0F) = Some (hex_char (x mod 16)).
Proof. intros Hx. rewrite low_nibble. by apply hex_char_spec, nibbles. Qed.

Lemma join_nibbles hi lo :
  0 <= hi < 16 -> 0 <= lo < 16 -> u8 (Z.lor (Z.shiftl hi 4) lo) = 16 * hi + lo.
Proof.
  intros Hh Hl. rewrite lor_shiftl by lia. rewrite wrap_small; unfold uint; lia.
Qed.

Lemma length_hex_digits b : length (hex_digits b) = (2 * length b)%nat.
Proof. induction b as [|x b IH]; simpl; [done|lia]. Qed.

Lemma hex_digits_app a b : hex_digits (a ++ b) = hex_digits a ++ hex_digits b.
Proof. induction a as [|x a IH]; simpl; [done|by rewrite IH]. Qed.

Lemma length_dashed h : length h = 32%nat -> length (dashed h) = 36%nat.
Proof.
  intros Hh. unfold dashed.
  repeat (rewrite length_app || cbn [length] || rewrite length_take
          || rewrite length_drop). lia.
Qed.

Lemma length_hex_ref b : length b = 16%nat -> length (hex_ref b) = 36%nat.
Proof. intros Hb. apply length_dashed. rewrite length_hex_digits. lia. Qed.

(** ** The scalar encoder is the reference *)

Lemma hex_encode_scalar_spec out inp :
  length out = 36%nat -> length inp = 16%nat -> bytes inp ->
  chronoid_hex_encode_lower_scalar out inp = Some (hex_ref inp).
Proof.
  intros Ho Hi Hb. explode inp. explode out.
  repeat rewrite bytes_cons in Hb. destruct_and! Hb.
  unfold chronoid_hex_encode_lower_scalar, kCharOff.
  cbn [hex_encode_loop].
  repeat (cbn [lookup list_lookup mbind option_bind];
          first [rewrite hex_high by done | rewrite hex_low by done
                | rewrite store_Some by (cbn; lia); cbn [insert list_insert Nat.add]]).
  reflexivity.
Qed.

#[export] Instance hex_encode16_scalar : HexEncode16 :=
  { hex_encode16 := chronoid_hex_encode_lower_scalar;
    hex_encode16_ok := hex_encode_scalar_spec }.

(** ** The decoder *)

Lemma nth_lookup (s : list Z) i : (i < length s)%nat -> s !! i = Some (nth i s 0).
Proof.
  intros Hi. destruct (lookup_lt_is_Some_2 s i Hi) as [x Hx].
  by rewrite (nth_lookup_Some _ _ _ _ Hx).
Qed.

Lemma nth_byte (s : list Z) i : bytes s -> (i < length s)%nat -> uint 8 (nth i s 0).
Proof. intros Hb Hi. eapply bytes_lookup; [done|by apply nth_lookup]. Qed.

(** One lookup keeps the mask clean exactly when it was a digit. *)
Lemma bad_clean bad c :
  uint 8 c ->
  (Z.land (Z.lor bad (hex_value c)) 0xF0 =? 0)
  = (Z.land bad 0xF0 =? 0) && hex_valid c.
Proof.
  intros Hc. destruct (hex_value_spec c Hc) as (_ & _ & _ & Hv).
  rewrite Z.land_lor_distr_l. apply eq_true_iff_eq.
  rewrite andb_true_iff, <- Hv, !Z.eqb_eq, Z.lor_eq_0_iff. done.
Qed.

(** The loop from byte [i] on: which values land in [tmp], and the mask. *)
Lemma hex_decode_loop_spec offs i tmp s bad :
  length s = 36%nat -> bytes s -> Forall (fun off => (off < 35)%nat) offs ->
  (i + length offs <= length tmp)%nat ->
  exists vals bad',
    hex_decode_loop offs i tmp s bad
    = Some (take i tmp ++ vals ++ drop (i + length offs) tmp, bad') /\
    length vals = length offs /\
    (Z.land bad' 0xF0 =? 0) = (Z.land bad 0xF0 =? 0) && forallb (hex_pair_ok s) offs /\
    (forallb (hex_pair_ok s) offs = true -> vals = map (hex_pair s) offs).
Proof.
  intros Hs Hb Ho. revert i tmp bad. induction Ho as [|off offs Hoff Ho IH];
    intros i tmp bad Hl; cbn [hex_decode_loop length forallb].
  - exists [], bad. rewrite Nat.add_0_r, andb_true_r. cbn [app]. by rewrite take_drop.
  - rewrite !nth_lookup by lia. cbn [mbind option_bind].
    pose proof (nth_byte s off Hb ltac:(lia)) as B1.
    pose proof (nth_byte s (off + 1) Hb ltac:(lia)) as B2.
    destruct (hex_value_spec _ B1) as (-> & _ & V1 & _).
    destruct (hex_value_spec _ B2) as (-> & _ & V2 & _).
    cbn [mbind option_bind length] in *.
    rewrite store_Some by lia. cbn [mbind option_bind].
    set (v := u8 _).
    destruct (IH (S i) (<[i:=v]> tmp)
               (Z.lor (Z.lor bad (hex_value (nth off s 0)))
                      (hex_value (nth (off + 1) s 0))))
      as (vals & bad' & -> & Hlv & Hbad & Hvals); [rewrite length_insert; lia|].
    exists (v :: vals), bad'. split; [|split; [|split]].
    + f_equal. f_equal. rewrite drop_insert_lt by lia.
      rewrite (take_S_r _ i v) by (apply list_lookup_insert_eq; lia).
      rewrite take_insert_ge, <- app_assoc, Nat.add_succ_comm by lia. done.
    + cbn [length]. by rewrite Hlv.
    + rewrite Hbad, !bad_clean by done. unfold hex_pair_ok at 2.
      by rewrite <- !andb_assoc.
    + intros [Hp Hps]%andb_true_iff. rewrite (Hvals Hps). cbn [map]. f_equal.
      apply andb_true_iff in Hp as [Hp1 Hp2].
      apply join_nibbles; [by apply V1|by apply V2].
Qed.

Lemma kCharOff_bound : Forall (fun off => (off < 35)%nat) kCharOff.
Proof. unfold kCharOff. repeat constructor. Qed.

Lemma hex_decode_spec out s len :
  length s = len -> bytes s -> length out = 16%nat ->
  chronoid_hex_decode out s len
  = Some (if is_uuid_text s then (0, map (hex_pair s) kCharOff) else (-1, out)).
Proof.
  intros <- Hb Ho. unfold chronoid_hex_decode, is_uuid_text.
  destruct (Nat.eqb_spec (length s) 36) as [Hs|]; cbn [negb andb]; [|done].
  rewrite !nth_lookup by lia. cbn [mbind option_bind forallb].
  rewrite andb_true_r, !andb_assoc, <- !negb_andb.
  destruct (_ && _ && _ && _); cbn [negb andb]; [|done].
  destruct (hex_decode_loop_spec kCharOff 0 (uninit 16) s 0 Hs Hb kCharOff_bound)
    as (vals & bad & -> & Hl & Hbad & Hv); [by rewrite length_uninit|].
  cbn [mbind option_bind]. rewrite Hbad. cbn [Z.land Z.eqb andb negb].
  rewrite take_0, (drop_ge (uninit 16)), app_nil_r by done. cbn [app].
  destruct (forallb (hex_pair_ok s) kCharOff) eqn:E; cbn [negb]; [|done].
  rewrite memcpy_full by (done || by rewrite Hl). cbn [mbind option_bind].
  by rewrite Hv.
Qed.

(** ** Round trips and order *)

Lemma hex_char_value x :
  uint 8 x ->
  hex_valid (hex_char (x / 16)) = true /\ hex_valid (hex_char (x mod 16)) = true /\
  16 * hex_value (hex_char (x / 16)) + hex_value (hex_char (x mod 16)) = x.
Proof.
  intros Hx. destruct (nibbles x Hx) as [Hh Hl].
  destruct (hex_char_spec _ Hh) as (_ & _ & -> & ->).
  destruct (hex_char_spec _ Hl) as (_ & _ & -> & ->).
  split_and!; [done..|]. pose proof (Z.div_mod x 16 ltac:(lia)). lia.
Qed.

Lemma hex_decode_encode b :
  length b = 16%nat -> bytes b ->
  is_uuid_text (hex_ref b) = true /\ map (hex_pair (hex_ref b)) kCharOff = b.
Proof.
  intros Hl Hb. explode b. repeat rewrite bytes_cons in Hb. destruct_and! Hb.
  unfold is_uuid_text, hex_pair_ok, hex_pair, kCharOff, hex_ref, dashed.
  cbn [hex_digits take drop app length nth forallb map Nat.add].
  repeat match goal with
  | Hx : uint 8 ?x |- _ =>
      destruct (hex_char_value x Hx) as (E1 & E2 & E3); rewrite ?E1, ?E2, ?E3;
      clear Hx E1 E2 E3
  end.
  done.
Qed.

Lemma hex_char_pair h l :
  uint 8 h -> uint 8 l -> hex_valid h = true -> hex_valid l = true ->
  hex_char ((16 * hex_value h + hex_value l) / 16) = tolower h /\
  hex_char ((16 * hex_value h + hex_value l) mod 16) = tolower l.
Proof.
  intros Hh Hl Vh Vl.
  destruct (hex_value_spec h Hh) as (_ & _ & Sh & _). destruct (Sh Vh) as [Rh <-].
  destruct (hex_value_spec l Hl) as (_ & _ & Sl & _). destruct (Sl Vl) as [Rl <-].
  split; f_equal.
  - symmetry. apply (Z.div_unique _ _ _ (hex_value l)); lia.
  - symmetry. apply (Z.mod_unique _ _ (hex_value h)); lia.
Qed.

Lemma hex_encode_decode s :
  bytes s -> is_uuid_text s = true ->
  hex_ref (map (hex_pair s) kCharOff) = map tolower s.
Proof.
  intros Hb. unfold is_uuid_text. rewrite !andb_true_iff, Nat.eqb_eq.
  intros [[Hl Hd] Hp]. explode s. repeat rewrite bytes_cons in Hb. destruct_and! Hb.
  unfold kCharOff, hex_pair_ok, hex_pair in *.
  cbn [forallb nth Nat.add] in Hd, Hp.
  rewrite !andb_true_iff, !Z.eqb_eq in Hd. rewrite !andb_true_iff in Hp.
  destruct_and! Hd. destruct_and! Hp. subst.
  unfold hex_ref, dashed. cbn [map nth hex_digits take drop app].
  repeat match goal with
  | |- context [hex_char ((16 * hex_value ?h + hex_value ?l) / 16)] =>
      destruct (hex_char_pair h l) as [-> ->]; [assumption..|]
  end.
  done.
Qed.

Lemma lex_byte x y r r' :
  uint 8 x -> uint 8 y ->
  lex (hex_char (x / 16) :: hex_char (x mod 16) :: r)
      (hex_char (y / 16) :: hex_char (y mod 16) :: r')
  = match x ?= y with Eq => lex r r' | c => c end.
Proof.
  intros Hx Hy. destruct (nibbles x Hx), (nibbles y Hy). cbn [lex].
  rewrite !hex_char_compare by done.
  pose proof (Z.div_mod x 16 ltac:(lia)). pose proof (Z.div_mod y 16 ltac:(lia)).
  destruct (Z.compare_spec (x / 16) (y / 16));
    [destruct (Z.compare_spec (x mod 16) (y mod 16))|..];
    destruct (Z.compare_spec x y); try done; lia.
Qed.

Lemma lex_dash r r' : lex (45 :: r) (45 :: r') = lex r r'.
Proof. done. Qed.

(** The text order is the byte order. *)
Lemma hex_ref_lex a b :
  length a = 16%nat -> length b = 16%nat -> bytes a -> bytes b ->
  lex (hex_ref a) (hex_ref b) = lex a b.
Proof.
  intros La Lb Ba Bb. explode a. explode b.
  repeat rewrite bytes_cons in Ba. destruct_and! Ba.
  repeat rewrite bytes_cons in Bb. destruct_and! Bb.
  unfold hex_ref, dashed. cbn [hex_digits take drop app].
  repeat first [rewrite lex_byte by done | rewrite lex_dash]. reflexivity.
Qed.

Lemma bytes_hex_ref b : bytes b -> bytes (hex_ref b).
Proof.
  intros Hb. unfold hex_ref, dashed.
  assert (bytes (hex_digits b)) as Hd.
  { induction Hb as [|x b Hx Hb IH]; [constructor|]. cbn [hex_digits].
    destruct (nibbles x Hx). rewrite !bytes_cons.
    split_and!; [by apply hex_char_spec..|done]. }
  assert (uint 8 45) by (unfold uint; lia).
  repeat rewrite ?bytes_app, ?bytes_cons. split_and!; auto with chronoid.
Qed.

Lemma hex_pairs_bytes s :
  bytes s -> is_uuid_text s = true -> bytes (map (hex_pair s) kCharOff).
Proof.
  intros Hb. unfold is_uuid_text. rewrite !andb_true_iff, Nat.eqb_eq.
  intros [[Hl _] Hp]. rewrite forallb_forall in Hp.
  apply Forall_map, Forall_forall. intros off Hoff.
  pose proof kCharOff_bound as Hk.
  assert (off < 35)%nat as Hlt by (by eapply Forall_forall in Hk).
  assert (hex_pair_ok s off = true) as Hok by (apply Hp, Hoff).
  unfold hex_pair_ok in Hok. apply andb_true_iff in Hok as [V1 V2].
  destruct (hex_value_spec (nth off s 0)) as (_ & _ & S1 & _).
  { apply nth_byte; [done|lia]. }
  destruct (hex_value_spec (nth (off + 1) s 0)) as (_ & _ & S2 & _).
  { apply nth_byte; [done|lia]. }
  destruct (S1 V1) as [R1 _], (S2 V2) as [R2 _]. unfold uint, hex_pair. lia.
Qed.
