(* ===== verification/HexSsse3.v ===== *)
(** * The SSSE3 hexadecimal encoder: chronoid/uuidv7/hex_ssse3.c

    Nibbles by shift and mask, characters by a byte shuffle, and the four
    hyphens spliced in.  An instance of [HexEncode16]. *)
From Stdlib Require Import String.
From S2P Require Import Prelude Simd Hex.

Definition kHexLowerLut : list Z := str "0123456789abcdef".

(** The copies and hyphens both vector encoders end with: [hex32] is an array
    and the offset the 32 characters start at. *)
Definition splice (out : list Z) (hex32 : list Z) (h : nat) : option (list Z) :=
  out ← memcpy out 0 hex32 h 8;
  out ← store out 8 45;
  out ← memcpy out 9 hex32 (h + 8) 4;
  out ← store out 13 45;
  out ← memcpy out 14 hex32 (h + 12) 4;
  out ← store out 18 45;
  out ← memcpy out 19 hex32 (h + 16) 4;
  out ← store out 23 45;
  memcpy out 24 hex32 (h + 20) 12.

Definition chronoid_hex_encode_lower_ssse3 (out inp : list Z) : option (list Z) :=
  v ← mm_loadu_si128 inp 0;
  lut ← mm_loadu_si128 kHexLowerLut 0;
  let mask_low := mm_set1_epi8 0x0F in
  let hi_nibbles := mm_and_si128 (mm_srli_epi16 v 4) mask_low in
  let lo_nibbles := mm_and_si128 v mask_low in
  let ascii_hi := mm_shuffle_epi8 lut hi_nibbles in
  let ascii_lo := mm_shuffle_epi8 lut lo_nibbles in
  let lo_half := mm_unpacklo_epi8 ascii_hi ascii_lo in
  let hi_half := mm_unpackhi_epi8 ascii_hi ascii_lo in
  tmp ← mm_storeu_si128 (uninit 32) 0 lo_half;
  tmp ← mm_storeu_si128 tmp 16 hi_half;
  splice out tmp 0.

(** ** Lanes *)

Lemma pair_ind {A} (P : list A -> Prop) :
  P [] -> (forall x y l, P l -> P (x :: y :: l)) ->
  forall l, Nat.even (length l) = true -> P l.
Proof.
  intros H0 H2 l. induction l as [l IH] using (induction_ltof1 _ length).
  destruct l as [|x [|y l]]; [done|done|]. intros Hl. apply H2, IH; [|done].
  unfold ltof. cbn. lia.
Qed.

(** Shifting 16-bit lanes and masking gives the high nibble of every byte. *)
Lemma high_nibbles v n :
  bytes v -> length v = n -> Nat.even n = true ->
  mm_and_si128 (mm_srli_epi16 v 4) (replicate n 0x0F) = map (fun x => x / 16) v.
Proof.
  intros Hb <- He. revert Hb. pattern v. apply pair_ind; [done| |exact He].
  clear v He. intros lo hi v IH.
  cbn [length mm_srli_epi16 replicate map]. cbv zeta.
  rewrite !bytes_cons. intros (Hlo & Hhi & Hv).
  unfold mm_and_si128 in *. cbn [zip_with]. rewrite (IH Hv).
  rewrite Z.lor_comm, lor_shiftl by (lia || apply Hlo).
  rewrite !Z.shiftr_div_pow2 by lia. change (2 ^ 8) with 256. change (2 ^ 4) with 16.
  rewrite !low_nibble. unfold wrap, uint in *. change (2 ^ 8) with 256 in *.
  rewrite Z.div_div by lia.
  do 2 f_equal; [|f_equal].
  - rewrite (Z.mod_mod_divide _ 256 16) by (exists 16; reflexivity).
    replace (hi * 256 + lo) with (lo + hi * 16 * 16) by lia.
    rewrite Z.div_add, Z.mod_add by lia. apply Z.mod_small.
    split; [apply Z.div_pos; lia|]. apply Z.div_lt_upper_bound; lia.
  - change (16 * 256) with (256 * 16). rewrite <- Z.div_div by lia.
    rewrite Z.div_add_l, (Z.div_small lo), Z.add_0_r by lia.
    assert (0 <= hi / 16 < 16).
    { split; [apply Z.div_pos; lia|]. apply Z.div_lt_upper_bound; lia. }
    rewrite (Z.mod_small (hi / 16) 256) by lia. apply Z.mod_small. lia.
Qed.

Lemma low_nibbles v n :
  length v = n -> mm_and_si128 v (replicate n 0x0F) = map (fun x => x mod 16) v.
Proof.
  intros Hn. unfold mm_and_si128. rewrite (lanes_const n _ v Hn), lanes_map_l.
  apply map_ext. intros x. apply low_nibble.
Qed.

(** The shuffle looks nibbles up in the table. *)
Lemma shuffle_lut (f : Z -> Z) v :
  (forall x, In x v -> 0 <= f x < 16) ->
  mm_shuffle_epi8 kHexLowerLut (map f v) = map (fun x => hex_char (f x)) v.
Proof.
  intros Hf. unfold mm_shuffle_epi8. rewrite map_map. apply map_ext_in.
  intros x Hx. specialize (Hf x Hx).
  assert (forallb (fun d => bool_decide
    ((if Z.testbit d 7 then 0
      else default 0 (kHexLowerLut !! Z.to_nat (Z.land d 0xf))) = hex_char d))
    (seqZ 0 16) = true) as H by (vm_compute; reflexivity).
  by apply (range_cases 16 _ H), bool_decide_eq_true in Hf.
Qed.

Lemma interleave_hex v :
  interleave (map (fun x => hex_char (x / 16)) v) (map (fun x => hex_char (x mod 16)) v)
  = hex_digits v.
Proof. induction v as [|x v IH]; [done|]. cbn [map interleave hex_digits]. by rewrite IH. Qed.

Lemma unpack_hex v :
  mm_unpacklo_epi8 (map (fun x => hex_char (x / 16)) v)
                   (map (fun x => hex_char (x mod 16)) v) = hex_digits (take 8 v) /\
  mm_unpackhi_epi8 (map (fun x => hex_char (x / 16)) v)
                   (map (fun x => hex_char (x mod 16)) v) = hex_digits (drop 8 v).
Proof.
  unfold mm_unpacklo_epi8, mm_unpackhi_epi8.
  by rewrite !firstn_map, !skipn_map, !interleave_hex.
Qed.

(** The characters of one 16-byte register. *)
Lemma hex_kernel v :
  length v = 16%nat -> bytes v ->
  let hi := mm_shuffle_epi8 kHexLowerLut (mm_and_si128 (mm_srli_epi16 v 4) (replicate 16 0x0F)) in
  let lo := mm_shuffle_epi8 kHexLowerLut (mm_and_si128 v (replicate 16 0x0F)) in
  mm_unpacklo_epi8 hi lo = hex_digits (take 8 v) /\
  mm_unpackhi_epi8 hi lo = hex_digits (drop 8 v).
Proof.
  intros Hl Hb. cbv zeta. rewrite high_nibbles, low_nibbles by done.
  rewrite !shuffle_lut; [apply unpack_hex|..]; intros x Hx;
    apply (Forall_forall (uint 8) v) in Hx; try done; by apply nibbles.
Qed.

(** ** Splicing *)

Lemma splice_spec out hex h :
  length out = 36%nat -> (h + 32 <= length hex)%nat ->
  splice out hex h = Some (dashed (take 32 (drop h hex))).
Proof.
  intros Ho Hh. unfold splice. set (x := take 32 (drop h hex)).
  assert (length x = 32%nat) as Hx by (subst x; rewrite length_take, length_drop; lia).
  assert (forall k n, (k + n <= 32)%nat -> take n (drop (h + k) hex) = take n (drop k x)) as E.
  { intros k n Hk. subst x. rewrite <- drop_drop. rewrite !(take_drop_commute _ n k), take_take.
    do 2 f_equal. lia. }
  clearbody x. rewrite <- (drop_0 out) at 1. rewrite <- (app_nil_l (drop 0 out)).
  repeat (first [ rewrite (memcpy_append _ out)
                | rewrite (store_append _ out) ];
          [|repeat (rewrite length_app || rewrite length_take || rewrite length_drop);
            cbn [length]; lia|lia|try lia..];
          cbn [mbind option_bind Nat.add]).
  rewrite (drop_ge out), app_nil_r, app_nil_l by lia.
  rewrite <- (Nat.add_0_r h) at 1. rewrite !E by lia. rewrite drop_0.
  unfold dashed. by rewrite <- !app_assoc.
Qed.

(** Storing the two halves one after the other. *)
Lemma store_halves a b :
  length a = 16%nat -> length b = 16%nat ->
  (tmp ← mm_storeu_si128 (uninit 32) 0 a; mm_storeu_si128 tmp 16 b) = Some (a ++ b).
Proof.
  intros Ha Hb. rewrite storeu_head by (rewrite ?length_uninit; lia). cbn [mbind option_bind].
  unfold mm_storeu_si128.
  change (drop 16 (uninit 32)) with (drop 0 (uninit 16)).
  rewrite memcpy_Some by (rewrite ?length_app, ?length_drop, ?length_uninit; lia).
  rewrite take_app_length', drop_0, (take_ge b), drop_ge, app_nil_r; try lia; [done|].
  rewrite length_app, length_drop, length_uninit. lia.
Qed.

Lemma length_half_digits v n :
  length v = 16%nat ->
  (n = 8%nat) -> length (hex_digits (take n v)) = 16%nat /\
                 length (hex_digits (drop n v)) = 16%nat.
Proof.
  intros Hv ->. rewrite !length_hex_digits, length_take, length_drop. lia.
Qed.

Lemma hex_encode_ssse3_spec out inp :
  length out = 36%nat -> length inp = 16%nat -> bytes inp ->
  chronoid_hex_encode_lower_ssse3 out inp = Some (hex_ref inp).
Proof.
  intros Ho Hi Hb. unfold chronoid_hex_encode_lower_ssse3.
  rewrite (loadu_Some inp), (loadu_Some kHexLowerLut)
    by first [lia | vm_compute; lia].
  cbn [mbind option_bind]. rewrite (drop_0 inp), (take_ge inp) by lia.
  change (take 16 (drop 0 kHexLowerLut)) with kHexLowerLut.
  change (mm_set1_epi8 0x0F) with (replicate 16 0x0F). cbv zeta.
  destruct (hex_kernel inp Hi Hb) as [-> ->].
  destruct (length_half_digits inp 8 Hi eq_refl) as [L1 L2].
  pose proof (store_halves _ _ L1 L2) as Hs.
  apply bind_Some in Hs as (t & -> & Hs). cbn [mbind option_bind].
  rewrite Hs. cbn [mbind option_bind].
  rewrite <- hex_digits_app, take_drop.
  rewrite splice_spec by (rewrite ?length_hex_digits; lia).
  rewrite drop_0, take_ge by (rewrite length_hex_digits; lia). done.
Qed.

#[export] Instance hex_encode16_ssse3 : HexEncode16 | 10 :=
  { hex_encode16 := chronoid_hex_encode_lower_ssse3;
    hex_encode16_ok := hex_encode_ssse3_spec }.
