(* ===== verification/Uuidv7.v ===== *)
(** * The UUIDv7 type: chronoid/uuidv7/uuidv7.c, chronoid/uuidv7.h

    The value type, construction from parts, accessors, text form and
    generation.  As in Ksuid.v an output parameter is passed in with its old
    value and comes back with its new one. *)
From Stdlib Require Import String.
From S2P Require Import Prelude Radix ByteOrder Libc Hex Rand.

Definition CHRONOID_UUIDV7_BYTES : nat := 16.
Definition CHRONOID_UUIDV7_STRING_LEN : nat := 36.
Definition UUIDV7_MAX_UNIX_MS : Z := Z.shiftl 1 48 - 1.

Record chronoid_uuidv7_t := Uuidv7 { uuidv7_b : list Z }.

Inductive chronoid_uuidv7_err_t :=
  | CHRONOID_UUIDV7_OK
  | CHRONOID_UUIDV7_ERR_SIZE
  | CHRONOID_UUIDV7_ERR_STR_SIZE
  | CHRONOID_UUIDV7_ERR_STR_VALUE
  | CHRONOID_UUIDV7_ERR_RNG
  | CHRONOID_UUIDV7_ERR_TIME_RANGE.

Definition uuidv7_err_code (e : chronoid_uuidv7_err_t) : Z :=
  match e with
  | CHRONOID_UUIDV7_OK => 0
  | CHRONOID_UUIDV7_ERR_SIZE => -1
  | CHRONOID_UUIDV7_ERR_STR_SIZE => -2
  | CHRONOID_UUIDV7_ERR_STR_VALUE => -3
  | CHRONOID_UUIDV7_ERR_RNG => -5
  | CHRONOID_UUIDV7_ERR_TIME_RANGE => -7
  end.

#[export] Instance uuidv7_err_eq_dec : EqDecision chronoid_uuidv7_err_t.
Proof. solve_decision. Defined.

Definition CHRONOID_UUIDV7_NIL : chronoid_uuidv7_t := Uuidv7 (replicate 16 0).
Definition CHRONOID_UUIDV7_MAX : chronoid_uuidv7_t := Uuidv7 (replicate 16 0xff).

Section Ops.
Context `{Memcmp} `{HexEncode16}.

Definition chronoid_uuidv7_is_nil (id : chronoid_uuidv7_t) : option bool :=
  r ← memcmp (uuidv7_b id) (replicate CHRONOID_UUIDV7_BYTES 0) CHRONOID_UUIDV7_BYTES;
  Some (r =? 0).

Definition chronoid_uuidv7_compare (a b : chronoid_uuidv7_t) : option Z :=
  memcmp (uuidv7_b a) (uuidv7_b b) CHRONOID_UUIDV7_BYTES.

Definition chronoid_uuidv7_from_bytes (out : chronoid_uuidv7_t) (b : list Z) (n : nat)
    : option (chronoid_uuidv7_err_t * chronoid_uuidv7_t) :=
  if negb (n =? CHRONOID_UUIDV7_BYTES)%nat then Some (CHRONOID_UUIDV7_ERR_SIZE, out)
  else
    o ← memcpy (uuidv7_b out) 0 b 0 CHRONOID_UUIDV7_BYTES;
    Some (CHRONOID_UUIDV7_OK, Uuidv7 o).

Definition chronoid_uuidv7_from_parts (out : chronoid_uuidv7_t) (unix_ms : Z)
    (rand_a_12bit : Z) (rand_b : list Z)
    : option (chronoid_uuidv7_err_t * chronoid_uuidv7_t) :=
  if (unix_ms <? 0) || (UUIDV7_MAX_UNIX_MS <? unix_ms)
  then Some (CHRONOID_UUIDV7_ERR_TIME_RANGE, out)
  else
    let tmp := uninit 16 in
    let ms := u64 unix_ms in
    tmp ← store tmp 0 (u8 (Z.shiftr ms 40));
    tmp ← store tmp 1 (u8 (Z.shiftr ms 32));
    tmp ← store tmp 2 (u8 (Z.shiftr ms 24));
    tmp ← store tmp 3 (u8 (Z.shiftr ms 16));
    tmp ← store tmp 4 (u8 (Z.shiftr ms 8));
    tmp ← store tmp 5 (u8 ms);
    let rand_a := u16 (Z.land rand_a_12bit 0x0FFF) in
    tmp ← store tmp 6 (u8 (Z.lor 0x70 (Z.land (Z.shiftr rand_a 8) 0x0F)));
    tmp ← store tmp 7 (u8 (Z.land rand_a 0xFF));
    rand_b0 ← rand_b !! 0%nat;
    tmp ← store tmp 8 (u8 (Z.lor 0x80 (Z.land rand_b0 0x3F)));
    tmp ← memcpy tmp 9 rand_b 1 7;
    o ← memcpy (uuidv7_b out) 0 tmp 0 CHRONOID_UUIDV7_BYTES;
    Some (CHRONOID_UUIDV7_OK, Uuidv7 o).

Definition chronoid_uuidv7_unix_ms (id : chronoid_uuidv7_t) : option Z :=
  b0 ← uuidv7_b id !! 0%nat;
  b1 ← uuidv7_b id !! 1%nat;
  b2 ← uuidv7_b id !! 2%nat;
  b3 ← uuidv7_b id !! 3%nat;
  b4 ← uuidv7_b id !! 4%nat;
  b5 ← uuidv7_b id !! 5%nat;
  let ms := Z.lor (Z.lor (Z.lor (Z.lor (Z.lor
              (u64 (Z.shiftl b0 40)) (u64 (Z.shiftl b1 32)))
              (u64 (Z.shiftl b2 24))) (u64 (Z.shiftl b3 16)))
              (u64 (Z.shiftl b4 8))) (u64 b5) in
  Some (int64_of_u64 ms).

Definition chronoid_uuidv7_version (id : chronoid_uuidv7_t) : option Z :=
  b6 ← uuidv7_b id !! 6%nat;
  Some (u8 (Z.land (Z.shiftr b6 4) 0x0F)).

Definition chronoid_uuidv7_variant (id : chronoid_uuidv7_t) : option Z :=
  b8 ← uuidv7_b id !! 8%nat;
  Some (u8 (Z.land (Z.shiftr b8 6) 0x03)).

Definition chronoid_uuidv7_format (id : chronoid_uuidv7_t) (out : list Z)
    : option (list Z) :=
  chronoid_hex_encode_lower out (uuidv7_b id).

Definition chronoid_uuidv7_parse (out : chronoid_uuidv7_t) (s : list Z) (len : nat)
    : option (chronoid_uuidv7_err_t * chronoid_uuidv7_t) :=
  if negb (len =? CHRONOID_UUIDV7_STRING_LEN)%nat
  then Some (CHRONOID_UUIDV7_ERR_STR_SIZE, out)
  else
    '(r, tmp) ← chronoid_hex_decode (uninit CHRONOID_UUIDV7_BYTES) s len;
    if negb (r =? 0) then Some (CHRONOID_UUIDV7_ERR_STR_VALUE, out)
    else
      o ← memcpy (uuidv7_b out) 0 tmp 0 CHRONOID_UUIDV7_BYTES;
      Some (CHRONOID_UUIDV7_OK, Uuidv7 o).

(** ** Generation *)

Section Generate.
Context {W : Type} `{RandomSource W} `{NowMs W}.

Definition chronoid_uuidv7_new_with_time (out : chronoid_uuidv7_t) (unix_ms : Z)
    (w : W) : option (chronoid_uuidv7_err_t * chronoid_uuidv7_t * W) :=
  if (unix_ms <? 0) || (UUIDV7_MAX_UNIX_MS <? unix_ms)
  then Some (CHRONOID_UUIDV7_ERR_TIME_RANGE, out, w)
  else
    '(r, rnd, w) ← fill_random 10 w;
    if negb (r =? 0) then Some (CHRONOID_UUIDV7_ERR_RNG, out, w)
    else
      rnd0 ← rnd !! 0%nat;
      rnd1 ← rnd !! 1%nat;
      let rand_a_12bit := u16 (Z.lor (Z.shiftl rnd0 8) rnd1) in
      '(e, out) ← chronoid_uuidv7_from_parts out unix_ms rand_a_12bit (drop 2 rnd);
      Some (e, out, w).

Definition chronoid_uuidv7_new (out : chronoid_uuidv7_t) (w : W)
    : option (chronoid_uuidv7_err_t * chronoid_uuidv7_t * W) :=
  '(now, w) ← now_ms w;
  if (now <? 0) || (UUIDV7_MAX_UNIX_MS <? now)
  then Some (CHRONOID_UUIDV7_ERR_TIME_RANGE, out, w)
  else chronoid_uuidv7_new_with_time out now w.
End Generate.
End Ops.

(** ** Specification: the RFC 9562 layout *)

Definition wf_uuidv7 (id : chronoid_uuidv7_t) : Prop :=
  length (uuidv7_b id) = 16%nat /\ bytes (uuidv7_b id).

(** 48 bits of time, version 7 and the 12 bits of [rand_a], variant 2 and the
    62 low bits of [rand_b]. *)
Definition uuidv7_of (ms rand_a : Z) (rand_b : list Z) : chronoid_uuidv7_t :=
  Uuidv7 (to_digits 256 6 ms ++ to_digits 256 2 (0x7000 + rand_a)
          ++ 0x80 + nth 0 rand_b 0 mod 64 :: drop 1 rand_b).

(** What the accessors of the layout read. *)
Definition uuidv7_ms (id : chronoid_uuidv7_t) : Z := val 256 (take 6 (uuidv7_b id)).

Lemma uuidv7_nil_wf : wf_uuidv7 CHRONOID_UUIDV7_NIL.
Proof. split; [done|]. by apply bytes_replicate. Qed.

Lemma uuidv7_max_wf : wf_uuidv7 CHRONOID_UUIDV7_MAX.
Proof. split; [done|]. by apply bytes_replicate. Qed.

#[export] Hint Resolve uuidv7_nil_wf uuidv7_max_wf : chronoid.

Lemma max_unix_ms : UUIDV7_MAX_UNIX_MS = 2 ^ 48 - 1.
Proof. done. Qed.

Lemma variant_byte x : uint 8 x ->
  u8 (Z.lor 0x80 (Z.land x 0x3F)) = 0x80 + x mod 64 /\ uint 8 (0x80 + x mod 64).
Proof.
  intros Hx. change 0x3F with (Z.ones 6). rewrite Z.land_ones by lia.
  change (2 ^ 6) with 64. pose proof (Z.mod_pos_bound x 64 ltac:(lia)).
  rewrite (lor_add _ _ 7) by (lia || done). unfold uint.
  rewrite wrap_small; unfold uint; lia.
Qed.

(** The version byte and the low byte of the counter. *)
Lemma counter_bytes c :
  0 <= c < 4096 ->
  u8 (Z.lor 0x70 (Z.land (Z.shiftr c 8) 0x0F)) = (0x7000 + c) / 256 mod 256 /\
  u8 (Z.land c 0xFF) = (0x7000 + c) mod 256.
Proof.
  intros Hc. rewrite Z.shiftr_div_pow2 by lia. change (2 ^ 8) with 256.
  change 0x0F with (Z.ones 4). change 0xFF with (Z.ones 8). rewrite !Z.land_ones by lia.
  assert (0 <= c / 256 < 16) as Hq.
  { split; [apply Z.div_pos; lia|]. apply Z.div_lt_upper_bound; lia. }
  rewrite (Z.mod_small (c / 256)) by lia.
  rewrite (lor_add _ _ 4) by (lia || done). split.
  - change 0x7000 with (0x70 * 256). rewrite Z.div_add_l by lia. done.
  - unfold wrap. rewrite Z.mod_mod by lia.
    replace (0x7000 + c) with (c + 0x70 * 256) by lia. by rewrite Z.mod_add by lia.
Qed.

(** Run a straight line of stores into an array of known elements. *)
Ltac run_stores :=
  repeat (cbn [mbind option_bind];
          rewrite store_Some by (cbn [length]; lia);
          cbn [insert list_insert]);
  cbn [mbind option_bind].

Lemma uuidv7_of_wf ms c rb :
  0 <= c < 4096 -> length rb = 8%nat -> bytes rb -> wf_uuidv7 (uuidv7_of ms c rb).
Proof.
  intros Hc Hl Hb. unfold uuidv7_of. split; cbn [uuidv7_b].
  - rewrite !length_app, !length_to_digits. cbn [length]. rewrite length_drop. lia.
  - rewrite !bytes_app, bytes_cons. explode rb. cbn [nth drop].
    rewrite bytes_cons in Hb. destruct Hb as [Hx Hb].
    split_and!; [apply (digits_to_digits 256); lia..|by apply variant_byte|done].
Qed.

Lemma from_parts_spec out ms ra rb :
  wf_uuidv7 out -> int64 ms -> uint 16 ra -> (8 <= length rb)%nat -> bytes rb ->
  chronoid_uuidv7_from_parts out ms ra rb
  = Some (if (0 <=? ms) && (ms <=? UUIDV7_MAX_UNIX_MS)
          then (CHRONOID_UUIDV7_OK, uuidv7_of ms (ra mod 4096) (take 8 rb))
          else (CHRONOID_UUIDV7_ERR_TIME_RANGE, out)).
Proof.
  intros [Hlo Hbo] Hms Hra Hl Hb. unfold chronoid_uuidv7_from_parts.
  rewrite (Z.leb_antisym ms 0), (Z.leb_antisym UUIDV7_MAX_UNIX_MS ms), <- negb_orb.
  destruct ((ms <? 0) || (UUIDV7_MAX_UNIX_MS <? ms)) eqn:E; cbn [negb]; [done|].
  rewrite max_unix_ms in E. cbv zeta.
  rewrite (wrap_small 64 ms) by (unfold uint; lia).
  change 0x0FFF with (Z.ones 12). rewrite Z.land_ones by lia.
  change (2 ^ 12) with 4096. pose proof (Z.mod_pos_bound ra 4096 ltac:(lia)) as Hc.
  rewrite (wrap_small 16 (ra mod 4096)) by (unfold uint; lia).
  destruct (counter_bytes _ Hc) as [-> ->]. rewrite !u8_shiftr by lia.
  change (u8 ms) with (ms mod 256).
  unfold uninit. cbn [replicate]. run_stores.
  rewrite <- (take_drop 8 rb). set (rb8 := take 8 rb).
  assert (length rb8 = 8%nat) as H8 by (subst rb8; rewrite length_take; lia).
  assert (bytes rb8) as B8 by (subst rb8; by apply bytes_take).
  rewrite (take_app_length' rb8) by done. generalize (drop 8 rb). intros rest.
  clearbody rb8. explode rb8. rewrite bytes_cons in B8. destruct B8 as [Bx _].
  cbn [app lookup list_lookup mbind option_bind].
  destruct (variant_byte x Bx) as [-> _]. run_stores.
  rewrite memcpy_Some by (cbn [length]; lia).
  cbn [mbind option_bind take drop app Nat.add].
  rewrite memcpy_full by done. cbn [mbind option_bind].
  unfold uuidv7_of. rewrite to_digits_256_6. done.
Qed.

Lemma unix_ms_spec id :
  wf_uuidv7 id -> chronoid_uuidv7_unix_ms id = Some (uuidv7_ms id).
Proof.
  destruct id as [b]. intros [Hl Hb]. unfold chronoid_uuidv7_unix_ms, uuidv7_ms.
  cbn [uuidv7_b] in *.
  pose proof (val_bound 256 eq_refl (take 6 b) (bytes_take _ _ Hb)) as Hv.
  rewrite length_take, Hl in Hv. change (256 ^ Z.of_nat (6 `min` 16)) with (2 ^ 48) in Hv.
  explode b. repeat rewrite bytes_cons in Hb. destruct_and! Hb.
  cbn [lookup list_lookup mbind option_bind]. cbv zeta.
  rewrite shl_byte by (done || lia).
  rewrite <- (Z.shiftl_0_r x4) at 1. join_bytes.
  unfold val in *. cbn [take foldl] in *. f_equal. unfold int64_of_u64.
  match goal with |- (if ?a <? _ then _ else _) = ?b => assert (a = b) as -> by lia end.
  rewrite (proj2 (Z.ltb_lt _ _)); [done|lia].
Qed.

Lemma uuidv7_ms_of ms c rb :
  0 <= ms <= UUIDV7_MAX_UNIX_MS -> uuidv7_ms (uuidv7_of ms c rb) = ms.
Proof.
  intros Hms. rewrite max_unix_ms in Hms. unfold uuidv7_ms, uuidv7_of. cbn [uuidv7_b].
  rewrite take_app_length' by (by rewrite length_to_digits).
  apply val_to_digits_small; [lia|]. change (256 ^ Z.of_nat 6) with (2 ^ 48). lia.
Qed.

(** Version and variant of the layout. *)
Lemma uuidv7_of_version ms c rb :
  0 <= c < 4096 -> length rb = 8%nat -> bytes rb ->
  chronoid_uuidv7_version (uuidv7_of ms c rb) = Some 7 /\
  chronoid_uuidv7_variant (uuidv7_of ms c rb) = Some 2.
Proof.
  intros Hc Hl Hb. unfold chronoid_uuidv7_version, chronoid_uuidv7_variant, uuidv7_of.
  cbn [uuidv7_b]. rewrite to_digits_256_6.
  cbn [to_digits app lookup list_lookup mbind option_bind].
  explode rb. cbn [nth]. split; f_equal.
  - rewrite Z.shiftr_div_pow2 by lia. change 0x0F with (Z.ones 4).
    rewrite Z.land_ones by lia. change (2 ^ 4) with 16.
    assert (0 <= c / 256 < 16) as Hq.
    { split; [apply Z.div_pos; lia|]. apply Z.div_lt_upper_bound; lia. }
    change 0x7000 with (0x70 * 256). rewrite Z.div_add_l by lia.
    rewrite (Z.mod_small (0x70 + c / 256)) by lia.
    change 0x70 with (7 * 16). rewrite Z.div_add_l, (Z.div_small (c / 256)) by lia. done.
  - pose proof (Z.mod_pos_bound x 64 ltac:(lia)).
    rewrite Z.shiftr_div_pow2 by lia. change (2 ^ 6) with 64.
    change 0x80 with (2 * 64). rewrite Z.div_add_l, (Z.div_small (x mod 64)) by lia. done.
Qed.

(** The order of the layout: time, then counter, then tail. *)
Lemma lex_uuidv7_of ms c rb ms' c' rb' :
  0 <= ms <= UUIDV7_MAX_UNIX_MS -> 0 <= ms' <= UUIDV7_MAX_UNIX_MS ->
  0 <= c < 4096 -> 0 <= c' < 4096 ->
  lex (uuidv7_b (uuidv7_of ms c rb)) (uuidv7_b (uuidv7_of ms' c' rb'))
  = match ms ?= ms' with
    | Eq => match c ?= c' with
            | Eq => lex (0x80 + nth 0 rb 0 mod 64 :: drop 1 rb)
                        (0x80 + nth 0 rb' 0 mod 64 :: drop 1 rb')
            | r => r
            end
    | r => r
    end.
Proof.
  rewrite max_unix_ms. intros Hms Hms' Hc Hc'. unfold uuidv7_of. cbn [uuidv7_b].
  rewrite !lex_app_l by (by rewrite !length_to_digits).
  rewrite (lex_to_digits 256 eq_refl 6), (lex_to_digits 256 eq_refl 2);
    [|change (256 ^ Z.of_nat 2) with 65536; lia..
     |change (256 ^ Z.of_nat 6) with (2 ^ 48); lia
     |change (256 ^ Z.of_nat 6) with (2 ^ 48); lia].
  assert ((0x7000 + c ?= 0x7000 + c') = (c ?= c')) as ->; [|done].
  destruct (Z.compare_spec c c'); [apply Z.compare_eq_iff|apply Z.compare_lt_iff
    |apply Z.compare_gt_iff]; lia.
Qed.

Lemma uuidv7_format_spec `{HexEncode16} id buf :
  wf_uuidv7 id -> length buf = 36%nat ->
  chronoid_uuidv7_format id buf = Some (hex_ref (uuidv7_b id)).
Proof. intros [Hl Hb] Hbuf. by apply hex_encode16_ok. Qed.

Lemma uuidv7_parse_spec out s len :
  length s = len -> bytes s -> wf_uuidv7 out ->
  chronoid_uuidv7_parse out s len
  = Some (if negb (len =? 36)%nat then (CHRONOID_UUIDV7_ERR_STR_SIZE, out)
          else if is_uuid_text s
               then (CHRONOID_UUIDV7_OK, Uuidv7 (map (hex_pair s) kCharOff))
               else (CHRONOID_UUIDV7_ERR_STR_VALUE, out)).
Proof.
  intros Hl Hb [Ho _]. unfold chronoid_uuidv7_parse, CHRONOID_UUIDV7_STRING_LEN.
  destruct (Nat.eqb_spec len 36) as [->|]; cbn [negb]; [|done].
  rewrite hex_decode_spec by (done || by rewrite length_uninit).
  destruct (is_uuid_text s); cbn [mbind option_bind Z.eqb negb]; [|done].
  by rewrite memcpy_full.
Qed.

Lemma uuidv7_compare_spec `{Memcmp} a b :
  wf_uuidv7 a -> wf_uuidv7 b ->
  exists r, chronoid_uuidv7_compare a b = Some r /\
    Z.sgn r = cmp_sign (lex (uuidv7_b a) (uuidv7_b b)).
Proof.
  intros [La Ba] [Lb Bb]. unfold chronoid_uuidv7_compare, CHRONOID_UUIDV7_BYTES.
  destruct (memcmp_ok (uuidv7_b a) (uuidv7_b b) 16) as (r & -> & Hr); [lia..|].
  exists r. rewrite !take_ge in Hr by lia. done.
Qed.

Lemma uuidv7_new_with_time_spec {W} `{RandomSource W} out t (w : W) :
  wf_uuidv7 out -> int64 t ->
  chronoid_uuidv7_new_with_time out t w
  = if (0 <=? t) && (t <=? UUIDV7_MAX_UNIX_MS) then
      match fill_random 10 w with
      | Some (0, rnd, w') =>
          Some (CHRONOID_UUIDV7_OK,
                uuidv7_of t (val 256 (take 2 rnd) mod 4096) (drop 2 rnd), w')
      | Some (_, _, w') => Some (CHRONOID_UUIDV7_ERR_RNG, out, w')
      | None => None
      end
    else Some (CHRONOID_UUIDV7_ERR_TIME_RANGE, out, w).
Proof.
  intros Hout Ht. unfold chronoid_uuidv7_new_with_time.
  destruct ((t <? 0) || (UUIDV7_MAX_UNIX_MS <? t)) eqn:E.
  { rewrite (Z.leb_antisym t 0), (Z.leb_antisym UUIDV7_MAX_UNIX_MS t), <- negb_orb, E.
    done. }
  assert (((0 <=? t) && (t <=? UUIDV7_MAX_UNIX_MS)) = true) as E'.
  { by rewrite (Z.leb_antisym t 0), (Z.leb_antisym UUIDV7_MAX_UNIX_MS t), <- negb_orb, E. }
  rewrite E'.
  destruct (fill_random 10 w) as [[[r rnd] w']|] eqn:Ef; [|done].
  destruct (fill_random_ok _ _ _ _ _ Ef) as [Hl Hb]. cbn [mbind option_bind].
  destruct (Z.eqb_spec r 0) as [->|Hr]; cbn [negb]; [|by destruct r].
  explode rnd. repeat rewrite bytes_cons in Hb.
  destruct Hb as (B0 & B1 & Hb).
  cbn [lookup list_lookup mbind option_bind drop take]. unfold uint in B0, B1.
  assert (u16 (Z.lor (Z.shiftl x 8) x0) = val 256 [x; x0]) as ->.
  { rewrite lor_shiftl by (done || lia). unfold val. cbn [foldl].
    rewrite wrap_small; unfold uint; lia. }
  rewrite from_parts_spec; try done.
  - rewrite E'. done.
  - unfold val. cbn [foldl]. unfold uint. lia.
  - by repeat rewrite bytes_cons.
Qed.

(** ** Properties *)

(** C15: parse inverts format for UUIDs.  For every 16-byte value and either
    encode kernel, [chronoid_uuidv7_format] writes 36 characters that
    [chronoid_uuidv7_parse] reads back to the same value. *)
Theorem uuidv7_parse_format `{HexEncode16} id buf out :
  wf_uuidv7 id -> wf_uuidv7 out -> length buf = 36%nat ->
  exists s, chronoid_uuidv7_format id buf = Some s /\ length s = 36%nat /\
    chronoid_uuidv7_parse out s 36 = Some (CHRONOID_UUIDV7_OK, id).
Proof.
  intros Hid Hout Hbuf. exists (hex_ref (uuidv7_b id)).
  rewrite uuidv7_format_spec by done. destruct id as [b], Hid as [Hl Hb].
  cbn [uuidv7_b] in *. split; [done|]. split; [by apply length_hex_ref|].
  rewrite uuidv7_parse_spec; [|by apply length_hex_ref|by apply bytes_hex_ref|done].
  destruct (hex_decode_encode b Hl Hb) as [-> ->]. done.
Qed.

Lemma uuidv7_parse_format_witness :
  exists s, chronoid_uuidv7_format CHRONOID_UUIDV7_MAX (replicate 36 0) = Some s /\
    length s = 36%nat /\
    chronoid_uuidv7_parse CHRONOID_UUIDV7_NIL s 36
    = Some (CHRONOID_UUIDV7_OK, CHRONOID_UUIDV7_MAX).
Proof.
  apply (uuidv7_parse_format CHRONOID_UUIDV7_MAX (replicate 36 0) CHRONOID_UUIDV7_NIL);
    [apply uuidv7_max_wf|apply uuidv7_nil_wf|reflexivity].
Defined.

(** C16: what [chronoid_uuidv7_parse] accepts.  A length other than 36 is
    ERR_STR_SIZE; a missing hyphen or a non-hexadecimal digit anywhere is
    ERR_STR_VALUE; both leave the output alone.  Everything else is accepted,
    upper or lower case, and formatting the result gives the same text in
    lower case. *)
Theorem uuidv7_parse_outcomes `{HexEncode16} out s len buf :
  length s = len -> bytes s -> wf_uuidv7 out -> length buf = 36%nat ->
  if negb (len =? 36)%nat then
    chronoid_uuidv7_parse out s len = Some (CHRONOID_UUIDV7_ERR_STR_SIZE, out)
  else if is_uuid_text s then
    exists id, chronoid_uuidv7_parse out s len = Some (CHRONOID_UUIDV7_OK, id) /\
      wf_uuidv7 id /\ uuidv7_b id = map (hex_pair s) kCharOff /\
      chronoid_uuidv7_format id buf = Some (map tolower s)
  else chronoid_uuidv7_parse out s len = Some (CHRONOID_UUIDV7_ERR_STR_VALUE, out).
Proof.
  intros Hl Hb Hout Hbuf. rewrite uuidv7_parse_spec by done.
  destruct (negb (len =? 36)%nat); [done|].
  destruct (is_uuid_text s) eqn:E; [|done].
  assert (wf_uuidv7 (Uuidv7 (map (hex_pair s) kCharOff))) as Hwf.
  { split; [done|]. by apply hex_pairs_bytes. }
  eexists. split; [done|]. split; [done|]. split; [done|].
  rewrite uuidv7_format_spec by done. cbn [uuidv7_b]. by rewrite hex_encode_decode.
Qed.

Lemma uuidv7_parse_outcomes_witness :
  let s := str "0190163D-8694-739B-AEA5-966C26F8AD91" in
  exists id, chronoid_uuidv7_parse CHRONOID_UUIDV7_NIL s 36
             = Some (CHRONOID_UUIDV7_OK, id) /\
    wf_uuidv7 id /\ uuidv7_b id = map (hex_pair s) kCharOff /\
    chronoid_uuidv7_format id (replicate 36 0) = Some (map tolower s).
Proof.
  cbv zeta.
  apply (uuidv7_parse_outcomes CHRONOID_UUIDV7_NIL
           (str "0190163D-8694-739B-AEA5-966C26F8AD91") 36 (replicate 36 0)).
  - reflexivity.
  - unfold bytes, uint. vm_compute. repeat constructor; discriminate.
  - apply uuidv7_nil_wf.
  - reflexivity.
Defined.

(** C17: [chronoid_uuidv7_from_parts] on every input.  A time outside 48 bits is
    ERR_TIME_RANGE with the output unchanged.  Otherwise the result is a
    version 7, variant 2 UUID whose time reads back exactly, built from the low
    12 bits of [rand_a] and the low 62 bits of [rand_b]: the other bits the
    caller passes have no influence. *)
Theorem uuidv7_from_parts_outcomes out ms ra rb :
  wf_uuidv7 out -> int64 ms -> uint 16 ra -> length rb = 8%nat -> bytes rb ->
  if (0 <=? ms) && (ms <=? UUIDV7_MAX_UNIX_MS) then
    exists id, chronoid_uuidv7_from_parts out ms ra rb = Some (CHRONOID_UUIDV7_OK, id) /\
      wf_uuidv7 id /\ chronoid_uuidv7_unix_ms id = Some ms /\
      chronoid_uuidv7_version id = Some 7 /\ chronoid_uuidv7_variant id = Some 2 /\
      id = uuidv7_of ms (ra mod 4096) rb
  else chronoid_uuidv7_from_parts out ms ra rb
       = Some (CHRONOID_UUIDV7_ERR_TIME_RANGE, out).
Proof.
  intros Hout Hms Hra Hl Hb. rewrite from_parts_spec by (done || lia).
  destruct ((0 <=? ms) && (ms <=? UUIDV7_MAX_UNIX_MS)) eqn:E; [|done].
  rewrite take_ge by lia.
  pose proof (Z.mod_pos_bound ra 4096 ltac:(lia)) as Hc.
  pose proof (uuidv7_of_wf ms _ rb Hc Hl Hb) as Hwf.
  eexists. split; [done|]. split; [done|]. split.
  - rewrite unix_ms_spec, uuidv7_ms_of by (done || lia). done.
  - destruct (uuidv7_of_version ms _ rb Hc Hl Hb). done.
Qed.

Lemma uuidv7_from_parts_outcomes_witness :
  exists id, chronoid_uuidv7_from_parts CHRONOID_UUIDV7_NIL 1700000000000 0xFFFF
               (replicate 8 0xff) = Some (CHRONOID_UUIDV7_OK, id) /\
    wf_uuidv7 id /\ chronoid_uuidv7_unix_ms id = Some 1700000000000 /\
    chronoid_uuidv7_version id = Some 7 /\ chronoid_uuidv7_variant id = Some 2 /\
    id = uuidv7_of 1700000000000 (0xFFFF mod 4096) (replicate 8 0xff).
Proof.
  refine (uuidv7_from_parts_outcomes CHRONOID_UUIDV7_NIL 1700000000000 0xFFFF
           (replicate 8 0xff) uuidv7_nil_wf _ _ eq_refl (bytes_replicate 8 0xff _)).
  - unfold int64, INT64_MIN, INT64_MAX. lia.
  - unfold uint. lia.
  - unfold uint. lia.
Defined.

(** C18: one order for bytes, text and time.  The sign
    [chronoid_uuidv7_compare] returns is the order of the two texts; an
    earlier time compares below a later one; and only equal UUIDs compare
    equal.  [memcmp] is free to return any number of the right sign. *)
Theorem uuidv7_compare_order `{Memcmp} `{HexEncode16} a b bufa bufb :
  wf_uuidv7 a -> wf_uuidv7 b -> length bufa = 36%nat -> length bufb = 36%nat ->
  exists c sa sb, chronoid_uuidv7_compare a b = Some c /\
    chronoid_uuidv7_format a bufa = Some sa /\
    chronoid_uuidv7_format b bufb = Some sb /\
    Z.sgn c = cmp_sign (lex sa sb) /\
    (uuidv7_ms a < uuidv7_ms b -> c < 0) /\ (c = 0 <-> a = b).
Proof.
  intros Ha Hb La Lb. destruct (uuidv7_compare_spec a b Ha Hb) as (c & Hc & Hs).
  exists c. eexists _, _. split; [done|]. split; [by apply uuidv7_format_spec|].
  split; [by apply uuidv7_format_spec|].
  destruct Ha as [Hla Hba], Hb as [Hlb Hbb].
  rewrite hex_ref_lex by done. split; [done|]. split.
  - intros Hlt. assert (lex (uuidv7_b a) (uuidv7_b b) = Lt) as E.
    { rewrite <- (take_drop 6 (uuidv7_b a)), <- (take_drop 6 (uuidv7_b b)).
      rewrite lex_app_l by (rewrite !length_take; lia).
      rewrite (lex_val 256); [|lia|rewrite !length_take; lia|by apply bytes_take..].
      apply Z.compare_lt_iff in Hlt. unfold uuidv7_ms in Hlt. by rewrite Hlt. }
    rewrite E in Hs. simpl in Hs. lia.
  - rewrite <- Z.sgn_null_iff, Hs, cmp_sign_eq0, lex_eq.
    destruct a, b; cbn [uuidv7_b]. split; [by intros ->|by intros [=]].
Qed.

Lemma uuidv7_compare_order_witness :
  exists c sa sb, chronoid_uuidv7_compare CHRONOID_UUIDV7_NIL CHRONOID_UUIDV7_MAX = Some c /\
    chronoid_uuidv7_format CHRONOID_UUIDV7_NIL (replicate 36 0) = Some sa /\
    chronoid_uuidv7_format CHRONOID_UUIDV7_MAX (replicate 36 0) = Some sb /\
    Z.sgn c = cmp_sign (lex sa sb) /\
    (uuidv7_ms CHRONOID_UUIDV7_NIL < uuidv7_ms CHRONOID_UUIDV7_MAX -> c < 0) /\
    (c = 0 <-> CHRONOID_UUIDV7_NIL = CHRONOID_UUIDV7_MAX).
Proof.
  apply (uuidv7_compare_order CHRONOID_UUIDV7_NIL CHRONOID_UUIDV7_MAX
           (replicate 36 0) (replicate 36 0));
    [apply uuidv7_nil_wf|apply uuidv7_max_wf|reflexivity|reflexivity].
Defined.

(** [chronoid_uuidv7_new] in every environment.  A failing or out-of-range
    clock is ERR_TIME_RANGE and draws nothing; a failing random source is
    ERR_RNG; both leave the output unchanged.  Otherwise the UUID carries the
    clock's millisecond, and everything random in it comes from one draw. *)
Theorem uuidv7_new_outcomes {W} `{RandomSource W} `{NowMs W} out (w w1 : W) t :
  wf_uuidv7 out -> now_ms w = Some (t, w1) ->
  if (0 <=? t) && (t <=? UUIDV7_MAX_UNIX_MS) then
    match fill_random 10 w1 with
    | Some (0, rnd, w2) =>
        exists id, chronoid_uuidv7_new out w = Some (CHRONOID_UUIDV7_OK, id, w2) /\
          wf_uuidv7 id /\ chronoid_uuidv7_unix_ms id = Some t /\
          chronoid_uuidv7_version id = Some 7 /\ chronoid_uuidv7_variant id = Some 2 /\
          id = uuidv7_of t (val 256 (take 2 rnd) mod 4096) (drop 2 rnd)
    | Some (_, _, w2) =>
        chronoid_uuidv7_new out w = Some (CHRONOID_UUIDV7_ERR_RNG, out, w2)
    | None => chronoid_uuidv7_new out w = None
    end
  else chronoid_uuidv7_new out w = Some (CHRONOID_UUIDV7_ERR_TIME_RANGE, out, w1).
Proof.
  intros Hout Hn. unfold chronoid_uuidv7_new. rewrite Hn. cbn [mbind option_bind].
  pose proof (now_ms_ok _ _ _ Hn) as Ht.
  assert (((t <? 0) || (UUIDV7_MAX_UNIX_MS <? t))
          = negb ((0 <=? t) && (t <=? UUIDV7_MAX_UNIX_MS))) as ->.
  { by rewrite negb_andb, <- Z.ltb_antisym, <- Z.ltb_antisym. }
  rewrite uuidv7_new_with_time_spec by done.
  destruct ((0 <=? t) && (t <=? UUIDV7_MAX_UNIX_MS)) eqn:E; cbn [negb]; [|done].
  destruct (fill_random 10 w1) as [[[r rnd] w2]|] eqn:Ef; [|done].
  destruct r; try done. destruct (fill_random_ok _ _ _ _ _ Ef) as [Hl Hb].
  assert (length (drop 2 rnd) = 8%nat) as H8 by (rewrite length_drop; lia).
  assert (bytes (drop 2 rnd)) as B8 by (by apply bytes_drop).
  pose proof (Z.mod_pos_bound (val 256 (take 2 rnd)) 4096 ltac:(lia)) as Hc.
  pose proof (uuidv7_of_wf t _ _ Hc H8 B8) as Hwf.
  eexists. split; [done|]. split; [done|]. split.
  - rewrite unix_ms_spec, uuidv7_ms_of by (done || lia). done.
  - destruct (uuidv7_of_version t _ _ Hc H8 B8). done.
Qed.

Lemma uuidv7_new_outcomes_witness :
  let w := ToyEnv 0xAB 1700000000000 in
  exists id, chronoid_uuidv7_new CHRONOID_UUIDV7_NIL w = Some (CHRONOID_UUIDV7_OK, id, w) /\
    wf_uuidv7 id /\ chronoid_uuidv7_unix_ms id = Some 1700000000000 /\
    chronoid_uuidv7_version id = Some 7 /\ chronoid_uuidv7_variant id = Some 2 /\
    id = uuidv7_of 1700000000000 (val 256 (take 2 (replicate 10 0xAB)) mod 4096)
           (drop 2 (replicate 10 0xAB)).
Proof.
  cbv zeta.
  exact (uuidv7_new_outcomes CHRONOID_UUIDV7_NIL (ToyEnv 0xAB 1700000000000)
           (ToyEnv 0xAB 1700000000000) 1700000000000 uuidv7_nil_wf eq_refl).
Defined.
