(* ===== verification/HexBatch.v ===== *)
(** * Bulk UUIDv7 formatting: chronoid/uuidv7/hex_batch.c, hex_avx2.c

    The scalar loop, the AVX2 kernel that does two ids per register and four
    per iteration, and the dispatcher over the two.  A 256-bit byte register is
    its two 16-byte halves. *)
From Stdlib Require Import String.
From S2P Require Import Prelude Radix Libc Simd Hex HexSsse3 Uuidv7 Rows Dispatch.

(** ** 256-bit registers as pairs of halves *)

Definition ymm : Type := list Z * list Z.
Definition mm256_loadu_si256 (p : list Z) (off : nat) : option ymm :=
  lo ← mm_loadu_si128 p off;
  hi ← mm_loadu_si128 p (off + 16);
  Some (lo, hi).
Definition mm256_broadcastsi128_si256 (v : list Z) : ymm := (v, v).
Definition mm256_set1_epi8 (c : Z) : ymm := (mm_set1_epi8 c, mm_set1_epi8 c).
(** An instruction that works on each half separately. *)
Definition per_half (f : list Z -> list Z -> list Z) (a b : ymm) : ymm :=
  (f (fst a) (fst b), f (snd a) (snd b)).
Definition mm256_srli_epi16 (v : ymm) (k : Z) : ymm :=
  (mm_srli_epi16 (fst v) k, mm_srli_epi16 (snd v) k).
Definition mm256_castsi256_si128 (v : ymm) : list Z := fst v.
Definition mm256_extracti128_si256 (v : ymm) (i : Z) : list Z :=
  if i =? 0 then fst v else snd v.

(** ** The kernels *)

Section Kernels.
Context `{HexEncode16}.

Definition chronoid_uuidv7_string_batch_scalar (ids : list chronoid_uuidv7_t)
    (out_36n : list Z) (n : nat) : option (list Z) :=
  row_loop CHRONOID_UUIDV7_STRING_LEN chronoid_uuidv7_format n 0 ids out_36n.

(** [out64] and [in32] are an array and an offset each. *)
Definition chronoid_uuidv7_hex32_avx2 (out64 : list Z) (o : nat) (in32 : list Z)
    (i : nat) : option (list Z) :=
  v ← mm256_loadu_si256 in32 i;
  lut128 ← mm_loadu_si128 kHexLowerLut 0;
  let lut := mm256_broadcastsi128_si256 lut128 in
  let mask_low := mm256_set1_epi8 0x0F in
  let hi_nibbles := per_half mm_and_si128 (mm256_srli_epi16 v 4) mask_low in
  let lo_nibbles := per_half mm_and_si128 v mask_low in
  let ascii_hi := per_half mm_shuffle_epi8 lut hi_nibbles in
  let ascii_lo := per_half mm_shuffle_epi8 lut lo_nibbles in
  let lo_half := per_half mm_unpacklo_epi8 ascii_hi ascii_lo in
  let hi_half := per_half mm_unpackhi_epi8 ascii_hi ascii_lo in
  out64 ← mm_storeu_si128 out64 o (mm256_castsi256_si128 lo_half);
  out64 ← mm_storeu_si128 out64 (o + 16) (mm256_castsi256_si128 hi_half);
  out64 ← mm_storeu_si128 out64 (o + 32) (mm256_extracti128_si256 lo_half 1);
  mm_storeu_si128 out64 (o + 48) (mm256_extracti128_si256 hi_half 1).

Definition chronoid_uuidv7_dash_splice (out36 hex32 : list Z) (h : nat)
    : option (list Z) := splice out36 hex32 h.

(** [for (base = 0; base < bulk; base += 4)]. *)
Fixpoint hex_avx2_loop (fuel base bulk : nat) (ids : list chronoid_uuidv7_t)
    (out_36n : list Z) : option (list Z) :=
  if (base <? bulk)%nat then
    match fuel with
    | O => None
    | S fuel' =>
        let mem := concat (map uuidv7_b ids) in
        let L := CHRONOID_UUIDV7_STRING_LEN in
        hex ← chronoid_uuidv7_hex32_avx2 (uninit 128) 0 mem
                ((base + 0) * CHRONOID_UUIDV7_BYTES);
        hex ← chronoid_uuidv7_hex32_avx2 hex 64 mem
                ((base + 2) * CHRONOID_UUIDV7_BYTES);
        out_36n ← at_offset out_36n ((base + 0) * L) L
                    (fun out => chronoid_uuidv7_dash_splice out hex 0);
        out_36n ← at_offset out_36n ((base + 1) * L) L
                    (fun out => chronoid_uuidv7_dash_splice out hex 32);
        out_36n ← at_offset out_36n ((base + 2) * L) L
                    (fun out => chronoid_uuidv7_dash_splice out hex 64);
        out_36n ← at_offset out_36n ((base + 3) * L) L
                    (fun out => chronoid_uuidv7_dash_splice out hex 96);
        hex_avx2_loop fuel' (base + 4) bulk ids out_36n
    end
  else Some out_36n.

Definition chronoid_uuidv7_string_batch_avx2 (ids : list chronoid_uuidv7_t)
    (out_36n : list Z) (n : nat) : option (list Z) :=
  let bulk := Nat.ldiff n 3 in
  out_36n ← hex_avx2_loop n 0 bulk ids out_36n;
  if (bulk <? n)%nat then
    at_offset out_36n (bulk * CHRONOID_UUIDV7_STRING_LEN)
      (length out_36n - bulk * CHRONOID_UUIDV7_STRING_LEN)
      (fun out => chronoid_uuidv7_string_batch_scalar (drop bulk ids) out (n - bulk))
  else Some out_36n.
End Kernels.

(** ** Contract *)

Definition uuidv7_text (id : chronoid_uuidv7_t) : list Z := hex_ref (uuidv7_b id).
Definition uuidv7_batch_ref := rows_ref 36 uuidv7_text.
Definition uuidv7_batch_pre := rows_pre (Id := chronoid_uuidv7_t) 36 wf_uuidv7.

Lemma length_uuidv7_text id : wf_uuidv7 id -> length (uuidv7_text id) = 36%nat.
Proof. intros [Hl _]. by apply length_hex_ref. Qed.

Lemma uuidv7_batch_scalar_spec `{HexEncode16} ids out n :
  uuidv7_batch_pre ids out n ->
  chronoid_uuidv7_string_batch_scalar ids out n = Some (uuidv7_batch_ref ids out n).
Proof.
  intros (Hids & Hn & Ho). unfold chronoid_uuidv7_string_batch_scalar.
  apply (row_loop_spec 36 uuidv7_text wf_uuidv7 length_uuidv7_text _ n 0 ids [] out);
    [by intros; apply uuidv7_format_spec|done|lia|done|lia].
Qed.

(** ** The AVX2 kernel *)

Lemma storeu_append p out k v :
  length p = k -> (k + 16 <= length out)%nat -> length v = 16%nat ->
  mm_storeu_si128 (p ++ drop k out) k v = Some ((p ++ v) ++ drop (k + 16) out).
Proof.
  intros Hp Hk Hv. unfold mm_storeu_si128. rewrite memcpy_append by lia.
  by rewrite drop_0, take_ge by lia.
Qed.

(** Two ids of the array, 64 characters. *)
Lemma hex32_spec p out k mem i a b :
  take 16 (drop i mem) = a -> take 16 (drop (i + 16) mem) = b ->
  length a = 16%nat -> length b = 16%nat -> bytes a -> bytes b ->
  length p = k -> (k + 64 <= length out)%nat ->
  chronoid_uuidv7_hex32_avx2 (p ++ drop k out) k mem i
  = Some ((p ++ hex_digits a ++ hex_digits b) ++ drop (k + 64) out).
Proof.
  intros Ea Eb La Lb Ba Bb Hp Hk. unfold chronoid_uuidv7_hex32_avx2, mm256_loadu_si256.
  assert (i + 32 <= length mem)%nat as Hm.
  { subst b. rewrite length_take, length_drop in Lb. lia. }
  rewrite (loadu_Some mem i), (loadu_Some mem (i + 16)), (loadu_Some kHexLowerLut)
    by first [lia | vm_compute; lia].
  cbn [mbind option_bind]. rewrite Ea, Eb.
  change (take 16 (drop 0 kHexLowerLut)) with kHexLowerLut. cbv zeta.
  unfold per_half, mm256_srli_epi16, mm256_broadcastsi128_si256, mm256_set1_epi8,
    mm256_castsi256_si128, mm256_extracti128_si256.
  change (mm_set1_epi8 0x0F) with (replicate 16 0x0F). cbn [fst snd Z.eqb].
  destruct (hex_kernel a La Ba) as [-> ->], (hex_kernel b Lb Bb) as [-> ->].
  destruct (length_half_digits a 8 La eq_refl), (length_half_digits b 8 Lb eq_refl).
  rewrite storeu_append by lia. cbn [mbind option_bind].
  rewrite storeu_append by (rewrite ?length_app; lia). cbn [mbind option_bind].
  replace (k + 16 + 16)%nat with (k + 32)%nat by lia.
  rewrite storeu_append by (rewrite ?length_app; lia). cbn [mbind option_bind].
  replace (k + 32 + 16)%nat with (k + 48)%nat by lia.
  rewrite storeu_append by (rewrite ?length_app; lia).
  replace (k + 48 + 16)%nat with (k + 64)%nat by lia.
  assert (forall v, hex_digits v = hex_digits (take 8 v) ++ hex_digits (drop 8 v)) as E
    by (intros v; by rewrite <- hex_digits_app, take_drop).
  rewrite (E a), (E b), <- !app_assoc. done.
Qed.

(** The bytes of id [i] in the array of all of them. *)
Lemma ids_slice ids i id :
  Forall wf_uuidv7 ids -> ids !! i = Some id ->
  take 16 (drop (i * 16) (concat (map uuidv7_b ids))) = uuidv7_b id.
Proof.
  intros Hids Hi. apply concat_row; [|by rewrite list_lookup_fmap, Hi].
  apply Forall_map. eapply Forall_impl; [|exact Hids]. by intros x [Hx _].
Qed.

(** One splice into row [base + k]; [h] is where its 32 characters start. *)
Lemma splice_row hexs hex h id pre out off :
  hex = concat hexs -> Forall (fun r => length r = 32%nat) hexs ->
  hexs !! h = Some (hex_digits (uuidv7_b id)) ->
  length pre = off -> (36 <= length out)%nat ->
  at_offset (pre ++ out) off 36 (fun out => chronoid_uuidv7_dash_splice out hex (h * 32))
  = Some ((pre ++ uuidv7_text id) ++ drop 36 out).
Proof.
  intros -> Hr Hh Hpre Hout. rewrite <- (take_drop 36 out) at 1.
  assert (length (take 36 out) = 36%nat) as Ht by (rewrite length_take; lia).
  rewrite (at_offset_Some _ _ _ _ (uuidv7_text id) _ _ Hpre Ht); [by rewrite <- app_assoc|].
  unfold chronoid_uuidv7_dash_splice. rewrite splice_spec; [|done|].
  - by rewrite (concat_row _ 32 _ _ Hr Hh).
  - rewrite (length_concat_rows _ 32) by done. apply lookup_lt_Some in Hh. nia.
Qed.

(** The characters of four consecutive ids. *)
Definition hex_rows (ids : list chronoid_uuidv7_t) (base : nat) : list (list Z) :=
  map (fun id => hex_digits (uuidv7_b id)) (take 4 (drop base ids)).

Lemma hex_rows_length ids base :
  Forall wf_uuidv7 ids -> Forall (fun r => length r = 32%nat) (hex_rows ids base).
Proof.
  intros Hids. apply Forall_map.
  eapply Forall_impl; [|apply Forall_take, Forall_drop, Hids].
  intros x [Hx _]. rewrite length_hex_digits. lia.
Qed.

Lemma hex_registers ids base :
  Forall wf_uuidv7 ids -> (base + 4 <= length ids)%nat ->
  (hex ← chronoid_uuidv7_hex32_avx2 (uninit 128) 0 (concat (map uuidv7_b ids))
           ((base + 0) * CHRONOID_UUIDV7_BYTES);
   chronoid_uuidv7_hex32_avx2 hex 64 (concat (map uuidv7_b ids))
     ((base + 2) * CHRONOID_UUIDV7_BYTES))
  = Some (concat (hex_rows ids base)).
Proof.
  intros Hids Hb. unfold CHRONOID_UUIDV7_BYTES, hex_rows.
  destruct (lookup_lt_is_Some_2 ids base ltac:(lia)) as [a Ha].
  destruct (lookup_lt_is_Some_2 ids (S base) ltac:(lia)) as [b Hb'].
  destruct (lookup_lt_is_Some_2 ids (S (S base)) ltac:(lia)) as [c Hc].
  destruct (lookup_lt_is_Some_2 ids (S (S (S base))) ltac:(lia)) as [d Hd].
  rewrite (drop_S _ _ _ Ha), (drop_S _ _ _ Hb'), (drop_S _ _ _ Hc), (drop_S _ _ _ Hd).
  cbn [take map]. rewrite firstn_O. cbn [map concat]. rewrite app_nil_r.
  pose proof (ids_slice _ _ _ Hids Ha) as Sa. pose proof (ids_slice _ _ _ Hids Hb') as Sb.
  pose proof (ids_slice _ _ _ Hids Hc) as Sc. pose proof (ids_slice _ _ _ Hids Hd) as Sd.
  destruct (Forall_lookup_1 _ _ _ _ Hids Ha) as [La Ba].
  destruct (Forall_lookup_1 _ _ _ _ Hids Hb') as [Lb Bb].
  destruct (Forall_lookup_1 _ _ _ _ Hids Hc) as [Lc Bc].
  destruct (Forall_lookup_1 _ _ _ _ Hids Hd) as [Ld Bd].
  change (uninit 128) with ([] ++ drop 0 (uninit 128)) at 1.
  replace ((base + 0) * 16)%nat with (base * 16)%nat by lia.
  replace ((base + 2) * 16)%nat with (S (S base) * 16)%nat by lia.
  rewrite (hex32_spec [] (uninit 128) 0 _ (base * 16) (uuidv7_b a) (uuidv7_b b));
    [|done|by replace (base * 16 + 16)%nat with (S base * 16)%nat by lia|done..
     |rewrite length_uninit; lia].
  cbn [mbind option_bind app Nat.add].
  rewrite (hex32_spec _ (uninit 128) 64 _ (S (S base) * 16) (uuidv7_b c) (uuidv7_b d));
    [|done|by replace (S (S base) * 16 + 16)%nat with (S (S (S base)) * 16)%nat by lia
     |done..|rewrite length_app, !length_hex_digits; lia|rewrite length_uninit; lia].
  rewrite (drop_ge (uninit 128)), app_nil_r, <- app_assoc by done. done.
Qed.

Lemma hex_splices ids base pre out hex :
  Forall wf_uuidv7 ids -> (base + 4 <= length ids)%nat ->
  length pre = (base * 36)%nat -> (4 * 36 <= length out)%nat ->
  hex = concat (hex_rows ids base) ->
  (o ← at_offset (pre ++ out) ((base + 0) * 36) 36
         (fun out => chronoid_uuidv7_dash_splice out hex 0);
   o ← at_offset o ((base + 1) * 36) 36
         (fun out => chronoid_uuidv7_dash_splice out hex 32);
   o ← at_offset o ((base + 2) * 36) 36
         (fun out => chronoid_uuidv7_dash_splice out hex 64);
   at_offset o ((base + 3) * 36) 36
     (fun out => chronoid_uuidv7_dash_splice out hex 96))
  = Some (pre ++ concat (map uuidv7_text (take 4 (drop base ids))) ++ drop (4 * 36) out).
Proof.
  intros Hids Hb Hpre Hout Eh. pose proof (hex_rows_length ids base Hids) as Hr.
  unfold hex_rows in *. set (four := take 4 (drop base ids)) in *.
  assert (length four = 4%nat) as H4 by (subst four; rewrite length_take, length_drop; lia).
  assert (Forall wf_uuidv7 four) as Hw by (subst four; by apply Forall_take, Forall_drop).
  clearbody four. destruct four as [|a [|b [|c [|d [|]]]]]; try discriminate H4.
  repeat (apply Forall_cons_1 in Hw as [? Hw]).
  set (hexs := map _ _) in *.
  rewrite (splice_row hexs hex 0 a) by (done || lia). cbn [mbind option_bind].
  rewrite (splice_row hexs hex 1 b)
    by (rewrite ?length_app, ?length_uuidv7_text, ?length_drop; done || lia).
  cbn [mbind option_bind].
  rewrite (splice_row hexs hex 2 c)
    by (rewrite ?length_app, ?length_uuidv7_text, ?length_drop; done || lia).
  cbn [mbind option_bind].
  rewrite (splice_row hexs hex 3 d)
    by (rewrite ?length_app, ?length_uuidv7_text, ?length_drop; done || lia).
  cbn [map concat]. rewrite app_nil_r, !drop_drop, <- !app_assoc. done.
Qed.

Lemma hex_avx2_loop_spec k fuel ids base pre out :
  Forall wf_uuidv7 ids -> (base + 4 * k <= length ids)%nat -> (k <= fuel)%nat ->
  length pre = (base * 36)%nat -> (4 * k * 36 <= length out)%nat ->
  hex_avx2_loop fuel base (base + 4 * k) ids (pre ++ out)
  = Some (pre ++ uuidv7_batch_ref (drop base ids) out (4 * k)).
Proof.
  intros Hids. revert fuel base pre out.
  induction k as [|k IH]; intros fuel base pre out Hb Hf Hpre Hout.
  - unfold uuidv7_batch_ref. rewrite Nat.mul_0_r, Nat.add_0_r, rows_ref_0.
    destruct fuel; cbn [hex_avx2_loop]; by rewrite Nat.ltb_irrefl.
  - destruct fuel as [|fuel]; [lia|]. cbn [hex_avx2_loop].
    destruct (Nat.ltb_spec base (base + 4 * S k)); [|lia].
    pose proof (hex_registers ids base Hids ltac:(lia)) as Hreg.
    apply bind_Some in Hreg as (h1 & -> & Hreg). cbn [mbind option_bind]. rewrite Hreg.
    cbn [mbind option_bind].
    pose proof (hex_splices ids base pre out _ Hids ltac:(lia) Hpre ltac:(lia) eq_refl)
      as Hs.
    change CHRONOID_UUIDV7_STRING_LEN with 36%nat.
    apply bind_Some in Hs as (o1 & -> & Hs). cbn [mbind option_bind].
    apply bind_Some in Hs as (o2 & -> & Hs). cbn [mbind option_bind].
    apply bind_Some in Hs as (o3 & -> & Hs). cbn [mbind option_bind].
    rewrite Hs. cbn [mbind option_bind].
    replace (base + 4 * S k)%nat with (base + 4 + 4 * k)%nat by lia.
    rewrite app_assoc, IH; try lia.
    + rewrite <- app_assoc. f_equal. f_equal. unfold uuidv7_batch_ref.
      rewrite <- drop_drop, rows_ref_app. f_equal. lia.
    + rewrite length_app, (rows_take_length 36 _ wf_uuidv7 length_uuidv7_text);
        [lia|by apply Forall_drop|rewrite length_drop; lia].
    + rewrite length_drop. lia.
Qed.

Lemma ldiff_3 n : Nat.ldiff n 3 = (4 * (n / 4))%nat.
Proof.
  change 3%nat with (Nat.ones 2).
  rewrite Nat.ldiff_ones_r, Nat.shiftr_div_pow2, Nat.shiftl_mul_pow2. cbn. lia.
Qed.

Lemma uuidv7_batch_avx2_spec `{HexEncode16} ids out n :
  uuidv7_batch_pre ids out n ->
  chronoid_uuidv7_string_batch_avx2 ids out n = Some (uuidv7_batch_ref ids out n).
Proof.
  intros (Hids & Hn & Ho). unfold chronoid_uuidv7_string_batch_avx2.
  rewrite ldiff_3. set (k := (n / 4)%nat).
  assert (4 * k <= n)%nat as Hk by (subst k; apply Nat.Div0.mul_div_le).
  pose proof (hex_avx2_loop_spec k n ids 0 [] out Hids ltac:(lia) ltac:(lia)
                eq_refl ltac:(lia)) as Hl.
  cbn [app Nat.add] in Hl. rewrite Hl. cbn [mbind option_bind]. rewrite drop_0. clear Hl.
  destruct (Nat.ltb_spec (4 * k) n).
  - apply (rows_tail 36 uuidv7_text wf_uuidv7 length_uuidv7_text); [done|lia|].
    apply uuidv7_batch_scalar_spec.
  - by replace (4 * k)%nat with n by lia.
Qed.

(** ** The dispatcher *)

#[export] Program Instance uuidv7_string_batch_kernels `{HexEncode16}
    : StringBatch chronoid_uuidv7_t := {
  batch_scalar := chronoid_uuidv7_string_batch_scalar;
  batch_avx2 := chronoid_uuidv7_string_batch_avx2;
  batch_pre := uuidv7_batch_pre;
  batch_ref := uuidv7_batch_ref
}.
Next Obligation. intros. by apply uuidv7_batch_scalar_spec. Qed.
Next Obligation. intros. by apply uuidv7_batch_avx2_spec. Qed.
Next Obligation. intros. apply rows_ref_0. Qed.

(** The probes of this dispatcher, written out a second time in hex_batch.c. *)
Definition chronoid_uuidv7_force_scalar_env (v : option (list Z)) : bool :=
  match v with
  | None => false
  | Some v =>
      if bool_decide (v = []) then false
      else if bool_decide (v = str "0") || bool_decide (v = str "false")
              || bool_decide (v = str "FALSE") then false
      else true
  end.

Definition chronoid_uuidv7_cpu_supports_avx2 (cc : compiler) (cpu : cpu_t) : bool :=
  match cc with
  | GNUC =>
      if negb (builtin_avx2 cpu) then false
      else match cpuid_count_7_ebx cpu with
           | None => false
           | Some ebx => negb (Z.land ebx (Z.shiftl 1 5) =? 0)
           end
  | MSVC =>
      if Z.land (cpuidex_7_ebx cpu) (Z.shiftl 1 5) =? 0 then false
      else Z.land (xgetbv_0 cpu) 0x6 =? 0x6
  | OTHER_CC => false
  end.

Definition chronoid_uuidv7_resolve (h : host) (env : option (list Z)) : batch_fn :=
  if have_avx2 h then
    if negb (chronoid_uuidv7_force_scalar_env env)
       && chronoid_uuidv7_cpu_supports_avx2 (host_cc h) (host_cpu h)
    then BATCH_AVX2 else BATCH_SCALAR
  else BATCH_SCALAR.

(** [g_hex_batch_impl] before the first call. *)
Definition g_hex_batch_impl_init : batch_fn := INIT_TRAMPOLINE.

Definition chronoid_uuidv7_string_batch_init_trampoline `{HexEncode16} (h : host)
    (env : option (list Z)) (ids : list chronoid_uuidv7_t) (out_36n : list Z) (n : nat)
    : option (list Z * batch_fn) :=
  let resolved := chronoid_uuidv7_resolve h env in
  out ← run_kernel resolved ids out_36n n;
  Some (out, resolved).

Definition chronoid_uuidv7_string_batch `{HexEncode16} (h : host)
    (env : option (list Z)) (g_hex_batch_impl : batch_fn) (ids : list chronoid_uuidv7_t)
    (out_36n : list Z) (n : nat) : option (list Z * batch_fn) :=
  if (n =? 0)%nat then Some (out_36n, g_hex_batch_impl)
  else match g_hex_batch_impl with
       | INIT_TRAMPOLINE => chronoid_uuidv7_string_batch_init_trampoline h env ids out_36n n
       | f => out ← run_kernel f ids out_36n n; Some (out, g_hex_batch_impl)
       end.

(** The second dispatcher is the first one. *)
Lemma uuidv7_resolve_eq h env : chronoid_uuidv7_resolve h env = resolve h env.
Proof. done. Qed.

Lemma uuidv7_string_batch_eq `{HexEncode16} h env g ids out n :
  chronoid_uuidv7_string_batch h env g ids out n = string_batch h env g ids out n.
Proof. by destruct g. Qed.

(** ** Properties *)

Lemma uuidv7_batch_ref_rows `{HexEncode16} ids out n :
  uuidv7_batch_pre ids out n ->
  length (uuidv7_batch_ref ids out n) = length out /\
  drop (n * 36) (uuidv7_batch_ref ids out n) = drop (n * 36) out /\
  forall i id buf, (i < n)%nat -> ids !! i = Some id -> length buf = 36%nat ->
    chronoid_uuidv7_format id buf
    = Some (take 36 (drop (i * 36) (uuidv7_batch_ref ids out n))).
Proof.
  intros Hpre. split_and!.
  - by apply (rows_ref_length 36 uuidv7_text wf_uuidv7 length_uuidv7_text).
  - by apply (rows_ref_rest 36 uuidv7_text wf_uuidv7 length_uuidv7_text).
  - intros i id buf Hi Hid Hbuf.
    rewrite uuidv7_format_spec by (done || exact (Forall_lookup_1 _ _ _ _ (proj1 Hpre) Hid)).
    f_equal. symmetry.
    by apply (rows_ref_row 36 uuidv7_text wf_uuidv7 length_uuidv7_text).
Qed.

(** C19: the vector hexadecimal encoders are the scalar one.  On every 16-byte
    input [chronoid_hex_encode_lower_ssse3] writes what the scalar loop writes,
    and the AVX2 bulk kernel, for every number of ids with any tail below four,
    fills the rows with what [chronoid_uuidv7_format] writes and nothing else. *)
Theorem hex_kernels_agree `{HexEncode16} b buf ids out n :
  length b = 16%nat -> bytes b -> length buf = 36%nat ->
  Forall wf_uuidv7 ids -> (n <= length ids)%nat -> (n * 36 <= length out)%nat ->
  chronoid_hex_encode_lower_ssse3 buf b = chronoid_hex_encode_lower_scalar buf b /\
  chronoid_uuidv7_string_batch_avx2 ids out n
  = chronoid_uuidv7_string_batch_scalar ids out n /\
  exists r, chronoid_uuidv7_string_batch_avx2 ids out n = Some r /\
    length r = length out /\ drop (n * 36) r = drop (n * 36) out /\
    forall i id buf, (i < n)%nat -> ids !! i = Some id -> length buf = 36%nat ->
      chronoid_uuidv7_format id buf = Some (take 36 (drop (i * 36) r)).
Proof.
  intros Hl Hb Hbuf Hids Hn Ho. assert (uuidv7_batch_pre ids out n) as Hpre by done.
  rewrite hex_encode_ssse3_spec, hex_encode_scalar_spec by done. split; [done|].
  rewrite uuidv7_batch_avx2_spec, uuidv7_batch_scalar_spec by done. split; [done|].
  eexists. split; [done|]. by apply uuidv7_batch_ref_rows.
Qed.

Lemma hex_kernels_agree_witness :
  let ids := replicate 5 CHRONOID_UUIDV7_MAX in
  let out := replicate 200 0 in
  chronoid_hex_encode_lower_ssse3 (replicate 36 0) (replicate 16 0xAB)
  = chronoid_hex_encode_lower_scalar (replicate 36 0) (replicate 16 0xAB) /\
  chronoid_uuidv7_string_batch_avx2 ids out 5
  = chronoid_uuidv7_string_batch_scalar ids out 5 /\
  exists r, chronoid_uuidv7_string_batch_avx2 ids out 5 = Some r /\
    length r = length out /\ drop (5 * 36) r = drop (5 * 36) out /\
    forall i id buf, (i < 5)%nat -> ids !! i = Some id -> length buf = 36%nat ->
      chronoid_uuidv7_format id buf = Some (take 36 (drop (i * 36) r)).
Proof.
  apply (hex_kernels_agree (replicate 16 0xAB) (replicate 36 0)
           (replicate 5 CHRONOID_UUIDV7_MAX) (replicate 200 0) 5).
  - reflexivity.
  - apply bytes_replicate. unfold uint. lia.
  - reflexivity.
  - apply Forall_replicate, uuidv7_max_wf.
  - vm_compute. lia.
  - vm_compute. lia.
Defined.

(** C23: the bulk UUID formatter agrees with formatting one by one, whatever
    kernel the pointer names or the trampoline picks on the first call; with
    [n = 0] neither the buffer nor the pointer is touched. *)
Theorem uuidv7_string_batch_correct `{HexEncode16} h env g ids out n :
  Forall wf_uuidv7 ids -> (n <= length ids)%nat -> (n * 36 <= length out)%nat ->
  pointer_ok h g ->
  exists r g', chronoid_uuidv7_string_batch h env g ids out n = Some (r, g') /\
    g' = (if (n =? 0)%nat then g
          else if bool_decide (g = g_hex_batch_impl_init) then chronoid_uuidv7_resolve h env else g) /\
    pointer_ok h g' /\
    drop (n * 36) r = drop (n * 36) out /\
    forall i id buf, (i < n)%nat -> ids !! i = Some id -> length buf = 36%nat ->
      chronoid_uuidv7_format id buf = Some (take 36 (drop (i * 36) r)).
Proof.
  intros Hids Hn Ho Hg. exists (uuidv7_batch_ref ids out n).
  assert (uuidv7_batch_pre ids out n) as Hpre by done.
  destruct (uuidv7_batch_ref_rows ids out n Hpre) as (_ & Hd & Hf).
  destruct (string_batch_spec (H := uuidv7_string_batch_kernels) h env g ids out n Hpre Hg) as (g' & Hr & Hg' & Hok).
  exists g'. rewrite uuidv7_string_batch_eq. by split_and!.
Qed.

Lemma uuidv7_string_batch_correct_witness :
  let h := Host true MSVC (Cpu false None 32 6) in
  let ids := replicate 5 CHRONOID_UUIDV7_MAX in
  let out := replicate 200 0 in
  exists r g', chronoid_uuidv7_string_batch h None INIT_TRAMPOLINE ids out 5 = Some (r, g') /\
    g' = (if (5 =? 0)%nat then INIT_TRAMPOLINE
          else if bool_decide (INIT_TRAMPOLINE = INIT_TRAMPOLINE)
               then resolve h None else INIT_TRAMPOLINE) /\
    pointer_ok h g' /\
    drop (5 * 36) r = drop (5 * 36) out /\
    forall i id buf, (i < 5)%nat -> ids !! i = Some id -> length buf = 36%nat ->
      chronoid_uuidv7_format id buf = Some (take 36 (drop (i * 36) r)).
Proof.
  apply (uuidv7_string_batch_correct (Host true MSVC (Cpu false None 32 6)) None
           INIT_TRAMPOLINE (replicate 5 CHRONOID_UUIDV7_MAX) (replicate 200 0) 5).
  - apply Forall_replicate, uuidv7_max_wf.
  - vm_compute. lia.
  - vm_compute. lia.
  - left. reflexivity.
Defined.
