(* ===== verification/Uuidv7Sequence.v ===== *)
(** * Monotonic UUIDv7 runs: chronoid/uuidv7/uuidv7_sequence.c

    A sequence keeps the last millisecond it emitted, a 12-bit counter and the
    random tail.  Every call reads the clock; randomness is drawn only when the
    millisecond changes. *)
From Stdlib Require Import Sorting.Sorted.
From S2P Require Import Prelude Radix ByteOrder Libc Rand Uuidv7.

Definition UUIDV7_MAX_UNIX_MS_INTERNAL : Z := Z.shiftl 1 48 - 1.
Definition UUIDV7_COUNTER_MASK : Z := 0x0FFF.

Record chronoid_uuidv7_sequence_t := UuidSeq {
  useq_last_ms : Z;
  useq_counter : Z;
  useq_rand_b : list Z
}.

Definition chronoid_uuidv7_sequence_emit (out : chronoid_uuidv7_t) (unix_ms counter : Z)
    (rand_b : list Z) : option chronoid_uuidv7_t :=
  let ms := u64 unix_ms in
  let b := uuidv7_b out in
  b ← store b 0 (u8 (Z.shiftr ms 40));
  b ← store b 1 (u8 (Z.shiftr ms 32));
  b ← store b 2 (u8 (Z.shiftr ms 24));
  b ← store b 3 (u8 (Z.shiftr ms 16));
  b ← store b 4 (u8 (Z.shiftr ms 8));
  b ← store b 5 (u8 ms);
  let c := u16 (Z.land counter UUIDV7_COUNTER_MASK) in
  b ← store b 6 (u8 (Z.lor 0x70 (Z.land (Z.shiftr c 8) 0x0F)));
  b ← store b 7 (u8 (Z.land c 0xFF));
  rand_b0 ← rand_b !! 0%nat;
  b ← store b 8 (u8 (Z.lor 0x80 (Z.land rand_b0 0x3F)));
  b ← memcpy b 9 rand_b 1 7;
  Some (Uuidv7 b).

Section Sequence.
Context {W : Type} `{RandomSource W} `{NowMs W}.

(** The error, the buffer and the environment afterwards. *)
Definition chronoid_uuidv7_sequence_draw_random (n : nat) (w : W)
    : option (chronoid_uuidv7_err_t * list Z * W) :=
  '(r, buf, w) ← fill_random n w;
  if negb (r =? 0) then Some (CHRONOID_UUIDV7_ERR_RNG, buf, w)
  else Some (CHRONOID_UUIDV7_OK, buf, w).

Definition chronoid_uuidv7_sequence_draw_counter (out : Z) (w : W)
    : option (chronoid_uuidv7_err_t * Z * W) :=
  '(e, two, w) ← chronoid_uuidv7_sequence_draw_random 2 w;
  if bool_decide (e <> CHRONOID_UUIDV7_OK) then Some (e, out, w)
  else
    two0 ← two !! 0%nat;
    two1 ← two !! 1%nat;
    Some (CHRONOID_UUIDV7_OK,
          u16 (Z.land (Z.lor (u32 (Z.shiftl two0 8)) two1) UUIDV7_COUNTER_MASK), w).

Definition chronoid_uuidv7_sequence_init (s : chronoid_uuidv7_sequence_t) (w : W)
    : option (chronoid_uuidv7_err_t * chronoid_uuidv7_sequence_t * W) :=
  '(e, counter, w) ← chronoid_uuidv7_sequence_draw_counter 0xcc w;
  if bool_decide (e <> CHRONOID_UUIDV7_OK) then Some (e, s, w)
  else
    '(e, rand_b, w) ← chronoid_uuidv7_sequence_draw_random 8 w;
    if bool_decide (e <> CHRONOID_UUIDV7_OK) then Some (e, s, w)
    else Some (CHRONOID_UUIDV7_OK, UuidSeq 0 counter rand_b, w).

(** The two redraws and the commit that both the tick and the rollover branch
    make; [ms] is the millisecond they move to. *)
Definition sequence_redraw (s : chronoid_uuidv7_sequence_t) (ms : Z) (w : W)
    : option (chronoid_uuidv7_err_t * chronoid_uuidv7_sequence_t * W) :=
  '(e, new_rand_b, w) ← chronoid_uuidv7_sequence_draw_random 8 w;
  if bool_decide (e <> CHRONOID_UUIDV7_OK) then Some (e, s, w)
  else
    '(e, new_counter, w) ← chronoid_uuidv7_sequence_draw_counter 0xcc w;
    if bool_decide (e <> CHRONOID_UUIDV7_OK) then Some (e, s, w)
    else
      rand_b ← memcpy (useq_rand_b s) 0 new_rand_b 0 8;
      Some (CHRONOID_UUIDV7_OK, UuidSeq ms new_counter rand_b, w).

(** The three ways a call advances the state: a new millisecond, the next
    counter value, or the rollover into the next millisecond. *)
Definition sequence_advance (s : chronoid_uuidv7_sequence_t) (effective_ms : Z) (w : W)
    : option (chronoid_uuidv7_err_t * chronoid_uuidv7_sequence_t * W) :=
  if useq_last_ms s <? effective_ms then sequence_redraw s effective_ms w
  else
    let bumped := u32 (useq_counter s + 1) in
    if UUIDV7_COUNTER_MASK <? bumped then
      if UUIDV7_MAX_UNIX_MS_INTERNAL <=? useq_last_ms s
      then Some (CHRONOID_UUIDV7_ERR_TIME_RANGE, s, w)
      else
        ms ← i64_add (useq_last_ms s) 1;
        sequence_redraw s ms w
    else Some (CHRONOID_UUIDV7_OK,
               UuidSeq (useq_last_ms s) (u16 bumped) (useq_rand_b s), w).

Definition chronoid_uuidv7_sequence_next (s : chronoid_uuidv7_sequence_t)
    (out : chronoid_uuidv7_t) (w : W)
    : option (chronoid_uuidv7_err_t * chronoid_uuidv7_sequence_t
              * chronoid_uuidv7_t * W) :=
  '(wall_ms, w) ← now_ms w;
  let effective_ms := wall_ms in
  let effective_ms :=
    if (effective_ms <? useq_last_ms s) || (UUIDV7_MAX_UNIX_MS_INTERNAL <? effective_ms)
    then useq_last_ms s else effective_ms in
  if (effective_ms <? 0) || (UUIDV7_MAX_UNIX_MS_INTERNAL <? effective_ms)
  then Some (CHRONOID_UUIDV7_ERR_TIME_RANGE, s, out, w)
  else
    '(e, s, w) ← sequence_advance s effective_ms w;
    if bool_decide (e <> CHRONOID_UUIDV7_OK) then Some (e, s, out, w)
    else
      out ← chronoid_uuidv7_sequence_emit out (useq_last_ms s) (useq_counter s)
              (useq_rand_b s);
      Some (CHRONOID_UUIDV7_OK, s, out, w).

(** [n] calls into the same output, with every result. *)
Fixpoint uuidv7_sequence_calls (n : nat) (s : chronoid_uuidv7_sequence_t)
    (out : chronoid_uuidv7_t) (w : W)
    : option (list (chronoid_uuidv7_err_t * chronoid_uuidv7_t)
              * chronoid_uuidv7_sequence_t * W) :=
  match n with
  | O => Some ([], s, w)
  | S n' =>
      '(e, s, out, w) ← chronoid_uuidv7_sequence_next s out w;
      '(rs, s, w) ← uuidv7_sequence_calls n' s out w;
      Some ((e, out) :: rs, s, w)
  end.
End Sequence.

Definition chronoid_uuidv7_sequence_bounds (s : chronoid_uuidv7_sequence_t)
    (min_out max_out : chronoid_uuidv7_t)
    : option (chronoid_uuidv7_t * chronoid_uuidv7_t) :=
  let lo_counter := u32 (useq_counter s + 1) in
  let lo_counter :=
    if UUIDV7_COUNTER_MASK <? lo_counter then UUIDV7_COUNTER_MASK else lo_counter in
  let rand_b_min := replicate 8 0 in
  let rand_b_max := replicate 8 0xff in
  mn ← chronoid_uuidv7_sequence_emit min_out (useq_last_ms s) (u16 lo_counter) rand_b_min;
  mx ← chronoid_uuidv7_sequence_emit max_out (useq_last_ms s) (u16 UUIDV7_COUNTER_MASK)
         rand_b_max;
  Some (mn, mx).

(** ** Invariant and position *)

Definition wf_useq (s : chronoid_uuidv7_sequence_t) : Prop :=
  0 <= useq_last_ms s <= UUIDV7_MAX_UNIX_MS /\ 0 <= useq_counter s < 4096 /\
  length (useq_rand_b s) = 8%nat /\ bytes (useq_rand_b s).

(** The id of the state: what the call that led to it emitted. *)
Definition useq_id (s : chronoid_uuidv7_sequence_t) : chronoid_uuidv7_t :=
  uuidv7_of (useq_last_ms s) (useq_counter s) (useq_rand_b s).

(** Where a state is on the line of 60-bit (time, counter) positions. *)
Definition useq_pos (s : chronoid_uuidv7_sequence_t) : Z :=
  useq_last_ms s * 4096 + useq_counter s.

Lemma emit_spec out ms c rb :
  wf_uuidv7 out -> 0 <= ms <= UUIDV7_MAX_UNIX_MS -> 0 <= c < 4096 ->
  length rb = 8%nat -> bytes rb ->
  chronoid_uuidv7_sequence_emit out ms c rb = Some (uuidv7_of ms c rb).
Proof.
  intros [Hl Hb] Hms Hc Hlr Hbr. rewrite max_unix_ms in Hms. destruct out as [o].
  unfold chronoid_uuidv7_sequence_emit. cbn [uuidv7_b] in *. cbv zeta.
  rewrite (wrap_small 64 ms) by (unfold uint; lia).
  change UUIDV7_COUNTER_MASK with (Z.ones 12). rewrite Z.land_ones by lia.
  change (2 ^ 12) with 4096. rewrite (Z.mod_small c) by lia.
  rewrite (wrap_small 16 c) by (unfold uint; lia).
  destruct (counter_bytes c Hc) as [-> ->]. rewrite !u8_shiftr by lia.
  change (u8 ms) with (ms mod 256).
  explode o. run_stores. explode rb. rewrite bytes_cons in Hbr. destruct Hbr as [Bx _].
  match type of Bx with uint 8 ?y => destruct (variant_byte y Bx) as [E _] end.
  cbn [lookup list_lookup mbind option_bind]. rewrite E. run_stores.
  rewrite memcpy_Some by (cbn [length]; lia).
  cbn [mbind option_bind take drop app Nat.add].
  unfold uuidv7_of. rewrite to_digits_256_6. done.
Qed.

Lemma useq_id_wf s : wf_useq s -> wf_uuidv7 (useq_id s).
Proof. intros (_ & Hc & Hl & Hb). by apply uuidv7_of_wf. Qed.

(** A later position is a greater id, whatever the tails. *)
Lemma useq_pos_lex s s' :
  wf_useq s -> wf_useq s' -> useq_pos s < useq_pos s' ->
  lex (uuidv7_b (useq_id s)) (uuidv7_b (useq_id s')) = Lt.
Proof.
  intros (Hms & Hc & _) (Hms' & Hc' & _). unfold useq_pos, useq_id. intros Hlt.
  rewrite lex_uuidv7_of by done.
  destruct (Z.compare_spec (useq_last_ms s) (useq_last_ms s')); [|done|lia].
  destruct (Z.compare_spec (useq_counter s) (useq_counter s')); [lia|done|lia].
Qed.

Lemma masked_counter x : 0 <= u16 (Z.land x UUIDV7_COUNTER_MASK) < 4096.
Proof.
  change UUIDV7_COUNTER_MASK with (Z.ones 12). rewrite Z.land_ones by lia.
  change (2 ^ 12) with 4096. pose proof (Z.mod_pos_bound x 4096 ltac:(lia)).
  rewrite wrap_small; unfold uint; lia.
Qed.

Lemma bounds_spec s mn mx :
  wf_useq s -> wf_uuidv7 mn -> wf_uuidv7 mx ->
  chronoid_uuidv7_sequence_bounds s mn mx
  = Some (uuidv7_of (useq_last_ms s) (Z.min 4095 (useq_counter s + 1)) (replicate 8 0),
          uuidv7_of (useq_last_ms s) 4095 (replicate 8 0xff)).
Proof.
  intros (Hms & Hc & _) Hmn Hmx. unfold chronoid_uuidv7_sequence_bounds. cbv zeta.
  rewrite (wrap_small 32) by (unfold uint; lia). unfold UUIDV7_COUNTER_MASK.
  assert ((if 0xFFF <? useq_counter s + 1 then 0xFFF else useq_counter s + 1)
          = Z.min 4095 (useq_counter s + 1)) as ->
    by (destruct (Z.ltb_spec 0xFFF (useq_counter s + 1)); lia).
  rewrite !(wrap_small 16) by (unfold uint; lia).
  assert (bytes (replicate 8 0) /\ bytes (replicate 8 0xff)) as [B0 B1]
    by (split; apply bytes_replicate; unfold uint; lia).
  rewrite emit_spec by (done || lia). cbn [mbind option_bind].
  by rewrite emit_spec by (done || lia).
Qed.

(** Any tail lies between the all-zero and the all-one tail. *)
Lemma tail_bounds rb :
  length rb = 8%nat -> bytes rb ->
  lex (0x80 + nth 0 rb 0 mod 64 :: drop 1 rb)
      (0x80 + nth 0 (replicate 8 0) 0 mod 64 :: drop 1 (replicate 8 0)) <> Lt /\
  lex (0x80 + nth 0 rb 0 mod 64 :: drop 1 rb)
      (0x80 + nth 0 (replicate 8 0xff) 0 mod 64 :: drop 1 (replicate 8 0xff)) <> Gt.
Proof.
  intros Hl Hb.
  assert (forall l n, bytes l -> length l = n ->
            lex l (replicate n 0) <> Lt /\ lex l (replicate n 255) <> Gt) as Hn.
  { clear. intros l n Hb <-. induction Hb as [|x l Hx Hb [IH1 IH2]]; [done|].
    cbn [length replicate lex]. unfold uint in Hx.
    destruct (Z.compare_spec x 0), (Z.compare_spec x 255); split; (done || lia). }
  explode rb. rewrite bytes_cons in Hb. destruct Hb as [Bx Hb].
  destruct (Hn _ 7%nat Hb eq_refl) as [H1 H2].
  match type of Bx with uint 8 ?y => pose proof (Z.mod_pos_bound y 64 ltac:(lia)) end.
  cbn [nth drop replicate lex] in *.
  change (0x80 + 0 mod 64) with 128. change (0x80 + 255 mod 64) with 191. split.
  - match goal with |- context [?a ?= 128] => destruct (Z.compare_spec a 128) end;
      (done || lia).
  - match goal with |- context [?a ?= 191] => destruct (Z.compare_spec a 191) end;
      (done || lia).
Qed.

(** The counter of two bytes. *)
Lemma two_byte_counter x y :
  uint 8 x -> uint 8 y ->
  u16 (Z.land (Z.lor (u32 (Z.shiftl x 8)) y) UUIDV7_COUNTER_MASK) = val 256 [x; y] mod 4096.
Proof.
  unfold uint. intros Hx Hy. change UUIDV7_COUNTER_MASK with (Z.ones 12).
  rewrite Z.land_ones by lia. change (2 ^ 12) with 4096.
  rewrite (wrap_small 32) by (unfold uint; rewrite Z.shiftl_mul_pow2; lia).
  rewrite lor_shiftl by lia.
  pose proof (Z.mod_pos_bound (x * 2 ^ 8 + y) 4096 ltac:(lia)).
  rewrite wrap_small by (unfold uint; lia). unfold val. cbn [foldl]. done.
Qed.

(** ** The operations *)

Section Specs.
Context {W : Type} `{RandomSource W} `{NowMs W}.

(** Everything a redraw can do: eight bytes, then two, and the commit. *)
Lemma redraw_exact s ms (w : W) :
  length (useq_rand_b s) = 8%nat ->
  sequence_redraw s ms w =
  match fill_random 8 w with
  | None => None
  | Some (0, tail, w2) =>
      match fill_random 2 w2 with
      | None => None
      | Some (0, two, w3) =>
          Some (CHRONOID_UUIDV7_OK, UuidSeq ms (val 256 two mod 4096) tail, w3)
      | Some (_, _, w3) => Some (CHRONOID_UUIDV7_ERR_RNG, s, w3)
      end
  | Some (_, _, w2) => Some (CHRONOID_UUIDV7_ERR_RNG, s, w2)
  end.
Proof.
  intros Hl. unfold sequence_redraw, chronoid_uuidv7_sequence_draw_counter,
    chronoid_uuidv7_sequence_draw_random.
  destruct (fill_random 8 w) as [[[r1 tail] w2]|] eqn:E1; cbn [mbind option_bind]; [|done].
  destruct (fill_random_ok _ _ _ _ _ E1) as [L1 _].
  destruct r1 as [|r1|r1]; cbn [Z.eqb negb mbind option_bind]; [|by rewrite bool_decide_eq_true_2..].
  rewrite bool_decide_eq_false_2 by (by intros []).
  destruct (fill_random 2 w2) as [[[r2 two] w3]|] eqn:E2; cbn [mbind option_bind]; [|done].
  destruct (fill_random_ok _ _ _ _ _ E2) as [L2 B2].
  destruct r2 as [|r2|r2]; cbn [Z.eqb negb mbind option_bind];
    [|by rewrite bool_decide_eq_true_2 by done; cbn [mbind option_bind]; rewrite bool_decide_eq_true_2..].
  rewrite bool_decide_eq_false_2 by (by intros []).
  explode two. rewrite !bytes_cons in B2. destruct B2 as (Bx & By & _).
  cbn [lookup list_lookup mbind option_bind].
  rewrite bool_decide_eq_false_2 by (by intros []). rewrite two_byte_counter by done.
  rewrite memcpy_full by done. done.
Qed.

(** A redraw either fails, leaving the state alone, or installs a fresh
    counter and tail at the new millisecond. *)
Lemma redraw_spec s ms (w : W) e s' w' :
  length (useq_rand_b s) = 8%nat -> 0 <= ms <= UUIDV7_MAX_UNIX_MS ->
  sequence_redraw s ms w = Some (e, s', w') ->
  (e = CHRONOID_UUIDV7_ERR_RNG /\ s' = s) \/
  (e = CHRONOID_UUIDV7_OK /\ wf_useq s' /\ useq_last_ms s' = ms).
Proof.
  intros Hl Hms. unfold sequence_redraw,
    chronoid_uuidv7_sequence_draw_counter, chronoid_uuidv7_sequence_draw_random.
  destruct (fill_random 8 w) as [[[r1 rb] w1]|] eqn:E1; cbn [mbind option_bind]; [|done].
  destruct (fill_random_ok _ _ _ _ _ E1) as [L1 B1].
  destruct (r1 =? 0); cbn [negb mbind option_bind].
  2:{ rewrite bool_decide_eq_true_2 by done. intros [= <- <- <-]. by left. }
  rewrite bool_decide_eq_false_2 by (by intros []).
  destruct (fill_random 2 w1) as [[[r2 two] w2]|] eqn:E2; cbn [mbind option_bind]; [|done].
  destruct (fill_random_ok _ _ _ _ _ E2) as [L2 B2].
  destruct (r2 =? 0); cbn [negb mbind option_bind].
  2:{ rewrite !bool_decide_eq_true_2 by done. cbn [mbind option_bind].
      rewrite bool_decide_eq_true_2 by done. intros [= <- <- <-]. by left. }
  rewrite !bool_decide_eq_false_2 by (by intros []).
  explode two. cbn [lookup list_lookup mbind option_bind].
  rewrite bool_decide_eq_false_2 by (by intros []).
  rewrite memcpy_full by done. cbn [mbind option_bind]. intros [= <- <- <-]. right.
  split; [done|]. split; [|done].
  unfold wf_useq. cbn [useq_last_ms useq_counter useq_rand_b]. split; [done|].
  split; [apply masked_counter|done].
Qed.

(** The millisecond a call works with. *)
Definition effective (s : chronoid_uuidv7_sequence_t) (wall : Z) : Z :=
  if (useq_last_ms s <=? wall) && (wall <=? UUIDV7_MAX_UNIX_MS)
  then wall else useq_last_ms s.

(** What moving the state to [eff] did. *)
Definition advanced (s s' : chronoid_uuidv7_sequence_t) (eff : Z) : Prop :=
  (useq_last_ms s < eff /\ useq_last_ms s' = eff) \/
  (eff = useq_last_ms s /\ useq_counter s < 4095 /\
   s' = UuidSeq (useq_last_ms s) (useq_counter s + 1) (useq_rand_b s)) \/
  (eff = useq_last_ms s /\ useq_counter s = 4095 /\
   useq_last_ms s' = useq_last_ms s + 1).

(** The end of the line: the last millisecond and the last counter value. *)
Definition at_end (s : chronoid_uuidv7_sequence_t) : Prop :=
  useq_last_ms s = UUIDV7_MAX_UNIX_MS /\ useq_counter s = 4095.

Lemma advance_spec s eff (w : W) e s' w' :
  wf_useq s -> useq_last_ms s <= eff <= UUIDV7_MAX_UNIX_MS ->
  sequence_advance s eff w = Some (e, s', w') ->
  (e = CHRONOID_UUIDV7_OK /\ wf_useq s' /\ advanced s s' eff) \/
  (e = CHRONOID_UUIDV7_ERR_RNG /\ s' = s) \/
  (e = CHRONOID_UUIDV7_ERR_TIME_RANGE /\ s' = s /\ at_end s).
Proof.
  intros Hs He. pose proof Hs as (Hms & Hc & Hlr & Hbr). unfold sequence_advance, advanced.
  destruct (Z.ltb_spec (useq_last_ms s) eff).
  { intros Hr. apply (redraw_spec s eff) in Hr as [[-> ->]|(-> & Hw & Hl)];
      [tauto| |done|lia]. left. tauto. }
  assert (eff = useq_last_ms s) as -> by lia. cbv zeta.
  rewrite (wrap_small 32) by (unfold uint; lia). unfold UUIDV7_COUNTER_MASK.
  destruct (Z.ltb_spec 0xFFF (useq_counter s + 1)).
  - change UUIDV7_MAX_UNIX_MS_INTERNAL with UUIDV7_MAX_UNIX_MS.
    destruct (Z.leb_spec UUIDV7_MAX_UNIX_MS (useq_last_ms s)).
    { intros [= <- <- <-]. right. right. split; [done|]. split; [done|].
      split; lia. }
    rewrite max_unix_ms in *. unfold i64_add. rewrite i64_Some
      by (unfold int64, INT64_MIN, INT64_MAX; lia). cbn [mbind option_bind].
    intros Hr. apply redraw_spec in Hr as [[-> ->]|(-> & Hw & Hl)];
      [tauto| |done|rewrite max_unix_ms; lia].
    left. split; [done|]. split; [done|]. right. right. split; [done|]. split; [lia|done].
  - intros [= <- <- <-]. left. rewrite (wrap_small 16) by (unfold uint; lia).
    split; [done|]. split; [|right; left; split; [done|]; split; [lia|done]].
    unfold wf_useq. cbn. split; [done|]. split; [lia|done].
Qed.

(** Everything a call can do; [wall] is what the clock said. *)
Lemma next_outcomes s out (w : W) e s' out' w' :
  wf_useq s -> wf_uuidv7 out ->
  chronoid_uuidv7_sequence_next s out w = Some (e, s', out', w') ->
  exists wall w1, now_ms w = Some (wall, w1) /\
  ((e = CHRONOID_UUIDV7_OK /\ wf_useq s' /\ out' = useq_id s' /\
    advanced s s' (effective s wall)) \/
   (e = CHRONOID_UUIDV7_ERR_RNG /\ s' = s /\ out' = out) \/
   (e = CHRONOID_UUIDV7_ERR_TIME_RANGE /\ s' = s /\ out' = out /\ at_end s)).
Proof.
  intros Hs Hout. unfold chronoid_uuidv7_sequence_next.
  destruct (now_ms w) as [[wall w1]|]; [|done]. cbn [mbind option_bind]. cbv zeta.
  intros Hrun. exists wall, w1. split; [done|].
  change UUIDV7_MAX_UNIX_MS_INTERNAL with UUIDV7_MAX_UNIX_MS in Hrun.
  pose proof Hs as (Hms & Hc & Hlr & Hbr).
  assert ((if (wall <? useq_last_ms s) || (UUIDV7_MAX_UNIX_MS <? wall)
           then useq_last_ms s else wall) = effective s wall) as Ee.
  { unfold effective. rewrite (Z.leb_antisym wall), (Z.leb_antisym _ wall).
    by destruct (wall <? useq_last_ms s), (UUIDV7_MAX_UNIX_MS <? wall). }
  rewrite Ee in Hrun. clear Ee.
  assert (useq_last_ms s <= effective s wall <= UUIDV7_MAX_UNIX_MS) as He.
  { unfold effective. destruct (Z.leb_spec (useq_last_ms s) wall),
      (Z.leb_spec wall UUIDV7_MAX_UNIX_MS); cbn [andb]; lia. }
  set (eff := effective s wall) in *. clearbody eff.
  rewrite (proj2 (Z.ltb_ge eff 0)), (proj2 (Z.ltb_ge UUIDV7_MAX_UNIX_MS eff)) in Hrun
    by lia. cbn [orb] in Hrun.
  apply bind_Some in Hrun as ([[e1 s1] w2] & Hstep & Hrun).
  apply advance_spec in Hstep as [(-> & Hw & Ha)|[[-> ->]|(-> & -> & Ha)]]; [..|done|lia].
  - rewrite bool_decide_eq_false_2 in Hrun by (by intros []).
    destruct Hw as (? & ? & ? & ?).
    rewrite emit_spec in Hrun by done. cbn [mbind option_bind] in Hrun.
    injection Hrun as <- <- <- <-. left. by split_and!.
  - rewrite bool_decide_eq_true_2 in Hrun by done. injection Hrun as <- <- <- <-. tauto.
  - rewrite bool_decide_eq_true_2 in Hrun by done. injection Hrun as <- <- <- <-. tauto.
Qed.
End Specs.

Lemma advanced_pos s s' eff : wf_useq s' -> advanced s s' eff ->
  wf_useq s -> useq_pos s < useq_pos s'.
Proof.
  intros (_ & Hc' & _) Ha (_ & Hc & _). unfold useq_pos.
  destruct Ha as [[Hlt ->]|[(-> & Hlt & ->)|(-> & Hc4 & ->)]]; [lia|cbn; lia|lia].
Qed.

(** ** Properties *)

(** The ids of the successful calls. *)
Fixpoint handed (rs : list (chronoid_uuidv7_err_t * chronoid_uuidv7_t))
    : list chronoid_uuidv7_t :=
  match rs with
  | [] => []
  | (CHRONOID_UUIDV7_OK, id) :: rs' => id :: handed rs'
  | _ :: rs' => handed rs'
  end.

(** [a] sorts before [b], as the library's own comparison decides it. *)
Definition uuid_before `{Memcmp} (a b : chronoid_uuidv7_t) : Prop :=
  exists c, chronoid_uuidv7_compare a b = Some c /\ c < 0.

Lemma lex_before `{Memcmp} a b :
  wf_uuidv7 a -> wf_uuidv7 b -> lex (uuidv7_b a) (uuidv7_b b) = Lt -> uuid_before a b.
Proof.
  intros Ha Hb Hl. destruct (uuidv7_compare_spec a b Ha Hb) as (c & Hc & Hs).
  exists c. split; [done|]. rewrite Hl in Hs. simpl in Hs. lia.
Qed.

Lemma calls_positions {W} `{RandomSource W} `{NowMs W} n s out (w : W) rs s' w' :
  wf_useq s -> wf_uuidv7 out ->
  uuidv7_sequence_calls n s out w = Some (rs, s', w') ->
  wf_useq s' /\
  exists states, handed rs = map useq_id states /\ Forall wf_useq states /\
    StronglySorted (fun a b => useq_pos a < useq_pos b) (s :: states).
Proof.
  revert s out w rs. induction n as [|n IH]; intros s out w rs Hs Hout;
    cbn [uuidv7_sequence_calls].
  { intros [= <- <- <-]. split; [done|]. exists []. by repeat constructor. }
  intros ([[[e s1] o1] w1] & Hn & Hrun)%bind_Some.
  apply bind_Some in Hrun as ([[rs1 s2] w2] & Hrun & [= <- <- <-]).
  apply next_outcomes in Hn
    as (wall & w3 & _ & [(-> & Hw & -> & Ha)|[(-> & -> & ->)|(-> & -> & -> & _)]]);
    [|by eapply IH in Hrun..|done|done].
  destruct (IH s1 (useq_id s1) w1 rs1 Hw (useq_id_wf _ Hw) Hrun)
    as (Hw2 & states & Hh & Hwf & Hsort).
  split; [done|]. exists (s1 :: states). cbn [handed map].
  split; [by rewrite Hh|]. split; [by constructor|].
  constructor; [done|]. pose proof (advanced_pos _ _ _ Hw Ha Hs) as Hlt.
  inversion Hsort as [|? ? _ Hfa]; subst. constructor; [done|].
  eapply Forall_impl; [|exact Hfa]. intros x Hx. cbv beta in *. lia.
Qed.

(** C11: a sequence never goes backwards.  Over any number of calls, whatever
    the clock shows (standing still, stepping back, failing, out of range) and
    whatever the random source yields, with failing calls in between: the ids
    handed out are strictly increasing in the order of
    [chronoid_uuidv7_compare], each also above the state the run started from,
    and each is a version 7, variant 2 UUID. *)
Theorem uuidv7_sequence_increasing {W} `{RandomSource W} `{NowMs W} `{Memcmp}
    n s out (w : W) rs s' w' :
  wf_useq s -> wf_uuidv7 out ->
  uuidv7_sequence_calls n s out w = Some (rs, s', w') ->
  StronglySorted uuid_before (useq_id s :: handed rs) /\ wf_useq s' /\
  Forall (fun id => wf_uuidv7 id /\ chronoid_uuidv7_version id = Some 7 /\
                    chronoid_uuidv7_variant id = Some 2) (handed rs).
Proof.
  intros Hs Hout Hrun.
  destruct (calls_positions n s out w rs s' w' Hs Hout Hrun) as (Hs' & states & -> & Hw & Hsort).
  split; [|split; [done|]].
  - change (useq_id s :: map useq_id states) with (map useq_id (s :: states)).
    assert (Forall wf_useq (s :: states)) as Hw' by (by constructor).
    clear Hw Hs Hrun. induction Hsort as [|x l Hl IH Hx]; [constructor|].
    apply Forall_cons_1 in Hw' as [Hwx Hwl]. cbn [map]. constructor; [by apply IH|].
    apply Forall_map. eapply Forall_impl; [|apply Forall_and; [exact Hx|exact Hwl]].
    intros y [Hlt Hwy]. apply lex_before; [by apply useq_id_wf..|].
    by apply useq_pos_lex.
  - apply Forall_map. eapply Forall_impl; [|exact Hw]. intros x Hx.
    split; [by apply useq_id_wf|]. destruct Hx as (_ & Hc & Hl & Hb).
    by apply uuidv7_of_version.
Qed.

(** A call that hands out the id of the state [s'] it leaves: the state is
    well-formed, the id carries its millisecond. *)
Definition hands_out {W} (s' : chronoid_uuidv7_sequence_t) (w' : W)
    (r : option (chronoid_uuidv7_err_t * chronoid_uuidv7_sequence_t * chronoid_uuidv7_t * W))
    : Prop :=
  r = Some (CHRONOID_UUIDV7_OK, s',
            uuidv7_of (useq_last_ms s') (useq_counter s') (useq_rand_b s'), w') /\
  wf_useq s' /\
  chronoid_uuidv7_unix_ms (uuidv7_of (useq_last_ms s') (useq_counter s') (useq_rand_b s'))
  = Some (useq_last_ms s').

(** A call that moves the sequence [s] to the millisecond [ms]: eight bytes for
    the tail and two for the counter, in that order; a refused draw is ERR_RNG
    and changes neither [s] nor [out]; a draw without an answer is none. *)
Definition moves_to {W} `{RandomSource W} (s : chronoid_uuidv7_sequence_t)
    (out : chronoid_uuidv7_t) (ms : Z) (w : W)
    (r : option (chronoid_uuidv7_err_t * chronoid_uuidv7_sequence_t * chronoid_uuidv7_t * W))
    : Prop :=
  match fill_random 8 w with
  | None => r = None
  | Some (0, tail, w2) =>
      match fill_random 2 w2 with
      | None => r = None
      | Some (0, two, w3) => hands_out (UuidSeq ms (val 256 two mod 4096) tail) w3 r
      | Some (_, _, w3) => r = Some (CHRONOID_UUIDV7_ERR_RNG, s, out, w3)
      end
  | Some (_, _, w2) => r = Some (CHRONOID_UUIDV7_ERR_RNG, s, out, w2)
  end.

Lemma emit_hands_out {W} s' out (w' : W) :
  wf_useq s' -> wf_uuidv7 out ->
  hands_out s' w'
    (out ← chronoid_uuidv7_sequence_emit out (useq_last_ms s') (useq_counter s') (useq_rand_b s');
     Some (CHRONOID_UUIDV7_OK, s', out, w')).
Proof.
  intros Hs Hout. pose proof Hs as (Hms & Hc & Hl & Hb). rewrite emit_spec by done.
  split; [done|]. split; [done|].
  rewrite unix_ms_spec by (by apply uuidv7_of_wf). by rewrite uuidv7_ms_of.
Qed.

(** The end of a call that redraws. *)
Lemma redraw_moves {W} `{RandomSource W} s out ms (w : W) :
  wf_useq s -> wf_uuidv7 out -> 0 <= ms <= UUIDV7_MAX_UNIX_MS ->
  moves_to s out ms w
    ('(e, s, w) ← sequence_redraw s ms w;
     if bool_decide (e <> CHRONOID_UUIDV7_OK) then Some (e, s, out, w)
     else
       out ← chronoid_uuidv7_sequence_emit out (useq_last_ms s) (useq_counter s) (useq_rand_b s);
       Some (CHRONOID_UUIDV7_OK, s, out, w)).
Proof.
  intros (_ & _ & Hl & _) Hout Hms. rewrite redraw_exact by done. unfold moves_to.
  destruct (fill_random 8 w) as [[[r1 tail] w2]|] eqn:E1; [|done].
  destruct (fill_random_ok _ _ _ _ _ E1) as [L1 B1].
  destruct r1; cbn [mbind option_bind]; [|by rewrite bool_decide_eq_true_2..].
  destruct (fill_random 2 w2) as [[[r2 two] w3]|] eqn:E2; [|done].
  destruct r2; cbn [mbind option_bind]; [|by rewrite bool_decide_eq_true_2..].
  rewrite bool_decide_eq_false_2 by (by intros []). apply emit_hands_out; [|done].
  split; [done|]. split; [cbn; apply Z.mod_pos_bound; lia|done].
Qed.

(** The call whose clock does not move the sequence. *)
Lemma stay_outcomes {W} `{RandomSource W} s out (w : W) :
  wf_useq s -> wf_uuidv7 out ->
  let r :=
    if (useq_last_ms s <? 0) || (UUIDV7_MAX_UNIX_MS <? useq_last_ms s)
    then Some (CHRONOID_UUIDV7_ERR_TIME_RANGE, s, out, w)
    else
      '(e, s, w) ← sequence_advance s (useq_last_ms s) w;
      if bool_decide (e <> CHRONOID_UUIDV7_OK) then Some (e, s, out, w)
      else
        out ← chronoid_uuidv7_sequence_emit out (useq_last_ms s) (useq_counter s) (useq_rand_b s);
        Some (CHRONOID_UUIDV7_OK, s, out, w) in
  if useq_counter s <? 4095
  then hands_out (UuidSeq (useq_last_ms s) (useq_counter s + 1) (useq_rand_b s)) w r
  else if useq_last_ms s <? UUIDV7_MAX_UNIX_MS
  then moves_to s out (useq_last_ms s + 1) w r
  else r = Some (CHRONOID_UUIDV7_ERR_TIME_RANGE, s, out, w).
Proof.
  intros Hs Hout. cbv zeta. pose proof Hs as (Hms & Hc & Hlr & Hbr).
  rewrite (proj2 (Z.ltb_ge (useq_last_ms s) 0)),
    (proj2 (Z.ltb_ge UUIDV7_MAX_UNIX_MS (useq_last_ms s))) by lia. cbn [orb].
  unfold sequence_advance. rewrite Z.ltb_irrefl. cbv zeta.
  rewrite (wrap_small 32) by (unfold uint; lia). unfold UUIDV7_COUNTER_MASK.
  change UUIDV7_MAX_UNIX_MS_INTERNAL with UUIDV7_MAX_UNIX_MS.
  destruct (Z.ltb_spec (useq_counter s) 4095), (Z.ltb_spec 0xFFF (useq_counter s + 1));
    try lia.
  - rewrite (wrap_small 16) by (unfold uint; lia). cbn [mbind option_bind].
    rewrite bool_decide_eq_false_2 by (by intros []). apply emit_hands_out; [|done].
    split; [done|]. split; [cbn; lia|done].
  - rewrite Z.ltb_antisym. destruct (Z.leb_spec UUIDV7_MAX_UNIX_MS (useq_last_ms s)); cbn [negb].
    + cbn [mbind option_bind]. by rewrite bool_decide_eq_true_2.
    + rewrite max_unix_ms in *. unfold i64_add.
      rewrite i64_Some by (unfold int64, INT64_MIN, INT64_MAX; lia). cbn [mbind option_bind].
      apply redraw_moves; [done..|rewrite max_unix_ms; lia].
Qed.

(** C12: everything one call does, on every branch, in terms of the state before
    it.  A clock without a value gives no result.  When the clock is past the
    sequence's millisecond and inside 48 bits, the sequence moves to the clock's
    millisecond and redraws its tail and its counter.  Otherwise, while the counter
    is below 0xFFF, the call adds exactly one to the counter, keeps millisecond and
    tail, draws nothing, and succeeds.  Otherwise it moves to the following
    millisecond, again redrawing; and at the last millisecond it reports
    ERR_TIME_RANGE without drawing.  A success emits the id of the new state, which
    carries the new millisecond; ERR_RNG is reported exactly when one of the two
    draws is refused; an error leaves the sequence and the output unchanged. *)
Theorem uuidv7_sequence_next_outcomes {W} `{RandomSource W} `{NowMs W} s out (w : W) :
  wf_useq s -> wf_uuidv7 out ->
  let r := chronoid_uuidv7_sequence_next s out w in
  match now_ms w with
  | None => r = None
  | Some (wall, w1) =>
      if (useq_last_ms s <? wall) && (wall <=? UUIDV7_MAX_UNIX_MS)
      then moves_to s out wall w1 r
      else if useq_counter s <? 4095
      then hands_out (UuidSeq (useq_last_ms s) (useq_counter s + 1) (useq_rand_b s)) w1 r
      else if useq_last_ms s <? UUIDV7_MAX_UNIX_MS
      then moves_to s out (useq_last_ms s + 1) w1 r
      else r = Some (CHRONOID_UUIDV7_ERR_TIME_RANGE, s, out, w1)
  end.
Proof.
  intros Hs Hout. cbv zeta. unfold chronoid_uuidv7_sequence_next.
  destruct (now_ms w) as [[wall w1]|]; [|done]. cbn [mbind option_bind]. cbv zeta.
  change UUIDV7_MAX_UNIX_MS_INTERNAL with UUIDV7_MAX_UNIX_MS.
  pose proof Hs as (Hms & Hc & Hlr & Hbr).
  destruct (Z.ltb_spec (useq_last_ms s) wall), (Z.leb_spec wall UUIDV7_MAX_UNIX_MS); cbn [andb].
  { rewrite (proj2 (Z.ltb_ge wall (useq_last_ms s))), (proj2 (Z.ltb_ge UUIDV7_MAX_UNIX_MS wall)) by lia.
    cbn [orb]. rewrite (proj2 (Z.ltb_ge wall 0)) by lia. cbn [orb].
    rewrite (proj2 (Z.ltb_ge UUIDV7_MAX_UNIX_MS wall)) by lia. unfold sequence_advance.
    rewrite (proj2 (Z.ltb_lt (useq_last_ms s) wall)) by lia. apply redraw_moves; [done..|lia]. }
  all: assert ((if (wall <? useq_last_ms s) || (UUIDV7_MAX_UNIX_MS <? wall)
                then useq_last_ms s else wall) = useq_last_ms s) as -> by
      (destruct (Z.ltb_spec wall (useq_last_ms s)),
         (Z.ltb_spec UUIDV7_MAX_UNIX_MS wall); cbn [orb]; lia).
  all: by apply stay_outcomes.
Qed.

(** [chronoid_uuidv7_sequence_init] starts a well-formed sequence at time
    zero with a masked random counter, or returns ERR_RNG with the sequence
    unchanged. *)
Theorem uuidv7_sequence_init_outcomes {W} `{RandomSource W} s (w : W) e s' w' :
  chronoid_uuidv7_sequence_init s w = Some (e, s', w') ->
  (e = CHRONOID_UUIDV7_ERR_RNG /\ s' = s) \/
  (e = CHRONOID_UUIDV7_OK /\ wf_useq s' /\ useq_last_ms s' = 0).
Proof.
  unfold chronoid_uuidv7_sequence_init, chronoid_uuidv7_sequence_draw_counter,
    chronoid_uuidv7_sequence_draw_random.
  destruct (fill_random 2 w) as [[[r2 two] w2]|] eqn:E2; cbn [mbind option_bind]; [|done].
  destruct (fill_random_ok _ _ _ _ _ E2) as [L2 B2].
  destruct (r2 =? 0); cbn [negb mbind option_bind].
  2:{ rewrite !bool_decide_eq_true_2 by done. cbn [mbind option_bind].
      rewrite bool_decide_eq_true_2 by done. intros [= <- <- <-]. by left. }
  rewrite !bool_decide_eq_false_2 by (by intros []).
  explode two. cbn [lookup list_lookup mbind option_bind].
  rewrite bool_decide_eq_false_2 by (by intros []).
  destruct (fill_random 8 w2) as [[[r1 rb] w1]|] eqn:E1; cbn [mbind option_bind]; [|done].
  destruct (fill_random_ok _ _ _ _ _ E1) as [L1 B1].
  destruct (r1 =? 0); cbn [negb mbind option_bind].
  2:{ rewrite bool_decide_eq_true_2 by done. intros [= <- <- <-]. by left. }
  rewrite bool_decide_eq_false_2 by (by intros []).
  intros [= <- <- <-]. right. split; [done|]. split; [|done].
  split; [by rewrite max_unix_ms|]. split; [|done]. cbn [useq_counter].
  apply masked_counter.
Qed.

(** What the bounds of [s] say of an id at a later position. *)
Lemma bounds_later s x :
  wf_useq s -> wf_useq x -> useq_pos s < useq_pos x ->
  let mn := uuidv7_of (useq_last_ms s) (Z.min 4095 (useq_counter s + 1)) (replicate 8 0) in
  let mx := uuidv7_of (useq_last_ms s) 4095 (replicate 8 0xff) in
  lex (uuidv7_b (useq_id x)) (uuidv7_b mn) <> Lt /\
  (uuidv7_ms (useq_id x) = useq_last_ms s -> lex (uuidv7_b (useq_id x)) (uuidv7_b mx) <> Gt) /\
  (uuidv7_ms (useq_id x) <> useq_last_ms s -> lex (uuidv7_b (useq_id x)) (uuidv7_b mx) = Gt).
Proof.
  intros (Hms & Hc & _) (Hms' & Hc' & Hl' & Hb') Hlt. cbv zeta. unfold useq_pos, useq_id in *.
  rewrite uuidv7_ms_of by done. rewrite !lex_uuidv7_of by (done || lia).
  pose proof (tail_bounds _ Hl' Hb') as [Tlo Thi].
  destruct (Z.compare_spec (useq_last_ms x) (useq_last_ms s)); [|lia|split; [done|split; [lia|done]]].
  split; [|split; [|lia]].
  - destruct (Z.compare_spec (useq_counter x) (Z.min 4095 (useq_counter s + 1))); (done || lia).
  - intros _. destruct (Z.compare_spec (useq_counter x) 4095); (done || lia).
Qed.

(** C13: what [chronoid_uuidv7_sequence_bounds] promises about every later
    call, not only the next one.  The minimum is at or below every id handed out
    from then on.  An id that still carries the millisecond of the sequence is
    also at or below the maximum; one that carries a later millisecond is strictly
    above the maximum. *)
Theorem uuidv7_sequence_bounds_sound {W} `{RandomSource W} `{NowMs W}
    n s out (w : W) rs s' w' mn0 mx0 :
  wf_useq s -> wf_uuidv7 out -> wf_uuidv7 mn0 -> wf_uuidv7 mx0 ->
  uuidv7_sequence_calls n s out w = Some (rs, s', w') ->
  exists mn mx, chronoid_uuidv7_sequence_bounds s mn0 mx0 = Some (mn, mx) /\
    Forall (fun id =>
      lex (uuidv7_b id) (uuidv7_b mn) <> Lt /\
      (uuidv7_ms id = useq_last_ms s -> lex (uuidv7_b id) (uuidv7_b mx) <> Gt) /\
      (uuidv7_ms id <> useq_last_ms s -> lex (uuidv7_b id) (uuidv7_b mx) = Gt)) (handed rs).
Proof.
  intros Hs Hout Hmn Hmx Hrun.
  destruct (calls_positions n s out w rs s' w' Hs Hout Hrun) as (_ & states & -> & Hw & Hsort).
  rewrite (bounds_spec s mn0 mx0) by done. eexists _, _. split; [done|].
  inversion Hsort as [|? ? _ Hpos]; subst. apply Forall_map.
  eapply Forall_impl; [|apply Forall_and; [exact Hw|exact Hpos]].
  intros x [Hx Hlt]. by apply bounds_later.
Qed.

(** The sequence can report ERR_TIME_RANGE.  uuidv7.h says
    [chronoid_uuidv7_sequence_next] "always returns either CHRONOID_UUIDV7_OK
    or CHRONOID_UUIDV7_ERR_RNG"; at the last millisecond with the counter at
    0xFFF every call, in every environment whose clock answers, returns
    ERR_TIME_RANGE instead, without drawing and without changing anything. *)
Theorem uuidv7_sequence_end_of_time {W} `{RandomSource W} `{NowMs W}
    s out (w w1 : W) wall :
  wf_useq s -> useq_last_ms s = UUIDV7_MAX_UNIX_MS -> useq_counter s = 4095 ->
  now_ms w = Some (wall, w1) ->
  chronoid_uuidv7_sequence_next s out w
  = Some (CHRONOID_UUIDV7_ERR_TIME_RANGE, s, out, w1).
Proof.
  intros Hs Hl Hc Hn. unfold chronoid_uuidv7_sequence_next. rewrite Hn.
  cbn [mbind option_bind]. cbv zeta. rewrite Hl.
  change UUIDV7_MAX_UNIX_MS_INTERNAL with UUIDV7_MAX_UNIX_MS.
  assert ((if (wall <? UUIDV7_MAX_UNIX_MS) || (UUIDV7_MAX_UNIX_MS <? wall)
           then UUIDV7_MAX_UNIX_MS else wall) = UUIDV7_MAX_UNIX_MS) as ->.
  { destruct (Z.ltb_spec wall UUIDV7_MAX_UNIX_MS), (Z.ltb_spec UUIDV7_MAX_UNIX_MS wall);
      cbn [orb]; lia. }
  rewrite Z.ltb_irrefl. cbn [Z.ltb orb].
  unfold sequence_advance. rewrite Hl, Hc, Z.ltb_irrefl. done.
Qed.

Lemma redraw_returns {W} `{RandomSource W} s ms (w : W) :
  length (useq_rand_b s) = 8%nat -> (forall n (w : W), is_Some (fill_random n w)) ->
  is_Some (sequence_redraw s ms w).
Proof.
  intros Hl Hfill. unfold sequence_redraw, chronoid_uuidv7_sequence_draw_counter,
    chronoid_uuidv7_sequence_draw_random.
  destruct (Hfill 8%nat w) as [[[r1 rb] w1] E1]. rewrite E1. cbn [mbind option_bind].
  destruct (fill_random_ok _ _ _ _ _ E1) as [L1 _].
  destruct (r1 =? 0); cbn [negb mbind option_bind]; [|by eexists].
  rewrite bool_decide_eq_false_2 by (by intros []).
  destruct (Hfill 2%nat w1) as [[[r2 two] w2] E2]. rewrite E2. cbn [mbind option_bind].
  destruct (fill_random_ok _ _ _ _ _ E2) as [L2 _].
  destruct (r2 =? 0); cbn [negb mbind option_bind]; [|by eexists].
  rewrite !bool_decide_eq_false_2 by (by intros []).
  explode two. cbn [lookup list_lookup mbind option_bind].
  rewrite bool_decide_eq_false_2 by (by intros []). rewrite memcpy_full by done. by eexists.
Qed.

Lemma advance_any {W} `{RandomSource W} s eff (w : W) :
  int64 (useq_last_ms s) -> uint 16 (useq_counter s) -> length (useq_rand_b s) = 8%nat ->
  bytes (useq_rand_b s) -> Z.max 0 (useq_last_ms s) <= eff <= UUIDV7_MAX_UNIX_MS ->
  (forall n (w : W), is_Some (fill_random n w)) ->
  exists e s' w', sequence_advance s eff w = Some (e, s', w') /\
    ((e = CHRONOID_UUIDV7_OK /\ wf_useq s') \/ (e <> CHRONOID_UUIDV7_OK /\ s' = s)).
Proof.
  intros Hms Hc Hl Hb He Hfill.
  assert (forall ms, 0 <= ms <= UUIDV7_MAX_UNIX_MS ->
    exists e s' w', sequence_redraw s ms w = Some (e, s', w') /\
      ((e = CHRONOID_UUIDV7_OK /\ wf_useq s') \/ (e <> CHRONOID_UUIDV7_OK /\ s' = s))) as Hredraw.
  { intros ms Hm. destruct (redraw_returns s ms w Hl Hfill) as [[[e s'] w'] E].
    exists e, s', w'. split; [done|]. by apply redraw_spec in E as [[-> ->]|(-> & ? & _)]; auto. }
  unfold sequence_advance. destruct (Z.ltb_spec (useq_last_ms s) eff); [apply Hredraw; lia|].
  cbv zeta. unfold uint in Hc. rewrite (wrap_small 32) by (unfold uint; lia).
  unfold UUIDV7_COUNTER_MASK. destruct (Z.ltb_spec 0xFFF (useq_counter s + 1)).
  - change UUIDV7_MAX_UNIX_MS_INTERNAL with UUIDV7_MAX_UNIX_MS.
    destruct (Z.leb_spec UUIDV7_MAX_UNIX_MS (useq_last_ms s));
      [by eexists _, _, _; split; [done|right]|].
    rewrite max_unix_ms in *. unfold i64_add.
    rewrite i64_Some by (unfold int64, INT64_MIN, INT64_MAX; lia). apply Hredraw. lia.
  - eexists _, _, _. split; [done|]. left. split; [done|]. rewrite (wrap_small 16) by (unfold uint; lia).
    unfold wf_useq. cbn. split; [lia|]. split; [lia|done].
Qed.

(** Nothing the struct can hold makes a call misbehave.  The fields are public;
    whatever 64-bit time, 16-bit counter and eight bytes they hold (a negative or
    too late time, a counter past 0xFFF), a call over an environment that answers
    returns; it hands out a version 7 id of a well-formed sequence, or leaves the
    struct and the output alone; and a time past 48 bits is always refused. *)
Theorem uuidv7_sequence_next_any_struct {W} `{RandomSource W} `{NowMs W} s out (w : W) :
  int64 (useq_last_ms s) -> uint 16 (useq_counter s) -> length (useq_rand_b s) = 8%nat ->
  bytes (useq_rand_b s) -> wf_uuidv7 out ->
  (forall w : W, is_Some (now_ms w)) -> (forall n (w : W), is_Some (fill_random n w)) ->
  exists e s' out' w', chronoid_uuidv7_sequence_next s out w = Some (e, s', out', w') /\
    (e = CHRONOID_UUIDV7_OK -> wf_useq s' /\ out' = useq_id s') /\
    (e <> CHRONOID_UUIDV7_OK -> s' = s /\ out' = out) /\
    (UUIDV7_MAX_UNIX_MS < useq_last_ms s -> e = CHRONOID_UUIDV7_ERR_TIME_RANGE).
Proof.
  intros Hms Hc Hl Hb Hout Hnow Hfill. unfold chronoid_uuidv7_sequence_next.
  destruct (Hnow w) as [[wall w1] ->]. cbn [mbind option_bind]. cbv zeta.
  change UUIDV7_MAX_UNIX_MS_INTERNAL with UUIDV7_MAX_UNIX_MS.
  set (eff := if (_ || _) then useq_last_ms s else wall).
  assert (useq_last_ms s <= eff /\ (UUIDV7_MAX_UNIX_MS < useq_last_ms s -> eff = useq_last_ms s))
    as [Heff Hlate].
  { subst eff. destruct (Z.ltb_spec wall (useq_last_ms s)), (Z.ltb_spec UUIDV7_MAX_UNIX_MS wall);
      cbn [orb]; lia. }
  clearbody eff. destruct ((eff <? 0) || (UUIDV7_MAX_UNIX_MS <? eff)) eqn:Eeff.
  { by eexists _, _, _, _. }
  apply orb_false_iff in Eeff as [E1%Z.ltb_ge E2%Z.ltb_ge].
  destruct (advance_any s eff w1) as (e & s' & w' & -> & Hr); [done..|lia|done|].
  cbn [mbind option_bind]. case_bool_decide as He.
  - destruct Hr as [[-> _]|[_ ->]]; [done|]. eexists _, _, _, _. split; [done|]. split_and!; [done..|lia].
  - destruct Hr as [[-> Hw]|[Hne _]]; [|done]. pose proof Hw as (H1 & H2 & H3 & H4).
    rewrite emit_spec by done. eexists _, _, _, _. split; [done|]. split_and!; [done..|lia].
Qed.

(** The branch the comment calls defence in depth: a negative time in the struct
    and a clock that is no later.  The source gives 0x01 bytes. *)
Example uuidv7_sequence_negative_struct :
  let s := UuidSeq (-5) 0xFFFF (replicate 8 0) in
  chronoid_uuidv7_sequence_next s CHRONOID_UUIDV7_NIL (ToyEnv 1 (-9))
  = Some (CHRONOID_UUIDV7_ERR_TIME_RANGE, s, CHRONOID_UUIDV7_NIL, ToyEnv 1 (-9)) /\
  (r ← chronoid_uuidv7_sequence_next s CHRONOID_UUIDV7_NIL (ToyEnv 1 3); Some r.1.1.2)
  = Some (UuidSeq 3 0x101 (replicate 8 1)).
Proof. split; vm_compute; reflexivity. Qed.

(** A new sequence and a failing clock.  The comment in
    [chronoid_uuidv7_sequence_next] says that a "brand-new sequence + clock
    failure" bails with ERR_TIME_RANGE; the clamp to [last_ms = 0] comes first,
    so the call succeeds and hands out a UUID stamped with 1970-01-01. *)
Theorem uuidv7_sequence_fresh_clock_failure :
  let w := ToyEnv 0x5A (-1) in
  exists s s' id,
    chronoid_uuidv7_sequence_init (UuidSeq 9 9 []) w = Some (CHRONOID_UUIDV7_OK, s, w) /\
    chronoid_uuidv7_sequence_next s CHRONOID_UUIDV7_NIL w
    = Some (CHRONOID_UUIDV7_OK, s', id, w) /\
    chronoid_uuidv7_unix_ms id = Some 0.
Proof.
  exists (UuidSeq 0 0xA5A (replicate 8 0x5A)), (UuidSeq 0 0xA5B (replicate 8 0x5A)),
    (useq_id (UuidSeq 0 0xA5B (replicate 8 0x5A))).
  split_and!; vm_compute; reflexivity.
Qed.

(** ** Witnesses *)

Definition some_useq (c : Z) : chronoid_uuidv7_sequence_t :=
  UuidSeq 1700000000000 c (replicate 8 0x11).

Lemma some_useq_wf c : 0 <= c < 4096 -> wf_useq (some_useq c).
Proof.
  intros Hc. split; [cbn; rewrite max_unix_ms; lia|]. split; [done|]. split; [done|].
  apply bytes_replicate. unfold uint. lia.
Qed.

Lemma uuidv7_sequence_increasing_witness :
  let s := some_useq 4094 in
  let w := ToyEnv 0x22 5 in
  exists rs s',
    uuidv7_sequence_calls 3 s CHRONOID_UUIDV7_NIL w = Some (rs, s', w) /\
    StronglySorted uuid_before (useq_id s :: handed rs) /\ wf_useq s' /\
    Forall (fun id => wf_uuidv7 id /\ chronoid_uuidv7_version id = Some 7 /\
                      chronoid_uuidv7_variant id = Some 2) (handed rs).
Proof.
  cbv zeta.
  destruct (uuidv7_sequence_calls 3 (some_useq 4094) CHRONOID_UUIDV7_NIL (ToyEnv 0x22 5))
    as [[[rs s'] w']|] eqn:E; [|vm_compute in E; discriminate E].
  assert (w' = ToyEnv 0x22 5) as Ew by (vm_compute in E; congruence).
  exists rs, s'. rewrite Ew. split; [reflexivity|].
  apply (uuidv7_sequence_increasing 3 (some_useq 4094) CHRONOID_UUIDV7_NIL
           (ToyEnv 0x22 5) rs s' w'); [apply some_useq_wf; lia|apply uuidv7_nil_wf|exact E].
Defined.

Lemma uuidv7_sequence_next_outcomes_witness :
  let s := some_useq 7 in
  let w := ToyEnv (-1) 1700000000000 in
  hands_out (some_useq 8) w (chronoid_uuidv7_sequence_next s CHRONOID_UUIDV7_NIL w).
Proof.
  exact (uuidv7_sequence_next_outcomes (some_useq 7) CHRONOID_UUIDV7_NIL
           (ToyEnv (-1) 1700000000000) (some_useq_wf 7 ltac:(lia)) uuidv7_nil_wf).
Defined.

(** A tick with a source that refuses, and one with a source that answers. *)
Example uuidv7_sequence_tick :
  chronoid_uuidv7_sequence_next (some_useq 7) CHRONOID_UUIDV7_NIL (ToyEnv (-1) 1700000000001)
  = Some (CHRONOID_UUIDV7_ERR_RNG, some_useq 7, CHRONOID_UUIDV7_NIL,
          ToyEnv (-1) 1700000000001) /\
  (r ← chronoid_uuidv7_sequence_next (some_useq 7) CHRONOID_UUIDV7_NIL
         (ToyEnv 0x5A 1700000000001); Some r.1.1.2)
  = Some (UuidSeq 1700000000001 0xA5A (replicate 8 0x5A)).
Proof. split; vm_compute; reflexivity. Qed.

Lemma uuidv7_sequence_init_outcomes_witness :
  let s := UuidSeq 0 0xBCD (replicate 8 0xAB) in
  (CHRONOID_UUIDV7_OK = CHRONOID_UUIDV7_ERR_RNG /\ UuidSeq 0 0xBAB (replicate 8 0xAB) = s) \/
  (CHRONOID_UUIDV7_OK = CHRONOID_UUIDV7_OK /\ wf_useq (UuidSeq 0 0xBAB (replicate 8 0xAB)) /\
   useq_last_ms (UuidSeq 0 0xBAB (replicate 8 0xAB)) = 0).
Proof.
  apply (uuidv7_sequence_init_outcomes (UuidSeq 0 0xBCD (replicate 8 0xAB)) (ToyEnv 0xAB 0)
           CHRONOID_UUIDV7_OK (UuidSeq 0 0xBAB (replicate 8 0xAB)) (ToyEnv 0xAB 0)).
  vm_compute. reflexivity.
Defined.

Lemma uuidv7_sequence_bounds_sound_witness :
  let s := some_useq 4093 in
  let w := ToyEnv 1 0 in
  exists rs s' mn mx,
    uuidv7_sequence_calls 4 s CHRONOID_UUIDV7_NIL w = Some (rs, s', w) /\
    map uuidv7_ms (handed rs)
    = [1700000000000; 1700000000000; 1700000000001; 1700000000001] /\
    chronoid_uuidv7_sequence_bounds s CHRONOID_UUIDV7_NIL CHRONOID_UUIDV7_NIL
    = Some (mn, mx) /\
    Forall (fun id =>
      lex (uuidv7_b id) (uuidv7_b mn) <> Lt /\
      (uuidv7_ms id = useq_last_ms s -> lex (uuidv7_b id) (uuidv7_b mx) <> Gt) /\
      (uuidv7_ms id <> useq_last_ms s -> lex (uuidv7_b id) (uuidv7_b mx) = Gt)) (handed rs).
Proof.
  cbv zeta.
  destruct (uuidv7_sequence_calls 4 (some_useq 4093) CHRONOID_UUIDV7_NIL (ToyEnv 1 0))
    as [[[rs s'] w']|] eqn:E; [|vm_compute in E; discriminate E].
  assert (w' = ToyEnv 1 0 /\ map uuidv7_ms (handed rs)
    = [1700000000000; 1700000000000; 1700000000001; 1700000000001]) as [-> Ems]
    by (vm_compute in E; injection E as <- _ <-; by vm_compute).
  destruct (uuidv7_sequence_bounds_sound 4 (some_useq 4093) CHRONOID_UUIDV7_NIL (ToyEnv 1 0)
              rs s' (ToyEnv 1 0) CHRONOID_UUIDV7_NIL CHRONOID_UUIDV7_NIL) as (mn & mx & Eb & Hf);
    [apply some_useq_wf; lia|apply uuidv7_nil_wf..|exact E|].
  by exists rs, s', mn, mx.
Defined.

Lemma uuidv7_sequence_end_of_time_witness :
  let s := UuidSeq UUIDV7_MAX_UNIX_MS 4095 (replicate 8 0x11) in
  let w := ToyEnv 1 0 in
  chronoid_uuidv7_sequence_next s CHRONOID_UUIDV7_NIL w
  = Some (CHRONOID_UUIDV7_ERR_TIME_RANGE, s, CHRONOID_UUIDV7_NIL, w).
Proof.
  apply (uuidv7_sequence_end_of_time
           (UuidSeq UUIDV7_MAX_UNIX_MS 4095 (replicate 8 0x11)) CHRONOID_UUIDV7_NIL
           (ToyEnv 1 0) (ToyEnv 1 0) 0).
  - split; [cbn; rewrite max_unix_ms; lia|]. split; [cbn; lia|]. split; [reflexivity|].
    apply bytes_replicate. unfold uint. lia.
  - reflexivity.
  - reflexivity.
  - reflexivity.
Defined.
