(* ===== verification/SequenceClock.v ===== *)
(** * A UUIDv7 sequence and the clock: chronoid/uuidv7/uuidv7_sequence.c

    How far the times in the ids can be from the times the clock showed.  The
    ids are never behind the clock; they run ahead of the latest reading by at most
    one millisecond per call (the rollovers of the counter); and the first reading
    past the last id is taken over exactly. *)
From S2P Require Import Prelude Rand Uuidv7 Uuidv7Sequence.

Section SequenceClock.
Context {W : Type} `{RandomSource W} `{NowMs W}.

(** The calls of [uuidv7_sequence_calls], each with the reading of the clock it
    is about to make. *)
Fixpoint sequence_log (n : nat) (s : chronoid_uuidv7_sequence_t) (out : chronoid_uuidv7_t)
    (w : W) : option (list (Z * (chronoid_uuidv7_err_t * chronoid_uuidv7_t))
                      * chronoid_uuidv7_sequence_t * W) :=
  match n with
  | O => Some ([], s, w)
  | S n' =>
      '(wall, _) ← now_ms w;
      '(e, s, out, w) ← chronoid_uuidv7_sequence_next s out w;
      '(log, s, w) ← sequence_log n' s out w;
      Some ((wall, (e, out)) :: log, s, w)
  end.

(** A reading the sequence can use: it fits 48 bits.  One before the last id is
    below what the sequence has, so it adds nothing to the maximum. *)
Definition reading (m wall : Z) : Z :=
  if wall <=? UUIDV7_MAX_UNIX_MS then Z.max m wall else m.

(** The latest usable reading of a log, at least [m]. *)
Definition latest (m : Z) (log : list (Z * (chronoid_uuidv7_err_t * chronoid_uuidv7_t))) : Z :=
  foldl reading m (map fst log).

(** Every call reads the clock first, so the log exists whenever the calls
    return. *)
Lemma log_of_calls n s out (w : W) rs s' w' :
  uuidv7_sequence_calls n s out w = Some (rs, s', w') ->
  exists log, sequence_log n s out w = Some (log, s', w') /\ rs = map snd log.
Proof.
  revert s out w rs. induction n as [|n IH]; intros s out w rs; cbn [uuidv7_sequence_calls].
  { intros [= <- <- <-]. by exists []. }
  intros ([[[e s1] o1] w1] & Hn & Hrun)%bind_Some.
  apply bind_Some in Hrun as ([[rs1 s2] w2] & Hrun & [= <- <- <-]).
  destruct (IH _ _ _ _ Hrun) as (log & Hlog & ->). cbn [sequence_log]. pose proof Hn as Hn'.
  unfold chronoid_uuidv7_sequence_next in Hn'.
  destruct (now_ms w) as [[wall w3]|]; [|done]. cbn [mbind option_bind]. rewrite Hn.
  cbn [mbind option_bind]. rewrite Hlog. by exists ((wall, (e, o1)) :: log).
Qed.

Lemma foldl_reading_mono l a b : a <= b -> foldl reading a l <= foldl reading b l.
Proof.
  revert a b. induction l as [|x l IH]; intros a b Hab; [done|]. cbn [foldl]. apply IH.
  unfold reading. case_match; lia.
Qed.

Lemma foldl_reading_shift l a : foldl reading (a + 1) l <= foldl reading a l + 1.
Proof.
  revert a. induction l as [|x l IH]; intros a; [done|]. cbn [foldl].
  etrans; [|apply IH]. apply foldl_reading_mono. unfold reading. case_match; lia.
Qed.

(** One call: the millisecond it moves to. *)
Lemma next_ms s out (w : W) e s' out' w' :
  wf_useq s -> wf_uuidv7 out ->
  chronoid_uuidv7_sequence_next s out w = Some (e, s', out', w') ->
  exists wall w1, now_ms w = Some (wall, w1) /\ wf_useq s' /\ wf_uuidv7 out' /\
    useq_last_ms s <= useq_last_ms s' <= reading (useq_last_ms s) wall + 1 /\
    (e <> CHRONOID_UUIDV7_OK -> s' = s) /\
    (e = CHRONOID_UUIDV7_OK ->
     uuidv7_ms out' = useq_last_ms s' /\
     (wall <= UUIDV7_MAX_UNIX_MS -> wall <= useq_last_ms s') /\
     (useq_last_ms s < wall <= UUIDV7_MAX_UNIX_MS -> useq_last_ms s' = wall)).
Proof.
  intros Hs Hout Hrun. apply next_outcomes in Hrun
    as (wall & w1 & Hn & [(-> & Hw & -> & Ha)|[(-> & -> & ->)|(-> & -> & -> & _)]]); [|..|done|done].
  - exists wall, w1. split; [done|]. split; [done|]. split; [by apply useq_id_wf|].
    unfold useq_id. rewrite uuidv7_ms_of by apply Hw.
    unfold advanced, effective, reading in *.
    destruct (Z.leb_spec (useq_last_ms s) wall), (Z.leb_spec wall UUIDV7_MAX_UNIX_MS);
      cbn [andb] in Ha; destruct Ha as [[? ?]|[(? & ? & ->)|(? & ? & ?)]]; cbn;
      (split; [lia|split; [done|lia]]).
  - exists wall, w1. split_and!; try done; unfold reading; case_match; lia.
  - exists wall, w1. split_and!; try done; unfold reading; case_match; lia.
Qed.

(** The ids of a log that came out well. *)
Definition emitted (log : list (Z * (chronoid_uuidv7_err_t * chronoid_uuidv7_t))) (i : nat)
    (wall : Z) (id : chronoid_uuidv7_t) : Prop :=
  log !! i = Some (wall, (CHRONOID_UUIDV7_OK, id)).

Lemma log_tracks n s out (w : W) log s' w' :
  wf_useq s -> wf_uuidv7 out -> sequence_log n s out w = Some (log, s', w') ->
  forall i wall id, emitted log i wall id ->
    useq_last_ms s <= uuidv7_ms id <= latest (useq_last_ms s) (take (S i) log) + Z.of_nat (S i) /\
    (wall <= UUIDV7_MAX_UNIX_MS -> wall <= uuidv7_ms id) /\
    (useq_last_ms s < wall <= UUIDV7_MAX_UNIX_MS ->
     (forall j wallj idj, (j < i)%nat -> emitted log j wallj idj -> uuidv7_ms idj < wall) ->
     uuidv7_ms id = wall).
Proof.
  revert s out w log. induction n as [|n IH]; intros s out w log Hs Hout; cbn [sequence_log].
  { by intros [= <- _ _] [|i]. }
  intros ([wall0 w0] & Hn & Hrun)%bind_Some.
  apply bind_Some in Hrun as ([[[e s1] o1] w1] & Hnext & Hrun).
  apply bind_Some in Hrun as ([[log1 s2] w2] & Hrun & [= <- <- <-]).
  destruct (next_ms _ _ _ _ _ _ _ Hs Hout Hnext)
    as (wall0' & w0' & Hn' & Hs1 & Ho1 & Hms & Herr & Hok).
  rewrite Hn in Hn'. injection Hn' as <- _.
  intros [|i] wall id Hi; unfold emitted in Hi; cbn [lookup list_lookup] in Hi.
  - injection Hi as <- -> <-. destruct (Hok eq_refl) as (-> & Hge & Hcatch).
    split; [|split; [done|]].
    + unfold latest. cbn [take map foldl fst]. rewrite take_0. cbn [map foldl]. lia.
    + intros Hlt _. by apply Hcatch.
  - destruct (IH s1 o1 w1 log1 Hs1 Ho1 Hrun i wall id Hi) as (Hb & Hge & Hcatch).
    split; [|split; [done|]].
    + unfold latest in *. cbn [take map foldl fst].
      pose proof (foldl_reading_mono (map fst (take (S i) log1)) _ _ (proj2 Hms)) as H1.
      pose proof (foldl_reading_shift (map fst (take (S i) log1)) (reading (useq_last_ms s) wall0)).
      lia.
    + intros Hlt Hall. apply Hcatch.
      * split; [|apply Hlt]. destruct (decide (e = CHRONOID_UUIDV7_OK)) as [->|He].
        -- destruct (Hok eq_refl) as [<- _]. by apply (Hall 0%nat wall0 o1); [lia|].
        -- rewrite (Herr He). apply Hlt.
      * intros j wallj idj Hj Hjl. by apply (Hall (S j) wallj idj); [lia|].
Qed.

End SequenceClock.

(** C14: The times in the ids follow the clock.  In every run of calls, with
    any clock (standing still, stepping back, failing, out of range) and any random
    source: an id is never stamped before the time its call read, if that time
    fits 48 bits; the [i]-th call's id is at most [i + 1] milliseconds ahead of
    the latest usable reading so far (or of the time the sequence had at the
    start), however often the counter rolls over; and a reading past every id
    so far is taken over exactly, so that a sequence that ran ahead is
    back on the clock with the first such reading. *)
Theorem uuidv7_sequence_tracks_clock {W} `{RandomSource W} `{NowMs W}
    n s out (w : W) rs s' w' :
  wf_useq s -> wf_uuidv7 out -> uuidv7_sequence_calls n s out w = Some (rs, s', w') ->
  exists log, sequence_log n s out w = Some (log, s', w') /\ rs = map snd log /\
    forall i wall id, emitted log i wall id ->
      useq_last_ms s <= uuidv7_ms id
        <= latest (useq_last_ms s) (take (S i) log) + Z.of_nat (S i) /\
      (wall <= UUIDV7_MAX_UNIX_MS -> wall <= uuidv7_ms id) /\
      (useq_last_ms s < wall <= UUIDV7_MAX_UNIX_MS ->
       (forall j wallj idj, (j < i)%nat -> emitted log j wallj idj -> uuidv7_ms idj < wall) ->
       uuidv7_ms id = wall).
Proof.
  intros Hs Hout Hrun. destruct (log_of_calls _ _ _ _ _ _ _ Hrun) as (log & Hlog & ->).
  exists log. split; [done|]. split; [done|]. by apply (log_tracks n s out w log s' w').
Qed.

(** ** Runs *)

(** The bound is met: a source of 0xFF bytes puts the counter at its maximum with
    every redraw, so that every call rolls over and the ids leave a clock that
    stands still by one millisecond per call. *)
Example drift_of_every_call :
  let s := UuidSeq 1700000000000 4095 (replicate 8 0xFF) in
  exists rs s', uuidv7_sequence_calls 5 s CHRONOID_UUIDV7_NIL (ToyEnv 0xFF 1700000000000)
    = Some (rs, s', ToyEnv 0xFF 1700000000000) /\
    map uuidv7_ms (handed rs) = [1700000000001; 1700000000002; 1700000000003; 1700000000004;
                                 1700000000005].
Proof. eexists _, _. split; vm_compute; reflexivity. Qed.

(** A clock ahead of the sequence: the first id takes the reading over. *)
Lemma uuidv7_sequence_tracks_clock_witness :
  let w := ToyEnv 0x22 1700000000005 in
  exists log s', sequence_log 2 (some_useq 7) CHRONOID_UUIDV7_NIL w = Some (log, s', w) /\
    map (fun x => uuidv7_ms x.2.2) log = [1700000000005; 1700000000005] /\
    forall i wall id, emitted log i wall id ->
      1700000000000 <= uuidv7_ms id
        <= latest 1700000000000 (take (S i) log) + Z.of_nat (S i) /\
      (wall <= UUIDV7_MAX_UNIX_MS -> wall <= uuidv7_ms id) /\
      (1700000000000 < wall <= UUIDV7_MAX_UNIX_MS ->
       (forall j wallj idj, (j < i)%nat -> emitted log j wallj idj -> uuidv7_ms idj < wall) ->
       uuidv7_ms id = wall).
Proof.
  cbv zeta.
  destruct (uuidv7_sequence_calls 2 (some_useq 7) CHRONOID_UUIDV7_NIL (ToyEnv 0x22 1700000000005))
    as [[[rs s'] w']|] eqn:E; [|vm_compute in E; discriminate E].
  destruct (uuidv7_sequence_tracks_clock 2 (some_useq 7) CHRONOID_UUIDV7_NIL
              (ToyEnv 0x22 1700000000005) rs s' w') as (log & Hlog & -> & Hall);
    [apply some_useq_wf; lia|apply uuidv7_nil_wf|exact E|].
  assert (w' = ToyEnv 0x22 1700000000005 /\
          map (fun x => uuidv7_ms x.2.2) log = [1700000000005; 1700000000005]) as [-> Ems]
    by (vm_compute in Hlog; injection Hlog as <- _ <-; by vm_compute).
  exists log, s'. split; [exact Hlog|]. split; [exact Ems|exact Hall].
Defined.
