(* ===== verification/Wipe.v ===== *)
(** * Erasing secrets: chronoid/wipe.h

    The four ways [chronoid_explicit_bzero] can clear memory, and the choice
    the preprocessor makes between them.  An array of the model is never NULL,
    so the NULL test of the source has no counterpart.  That the compiler keeps
    the stores is what the choice of primitive is for; it is not a property of
    the values and is not modelled. *)
From S2P Require Import Prelude.

(** The macros the choice depends on. *)
Class wipe_config := {
  FORCE_VOLATILE_FALLBACK : bool;
  HAVE_EXPLICIT_BZERO_STRINGS_H : bool;
  HAVE_EXPLICIT_BZERO_STRING_H : bool;
  WIN32_OR_CYGWIN : bool;
  HAVE_MEMSET_S : bool
}.

Definition explicit_bzero (p : list Z) (off n : nat) : option (list Z) :=
  memset p off 0 n.

Definition SecureZeroMemory (p : list Z) (off n : nat) : option (list Z) :=
  memset p off 0 n.

(** [memset_s (p + off, smax, c, n)]: Annex K stores [smax] characters when
    [n] exceeds [smax]. *)
Definition memset_s (p : list Z) (off smax : nat) (c : Z) (n : nat) : option (list Z) :=
  memset p off c (if decide (smax < n)%nat then smax else n).

Definition chronoid_explicit_bzero `{H : wipe_config} (p : list Z) (off n : nat)
    : option (list Z) :=
  if decide (n = 0%nat) then Some p
  else if negb (FORCE_VOLATILE_FALLBACK)
          && (HAVE_EXPLICIT_BZERO_STRINGS_H || HAVE_EXPLICIT_BZERO_STRING_H)
  then explicit_bzero p off n
  else if negb (FORCE_VOLATILE_FALLBACK) && WIN32_OR_CYGWIN
  then SecureZeroMemory p off n
  else if negb (FORCE_VOLATILE_FALLBACK) && HAVE_MEMSET_S
  then memset_s p off n 0 n
  else memset p off 0 n.

(** Every primitive does the same to the memory. *)
Lemma explicit_bzero_memset `{H : wipe_config} p off n :
  (off + n <= length p)%nat ->
  chronoid_explicit_bzero p off n = memset p off 0 n.
Proof.
  intros Hn. unfold chronoid_explicit_bzero, explicit_bzero, SecureZeroMemory, memset_s.
  case_decide as H0.
  - subst. unfold memset. rewrite memcpy_Some by (cbn; lia). cbn.
    by rewrite Nat.add_0_r, take_drop.
  - by repeat case_match.
Qed.

Lemma explicit_bzero_Some `{H : wipe_config} p off n :
  (off + n <= length p)%nat ->
  chronoid_explicit_bzero p off n
  = Some (take off p ++ replicate n 0 ++ drop (off + n) p).
Proof.
  intros Hn. rewrite explicit_bzero_memset by done. unfold memset.
  rewrite memcpy_Some by (rewrite ?length_replicate; lia).
  by rewrite drop_0, (take_ge (replicate n 0)) by (by rewrite length_replicate).
Qed.

(** A whole array. *)
Lemma explicit_bzero_full `{H : wipe_config} p n :
  length p = n -> chronoid_explicit_bzero p 0 n = Some (replicate n 0).
Proof.
  intros <-. rewrite explicit_bzero_Some by lia.
  by rewrite take_0, drop_ge, app_nil_r by lia.
Qed.

(** Whatever primitive the build selects, [chronoid_explicit_bzero] clears
    exactly the [n] cells from [off] on: they read zero afterwards, every other
    cell of the array keeps its value, and the array keeps its length. *)
Theorem explicit_bzero_clears `{H : wipe_config} p off n :
  (off + n <= length p)%nat ->
  exists q, chronoid_explicit_bzero p off n = Some q /\
    length q = length p /\
    forall i, q !! i = if decide (off <= i < off + n)%nat then Some 0 else p !! i.
Proof.
  intros Hn. rewrite explicit_bzero_Some by done. eexists. split; [done|]. split.
  { rewrite !length_app, length_take, length_replicate, length_drop. lia. }
  intros i. assert (length (take off p) = off) as Hl by (rewrite length_take; lia).
  case_decide as Hi.
  - rewrite lookup_app_r, lookup_app_l, Hl by (rewrite ?length_replicate; lia).
    apply lookup_replicate. split; [done | lia].
  - destruct (decide (i < off)%nat).
    + by rewrite lookup_app_l, lookup_take, decide_True by lia.
    + rewrite lookup_app_r, lookup_app_r, lookup_drop, Hl, length_replicate
        by (rewrite ?length_replicate; lia).
      f_equal. lia.
Qed.

(** A build without any platform primitive, for evaluating the model. *)
Definition portable_wipe : wipe_config :=
  {| FORCE_VOLATILE_FALLBACK := false; HAVE_EXPLICIT_BZERO_STRINGS_H := false;
     HAVE_EXPLICIT_BZERO_STRING_H := false; WIN32_OR_CYGWIN := false;
     HAVE_MEMSET_S := false |}.

Example explicit_bzero_clears_witness :
  (1 + 2 <= length [9; 8; 7; 6])%nat /\
  exists q, chronoid_explicit_bzero (H := portable_wipe) [9; 8; 7; 6] 1 2 = Some q /\
    length q = 4%nat /\
    forall i, q !! i = if decide (1 <= i < 1 + 2)%nat then Some 0 else [9; 8; 7; 6] !! i.
Proof.
  split; [cbn; lia|].
  apply (explicit_bzero_clears (H := portable_wipe) [9; 8; 7; 6] 1 2). cbn. lia.
Defined.
