(* ===== verification/Chacha20.v ===== *)
(** * The ChaCha20 block function: chronoid/chacha20.c

    Sixteen 32-bit words, twenty rounds, the feed-forward, the little-endian
    output and the counter.  The rounds are proved to be a permutation of the
    states, the counter to be a 64-bit number. *)
From S2P Require Import Prelude Radix Wipe.

Definition CHRONOID_CHACHA20_C0 : Z := 0x61707865.
Definition CHRONOID_CHACHA20_C1 : Z := 0x3320646e.
Definition CHRONOID_CHACHA20_C2 : Z := 0x79622d32.
Definition CHRONOID_CHACHA20_C3 : Z := 0x6b206574.

Definition ROTL32 (x n : Z) : Z := Z.lor (u32 (Z.shiftl x n)) (Z.shiftr x (32 - n)).

(** The macro [QR] on four words. *)
Definition quarter (a b c d : Z) : Z * Z * Z * Z :=
  let a := u32 (a + b) in let d := Z.lxor d a in let d := ROTL32 d 16 in
  let c := u32 (c + d) in let b := Z.lxor b c in let b := ROTL32 b 12 in
  let a := u32 (a + b) in let d := Z.lxor d a in let d := ROTL32 d 8 in
  let c := u32 (c + d) in let b := Z.lxor b c in let b := ROTL32 b 7 in
  (a, b, c, d).

(** [QR (x[i], x[j], x[k], x[l])]. *)
Definition QR (i j k l : nat) (x : list Z) : option (list Z) :=
  a ← x !! i; b ← x !! j; c ← x !! k; d ← x !! l;
  let '(a, b, c, d) := quarter a b c d in
  x ← store x i a; x ← store x j b; x ← store x k c; store x l d.

(** One iteration: the column round and the diagonal round. *)
Definition double_round (x : list Z) : option (list Z) :=
  x ← QR 0 4 8 12 x;
  x ← QR 1 5 9 13 x;
  x ← QR 2 6 10 14 x;
  x ← QR 3 7 11 15 x;
  x ← QR 0 5 10 15 x;
  x ← QR 1 6 11 12 x;
  x ← QR 2 7 8 13 x;
  QR 3 4 9 14 x.

Fixpoint rounds (k : nat) (x : list Z) : option (list Z) :=
  match k with
  | O => Some x
  | S k' => x ← double_round x; rounds k' x
  end.

(** The output loop, [k] words from word [i] on. *)
Fixpoint serialize (k i : nat) (out x state : list Z) : option (list Z) :=
  match k with
  | O => Some out
  | S k' =>
      xi ← x !! i;
      si ← state !! i;
      let v := u32 (xi + si) in
      out ← store out (i * 4 + 0) (u8 v);
      out ← store out (i * 4 + 1) (u8 (Z.shiftr v 8));
      out ← store out (i * 4 + 2) (u8 (Z.shiftr v 16));
      out ← store out (i * 4 + 3) (u8 (Z.shiftr v 24));
      serialize k' (S i) out x state
  end.

(** The output, the state and the working words [x] as the call leaves them. *)
Definition chronoid_chacha20_block `{H : wipe_config} (out state : list Z)
    : option (list Z * list Z * list Z) :=
  x ← memcpy (uninit 16) 0 state 0 16;
  x ← rounds 10 x;
  out ← serialize 16 0 out x state;
  s12 ← state !! 12%nat;
  state ← store state 12 (u32 (s12 + 1));
  s12 ← state !! 12%nat;
  state ← (if s12 =? 0 then
             s13 ← state !! 13%nat;
             store state 13 (u32 (s13 + 1))
           else Some state);
  x ← chronoid_explicit_bzero x 0 16;
  Some (out, state, x).

(** ** States *)

Definition wf_state (s : list Z) : Prop := length s = 16%nat /\ Forall (uint 32) s.

Lemma lxor_range w a b : 0 <= w -> uint w a -> uint w b -> uint w (Z.lxor a b).
Proof.
  unfold uint. intros Hw Ha Hb. split; [apply Z.lxor_nonneg; lia|].
  destruct (Z.eq_dec (Z.lxor a b) 0) as [->|Hne]; [lia|].
  assert (0 <= Z.lxor a b) by (apply Z.lxor_nonneg; lia).
  apply Z.log2_lt_pow2; [lia|].
  assert (0 < w).
  { destruct (Z.eq_dec w 0) as [->|]; [|lia]. exfalso. apply Hne.
    assert (a = 0) as -> by (change (2 ^ 0) with 1 in *; lia).
    assert (b = 0) as -> by (change (2 ^ 0) with 1 in *; lia). done. }
  eapply Z.le_lt_trans; [apply Z.log2_lxor; lia|].
  apply Z.max_lub_lt;
    (destruct (Z.eq_dec a 0) as [->|]; destruct (Z.eq_dec b 0) as [->|];
     rewrite ?Z.log2_nonpos by lia; try lia; apply Z.log2_lt_pow2; lia).
Qed.

Lemma ROTL32_val x n :
  uint 32 x -> 0 < n < 32 ->
  ROTL32 x n = (x * 2 ^ n) mod 2 ^ 32 + x / 2 ^ (32 - n).
Proof.
  unfold uint, ROTL32, wrap. intros Hx Hn.
  rewrite Z.shiftl_mul_pow2, Z.shiftr_div_pow2 by lia.
  assert (2 ^ 32 = 2 ^ (32 - n) * 2 ^ n) as E by (rewrite <- Z.pow_add_r by lia; f_equal; lia).
  assert (0 < 2 ^ n) by lia. assert (0 < 2 ^ (32 - n)) by lia.
  apply (lor_add _ _ n); [lia| |].
  - split; [apply Z.div_pos; lia|]. apply Z.div_lt_upper_bound; [lia|]. lia.
  - rewrite E, Z.mul_mod_distr_r by lia. apply Z.mod_mul. lia.
Qed.

Lemma ROTL32_range x n : uint 32 x -> 0 < n < 32 -> uint 32 (ROTL32 x n).
Proof.
  intros Hx Hn. rewrite ROTL32_val by done. unfold uint in *.
  assert (2 ^ 32 = 2 ^ (32 - n) * 2 ^ n) as E by (rewrite <- Z.pow_add_r by lia; f_equal; lia).
  assert (0 < 2 ^ n) by lia. assert (0 < 2 ^ (32 - n)) by lia.
  assert (0 <= x / 2 ^ (32 - n) < 2 ^ n) as Hq.
  { split; [apply Z.div_pos; lia|]. apply Z.div_lt_upper_bound; lia. }
  rewrite E, Z.mul_mod_distr_r by lia.
  pose proof (Z.mod_pos_bound x (2 ^ (32 - n)) ltac:(lia)). nia.
Qed.

(** Rotating by [n] and then by [32 - n] is the identity. *)
Lemma ROTL32_inv x n : uint 32 x -> 0 < n < 32 -> ROTL32 (ROTL32 x n) (32 - n) = x.
Proof.
  intros Hx Hn. rewrite (ROTL32_val (ROTL32 x n)) by (apply ROTL32_range || lia; done || lia).
  rewrite ROTL32_val by done. replace (32 - (32 - n)) with n by lia. unfold uint in *.
  assert (2 ^ 32 = 2 ^ (32 - n) * 2 ^ n) as E by (rewrite <- Z.pow_add_r by lia; f_equal; lia).
  assert (0 < 2 ^ n) as P1 by lia. assert (0 < 2 ^ (32 - n)) as P2 by lia.
  rewrite E, Z.mul_mod_distr_r by lia.
  set (p := 2 ^ n) in *. set (q := 2 ^ (32 - n)) in *. clearbody p q.
  assert (0 <= x / q < p) as Hq.
  { split; [apply Z.div_pos; lia|]. apply Z.div_lt_upper_bound; lia. }
  pose proof (Z.mod_pos_bound x q ltac:(lia)) as Hm.
  rewrite Z.div_add_l, (Z.div_small (x / q)), Z.add_0_r by lia.
  replace ((x mod q * p + x / q) * q) with (x / q * q + x mod q * (q * p)) by ring.
  rewrite Z.mod_add by nia. rewrite Z.mod_small by nia.
  pose proof (Z.div_mod x q ltac:(lia)). lia.
Qed.

Lemma u32_sub_add a b : uint 32 a -> u32 (u32 (a + b) - b) = a.
Proof.
  intros Ha. unfold wrap. rewrite Zminus_mod_idemp_l, Z.add_simpl_r.
  by apply Z.mod_small.
Qed.

Lemma lxor_cancel a b : Z.lxor (Z.lxor a b) b = a.
Proof. by rewrite Z.lxor_assoc, Z.lxor_nilpotent, Z.lxor_0_r. Qed.

(** ** The quarter round is invertible *)

Definition unquarter (a b c d : Z) : Z * Z * Z * Z :=
  let b := ROTL32 b 25 in let b := Z.lxor b c in let c := u32 (c - d) in
  let d := ROTL32 d 24 in let d := Z.lxor d a in let a := u32 (a - b) in
  let b := ROTL32 b 20 in let b := Z.lxor b c in let c := u32 (c - d) in
  let d := ROTL32 d 16 in let d := Z.lxor d a in let a := u32 (a - b) in
  (a, b, c, d).

(** Half a quarter round and its inverse; [quarter] is two of them. *)
Definition half (r1 r2 a b c d : Z) : Z * Z * Z * Z :=
  let a := u32 (a + b) in let d := ROTL32 (Z.lxor d a) r1 in
  let c := u32 (c + d) in let b := ROTL32 (Z.lxor b c) r2 in
  (a, b, c, d).

Definition unhalf (r1 r2 a b c d : Z) : Z * Z * Z * Z :=
  let b := Z.lxor (ROTL32 b (32 - r2)) c in let c := u32 (c - d) in
  let d := Z.lxor (ROTL32 d (32 - r1)) a in let a := u32 (a - b) in
  (a, b, c, d).

Lemma half_inv r1 r2 a b c d a' b' c' d' :
  0 < r1 < 32 -> 0 < r2 < 32 -> uint 32 a -> uint 32 b -> uint 32 c -> uint 32 d ->
  half r1 r2 a b c d = (a', b', c', d') ->
  unhalf r1 r2 a' b' c' d' = (a, b, c, d) /\
  uint 32 a' /\ uint 32 b' /\ uint 32 c' /\ uint 32 d'.
Proof.
  intros H1 H2 Ha Hb Hc Hd. unfold half, unhalf. cbv zeta. intros [= <- <- <- <-].
  set (a1 := u32 (a + b)).
  assert (uint 32 a1) as Ra by (apply wrap_range; lia).
  assert (uint 32 (Z.lxor d a1)) as Rx by (by apply lxor_range).
  set (d1 := ROTL32 (Z.lxor d a1) r1).
  assert (uint 32 d1) as Rd by (by apply ROTL32_range).
  set (c1 := u32 (c + d1)).
  assert (uint 32 c1) as Rc by (apply wrap_range; lia).
  assert (uint 32 (Z.lxor b c1)) as Ry by (by apply lxor_range).
  rewrite (ROTL32_inv _ r2) by done. subst d1. rewrite (ROTL32_inv _ r1) by done.
  rewrite !lxor_cancel. subst a1 c1. rewrite !u32_sub_add by done.
  split_and!; try done. by apply ROTL32_range.
Qed.

Lemma quarter_inv a b c d a' b' c' d' :
  uint 32 a -> uint 32 b -> uint 32 c -> uint 32 d ->
  quarter a b c d = (a', b', c', d') ->
  unquarter a' b' c' d' = (a, b, c, d) /\
  uint 32 a' /\ uint 32 b' /\ uint 32 c' /\ uint 32 d'.
Proof.
  intros Ha Hb Hc Hd Hq.
  destruct (half 16 12 a b c d) as [[[a1 b1] c1] d1] eqn:E1.
  destruct (half_inv 16 12 a b c d a1 b1 c1 d1) as (I1 & ? & ? & ? & ?); try done.
  assert (half 8 7 a1 b1 c1 d1 = (a', b', c', d')) as E2.
  { rewrite <- Hq. unfold quarter. unfold half in E1. cbv zeta in E1.
    injection E1 as <- <- <- <-. done. }
  destruct (half_inv 8 7 a1 b1 c1 d1 a' b' c' d') as (I2 & Hr); try done.
  split; [|done].
  change (unquarter a' b' c' d') with
    (let '(a, b, c, d) := unhalf 8 7 a' b' c' d' in unhalf 16 12 a b c d).
  rewrite I2. exact I1.
Qed.

(** Undoing [QR] in place. *)
Definition UNQR (i j k l : nat) (x : list Z) : option (list Z) :=
  a ← x !! i; b ← x !! j; c ← x !! k; d ← x !! l;
  let '(a, b, c, d) := unquarter a b c d in
  x ← store x i a; x ← store x j b; x ← store x k c; store x l d.

Lemma QR_inv i j k l x :
  wf_state x -> (i <> j /\ i <> k /\ i <> l /\ j <> k /\ j <> l /\ k <> l)%nat ->
  (i < 16 /\ j < 16 /\ k < 16 /\ l < 16)%nat ->
  exists y, QR i j k l x = Some y /\ wf_state y /\ UNQR i j k l y = Some x.
Proof.
  intros [Hl Hx] Hnd Hlt. destruct_and! Hnd. destruct_and! Hlt.
  destruct (lookup_lt_is_Some_2 x i ltac:(lia)) as [a Ha].
  destruct (lookup_lt_is_Some_2 x j ltac:(lia)) as [b Hb].
  destruct (lookup_lt_is_Some_2 x k ltac:(lia)) as [c Hc].
  destruct (lookup_lt_is_Some_2 x l ltac:(lia)) as [d Hd].
  unfold QR, UNQR. rewrite Ha, Hb, Hc, Hd. cbn [mbind option_bind].
  destruct (quarter a b c d) as [[[a' b'] c'] d'] eqn:Eq.
  assert (forall n v, x !! n = Some v -> uint 32 v) as Hu
    by (intros n v; by apply Forall_lookup_1).
  destruct (quarter_inv a b c d a' b' c' d') as (Hinv & Ra & Rb & Rc & Rd); eauto.
  rewrite !store_Some by (rewrite ?length_insert; lia). cbn [mbind option_bind].
  rewrite !store_Some by (rewrite ?length_insert; lia). cbn [mbind option_bind].
  rewrite !store_Some by (rewrite ?length_insert; lia). cbn [mbind option_bind].
  rewrite !store_Some by (rewrite ?length_insert; lia).
  eexists. split; [done|]. split.
  { split; [by rewrite !length_insert|]. by repeat apply Forall_insert. }
  rewrite !list_lookup_insert, !length_insert, Hl.
  repeat (rewrite ?decide_True by (done || lia);
          rewrite ?decide_False by (intros [? ?]; congruence)).
  cbn [mbind option_bind]. rewrite Hinv.
  repeat (rewrite store_Some by (rewrite ?length_insert; lia); cbn [mbind option_bind]).
  f_equal. apply list_eq. intros n. rewrite !list_lookup_insert, !length_insert, Hl.
  repeat case_decide; destruct_and?; subst; try done; congruence.
Qed.

(** ** The rounds are a permutation *)

Definition un_double_round (x : list Z) : option (list Z) :=
  x ← UNQR 3 4 9 14 x;
  x ← UNQR 2 7 8 13 x;
  x ← UNQR 1 6 11 12 x;
  x ← UNQR 0 5 10 15 x;
  x ← UNQR 3 7 11 15 x;
  x ← UNQR 2 6 10 14 x;
  x ← UNQR 1 5 9 13 x;
  UNQR 0 4 8 12 x.

Lemma double_round_inv x :
  wf_state x ->
  exists y, double_round x = Some y /\ wf_state y /\ un_double_round y = Some x.
Proof.
  intros H0. unfold double_round, un_double_round.
  destruct (QR_inv 0 4 8 12 x H0) as (x1 & -> & H1 & I1); [lia..|]. cbn [mbind option_bind].
  destruct (QR_inv 1 5 9 13 x1 H1) as (x2 & -> & H2 & I2); [lia..|]. cbn [mbind option_bind].
  destruct (QR_inv 2 6 10 14 x2 H2) as (x3 & -> & H3 & I3); [lia..|]. cbn [mbind option_bind].
  destruct (QR_inv 3 7 11 15 x3 H3) as (x4 & -> & H4 & I4); [lia..|]. cbn [mbind option_bind].
  destruct (QR_inv 0 5 10 15 x4 H4) as (x5 & -> & H5 & I5); [lia..|]. cbn [mbind option_bind].
  destruct (QR_inv 1 6 11 12 x5 H5) as (x6 & -> & H6 & I6); [lia..|]. cbn [mbind option_bind].
  destruct (QR_inv 2 7 8 13 x6 H6) as (x7 & -> & H7 & I7); [lia..|]. cbn [mbind option_bind].
  destruct (QR_inv 3 4 9 14 x7 H7) as (x8 & -> & H8 & I8); [lia..|].
  exists x8. split; [done|]. split; [done|].
  rewrite I8. cbn [mbind option_bind]. rewrite I7. cbn [mbind option_bind].
  rewrite I6. cbn [mbind option_bind]. rewrite I5. cbn [mbind option_bind].
  rewrite I4. cbn [mbind option_bind]. rewrite I3. cbn [mbind option_bind].
  rewrite I2. cbn [mbind option_bind]. exact I1.
Qed.

Lemma rounds_total k x : wf_state x -> exists y, rounds k x = Some y /\ wf_state y.
Proof.
  revert x. induction k as [|k IH]; intros x Hx; [by exists x|]. cbn [rounds].
  destruct (double_round_inv x Hx) as (y & -> & Hy & _). cbn [mbind option_bind].
  by apply IH.
Qed.

Lemma rounds_inj k x x' y :
  wf_state x -> wf_state x' -> rounds k x = Some y -> rounds k x' = Some y -> x = x'.
Proof.
  revert x x'. induction k as [|k IH]; intros x x' Hx Hx'; cbn [rounds].
  { by intros [= ->] [= ->]. }
  destruct (double_round_inv x Hx) as (z & -> & Hz & Iz).
  destruct (double_round_inv x' Hx') as (z' & -> & Hz' & Iz'). cbn [mbind option_bind].
  intros H1 H2. rewrite (IH z z' Hz Hz' H1 H2) in Iz. rewrite Iz in Iz'.
  by injection Iz'.
Qed.

(** ** The block function of RFC 8439

    The state as a matrix of four rows of four words; the quarter round on
    integers modulo [2^32], with no bit operation but the exclusive or. *)
Definition rotl (x n : Z) : Z := (x * 2 ^ n) mod 2 ^ 32 + x / 2 ^ (32 - n).

Definition rfc_step (a b d n : Z) : Z * Z :=
  let a := (a + b) mod 2 ^ 32 in (a, rotl (Z.lxor d a) n).

Definition rfc_quarter (v : Z * Z * Z * Z) : Z * Z * Z * Z :=
  let '(a, b, c, d) := v in
  let '(a, d) := rfc_step a b d 16 in
  let '(c, b) := rfc_step c d b 12 in
  let '(a, d) := rfc_step a b d 8 in
  let '(c, b) := rfc_step c d b 7 in
  (a, b, c, d).

Definition row (s : list Z) (i : nat) : list Z := take 4 (drop (i * 4) s).

Definition rot {A} (n : nat) (l : list A) : list A := drop n l ++ take n l.

(** A quarter round on each column of the matrix [a b c d]. *)
Definition column_round (m : list Z * list Z * list Z * list Z)
    : list Z * list Z * list Z * list Z :=
  let '(a, b, c, d) := m in
  let cols := map rfc_quarter (zip (zip (zip a b) c) d) in
  (map (fun v => v.1.1.1) cols, map (fun v => v.1.1.2) cols,
   map (fun v => v.1.2) cols, map (fun v => v.2) cols).

(** Row [i] turned by [i] puts the diagonals into the columns. *)
Definition diagonal_round (m : list Z * list Z * list Z * list Z)
    : list Z * list Z * list Z * list Z :=
  let '(a, b, c, d) := m in
  let '(a, b, c, d) := column_round (a, rot 1 b, rot 2 c, rot 3 d) in
  (a, rot 3 b, rot 2 c, rot 1 d).

Definition rfc_double_round (s : list Z) : list Z :=
  let '(a, b, c, d) :=
    diagonal_round (column_round (row s 0, row s 1, row s 2, row s 3)) in
  a ++ b ++ c ++ d.

(** Words to bytes, least significant byte first. *)
Definition le32 (v : Z) : list Z :=
  [v mod 256; (v / 2 ^ 8) mod 256; (v / 2 ^ 16) mod 256; (v / 2 ^ 24) mod 256].

(** The keystream block of a state. *)
Definition keystream (s : list Z) : list Z :=
  concat (zip_with (fun x y => le32 ((x + y) mod 2 ^ 32))
            (Nat.iter 10 rfc_double_round s) s).

Lemma rfc_quarter_eq a b c d :
  uint 32 a -> uint 32 b -> uint 32 c -> uint 32 d ->
  quarter a b c d = rfc_quarter (a, b, c, d).
Proof.
  intros Ha Hb Hc Hd. unfold quarter, rfc_quarter, rfc_step. cbv zeta.
  assert (forall x y, uint 32 (u32 (x + y))) as R by (intros; apply wrap_range; lia).
  change (fun x => x mod 2 ^ 32) with u32.
  assert (forall x y n, uint 32 x -> uint 32 y -> 0 < n < 32 ->
            ROTL32 (Z.lxor x y) n = rotl (Z.lxor x y) n /\ uint 32 (rotl (Z.lxor x y) n)) as L.
  { intros x y n Hx Hy Hn. assert (uint 32 (Z.lxor x y)) by (by apply lxor_range).
    unfold rotl. rewrite <- (ROTL32_val (Z.lxor x y) n) by done.
    split; [done|]. by apply ROTL32_range. }
  set (a1 := u32 (a + b)). change ((a + b) mod 2 ^ 32) with a1.
  destruct (L d a1 16) as [-> Hd1]; [done|apply R|lia|].
  set (d1 := rotl (Z.lxor d a1) 16) in *.
  set (c1 := u32 (c + d1)). change ((c + d1) mod 2 ^ 32) with c1.
  destruct (L b c1 12) as [-> Hb1]; [done|apply R|lia|].
  set (b1 := rotl (Z.lxor b c1) 12) in *.
  set (a2 := u32 (a1 + b1)). change ((a1 + b1) mod 2 ^ 32) with a2.
  destruct (L d1 a2 8) as [-> Hd2]; [done|apply R|lia|].
  set (d2 := rotl (Z.lxor d1 a2) 8) in *.
  set (c2 := u32 (c1 + d2)). change ((c1 + d2) mod 2 ^ 32) with c2.
  destruct (L b1 c2 7) as [-> Hb2]; [done|apply R|lia|]. done.
Qed.

(** [QR] at four places of a state. *)
Lemma QR_rfc i j k l x a b c d :
  Forall (uint 32) x -> x !! i = Some a -> x !! j = Some b -> x !! k = Some c ->
  x !! l = Some d ->
  exists a' b' c' d', rfc_quarter (a, b, c, d) = (a', b', c', d') /\
    QR i j k l x = Some (<[l:=d']> (<[k:=c']> (<[j:=b']> (<[i:=a']> x)))).
Proof.
  intros Hx Ha Hb Hc Hd. unfold QR. rewrite Ha, Hb, Hc, Hd. cbn [mbind option_bind].
  rewrite rfc_quarter_eq by (eapply Forall_lookup_1; eassumption).
  destruct (rfc_quarter (a, b, c, d)) as [[[a' b'] c'] d'].
  exists a', b', c', d'. split; [done|].
  apply lookup_lt_Some in Ha, Hb, Hc, Hd.
  rewrite store_Some by done. cbn [mbind option_bind].
  rewrite store_Some by (by rewrite length_insert). cbn [mbind option_bind].
  rewrite store_Some by (by rewrite !length_insert). cbn [mbind option_bind].
  by rewrite store_Some by (by rewrite !length_insert).
Qed.

(** One [QR] of a state given by its words: it is [rfc_quarter] in place. *)
Ltac run_QR :=
  match goal with
  | Hw : wf_state ?x |- context [QR ?i ?j ?k ?l ?x] =>
      let a' := fresh "a" in let b' := fresh "b" in
      let c' := fresh "c" in let d' := fresh "d" in
      let Eq := fresh "Eq" in let E := fresh "E" in let y := fresh "y" in
      let Hy := fresh "Hy" in
      destruct (QR_inv i j k l x Hw) as (y & E & Hy & _); [lia..|];
      destruct (QR_rfc i j k l x _ _ _ _ (proj2 Hw) eq_refl eq_refl eq_refl eq_refl)
        as (a' & b' & c' & d' & Eq & E'); rewrite E' in E; injection E as <-;
      rewrite E'; clear E'; cbn [insert list_insert mbind option_bind] in Hy |- *; clear Hw
  end.

Lemma double_round_rfc x :
  wf_state x -> double_round x = Some (rfc_double_round x) /\ wf_state (rfc_double_round x).
Proof.
  intros Hw. pose proof (proj1 Hw) as Hl. explode x.
  unfold double_round. do 8 run_QR.
  match goal with H : wf_state _ |- Some ?l = Some ?r /\ _ =>
    assert (r = l) as -> end; [|done].
  unfold rfc_double_round, row, diagonal_round, column_round, rot.
  cbn [take drop Nat.mul Nat.add app zip zip_with map].
  repeat match goal with E : rfc_quarter _ = _ |- _ => rewrite E; clear E; cbn [map fst snd take drop app zip zip_with] end.
  done.
Qed.

Lemma rounds_rfc k x :
  wf_state x ->
  rounds k x = Some (Nat.iter k rfc_double_round x) /\ wf_state (Nat.iter k rfc_double_round x).
Proof.
  revert x. induction k as [|k IH]; intros x Hx; [done|].
  destruct (double_round_rfc x Hx) as [E Hy]. cbn [rounds]. rewrite E. cbn [mbind option_bind].
  rewrite Nat.iter_succ_r. by apply IH.
Qed.

Lemma rfc_rounds_inj k x x' :
  wf_state x -> wf_state x' ->
  Nat.iter k rfc_double_round x = Nat.iter k rfc_double_round x' -> x = x'.
Proof.
  intros Hx Hx' E. destruct (rounds_rfc k x Hx) as [Ex _].
  destruct (rounds_rfc k x' Hx') as [Ex' _]. rewrite <- E in Ex'.
  by eapply rounds_inj.
Qed.

Lemma serialize_spec x st i p out :
  length x = length st -> length p = (i * 4)%nat -> length out = (length x * 4)%nat ->
  forall X ST, drop i X = x -> drop i ST = st ->
  serialize (length x) i (p ++ out) X ST
  = Some (p ++ concat (zip_with (fun x y => le32 ((x + y) mod 2 ^ 32)) x st)).
Proof.
  revert st i p out. induction x as [|a x IH]; intros [|b st] i p out Hl Hp Ho X ST HX HS;
    try done.
  { cbn [length] in Ho. apply nil_length_inv in Ho as ->. done. }
  injection Hl as Hl. cbn [length serialize].
  assert (X !! i = Some a) as -> by (rewrite <- (Nat.add_0_r i), <- lookup_drop, HX; done).
  assert (ST !! i = Some b) as -> by (rewrite <- (Nat.add_0_r i), <- lookup_drop, HS; done).
  cbn [mbind option_bind]. cbv zeta. cbn [length] in Ho.
  destruct out as [|o0 [|o1 [|o2 [|o3 out]]]]; try (cbn [length] in Ho; lia).
  set (v := u32 (a + b)).
  rewrite (store_middle p [o0; o1; o2; o3] out) by (done || (cbn; lia)).
  do 3 (cbn [mbind option_bind insert list_insert];
    rewrite (store_middle p [_; _; _; _] out) by (done || (cbn; lia))).
  cbn [mbind option_bind insert list_insert].
  rewrite app_assoc, (IH st (S i)); try done.
  - cbn [zip_with concat]. rewrite <- app_assoc. do 2 f_equal. unfold le32.
    by rewrite !shiftr_wrap by lia.
  - rewrite length_app, Hp. cbn. lia.
  - cbn [length] in Ho. lia.
  - rewrite <- Nat.add_1_r, <- drop_drop, HX. done.
  - rewrite <- Nat.add_1_r, <- drop_drop, HS. done.
Qed.

(** ** The counter

    [state[12]] and [state[13]] together are one 64-bit counter. *)
Definition counter (s : list Z) : Z := nth 12 s 0 + 2 ^ 32 * nth 13 s 0.

Definition set_counter (s : list Z) (c : Z) : list Z :=
  <[13%nat := c / 2 ^ 32]> (<[12%nat := c mod 2 ^ 32]> s).

Definition next_state (s : list Z) : list Z := set_counter s ((counter s + 1) mod 2 ^ 64).

Lemma counter_range s : wf_state s -> 0 <= counter s < 2 ^ 64.
Proof.
  intros [Hl Hw]. unfold counter. explode s. cbn [nth].
  repeat (apply Forall_cons_1 in Hw as [? Hw]). unfold uint in *. lia.
Qed.

Lemma set_counter_wf s c : wf_state s -> 0 <= c < 2 ^ 64 -> wf_state (set_counter s c).
Proof.
  intros [Hl Hw] Hc. unfold set_counter. split; [by rewrite !length_insert|].
  pose proof (Z.div_mod c (2 ^ 32) ltac:(lia)).
  pose proof (Z.mod_pos_bound c (2 ^ 32) ltac:(lia)).
  repeat apply Forall_insert; [done|..]; unfold uint; lia.
Qed.

Lemma counter_set s c : wf_state s -> 0 <= c < 2 ^ 64 -> counter (set_counter s c) = c.
Proof.
  intros [Hl _] Hc. unfold counter, set_counter. explode s. cbn [insert list_insert nth].
  pose proof (Z.div_mod c (2 ^ 32) ltac:(lia)). lia.
Qed.

Lemma set_counter_set s c c' : set_counter (set_counter s c) c' = set_counter s c'.
Proof.
  unfold set_counter. apply list_eq. intros n.
  rewrite !list_lookup_insert, !length_insert. repeat case_decide; naive_solver.
Qed.

(** The state [k] blocks later. *)
Lemma iter_next_state k s :
  wf_state s ->
  Nat.iter k next_state s
  = if decide (k = 0)%nat then s else set_counter s ((counter s + Z.of_nat k) mod 2 ^ 64).
Proof.
  intros Hs. induction k as [|k IH]; [done|]. rewrite Nat.iter_succ, IH.
  rewrite (decide_False (P := (S k = 0)%nat)) by done.
  case_decide as Hk; [by subst|]. unfold next_state.
  assert (0 <= (counter s + Z.of_nat k) mod 2 ^ 64 < 2 ^ 64) by (apply Z.mod_pos_bound; lia).
  rewrite counter_set, set_counter_set by done. f_equal.
  rewrite Z.add_mod_idemp_l by lia. f_equal. lia.
Qed.

Lemma iter_next_state_wf k s : wf_state s -> wf_state (Nat.iter k next_state s).
Proof.
  intros Hs. rewrite iter_next_state by done. case_decide; [done|].
  apply set_counter_wf; [done|]. apply Z.mod_pos_bound. lia.
Qed.

Lemma counter_step s12 s13 :
  uint 32 s12 -> uint 32 s13 ->
  let c := (s12 + 2 ^ 32 * s13 + 1) mod 2 ^ 64 in
  c mod 2 ^ 32 = u32 (s12 + 1) /\
  c / 2 ^ 32 = if u32 (s12 + 1) =? 0 then u32 (s13 + 1) else s13.
Proof.
  unfold uint, wrap. intros H12 H13. cbv zeta.
  change (2 ^ 64) with (2 ^ 32 * 2 ^ 32). rewrite Z.rem_mul_r by lia.
  replace (s12 + 2 ^ 32 * s13 + 1) with (s12 + 1 + s13 * 2 ^ 32) by lia.
  rewrite Z.mod_add, Z.div_add by lia.
  assert (0 <= ((s12 + 1) / 2 ^ 32 + s13) mod 2 ^ 32 < 2 ^ 32) as Hm
    by (apply Z.mod_pos_bound; lia).
  rewrite (Z.mul_comm (2 ^ 32)), Z.mod_add, Z.div_add by lia.
  rewrite Z.mod_mod by lia. split; [done|].
  destruct (Z.eq_dec s12 (2 ^ 32 - 1)) as [->|Hne].
  - rewrite Z.sub_add, Z.mod_same, Z.div_same by lia. cbn [Z.eqb].
    rewrite Z.div_0_l by lia. by rewrite Z.add_0_l, (Z.add_comm 1).
  - rewrite (Z.mod_small (s12 + 1)), (Z.div_small (s12 + 1)) by lia.
    destruct (Z.eqb_spec (s12 + 1) 0); [lia|]. rewrite !Z.add_0_l. apply Z.mod_small. lia.
Qed.

(** The increments at the end of the block function. *)
Lemma counter_increment {B} st (K : list Z -> option B) :
  wf_state st ->
  (s12 ← st !! 12%nat;
   state ← store st 12 (u32 (s12 + 1));
   s12 ← state !! 12%nat;
   state ← (if s12 =? 0 then
              s13 ← state !! 13%nat;
              store state 13 (u32 (s13 + 1))
            else Some state);
   K state)
  = K (next_state st).
Proof.
  intros [Hl Hw].
  destruct (lookup_lt_is_Some_2 st 12 ltac:(lia)) as [a Ha].
  destruct (lookup_lt_is_Some_2 st 13 ltac:(lia)) as [b Hb].
  pose proof (Forall_lookup_1 _ _ _ _ Hw Ha) as Ra.
  pose proof (Forall_lookup_1 _ _ _ _ Hw Hb) as Rb.
  destruct (counter_step a b Ra Rb) as [E12 E13].
  unfold next_state, set_counter, counter.
  rewrite (nth_lookup_Some st 12 0 a Ha), (nth_lookup_Some st 13 0 b Hb), E12, E13.
  rewrite Ha. cbn [mbind option_bind]. rewrite store_Some by lia. cbn [mbind option_bind].
  rewrite list_lookup_insert_eq by lia. cbn [mbind option_bind].
  rewrite list_lookup_insert_ne, Hb by done. cbn [mbind option_bind].
  rewrite store_Some by (rewrite length_insert; lia).
  destruct (u32 (a + 1) =? 0); cbn [mbind option_bind]; [reflexivity|].
  rewrite (list_insert_id (<[12%nat:=_]> st) 13 b); [reflexivity|].
  by rewrite list_lookup_insert_ne.
Qed.

(** ** The block function meets the specification *)

Lemma chacha20_block_rounds `{H : wipe_config} out st x :
  length out = 64%nat -> wf_state st -> rounds 10 st = Some x -> length x = 16%nat ->
  chronoid_chacha20_block out st
  = Some (concat (zip_with (fun x y => le32 ((x + y) mod 2 ^ 32)) x st), next_state st,
          replicate 16 0).
Proof.
  intros Ho Hst E Hx. pose proof Hst as [Hl _]. unfold chronoid_chacha20_block.
  rewrite memcpy_full by (done || by rewrite length_uninit). cbn [mbind option_bind].
  rewrite E. cbn [mbind option_bind].
  assert (serialize 16 0 out x st
          = Some (concat (zip_with (fun x y => le32 ((x + y) mod 2 ^ 32)) x st))) as ->.
  { rewrite <- Hx. apply (serialize_spec x st 0 [] out); [lia|done|lia|done|done]. }
  cbn [mbind option_bind].
  set (ks := concat _). clearbody ks.
  rewrite (counter_increment st (fun state => x ← chronoid_explicit_bzero x 0 16;
                                   Some (ks, state, x)) Hst).
  by rewrite (explicit_bzero_full x 16).
Qed.

Lemma chacha20_block_spec `{H : wipe_config} out st :
  length out = 64%nat -> wf_state st ->
  chronoid_chacha20_block out st = Some (keystream st, next_state st, replicate 16 0).
Proof.
  intros Ho Hst. destruct (rounds_rfc 10 st Hst) as [E [Hlx _]].
  by apply chacha20_block_rounds.
Qed.

Lemma length_keystream s : wf_state s -> length (keystream s) = 64%nat.
Proof.
  intros Hs. destruct (rounds_rfc 10 s Hs) as [_ [Hx _]]. unfold keystream.
  rewrite (length_concat_rows _ 4).
  - by rewrite length_zip_with, Hx, (proj1 Hs).
  - apply Forall_forall. intros r Hr.
    apply list_elem_of_In, elem_of_zip_with in Hr as (? & ? & -> & _). done.
Qed.

Lemma keystream_bytes s : bytes (keystream s).
Proof.
  unfold keystream, bytes. apply Forall_concat, Forall_forall. intros r Hr.
  apply list_elem_of_In, elem_of_zip_with in Hr as (? & ? & -> & _).
  unfold le32. repeat constructor; apply Z.mod_pos_bound; lia.
Qed.

(** ** The theorems *)

(** C30: [chronoid_chacha20_block] is the ChaCha20 block function: for every
    state of sixteen 32-bit words it writes the keystream block RFC 8439
    defines, whatever the output buffer held; it advances the 64-bit counter in
    words 12 and 13 by one, modulo [2^64], and changes no other word; and the
    working words of its frame are all zero when it returns. *)
Theorem chacha20_block_correct `{H : wipe_config} out st :
  length out = 64%nat -> wf_state st ->
  exists st', chronoid_chacha20_block out st = Some (keystream st, st', replicate 16 0) /\
    length (keystream st) = 64%nat /\ bytes (keystream st) /\ wf_state st' /\
    counter st' = (counter st + 1) mod 2 ^ 64 /\
    forall i, i <> 12%nat -> i <> 13%nat -> st' !! i = st !! i.
Proof.
  intros Ho Hst. exists (next_state st).
  assert (0 <= (counter st + 1) mod 2 ^ 64 < 2 ^ 64) by (apply Z.mod_pos_bound; lia).
  split_and!.
  - by apply chacha20_block_spec.
  - by apply length_keystream.
  - apply keystream_bytes.
  - by apply set_counter_wf.
  - by apply counter_set.
  - intros i H12 H13. unfold next_state, set_counter.
    by rewrite !list_lookup_insert_ne by done.
Qed.

(** The test vector of RFC 8439, section 2.3.2. *)
Definition rfc_vector_state : list Z :=
  [0x61707865; 0x3320646e; 0x79622d32; 0x6b206574;
   0x03020100; 0x07060504; 0x0b0a0908; 0x0f0e0d0c;
   0x13121110; 0x17161514; 0x1b1a1918; 0x1f1e1d1c;
   0x00000001; 0x09000000; 0x4a000000; 0x00000000].

Definition rfc_vector_block : list Z :=
  [0x10; 0xf1; 0xe7; 0xe4; 0xd1; 0x3b; 0x59; 0x15; 0x50; 0x0f; 0xdd; 0x1f; 0xa3; 0x20; 0x71; 0xc4;
   0xc7; 0xd1; 0xf4; 0xc7; 0x33; 0xc0; 0x68; 0x03; 0x04; 0x22; 0xaa; 0x9a; 0xc3; 0xd4; 0x6c; 0x4e;
   0xd2; 0x82; 0x64; 0x46; 0x07; 0x9f; 0xaa; 0x09; 0x14; 0xc2; 0xd7; 0x05; 0xd9; 0x8b; 0x02; 0xa2;
   0xb5; 0x12; 0x9c; 0xd1; 0xde; 0x16; 0x4e; 0xb9; 0xcb; 0xd0; 0x83; 0xe8; 0xa2; 0x50; 0x3c; 0x4e].

Lemma rfc_vector_wf : wf_state rfc_vector_state.
Proof. split; [done|]. repeat constructor; done. Qed.

Example chacha20_block_correct_witness :
  wf_state rfc_vector_state /\ keystream rfc_vector_state = rfc_vector_block /\
  exists st', chronoid_chacha20_block (H := portable_wipe) (uninit 64) rfc_vector_state
              = Some (keystream rfc_vector_state, st', replicate 16 0) /\
    length (keystream rfc_vector_state) = 64%nat /\ bytes (keystream rfc_vector_state) /\
    wf_state st' /\ counter st' = (counter rfc_vector_state + 1) mod 2 ^ 64 /\
    forall i, i <> 12%nat -> i <> 13%nat -> st' !! i = rfc_vector_state !! i.
Proof.
  split; [apply rfc_vector_wf|]. split; [by vm_compute|].
  apply (chacha20_block_correct (H := portable_wipe) (uninit 64) rfc_vector_state);
    [done | apply rfc_vector_wf].
Defined.

(** Under one seed no two blocks are computed from the same input: calling
    the block function repeatedly never meets the same state twice in [2^64]
    calls, and the rounds map different states to different states, so the
    blocks come from pairwise different permuted states. *)
Theorem chacha20_blocks_distinct st i j :
  wf_state st -> Z.of_nat i < 2 ^ 64 -> Z.of_nat j < 2 ^ 64 -> i <> j ->
  exists x y, rounds 10 (Nat.iter i next_state st) = Some x /\
    rounds 10 (Nat.iter j next_state st) = Some y /\ x <> y.
Proof.
  intros Hst Hi Hj Hne.
  pose proof (iter_next_state_wf i st Hst) as Wi.
  pose proof (iter_next_state_wf j st Hst) as Wj.
  destruct (rounds_total 10 _ Wi) as (x & Ex & _), (rounds_total 10 _ Wj) as (y & Ey & _).
  exists x, y. split_and!; [done..|]. intros ->.
  pose proof (rounds_inj 10 _ _ y Wi Wj Ex Ey) as E.
  apply (f_equal counter) in E.
  assert (forall k, Z.of_nat k < 2 ^ 64 ->
            counter (Nat.iter k next_state st) = (counter st + Z.of_nat k) mod 2 ^ 64) as C.
  { intros k Hk. pose proof (counter_range st Hst). rewrite iter_next_state by done.
    case_decide; [subst; rewrite Z.mod_small by lia; lia|].
    apply counter_set; [done|]. apply Z.mod_pos_bound. lia. }
  rewrite !C in E by done.
  pose proof (Z.div_mod (counter st + Z.of_nat i) (2 ^ 64) ltac:(lia)).
  pose proof (Z.div_mod (counter st + Z.of_nat j) (2 ^ 64) ltac:(lia)).
  nia.
Qed.

Example chacha20_blocks_distinct_witness :
  Z.of_nat 0 < 2 ^ 64 /\
  exists x y, rounds 10 (Nat.iter 0 next_state rfc_vector_state) = Some x /\
    rounds 10 (Nat.iter 1 next_state rfc_vector_state) = Some y /\ x <> y.
Proof.
  split; [lia|].
  apply (chacha20_blocks_distinct rfc_vector_state 0 1); [apply rfc_vector_wf|lia|lia|lia].
Defined.
