(* ===== verification/RandOs.v ===== *)
(** * Entropy from the operating system: chronoid/rand_os.c

    The system calls are an interface over an abstract state [W] of the
    operating system, with their documented behaviour as laws.  The loops carry
    fuel; under a bound on how often a call can be interrupted they are proved
    to terminate. *)
From stdpp Require Import gmap.
From S2P Require Import Prelude.

(** The value of [errno] for an interrupted call. *)
Definition EINTR : Z := 4.

(** What a call that fills a buffer does: the value it returns, [errno]
    afterwards, and the bytes it stored from the start of the buffer. *)
Record io := Io { io_ret : Z; io_errno : Z; io_data : list Z }.

(** A call for [len] bytes stays inside them; a non-negative result is the
    number of bytes stored. *)
Definition io_ok (len : nat) (r : io) : Prop :=
  (length (io_data r) <= len)%nat /\ bytes (io_data r) /\
  (0 <= io_ret r -> io_ret r = Z.of_nat (length (io_data r))).

(** [getrandom (p, len, 0)], [getentropy (p, len)], [open ("/dev/urandom")],
    [read (fd, p, len)], [close (fd)] and [BCryptGenRandom (NULL, p, len)].
    [fds] is the set of open descriptors of the process. *)
Class Syscalls (W : Type) := {
  getrandom : nat -> W -> io * W;
  getentropy : nat -> W -> io * W;
  open_urandom : W -> Z * Z * W;
  read : Z -> nat -> W -> io * W;
  close : Z -> W -> Z * W;
  bcrypt_gen_random : Z -> W -> Z * list Z * W;
  fds : W -> gset Z;
  getrandom_ok : forall len w r w',
    getrandom len w = (r, w') -> io_ok len r /\ fds w' = fds w;
  getentropy_ok : forall len w r w',
    getentropy len w = (r, w') ->
    (length (io_data r) <= len)%nat /\ bytes (io_data r) /\ fds w' = fds w /\
    (io_ret r = 0 -> (len <= 256)%nat /\ length (io_data r) = len);
  open_ok : forall w fd e w',
    open_urandom w = (fd, e, w') ->
    (0 <= fd -> fd ∉ fds w /\ fds w' = {[fd]} ∪ fds w) /\ (fd < 0 -> fds w' = fds w);
  read_ok : forall fd len w r w',
    read fd len w = (r, w') -> io_ok len r /\ fds w' = fds w;
  close_ok : forall fd w r w', close fd w = (r, w') -> fds w' = fds w ∖ {[fd]};
  bcrypt_ok : forall len w s data w',
    0 <= len -> bcrypt_gen_random len w = (s, data, w') ->
    bytes data /\ Z.of_nat (length data) <= len /\ fds w' = fds w /\
    (s = 0 -> Z.of_nat (length data) = len)
}.

(** The macros that select the sources. *)
Class os_config := {
  HAVE_BCRYPT : bool;
  HAVE_GETRANDOM : bool;
  HAVE_GETENTROPY : bool
}.

Definition ULONG_MAX : Z := 0xffffffff.
Definition STATUS_SUCCESS : Z := 0.

Section RandOs.
Context {W : Type} `{!Syscalls W}.

(** Each loop returns the return code, the buffer and the state of the system;
    [off] counts the bytes filled, [n] is the length asked for. *)
Fixpoint via_bcrypt_loop (fuel : nat) (buf : list Z) (off n : nat) (w : W)
    : option (Z * list Z * W) :=
  match fuel with
  | O => None
  | S fuel' =>
      if decide (0 < n)%nat then
        let chunk := if ULONG_MAX <? Z.of_nat n then ULONG_MAX else Z.of_nat n in
        let '(s, data, w) := bcrypt_gen_random chunk w in
        buf ← memcpy buf off data 0 (length data);
        if negb (s =? STATUS_SUCCESS) then Some (-1, buf, w)
        else via_bcrypt_loop fuel' buf (off + Z.to_nat chunk) (n - Z.to_nat chunk) w
      else Some (0, buf, w)
  end.

Definition chronoid_random_via_bcrypt (fuel : nat) (buf : list Z) (n : nat) (w : W) :=
  via_bcrypt_loop fuel buf 0 n w.

Fixpoint via_getrandom_loop (fuel : nat) (buf : list Z) (off n : nat) (w : W)
    : option (Z * list Z * W) :=
  match fuel with
  | O => None
  | S fuel' =>
      if decide (off < n)%nat then
        let '(r, w) := getrandom (n - off) w in
        buf ← memcpy buf off (io_data r) 0 (length (io_data r));
        if io_ret r <? 0 then
          if io_errno r =? EINTR then via_getrandom_loop fuel' buf off n w
          else Some (-1, buf, w)
        else via_getrandom_loop fuel' buf (off + Z.to_nat (io_ret r)) n w
      else Some (0, buf, w)
  end.

Definition chronoid_random_via_getrandom (fuel : nat) (buf : list Z) (n : nat) (w : W) :=
  via_getrandom_loop fuel buf 0 n w.

Fixpoint via_getentropy_loop (fuel : nat) (buf : list Z) (off n : nat) (w : W)
    : option (Z * list Z * W) :=
  match fuel with
  | O => None
  | S fuel' =>
      if decide (off < n)%nat then
        let chunk := if decide (256 < n - off)%nat then 256%nat else (n - off)%nat in
        let '(r, w) := getentropy chunk w in
        buf ← memcpy buf off (io_data r) 0 (length (io_data r));
        if negb (io_ret r =? 0) then Some (-1, buf, w)
        else via_getentropy_loop fuel' buf (off + chunk) n w
      else Some (0, buf, w)
  end.

Definition chronoid_random_via_getentropy (fuel : nat) (buf : list Z) (n : nat) (w : W) :=
  via_getentropy_loop fuel buf 0 n w.

(** [do fd = open (...) while (fd < 0 && errno == EINTR)]. *)
Fixpoint open_loop (fuel : nat) (w : W) : option (Z * W) :=
  match fuel with
  | O => None
  | S fuel' =>
      let '(fd, e, w) := open_urandom w in
      if (fd <? 0) && (e =? EINTR) then open_loop fuel' w else Some (fd, w)
  end.

(** The reading loop: [rc] and the buffer when it ends. *)
Fixpoint read_loop (fuel : nat) (fd : Z) (buf : list Z) (off n : nat) (w : W)
    : option (Z * list Z * W) :=
  match fuel with
  | O => None
  | S fuel' =>
      if decide (off < n)%nat then
        let '(r, w) := read fd (n - off) w in
        buf ← memcpy buf off (io_data r) 0 (length (io_data r));
        if io_ret r <? 0 then
          if io_errno r =? EINTR then read_loop fuel' fd buf off n w
          else Some (-1, buf, w)
        else if io_ret r =? 0 then Some (-1, buf, w)
        else read_loop fuel' fd buf (off + Z.to_nat (io_ret r)) n w
      else Some (0, buf, w)
  end.

Definition chronoid_random_via_urandom (fuel : nat) (buf : list Z) (n : nat) (w : W)
    : option (Z * list Z * W) :=
  '(fd, w) ← open_loop fuel w;
  if fd <? 0 then Some (-1, buf, w)
  else
    '(rc, buf, w) ← read_loop fuel fd buf 0 n w;
    let '(_, w) := close fd w in
    Some (rc, buf, w).

(** A source the build leaves out is skipped: its code is not compiled. *)
Definition try_source (have : bool) (source : option (Z * list Z * W))
    (buf : list Z) (w : W) (next : list Z -> W -> option (Z * list Z * W))
    : option (Z * list Z * W) :=
  if have then
    '(r, buf, w) ← source;
    if r =? 0 then Some (0, buf, w) else next buf w
  else next buf w.

(** The two definitions of [chronoid_os_random_bytes] in the file, for Windows
    and for POSIX systems, and the choice the preprocessor makes. *)
Definition os_random_bytes_windows (fuel : nat) (buf : list Z) (n : nat) (w : W)
    : option (Z * list Z * W) :=
  if decide (n = 0%nat) then Some (0, buf, w)
  else chronoid_random_via_bcrypt fuel buf n w.

Definition os_random_bytes_posix `{H : os_config} (fuel : nat) (buf : list Z) (n : nat) (w : W)
    : option (Z * list Z * W) :=
  if decide (n = 0%nat) then Some (0, buf, w)
  else
    try_source HAVE_GETRANDOM (chronoid_random_via_getrandom fuel buf n w) buf w (fun buf w =>
    try_source HAVE_GETENTROPY (chronoid_random_via_getentropy fuel buf n w) buf w (fun buf w =>
    chronoid_random_via_urandom fuel buf n w)).

Definition chronoid_os_random_bytes `{H : os_config} (fuel : nat) (buf : list Z) (n : nat) (w : W)
    : option (Z * list Z * W) :=
  if HAVE_BCRYPT then os_random_bytes_windows fuel buf n w
  else os_random_bytes_posix fuel buf n w.

(** ** What a call does to a buffer *)

(** [d] written over [buf] from [off] on. *)
Definition overlay (off : nat) (d buf : list Z) : list Z :=
  take off buf ++ d ++ drop (off + length d) buf.

Lemma length_overlay off d buf :
  (off + length d <= length buf)%nat -> length (overlay off d buf) = length buf.
Proof. unfold overlay. rewrite !length_app, length_take, length_drop. lia. Qed.

Lemma memcpy_overlay off d buf :
  (off + length d <= length buf)%nat ->
  memcpy buf off d 0 (length d) = Some (overlay off d buf).
Proof. intros H. rewrite memcpy_Some by lia. by rewrite drop_0, firstn_all. Qed.

Lemma lookup_overlay off d buf i :
  (off + length d <= length buf)%nat ->
  overlay off d buf !! i
  = if decide (off <= i < off + length d)%nat then d !! (i - off)%nat else buf !! i.
Proof.
  intros H. assert (length (take off buf) = off) as Hl by (rewrite length_take; lia).
  unfold overlay. case_decide.
  - by rewrite lookup_app_r, lookup_app_l, Hl by lia.
  - destruct (decide (i < off)%nat).
    + by rewrite lookup_app_l, lookup_take, decide_True by lia.
    + rewrite lookup_app_r, lookup_app_r, lookup_drop, Hl by lia. f_equal. lia.
Qed.

(** Two writes, the second not starting beyond the first, are one. *)
Lemma overlay_overlay off k d1 d2 buf :
  (k <= length d1)%nat -> (off + length d1 <= length buf)%nat ->
  (off + k + length d2 <= length buf)%nat ->
  overlay (off + k) d2 (overlay off d1 buf)
  = overlay off (take k d1 ++ d2 ++ drop (k + length d2) d1) buf.
Proof.
  intros Hk H1 H2. set (d := take k d1 ++ d2 ++ drop (k + length d2) d1).
  assert (length d = Nat.max (length d1) (k + length d2)) as Hd.
  { unfold d. rewrite !length_app, length_take, length_drop. lia. }
  apply list_eq. intros i.
  rewrite !lookup_overlay by (rewrite ?length_overlay; lia). rewrite Hd.
  unfold d.
  destruct (decide (off + k <= i < off + k + length d2)%nat).
  - rewrite (decide_True (P := (off <= i < off + _)%nat)) by lia.
    rewrite lookup_app_r, lookup_app_l by (rewrite length_take; lia).
    f_equal. rewrite length_take. lia.
  - destruct (decide (off <= i < off + length d1)%nat) as [Hi|Hi].
    + rewrite (decide_True (P := (off <= i < off + Nat.max _ _)%nat)) by lia.
      destruct (decide (i < off + k)%nat).
      * rewrite lookup_app_l, lookup_take, decide_True by (rewrite ?length_take; lia). done.
      * rewrite lookup_app_r, lookup_app_r, lookup_drop by (rewrite length_take; lia).
        rewrite length_take. f_equal. lia.
    + by rewrite decide_False by lia.
Qed.

(** [f] is a call that may write the cells from [off] to [n] of the buffer it
    is given.  When it returns, it returns 0 or -1, having opened and closed
    the same descriptors; what it writes does not depend on the buffer; and
    after 0 it has written all of the cells. *)
Definition outcome_ok (off n : nat) (w : W) (r : Z) (d : list Z) (w' : W) : Prop :=
  (r = 0 /\ (off + length d = n)%nat \/ r = -1 /\ (off + length d <= n)%nat) /\
  bytes d /\ fds w' = fds w.

Definition fills (off n : nat) (w : W) (f : list Z -> option (Z * list Z * W)) : Prop :=
  (forall buf, (n <= length buf)%nat -> f buf = None) \/
  exists r d w', outcome_ok off n w r d w' /\
    forall buf, (n <= length buf)%nat -> f buf = Some (r, overlay off d buf, w').

(** A write of [d1], [k] bytes of which count, before a call that fills the
    rest. *)
Lemma fills_write off n w w1 k d1 g :
  (k <= length d1)%nat -> (off + length d1 <= n)%nat -> bytes d1 -> fds w1 = fds w ->
  fills (off + k) n w1 g ->
  fills off n w (fun buf => buf ← memcpy buf off d1 0 (length d1); g buf).
Proof.
  intros Hk Hd1 Hb Hw1 [Hn|(r & d2 & w' & (Hr & Hb2 & Hw) & Hg)].
  - left. intros buf Hl. rewrite memcpy_overlay by lia. cbn [mbind option_bind].
    apply Hn. rewrite length_overlay; lia.
  - right. exists r, (take k d1 ++ d2 ++ drop (k + length d2) d1), w'. split.
    + split_and!; [|rewrite !bytes_app; auto with chronoid|congruence].
      rewrite !length_app, length_take, length_drop. lia.
    + intros buf Hl. rewrite memcpy_overlay by lia. cbn [mbind option_bind].
      rewrite Hg by (rewrite length_overlay; lia). by rewrite overlay_overlay by lia.
Qed.

(** The last write of a call that fails. *)
Lemma fills_fail off n w w1 d1 :
  (off + length d1 <= n)%nat -> bytes d1 -> fds w1 = fds w ->
  fills off n w (fun buf => buf ← memcpy buf off d1 0 (length d1); Some (-1, buf, w1)).
Proof.
  intros Hd1 Hb Hw1. right. exists (-1), d1, w1. split; [split_and!; auto|].
  intros buf Hl. by rewrite memcpy_overlay by lia.
Qed.

Lemma overlay_nil off buf : overlay off [] buf = buf.
Proof. unfold overlay. cbn. by rewrite Nat.add_0_r, take_drop. Qed.

Lemma fills_done n w : fills n n w (fun buf => Some (0, buf, w)).
Proof.
  right. exists 0, [], w. split.
  - split_and!; [left; split; [done | cbn; lia] | constructor | done].
  - intros. by rewrite overlay_nil.
Qed.

(** The cells behind a failed call are written again by the next one. *)
Lemma fills_next n w w1 d1 g :
  (length d1 <= n)%nat -> bytes d1 -> fds w1 = fds w -> fills 0 n w1 g ->
  fills 0 n w (fun buf => g (overlay 0 d1 buf)).
Proof.
  intros Hd1 Hb Hw1 Hg.
  destruct (fills_write 0 n w w1 0 d1 g) as [Hn|(r & d & w' & Ho & Hf)]; try done; [lia|..].
  - left. intros buf Hl. specialize (Hn buf Hl). by rewrite memcpy_overlay in Hn by (cbn; lia).
  - right. exists r, d, w'. split; [done|]. intros buf Hl. specialize (Hf buf Hl).
    by rewrite memcpy_overlay in Hf by (cbn; lia).
Qed.

(** ** The loops *)

Lemma via_getrandom_fills fuel off n w :
  (off <= n)%nat -> fills off n w (fun buf => via_getrandom_loop fuel buf off n w).
Proof.
  revert off w. induction fuel as [|fuel IH]; intros off w Hoff; [by left|].
  cbn [via_getrandom_loop]. case_decide.
  2: { replace off with n by lia. apply fills_done. }
  destruct (getrandom (n - off) w) as [r w1] eqn:E.
  apply getrandom_ok in E as [(Hl & Hb & Hr) Hw].
  destruct (Z.ltb_spec (io_ret r) 0).
  - destruct (io_errno r =? EINTR); [|by apply fills_fail; try lia].
    apply (fills_write _ _ _ w1 0); try (done || lia). rewrite Nat.add_0_r. by apply IH.
  - apply (fills_write _ _ _ w1 (Z.to_nat (io_ret r))); try (done || lia). apply IH. lia.
Qed.

Lemma via_getentropy_fills fuel off n w :
  (off <= n)%nat -> fills off n w (fun buf => via_getentropy_loop fuel buf off n w).
Proof.
  revert off w. induction fuel as [|fuel IH]; intros off w Hoff; [by left|].
  cbn [via_getentropy_loop]. case_decide.
  2: { replace off with n by lia. apply fills_done. }
  cbv zeta. set (chunk := if decide _ then _ else _).
  assert (chunk <= n - off)%nat as Hc by (unfold chunk; case_decide; lia).
  destruct (getentropy chunk w) as [r w1] eqn:E.
  apply getentropy_ok in E as (Hl & Hb & Hw & Hr).
  destruct (Z.eqb_spec (io_ret r) 0); cbn [negb]; [|by apply fills_fail; try lia].
  destruct Hr as [_ Hr]; [done|].
  apply (fills_write _ _ _ w1 chunk); try (done || lia). apply IH. lia.
Qed.

Lemma via_bcrypt_fills fuel off n w :
  fills off (off + n) w (fun buf => via_bcrypt_loop fuel buf off n w).
Proof.
  revert off n w. induction fuel as [|fuel IH]; intros off n w; [by left|].
  cbn [via_bcrypt_loop]. case_decide.
  2: { replace n with 0%nat by lia. rewrite Nat.add_0_r. apply fills_done. }
  cbv zeta. set (chunk := if _ <? _ then _ else _).
  assert (0 < chunk <= Z.of_nat n) as Hc by (unfold chunk, ULONG_MAX; case_match; lia).
  clearbody chunk. destruct (bcrypt_gen_random chunk w) as [[s d] w1] eqn:E.
  apply bcrypt_ok in E as (Hb & Hl & Hw & Hs); [|lia].
  destruct (Z.eqb_spec s STATUS_SUCCESS) as [Es|]; cbn [negb]; [|apply fills_fail; try done; lia].
  specialize (Hs Es).
  apply (fills_write _ _ _ w1 (Z.to_nat chunk)); try (done || lia).
  replace (off + n)%nat with (off + Z.to_nat chunk + (n - Z.to_nat chunk))%nat by lia. apply IH.
Qed.

Lemma read_loop_fills fuel fd off n w :
  (off <= n)%nat -> fills off n w (fun buf => read_loop fuel fd buf off n w).
Proof.
  revert off w. induction fuel as [|fuel IH]; intros off w Hoff; [by left|].
  cbn [read_loop]. case_decide.
  2: { replace off with n by lia. apply fills_done. }
  destruct (read fd (n - off) w) as [r w1] eqn:E.
  apply read_ok in E as [(Hl & Hb & Hr) Hw].
  destruct (Z.ltb_spec (io_ret r) 0).
  - destruct (io_errno r =? EINTR); [|by apply fills_fail; try lia].
    apply (fills_write _ _ _ w1 0); try (done || lia). rewrite Nat.add_0_r. by apply IH.
  - destruct (io_ret r =? 0); [by apply fills_fail; try lia|].
    apply (fills_write _ _ _ w1 (Z.to_nat (io_ret r))); try (done || lia). apply IH. lia.
Qed.

Lemma open_loop_fds fuel w fd w' :
  open_loop fuel w = Some (fd, w') ->
  (0 <= fd -> fd ∉ fds w /\ fds w' = {[fd]} ∪ fds w) /\ (fd < 0 -> fds w' = fds w).
Proof.
  revert w. induction fuel as [|fuel IH]; intros w; [done|]. cbn [open_loop].
  destruct (open_urandom w) as [[fd1 e] w1] eqn:E. apply open_ok in E as [Ho Hf].
  destruct (Z.ltb_spec fd1 0); cbn [andb]; [|by intros [= <- <-]].
  destruct (e =? EINTR); [|by intros [= <- <-]].
  intros H1. apply IH in H1. by rewrite Hf in H1 by done.
Qed.

(** The descriptor is closed whatever the reads did. *)
Lemma via_urandom_fills fuel n w :
  fills 0 n w (fun buf => chronoid_random_via_urandom fuel buf n w).
Proof.
  unfold chronoid_random_via_urandom.
  destruct (open_loop fuel w) as [[fd w1]|] eqn:Eo; [|by left].
  apply open_loop_fds in Eo as [Ho Hf]. cbn [mbind option_bind].
  destruct (Z.ltb_spec fd 0) as [Hneg|Hpos].
  { right. exists (-1), [], w1. split.
    - split_and!; [right; cbn; lia | constructor | auto].
    - intros. by rewrite overlay_nil. }
  destruct (Ho Hpos) as [Hnew Hw1].
  destruct (read_loop_fills fuel fd 0 n w1) as [Hn|(r & d & w2 & (Hr & Hb & Hw2) & Hf2)]; [lia|..].
  { left. intros buf Hl. by rewrite Hn. }
  destruct (close fd w2) as [c w3] eqn:Ec. right. exists r, d, w3. split.
  - split_and!; try done. rewrite (close_ok _ _ _ _ Ec), Hw2, Hw1. set_solver.
  - intros buf Hl. rewrite Hf2 by done. cbn [mbind option_bind]. by rewrite Ec.
Qed.

(** ** The chain of sources *)

Lemma try_source_fills have source w next n :
  fills 0 n w (fun buf => source buf) ->
  (forall w', fds w' = fds w -> fills 0 n w' (fun buf => next buf w')) ->
  fills 0 n w (fun buf => try_source have (source buf) buf w next).
Proof.
  intros Hs Hnext. unfold try_source. destruct have; [|by apply Hnext].
  destruct Hs as [Hn|(r & d & w1 & (Hr & Hb & Hw1) & Hf)].
  { left. intros buf Hl. by rewrite Hn. }
  assert (fills 0 n w (fun buf => if r =? 0 then Some (0, overlay 0 d buf, w1)
                                  else next (overlay 0 d buf) w1)) as [Hn|(r2 & d2 & w2 & Ho & Hg)].
  - destruct Hr as [[-> Hd]|[-> Hd]]; cbn [Z.eqb].
    + right. exists 0, d, w1. split; [|done]. split_and!; auto.
    + apply (fills_next n w w1 d (fun buf => next buf w1)); try done. by apply Hnext.
  - left. intros buf Hl. rewrite Hf by done. cbn [mbind option_bind]. by apply Hn.
  - right. exists r2, d2, w2. split; [done|]. intros buf Hl. rewrite Hf by done.
    cbn [mbind option_bind]. by apply Hg.
Qed.

Lemma os_random_bytes_fills `{os_config} fuel n w :
  fills 0 n w (fun buf => chronoid_os_random_bytes fuel buf n w).
Proof.
  unfold chronoid_os_random_bytes, os_random_bytes_windows, os_random_bytes_posix.
  destruct HAVE_BCRYPT; (case_decide; [subst; apply fills_done|]);
    [apply (via_bcrypt_fills fuel 0 n)|].
  apply try_source_fills; [apply via_getrandom_fills; lia|]. intros w1 _.
  apply try_source_fills; [apply via_getentropy_fills; lia|]. intros w2 _.
  apply via_urandom_fills.
Qed.
End RandOs.

(** ** Termination

    The loops repeat while a call is interrupted, and the loop around
    [getrandom] also while nothing is delivered.  [patience] bounds how often
    the system does that from a state on. *)
Definition no_progress (r : io) : Prop :=
  io_ret r < 0 /\ io_errno r = EINTR \/ io_ret r = 0.

Class Patient (W : Type) `{!Syscalls W} := {
  patience : W -> nat;
  getrandom_patience : forall len w r w',
    (0 < len)%nat -> getrandom len w = (r, w') ->
    (patience w' <= patience w)%nat /\ (no_progress r -> (patience w' < patience w)%nat);
  getentropy_patience : forall len w r w',
    getentropy len w = (r, w') -> (patience w' <= patience w)%nat;
  open_patience : forall w fd e w',
    open_urandom w = (fd, e, w') ->
    (patience w' <= patience w)%nat /\
    (fd < 0 /\ e = EINTR -> (patience w' < patience w)%nat);
  read_patience : forall fd len w r w',
    read fd len w = (r, w') ->
    (patience w' <= patience w)%nat /\
    (io_ret r < 0 /\ io_errno r = EINTR -> (patience w' < patience w)%nat);
  close_patience : forall fd w r w', close fd w = (r, w') -> (patience w' <= patience w)%nat;
  bcrypt_patience : forall len w s d w',
    bcrypt_gen_random len w = (s, d, w') -> (patience w' <= patience w)%nat
}.

Section Termination.
Context {W : Type} `{!Syscalls W} `{!Patient W}.

(** [f] returns, and the system is no less patient afterwards. *)
Definition returns (w : W) (f : option (Z * list Z * W)) : Prop :=
  exists r buf w', f = Some (r, buf, w') /\ (patience w' <= patience w)%nat.

Lemma returns_mono w w1 f : (patience w1 <= patience w)%nat -> returns w1 f -> returns w f.
Proof. intros Hp (r & buf & w' & E & Hw'). exists r, buf, w'. split; [done | lia]. Qed.

Lemma returns_write w buf off d k n :
  (off + length d <= n <= length buf)%nat ->
  (forall buf', (n <= length buf')%nat -> returns w (k buf')) ->
  returns w (buf ← memcpy buf off d 0 (length d); k buf).
Proof.
  intros Hd Hk. rewrite memcpy_overlay by lia. cbn [mbind option_bind]. apply Hk.
  rewrite length_overlay; lia.
Qed.

Lemma returns_Some w w' r buf : (patience w' <= patience w)%nat -> returns w (Some (r, buf, w')).
Proof. intros Hp. by exists r, buf, w'. Qed.

Lemma via_getrandom_returns fuel buf off n w :
  (n - off + patience w < fuel)%nat -> (n <= length buf)%nat ->
  returns w (via_getrandom_loop fuel buf off n w).
Proof.
  revert buf off w. induction fuel as [|fuel IH]; intros buf off w Hfuel Hbuf; [lia|].
  cbn [via_getrandom_loop]. case_decide; [|by apply returns_Some].
  destruct (getrandom (n - off) w) as [r w1] eqn:E.
  destruct (getrandom_patience (n - off) w r w1 ltac:(lia) E) as [Hp Hnp]. unfold no_progress in Hnp.
  apply getrandom_ok in E as [(Hl & _ & Hr) _].
  apply (returns_mono _ w1); [done|]. apply (returns_write _ _ _ _ _ n); [lia|].
  intros buf' Hbuf'. destruct (Z.ltb_spec (io_ret r) 0).
  - destruct (Z.eqb_spec (io_errno r) EINTR); [|by apply returns_Some].
    apply IH; [lia | done].
  - destruct (Z.eq_dec (io_ret r) 0); apply IH; lia.
Qed.

Lemma via_getentropy_returns fuel buf off n w :
  (n - off < fuel)%nat -> (n <= length buf)%nat ->
  returns w (via_getentropy_loop fuel buf off n w).
Proof.
  revert buf off w. induction fuel as [|fuel IH]; intros buf off w Hfuel Hbuf; [lia|].
  cbn [via_getentropy_loop]. case_decide; [|by apply returns_Some].
  cbv zeta. set (chunk := if decide _ then _ else _).
  assert (0 < chunk <= n - off)%nat as Hc by (unfold chunk; case_decide; lia).
  destruct (getentropy chunk w) as [r w1] eqn:E.
  pose proof (getentropy_patience _ _ _ _ E). apply getentropy_ok in E as (Hl & _).
  apply (returns_mono _ w1); [done|]. apply (returns_write _ _ _ _ _ n); [lia|].
  intros buf' Hbuf'. destruct (negb _); [by apply returns_Some|]. apply IH; lia.
Qed.

Lemma open_loop_returns fuel w :
  (patience w < fuel)%nat ->
  exists fd w', open_loop fuel w = Some (fd, w') /\ (patience w' <= patience w)%nat.
Proof.
  revert w. induction fuel as [|fuel IH]; intros w Hfuel; [lia|]. cbn [open_loop].
  destruct (open_urandom w) as [[fd e] w1] eqn:E. apply open_patience in E as [Hp Hi].
  destruct (Z.ltb_spec fd 0); cbn [andb]; [|by exists fd, w1].
  destruct (Z.eqb_spec e EINTR); [|by exists fd, w1].
  destruct (IH w1) as (fd' & w' & -> & Hw'); [lia|]. exists fd', w'. split; [done | lia].
Qed.

Lemma read_loop_returns fuel fd buf off n w :
  (n - off + patience w < fuel)%nat -> (n <= length buf)%nat ->
  returns w (read_loop fuel fd buf off n w).
Proof.
  revert buf off w. induction fuel as [|fuel IH]; intros buf off w Hfuel Hbuf; [lia|].
  cbn [read_loop]. case_decide; [|by apply returns_Some].
  destruct (read fd (n - off) w) as [r w1] eqn:E.
  pose proof (read_patience _ _ _ _ _ E) as [Hp Hnp].
  apply read_ok in E as [(Hl & _ & Hr) _].
  apply (returns_mono _ w1); [done|]. apply (returns_write _ _ _ _ _ n); [lia|].
  intros buf' Hbuf'. destruct (Z.ltb_spec (io_ret r) 0).
  - destruct (Z.eqb_spec (io_errno r) EINTR); [|by apply returns_Some].
    apply IH; [lia | done].
  - destruct (Z.eqb_spec (io_ret r) 0); [by apply returns_Some|]. apply IH; lia.
Qed.

Lemma via_urandom_returns fuel buf n w :
  (n + patience w < fuel)%nat -> (n <= length buf)%nat ->
  returns w (chronoid_random_via_urandom fuel buf n w).
Proof.
  intros Hfuel Hbuf. unfold chronoid_random_via_urandom.
  destruct (open_loop_returns fuel w) as (fd & w1 & -> & Hw1); [lia|]. cbn [mbind option_bind].
  destruct (fd <? 0); [by apply returns_Some|].
  destruct (read_loop_returns fuel fd buf 0 n w1) as (r & b & w2 & -> & Hw2); [lia..|].
  cbn [mbind option_bind]. destruct (close fd w2) as [c w3] eqn:Ec.
  apply close_patience in Ec. apply returns_Some. lia.
Qed.

Lemma via_bcrypt_returns fuel buf off n w :
  (n < fuel)%nat -> (off + n <= length buf)%nat ->
  returns w (via_bcrypt_loop fuel buf off n w).
Proof.
  revert buf off n w. induction fuel as [|fuel IH]; intros buf off n w Hfuel Hbuf; [lia|].
  cbn [via_bcrypt_loop]. case_decide; [|by apply returns_Some].
  cbv zeta. set (chunk := if _ <? _ then _ else _).
  assert (0 < chunk <= Z.of_nat n) as Hc by (unfold chunk, ULONG_MAX; case_match; lia).
  clearbody chunk. destruct (bcrypt_gen_random chunk w) as [[s d] w1] eqn:E.
  pose proof (bcrypt_patience _ _ _ _ _ E). apply bcrypt_ok in E as (_ & Hl & _); [|lia].
  apply (returns_mono _ w1); [done|]. apply (returns_write _ _ _ _ _ (off + n)); [lia|].
  intros buf' Hbuf'. destruct (negb _); [by apply returns_Some|]. apply IH; lia.
Qed.

Lemma try_source_returns have source w buf next n :
  (n <= length buf)%nat ->
  fills 0 n w source -> returns w (source buf) ->
  (forall w' buf', (patience w' <= patience w)%nat -> (n <= length buf')%nat ->
    returns w' (next buf' w')) ->
  returns w (try_source have (source buf) buf w next).
Proof.
  intros Hbuf Hf (r & b & w1 & E & Hw1) Hnext. unfold try_source.
  destruct have; [|by apply Hnext]. rewrite E. cbn [mbind option_bind].
  destruct (r =? 0); [by apply returns_Some|].
  apply (returns_mono _ w1); [done|]. apply Hnext; [done|].
  destruct Hf as [Hn|(r' & d & w' & ([[_ Hd]|[_ Hd]] & _) & Hf)];
    [by rewrite Hn in E|rewrite Hf in E by done..];
    injection E as <- <- <-; rewrite length_overlay; cbn [Nat.add] in Hd |- *; lia.
Qed.

Lemma os_random_bytes_returns `{os_config} fuel buf n w :
  (n + patience w < fuel)%nat -> (n <= length buf)%nat ->
  returns w (chronoid_os_random_bytes fuel buf n w).
Proof.
  intros Hfuel Hbuf.
  unfold chronoid_os_random_bytes, os_random_bytes_windows, os_random_bytes_posix.
  destruct HAVE_BCRYPT; (case_decide; [by apply returns_Some|]);
    [apply via_bcrypt_returns; cbn; lia|].
  apply (try_source_returns _ (fun buf => chronoid_random_via_getrandom fuel buf n w) _ _ _ n).
  - done.
  - apply via_getrandom_fills. lia.
  - apply via_getrandom_returns; lia.
  - intros w1 b1 Hw1 Hb1.
    apply (try_source_returns _ (fun buf => chronoid_random_via_getentropy fuel buf n w1) _ _ _ n).
    + done.
    + apply via_getentropy_fills. lia.
    + apply via_getentropy_returns; lia.
    + intros w2 b2 Hw2 Hb2. apply via_urandom_returns; lia.
Qed.
End Termination.

(** ** A concrete system

    Its calls follow a script: a negative entry is a failure with that [errno]
    (negated), another entry is the number of bytes the next call delivers.
    When the script is over every call delivers what it is asked for.  All the
    bytes are [toy_os_byte]. *)
Record toy_os := ToyOs { toy_script : list Z; toy_os_byte : Z; toy_fds : gset Z }.

Definition toy_io (len : nat) (w : toy_os) : io * toy_os :=
  match toy_script w with
  | [] => (Io (Z.of_nat len) 0 (replicate len (u8 (toy_os_byte w))), w)
  | k :: rest =>
      let w' := ToyOs rest (toy_os_byte w) (toy_fds w) in
      if k <? 0 then (Io (-1) (- k) [], w')
      else
        let m := Nat.min len (Z.to_nat k) in
        (Io (Z.of_nat m) 0 (replicate m (u8 (toy_os_byte w))), w')
  end.

Definition toy_getentropy (len : nat) (w : toy_os) : io * toy_os :=
  if decide (256 < len)%nat then (Io (-1) 5 [], w)
  else
    match toy_script w with
    | [] => (Io 0 0 (replicate len (u8 (toy_os_byte w))), w)
    | k :: rest =>
        let w' := ToyOs rest (toy_os_byte w) (toy_fds w) in
        if k <? 0 then (Io (-1) (- k) [], w')
        else (Io 0 0 (replicate len (u8 (toy_os_byte w))), w')
    end.

Definition toy_open (w : toy_os) : Z * Z * toy_os :=
  let fd := 1 + set_fold Z.max 2 (toy_fds w) in
  match toy_script w with
  | [] => (fd, 0, ToyOs [] (toy_os_byte w) ({[fd]} ∪ toy_fds w))
  | k :: rest =>
      if k <? 0 then (-1, - k, ToyOs rest (toy_os_byte w) (toy_fds w))
      else (fd, 0, ToyOs rest (toy_os_byte w) ({[fd]} ∪ toy_fds w))
  end.

Definition toy_close (fd : Z) (w : toy_os) : Z * toy_os :=
  (0, ToyOs (toy_script w) (toy_os_byte w) (toy_fds w ∖ {[fd]})).

Definition toy_bcrypt (len : Z) (w : toy_os) : Z * list Z * toy_os :=
  (0, replicate (Z.to_nat len) (u8 (toy_os_byte w)), w).

Lemma toy_bytes k w : bytes (replicate k (u8 (toy_os_byte w))).
Proof. apply bytes_replicate, wrap_range. lia. Qed.

Lemma toy_io_ok len w r w' :
  toy_io len w = (r, w') -> io_ok len r /\ toy_fds w' = toy_fds w.
Proof.
  unfold toy_io, io_ok. intros E.
  repeat case_match; injection E as <- <-; cbn [io_ret io_data toy_fds length];
    rewrite ?length_replicate;
    (split; [split_and!; [lia | first [apply toy_bytes | constructor] | lia] | done]).
Qed.

Lemma toy_io_patience len w r w' :
  toy_io len w = (r, w') ->
  (length (toy_script w') <= length (toy_script w))%nat /\
  ((0 < len)%nat /\ no_progress r \/ io_ret r < 0 /\ io_errno r = EINTR ->
   (length (toy_script w') < length (toy_script w))%nat).
Proof.
  unfold toy_io, no_progress. destruct w as [[|k rest] b f]; cbn [toy_script].
  - intros [= <- <-]. cbn. lia.
  - intros E. repeat case_match; injection E as <- <-; cbn; lia.
Qed.

Lemma toy_getentropy_ok len w r w' :
  toy_getentropy len w = (r, w') ->
  (length (io_data r) <= len)%nat /\ bytes (io_data r) /\ toy_fds w' = toy_fds w /\
  (io_ret r = 0 -> (len <= 256)%nat /\ length (io_data r) = len).
Proof.
  unfold toy_getentropy. intros E.
  repeat case_match; injection E as <- <-; cbn [io_ret io_data toy_fds length];
    rewrite ?length_replicate;
    (split_and!; [lia | first [apply toy_bytes | constructor] | done | lia]).
Qed.

Lemma foldr_max_ub l b x : x ∈ l -> x <= foldr Z.max b l.
Proof. induction 1; cbn; lia. Qed.

Lemma toy_open_ok w fd e w' :
  toy_open w = (fd, e, w') ->
  (0 <= fd -> fd ∉ toy_fds w /\ toy_fds w' = {[fd]} ∪ toy_fds w) /\
  (fd < 0 -> toy_fds w' = toy_fds w).
Proof.
  unfold toy_open. set (m := 1 + set_fold Z.max 2 (toy_fds w)).
  assert (m ∉ toy_fds w) as Hm.
  { intros Hin. apply elem_of_elements in Hin.
    apply (foldr_max_ub _ 2) in Hin. unfold m, set_fold in Hin. cbn in Hin. lia. }
  assert (2 <= set_fold Z.max 2 (toy_fds w)) as Hge.
  { unfold set_fold. cbn. induction (elements (toy_fds w)); cbn; lia. }
  intros E. repeat case_match; injection E as <- <- <-; cbn; (split; intros; [|try done; lia]);
    try done; lia.
Qed.

#[export] Instance toy_syscalls : Syscalls toy_os | 100.
Proof.
  refine {| getrandom := toy_io; getentropy := toy_getentropy; open_urandom := toy_open;
            read := fun _ => toy_io; close := toy_close; bcrypt_gen_random := toy_bcrypt;
            fds := toy_fds |}.
  - exact toy_io_ok.
  - exact toy_getentropy_ok.
  - exact toy_open_ok.
  - intros _. exact toy_io_ok.
  - by intros fd w r w' [= _ <-].
  - intros len w s d w' Hlen [= <- <- <-]. cbn [length]. rewrite length_replicate.
    split_and!; [apply toy_bytes | lia | done | lia].
Defined.

#[export] Instance toy_patient : Patient toy_os | 100.
Proof.
  refine {| patience := fun w => length (toy_script w) |}.
  - intros len w r w' Hlen E. apply toy_io_patience in E. naive_solver.
  - intros len w r w' E. apply (f_equal snd) in E. cbn in E |- *. subst w'.
    unfold toy_getentropy. destruct w as [[|k rest] b f]; cbn [toy_script];
      case_decide; try (destruct (k <? 0)); cbn; lia.
  - intros w fd e w'. cbn. unfold toy_open, EINTR. destruct w as [[|k rest] b f]; cbn [toy_script].
    + intros [= <- <- <-]. cbn. lia.
    + case_match; intros [= <- <- <-]; cbn; lia.
  - intros fd len w r w' E. apply toy_io_patience in E. naive_solver.
  - by intros fd w r w' [= _ <-].
  - by intros len w s d w' [= _ _ <-].
Defined.

(** A Linux build with all three sources. *)
Definition linux_config : os_config :=
  {| HAVE_BCRYPT := false; HAVE_GETRANDOM := true; HAVE_GETENTROPY := true |}.

Example toy_short_reads :
  chronoid_os_random_bytes (H := linux_config) 20 (uninit 6) 6 (ToyOs [-4; 2; -4; 0; 3] 7 ∅)
  = Some (0, replicate 6 7, ToyOs [] 7 ∅).
Proof. vm_compute. reflexivity. Qed.

(** [getrandom] fails, [getentropy] fails, the descriptor of /dev/urandom is
    closed after a read that ends the file. *)
Example toy_all_fail :
  chronoid_os_random_bytes (H := linux_config) 20 (uninit 2) 2 (ToyOs [-38; -38; -4; 1; 1; 0] 7 ∅)
  = Some (-1, [7; 0xcc], ToyOs [] 7 ∅).
Proof. vm_compute. reflexivity. Qed.

(** ** The theorems *)

(** C31: [chronoid_os_random_bytes] never leaves stale bytes in the buffer and
    never leaks a descriptor.  In every build and for every length and state of
    the system there is one outcome, the same for all buffers of at least [n]
    bytes: either the call does not return, or it returns 0 or -1 with as many
    descriptors open as before, has replaced a first part [d] of the buffer
    that does not depend on what the buffer held, and has touched nothing
    behind the [n] bytes; when it returns 0, [d] is [n] bytes long. *)
Theorem os_random_bytes_overwrites `{Syscalls W} `{os_config} fuel n (w : W) :
  (forall buf, (n <= length buf)%nat -> chronoid_os_random_bytes fuel buf n w = None) \/
  exists r d w',
    (r = 0 /\ length d = n \/ r = -1 /\ (length d <= n)%nat) /\ bytes d /\
    fds w' = fds w /\
    forall buf, (n <= length buf)%nat ->
      chronoid_os_random_bytes fuel buf n w = Some (r, d ++ drop (length d) buf, w').
Proof.
  destruct (os_random_bytes_fills fuel n w) as [Hn|(r & d & w' & (Hr & Hb & Hw) & Hf)];
    [by left|right]. exists r, d, w'. split_and!; auto.
Qed.

(** C32: [chronoid_os_random_bytes] terminates.  Where the system interrupts
    calls, or makes [getrandom] deliver nothing, at most [patience w] times,
    the loops of the whole chain of sources end after at most
    [n + patience w] iterations each, and the call returns 0 or -1. *)
Theorem os_random_bytes_terminates `{Patient W} `{os_config} fuel buf n (w : W) :
  (n + patience w < fuel)%nat -> (n <= length buf)%nat ->
  exists r d w', chronoid_os_random_bytes fuel buf n w
                 = Some (r, d ++ drop (length d) buf, w') /\
    (r = 0 /\ length d = n \/ r = -1) /\ (patience w' <= patience w)%nat.
Proof.
  intros Hfuel Hbuf.
  destruct (os_random_bytes_returns fuel buf n w Hfuel Hbuf) as (r & b & w' & E & Hp).
  destruct (os_random_bytes_fills fuel n w) as [Hn|(r' & d & w1 & (Hr & _ & _) & Hf)].
  { by rewrite Hn in E. }
  rewrite Hf in E by done. injection E as <- <- <-. exists r', d, w1.
  rewrite Hf by done. split_and!; [done | naive_solver lia | done].
Qed.

(** Two interruptions and three short deliveries. *)
Definition toy_slow : toy_os := ToyOs [-4; 2; -4; 0; 3] 7 ∅.

Example os_random_bytes_terminates_witness :
  (6 + patience toy_slow < 12)%nat /\
  exists r d w', chronoid_os_random_bytes (H := linux_config) 12 (uninit 6) 6 toy_slow
                 = Some (r, d ++ drop (length d) (uninit 6), w') /\
    (r = 0 /\ length d = 6%nat \/ r = -1) /\ (patience w' <= patience toy_slow)%nat.
Proof.
  split; [cbn; lia|].
  apply (os_random_bytes_terminates (H0 := linux_config) 12 (uninit 6) 6 toy_slow);
    [cbn; lia | done].
Defined.
