(* ===== verification/RandTls.v ===== *)
(** * The per-thread generator: chronoid/rand_tls.c

    One thread's view of the process: the thread-local generator, the re-entry
    flag, the process-wide slots of the file, and the environment [W] below
    them.  The calls into the environment are the entropy source of rand_os.c,
    the clock, the process id and the thread-exit hooks. *)
From S2P Require Import Prelude Radix ByteOrder Wipe Chacha20 RandOs Rand.

Definition CHRONOID_RNG_RESEED_BYTES : Z := 2 ^ 20.
Definition CHRONOID_RNG_RESEED_SECONDS : Z := 3600.
Definition FLS_OUT_OF_INDEXES : Z := 0xffffffff.

(** ** The environment *)

(** What rand_tls.c relies on of [chronoid_os_random_bytes]. *)
Class EntropySource (W : Type) := {
  os_random_bytes : list Z -> nat -> W -> option (Z * list Z * W);
  os_random_bytes_ok : forall buf n w r buf' w',
    (n <= length buf)%nat -> os_random_bytes buf n w = Some (r, buf', w') ->
    length buf' = length buf /\ (r = 0 \/ r = -1) /\ (r = 0 -> bytes (take n buf'))
}.

(** [CHRONOID_GETPID ()]. *)
Class ProcessId (W : Type) := getpid : W -> Z * W.

(** The thread-exit hook the build found, and the calls that install it. *)
Variant exit_hook := HOOK_CXA | HOOK_FLS | HOOK_NONE.

Class ThreadExit (W : Type) := {
  hook : exit_hook;
  cxa_thread_atexit_impl : W -> Z * W;
  FlsAlloc : W -> Z * W;
  FlsSetValue : Z -> W -> bool * W
}.

(** ** State *)

Record chronoid_tls_rng_t := Rng {
  state : list Z;
  buf : list Z;
  buf_pos : Z;
  bytes_emitted : Z;
  seed_time : Z;
  seed_pid : Z;
  seeded : bool;
  destructor_registered : bool
}.

(** A function the tests may install as the clock. *)
Record time_source (W : Type) := TimeSource {
  source_fn : W -> Z * W;
  source_ok : forall w t w', source_fn w = (t, w') -> int64 t
}.
Arguments source_fn {W}.
Arguments source_ok {W}.

Record process (W : Type) := Process {
  chronoid_tls_rng_ : chronoid_tls_rng_t;
  chronoid_tls_in_destructor_ : bool;
  chronoid_thread_exit_wipes_observed : Z;
  chronoid_time_source_override_ : option (time_source W);
  chronoid_fls_index_ : Z;
  chronoid_fls_init_ : bool;
  env : W
}.
Arguments Process {W}.
Arguments chronoid_tls_rng_ {W}.
Arguments chronoid_tls_in_destructor_ {W}.
Arguments chronoid_thread_exit_wipes_observed {W}.
Arguments chronoid_time_source_override_ {W}.
Arguments chronoid_fls_index_ {W}.
Arguments chronoid_fls_init_ {W}.
Arguments env {W}.

Definition set_rng {W} (r : chronoid_tls_rng_t) (p : process W) : process W :=
  let 'Process _ d n o i f w := p in Process r d n o i f w.
Definition set_in_destructor {W} (d : bool) (p : process W) : process W :=
  let 'Process r _ n o i f w := p in Process r d n o i f w.
Definition set_env {W} (w : W) (p : process W) : process W :=
  let 'Process r d n o i f _ := p in Process r d n o i f w.

(** Static storage: all zero. *)
Definition zero_rng : chronoid_tls_rng_t :=
  Rng (replicate 16 0) (replicate 64 0) 0 0 0 0 false false.
Definition fresh_thread {W} (w : W) : process W :=
  Process zero_rng false 0 None FLS_OUT_OF_INDEXES false w.

(** [_Atomic int] arithmetic wraps around. *)
Definition int32_of_u32 (x : Z) : Z := if x <? 2 ^ 31 then x else x - 2 ^ 32.
Definition int_wrap (x : Z) : Z := int32_of_u32 (u32 x).

Section RandTls.
Context {W : Type} `{!EntropySource W} `{!ProcessId W} `{!ThreadExit W} `{!Clock W}
  `{!wipe_config}.

(** ** The clocks *)

Definition chronoid_now_seconds (w : W) : Z * W :=
  let '(ts, w) := timespec_get w in
  match ts with
  | None => (-1, w)
  | Some (tv_sec, _) => (tv_sec, w)
  end.

Definition chronoid_now_ms (p : process W) : option (Z * process W) :=
  match chronoid_time_source_override_ p with
  | Some fn => let '(t, w) := source_fn fn (env p) in Some (t, set_env w p)
  | None =>
      let '(ts, w) := timespec_get (env p) in
      match ts with
      | None => Some (-1, set_env w p)
      | Some (tv_sec, tv_nsec) =>
          ms ← i64_mul tv_sec 1000;
          t ← i64_add ms (tv_nsec / 1000000);
          Some (t, set_env w p)
      end
  end.

Definition chronoid_set_time_source_for_testing (fn : option (time_source W)) (p : process W)
    : process W :=
  let 'Process r d n _ i f w := p in Process r d n fn i f w.

(** ** Erasing and marking the state *)

(** [chronoid_explicit_bzero (&rng, sizeof rng)]: every member reads zero. *)
Definition bzero_rng (r : chronoid_tls_rng_t) : option chronoid_tls_rng_t :=
  st ← chronoid_explicit_bzero (state r) 0 (length (state r));
  b ← chronoid_explicit_bzero (buf r) 0 (length (buf r));
  Some (Rng st b 0 0 0 0 false false).

Definition chronoid_random_thread_state_wipe (p : process W) : option (process W) :=
  let p := set_in_destructor true p in
  r ← bzero_rng (chronoid_tls_rng_ p);
  let p := set_rng r p in
  let p := set_in_destructor false p in
  let 'Process r d n o i f w := p in
  Some (Process r d (int_wrap (n + 1)) o i f w).

Definition chronoid_tls_atexit_trampoline := chronoid_random_thread_state_wipe.
Definition chronoid_fls_destroy := chronoid_random_thread_state_wipe.

(** [memset (&rng, 0xa5, sizeof rng)] and the two flags. *)
Definition chronoid_random_thread_state_set_sentinel_for_testing (p : process W) : process W :=
  let r := chronoid_tls_rng_ p in
  set_rng (Rng (replicate (length (state r)) 0xa5a5a5a5) (replicate (length (buf r)) 0xa5)
             0xa5a5a5a5a5a5a5a5 0xa5a5a5a5a5a5a5a5
             (int64_of_u64 0xa5a5a5a5a5a5a5a5) (int64_of_u64 0xa5a5a5a5a5a5a5a5)
             true (destructor_registered r)) p.

Definition chronoid_random_force_reseed (p : process W) : process W :=
  let r := chronoid_tls_rng_ p in
  set_rng (Rng (state r) (buf r) (buf_pos r) (bytes_emitted r) (seed_time r) (seed_pid r)
             false (destructor_registered r)) p.

(** ** Registering the thread-exit wipe *)

Definition set_registered (r : chronoid_tls_rng_t) : chronoid_tls_rng_t :=
  Rng (state r) (buf r) (buf_pos r) (bytes_emitted r) (seed_time r) (seed_pid r)
    (seeded r) true.

Definition chronoid_fls_init_once (p : process W) : process W :=
  let 'Process r d n o _ f w := p in
  let '(i, w) := FlsAlloc w in Process r d n o i f w.

(** [InitOnceExecuteOnce]: the function runs on the first call only. *)
Definition InitOnceExecuteOnce (p : process W) : process W :=
  if chronoid_fls_init_ p then p
  else
    let 'Process r d n o i _ w := chronoid_fls_init_once p in
    Process r d n o i true w.

Definition chronoid_tls_register_thread_exit (p : process W) : process W :=
  let r := chronoid_tls_rng_ p in
  match hook with
  | HOOK_CXA =>
      if destructor_registered r then p
      else
        let p := set_rng (set_registered r) p in
        let '(_, w) := cxa_thread_atexit_impl (env p) in
        set_env w p
  | HOOK_FLS =>
      if destructor_registered r then p
      else
        let p := InitOnceExecuteOnce p in
        if chronoid_fls_index_ p =? FLS_OUT_OF_INDEXES then p
        else
          let '(ok, w) := FlsSetValue (chronoid_fls_index_ p) (env p) in
          let p := set_env w p in
          if ok then set_rng (set_registered (chronoid_tls_rng_ p)) p else p
  | HOOK_NONE => p
  end.

(** ** Seeding *)

(** [k] little-endian words of [kn] from byte [off] on, into [st] from word
    [i] on. *)
Fixpoint load_words (k : nat) (st : list Z) (i : nat) (kn : list Z) (off : nat)
    : option (list Z) :=
  match k with
  | O => Some st
  | S k' =>
      b0 ← kn !! (off + 0)%nat; b1 ← kn !! (off + 1)%nat;
      b2 ← kn !! (off + 2)%nat; b3 ← kn !! (off + 3)%nat;
      st ← store st i (Z.lor (Z.lor (Z.lor b0 (u32 (Z.shiftl b1 8)))
                                    (u32 (Z.shiftl b2 16))) (u32 (Z.shiftl b3 24)));
      load_words k' st (S i) kn (off + 4)
  end.

(** The return code and the seed bytes [kn] as the call leaves them. *)
Definition chronoid_tls_rng_seed (p : process W) : option (Z * list Z * process W) :=
  '(rc, kn, w) ← os_random_bytes (uninit 44) 44 (env p);
  let p := set_env w p in
  if rc <? 0 then
    kn ← chronoid_explicit_bzero kn 0 44;
    Some (-1, kn, p)
  else
    let r := chronoid_tls_rng_ p in
    st ← store (state r) 0 CHRONOID_CHACHA20_C0;
    st ← store st 1 CHRONOID_CHACHA20_C1;
    st ← store st 2 CHRONOID_CHACHA20_C2;
    st ← store st 3 CHRONOID_CHACHA20_C3;
    st ← load_words 8 st 4 kn 0;
    st ← store st 12 0;
    st ← load_words 3 st 13 kn 32;
    kn ← chronoid_explicit_bzero kn 0 44;
    b ← memset (buf r) 0 0 64;
    let '(pid, w) := getpid (env p) in
    let '(now, w) := chronoid_now_seconds w in
    let p := set_env w p in
    let p := set_rng (Rng st b 64 0 now pid (seeded r) (destructor_registered r)) p in
    let p := chronoid_tls_register_thread_exit p in
    let r := chronoid_tls_rng_ p in
    Some (0, kn, set_rng (Rng (state r) (buf r) (buf_pos r) (bytes_emitted r) (seed_time r)
                            (seed_pid r) true (destructor_registered r)) p).

(** No result when [now - seed_time] overflows. *)
Definition chronoid_tls_rng_should_reseed (p : process W) : option (bool * process W) :=
  let r := chronoid_tls_rng_ p in
  if negb (seeded r) then Some (true, p)
  else if CHRONOID_RNG_RESEED_BYTES <=? bytes_emitted r then Some (true, p)
  else
    let '(pid, w) := getpid (env p) in
    if negb (pid =? seed_pid r) then Some (true, set_env w p)
    else
      let '(now, w) := chronoid_now_seconds w in
      let p := set_env w p in
      if now <? seed_time r then Some (true, p)
      else
        d ← i64_sub now (seed_time r);
        Some (CHRONOID_RNG_RESEED_SECONDS <=? d, p).

(** ** Drawing *)

(** The refill at the head of the loop. *)
Definition refill (r : chronoid_tls_rng_t) : option chronoid_tls_rng_t :=
  if buf_pos r =? 64 then
    '(b, st, _) ← chronoid_chacha20_block (buf r) (state r);
    Some (Rng st b 0 (bytes_emitted r) (seed_time r) (seed_pid r) (seeded r)
            (destructor_registered r))
  else Some r.

(** The loop: [off] bytes of the caller's buffer [out] are done, [n] remain. *)
Fixpoint draw_loop (fuel : nat) (out : list Z) (off n : nat) (r : chronoid_tls_rng_t)
    : option (list Z * chronoid_tls_rng_t) :=
  match fuel with
  | O => None
  | S fuel' =>
      if decide (0 < n)%nat then
        r ← refill r;
        let avail := u64 (64 - buf_pos r) in
        let chunk := if Z.of_nat n <? avail then n else Z.to_nat avail in
        out ← memcpy out off (buf r) (Z.to_nat (buf_pos r)) chunk;
        b ← chronoid_explicit_bzero (buf r) (Z.to_nat (buf_pos r)) chunk;
        let r := Rng (state r) b (u64 (buf_pos r + Z.of_nat chunk))
                   (u64 (bytes_emitted r + Z.of_nat chunk)) (seed_time r) (seed_pid r)
                   (seeded r) (destructor_registered r) in
        draw_loop fuel' out (off + chunk) (n - chunk) r
      else Some (out, r)
  end.

(** Every iteration draws at least one byte, so [S n] rounds are enough. *)
Definition chronoid_random_bytes (out : list Z) (n : nat) (p : process W)
    : option (Z * list Z * process W) :=
  if chronoid_tls_in_destructor_ p then Some (-1, out, p)
  else
    '(reseed, p) ← chronoid_tls_rng_should_reseed p;
    '(rc, p) ← (if (reseed : bool) then '(rc, _, p) ← chronoid_tls_rng_seed p; Some (rc, p)
                else Some (0, p));
    if rc <? 0 then Some (-1, out, p)
    else
      '(out, r) ← draw_loop (S n) out 0 n (chronoid_tls_rng_ p);
      Some (0, out, set_rng r p).
End RandTls.
