(* ===== verification/Keystream.v ===== *)
(** * The keystream of the per-thread generator

    The bytes of the keystream of a seed as one sequence, the position of a
    generator in it, and what the window and the draw loop of
    chronoid/rand_tls.c do to that position. *)
From S2P Require Import Prelude Radix ByteOrder Wipe Chacha20 RandOs Rand RandTls.

(** ** The keystream as one sequence of bytes

    [stream s i] is byte [i] of the keystream of the seed [s]. *)
Definition stream (s : list Z) (i : nat) : Z :=
  nth (i mod 64) (keystream (Nat.iter (i / 64) next_state s)) 0.

Definition slice (s : list Z) (pos n : nat) : list Z := map (stream s) (seq pos n).

Lemma length_slice s pos n : length (slice s pos n) = n.
Proof. unfold slice. by rewrite length_map, length_seq. Qed.

Lemma slice_app s pos a b : slice s pos (a + b) = slice s pos a ++ slice s (pos + a) b.
Proof. unfold slice. by rewrite seq_app, map_app. Qed.

(** A slice inside one block. *)
Lemma slice_block s k q c :
  wf_state s -> (q + c <= 64)%nat ->
  slice s (64 * k + q) c = take c (drop q (keystream (Nat.iter k next_state s))).
Proof.
  intros Hs Hq. pose proof (length_keystream _ (iter_next_state_wf k s Hs)) as Hl.
  remember (64 * k + q)%nat as m eqn:Em. apply list_eq_same_length with c.
  - rewrite length_take, length_drop. lia.
  - apply length_slice.
  - intros i x y Hi. unfold slice.
    rewrite list_lookup_fmap, lookup_seq_lt by lia. cbn [fmap option_fmap option_map].
    rewrite lookup_take, decide_True, lookup_drop by lia. intros [= <-] Hy.
    unfold stream. replace (m + i)%nat with (q + i + k * 64)%nat by lia.
    rewrite Nat.Div0.mod_add, Nat.div_add by lia.
    rewrite Nat.mod_small, Nat.div_small by lia. cbn [Nat.add].
    by apply nth_lookup_Some.
Qed.

(** The generator stands at byte [pos] of the keystream of [s]: the words are
    the next block's input, the window holds what is left of the current block,
    and what was handed out of it has been erased. *)
Definition at_position (s : list Z) (pos : nat) (r : chronoid_tls_rng_t) : Prop :=
  wf_state s /\
  exists k q b, state r = Nat.iter k next_state s /\ buf_pos r = Z.of_nat q /\
    (q <= 64)%nat /\ length b = 64%nat /\ buf r = replicate q 0 ++ drop q b /\
    (pos + 64 = 64 * k + q)%nat /\ bytes_emitted r = u64 (Z.of_nat pos) /\
    ((q < 64)%nat -> exists k', k = S k' /\ b = keystream (Nat.iter k' next_state s)).

(** The members the draw loop leaves alone. *)
Definition same_seed (r r' : chronoid_tls_rng_t) : Prop :=
  seed_time r' = seed_time r /\ seed_pid r' = seed_pid r /\ seeded r' = seeded r /\
  destructor_registered r' = destructor_registered r.

Lemma same_seed_trans r1 r2 r3 : same_seed r1 r2 -> same_seed r2 r3 -> same_seed r1 r3.
Proof. unfold same_seed. intuition congruence. Qed.

#[local] Opaque keystream next_state.

Section Draw.
Context `{!wipe_config}.

Lemma refill_at s pos r :
  at_position s pos r ->
  exists r', refill r = Some r' /\ at_position s pos r' /\ 0 <= buf_pos r' < 64 /\
    same_seed r r'.
Proof.
  intros (Hs & k & q & b & Hst & Hq & Hq64 & Hb & Hbuf & Hpos & Hem & Hk). unfold refill.
  destruct (Z.eqb_spec (buf_pos r) 64) as [E|E].
  - assert (length (buf r) = 64%nat) as Hlb.
    { rewrite Hbuf, length_app, length_replicate, length_drop. lia. }
    rewrite Hst, chacha20_block_spec by (done || by apply iter_next_state_wf).
    cbn [mbind option_bind]. eexists. split; [done|]. split; [|split; [cbn; lia|done]].
    split; [done|]. exists (S k), 0%nat, (keystream (Nat.iter k next_state s)).
    cbn [state buf buf_pos bytes_emitted].
    split_and!; [reflexivity | reflexivity | lia | | reflexivity | lia | exact Hem |].
    + by apply length_keystream, iter_next_state_wf.
    + intros _. exists k. split; reflexivity.
  - exists r. split; [done|]. split; [|split; [lia|done]]. split; [done|].
    by exists k, q, b.
Qed.

(** One iteration after the refill. *)
Lemma draw_chunk s pos r out off c :
  at_position s pos r -> 0 <= buf_pos r < 64 -> (Z.of_nat c <= 64 - buf_pos r) ->
  (off + c <= length out)%nat -> exists b',
  memcpy out off (buf r) (Z.to_nat (buf_pos r)) c = Some (overlay off (slice s pos c) out) /\
  chronoid_explicit_bzero (buf r) (Z.to_nat (buf_pos r)) c = Some b' /\
  at_position s (pos + c)
    (Rng (state r) b' (u64 (buf_pos r + Z.of_nat c)) (u64 (bytes_emitted r + Z.of_nat c))
       (seed_time r) (seed_pid r) (seeded r) (destructor_registered r)).
Proof.
  intros (Hs & k & q & b & Hst & Hq & Hq64 & Hb & Hbuf & Hpos & Hem & Hk) Hlt Hc Hout.
  rewrite Hq, Nat2Z.id in *. destruct Hk as (k' & -> & Eb); [lia|].
  assert (length (replicate q 0) = q) as Hlr by apply length_replicate.
  assert (length (buf r) = 64%nat) as Hlb.
  { rewrite Hbuf, length_app, length_drop. lia. }
  assert (take c (drop q (buf r)) = slice s pos c) as Hslice.
  { rewrite Hbuf, drop_app_length' by done. replace pos with (64 * k' + q)%nat by lia.
    rewrite (slice_block s k' q c Hs) by lia. by rewrite Eb. }
  eexists. split_and!.
  - rewrite memcpy_Some by lia. rewrite Hslice. unfold overlay. by rewrite length_slice.
  - apply explicit_bzero_Some. lia.
  - split; [done|]. exists (S k'), (q + c)%nat, b. cbn [state buf buf_pos bytes_emitted].
    split_and!; try done; try lia.
    + rewrite wrap_small by (unfold uint; lia). lia.
    + rewrite Hbuf, take_app_length', <- drop_drop, drop_app_length' by done.
      by rewrite drop_drop, replicate_add, <- app_assoc.
    + rewrite Hem. unfold wrap. rewrite Z.add_mod_idemp_l by lia. f_equal. lia.
    + intros _. by exists k'.
Qed.

Lemma draw_loop_at fuel out off n s pos r :
  at_position s pos r -> (n < fuel)%nat -> (off + n <= length out)%nat ->
  exists r', draw_loop fuel out off n r = Some (overlay off (slice s pos n) out, r') /\
    at_position s (pos + n) r' /\ same_seed r r'.
Proof.
  revert out off n pos r. induction fuel as [|fuel IH]; intros out off n pos r Hat Hn Hout; [lia|].
  cbn [draw_loop]. case_decide as H0.
  2: { exists r. assert (n = 0%nat) as -> by lia. unfold slice. cbn [seq map].
       rewrite overlay_nil, Nat.add_0_r. done. }
  destruct (refill_at s pos r Hat) as (r1 & -> & Hat1 & Hlt & Hsame). cbn [mbind option_bind].
  cbv zeta. set (chunk := if Z.of_nat n <? _ then _ else _).
  assert (u64 (64 - buf_pos r1) = 64 - buf_pos r1) as Ea by (apply wrap_small; unfold uint; lia).
  assert ((0 < chunk <= n)%nat /\ Z.of_nat chunk <= 64 - buf_pos r1) as Hc.
  { unfold chunk. rewrite Ea. destruct (Z.ltb_spec (Z.of_nat n) (64 - buf_pos r1)); lia. }
  clearbody chunk. destruct Hc as [Hc Hc64].
  destruct (draw_chunk s pos r1 out off chunk Hat1 Hlt Hc64) as (b' & -> & -> & Hat2); [lia|].
  cbn [mbind option_bind].
  edestruct (IH (overlay off (slice s pos chunk) out) (off + chunk)%nat (n - chunk)%nat)
    as (r2 & -> & Hat3 & Hsame2); [exact Hat2|lia|..].
  { rewrite length_overlay; rewrite ?length_slice; lia. }
  exists r2. split_and!.
  - do 2 f_equal. replace n with (chunk + (n - chunk))%nat at 2 by lia.
    rewrite slice_app, overlay_overlay by (rewrite ?length_slice; lia).
    rewrite (take_ge (slice s pos chunk)) by (rewrite length_slice; lia).
    rewrite (drop_ge (slice s pos chunk)) by (rewrite !length_slice; lia).
    by rewrite app_nil_r.
  - by replace (pos + n)%nat with (pos + chunk + (n - chunk))%nat by lia.
  - by eapply same_seed_trans, same_seed_trans.
Qed.
End Draw.

(** ** The state of a seed

    Words 4 to 11 are the key, word 12 the counter, words 13 to 15 the nonce;
    a word is four bytes of the seed, least significant first. *)
Definition le_word (kn : list Z) (off : nat) : Z :=
  nth off kn 0 + 2 ^ 8 * nth (off + 1) kn 0 + 2 ^ 16 * nth (off + 2) kn 0
  + 2 ^ 24 * nth (off + 3) kn 0.

Fixpoint le_words (k : nat) (kn : list Z) (off : nat) : list Z :=
  match k with
  | O => []
  | S k' => le_word kn off :: le_words k' kn (off + 4)
  end.

Definition seed_state (kn : list Z) : list Z :=
  [CHRONOID_CHACHA20_C0; CHRONOID_CHACHA20_C1; CHRONOID_CHACHA20_C2; CHRONOID_CHACHA20_C3]
  ++ le_words 8 kn 0 ++ [0] ++ le_words 3 kn 32.

Lemma length_le_words k kn off : length (le_words k kn off) = k.
Proof. revert off. induction k as [|k IH]; intros off; [done|]. cbn. by rewrite IH. Qed.

Lemma nth_is_byte kn i : bytes kn -> 0 <= nth i kn 0 < 256.
Proof.
  intros Hb. destruct (kn !! i) as [x|] eqn:E.
  - rewrite (nth_lookup_Some kn i 0 x E). by apply (bytes_lookup kn i x).
  - rewrite nth_lookup, E. cbn. lia.
Qed.

Lemma le_words_range k kn off : bytes kn -> Forall (uint 32) (le_words k kn off).
Proof.
  intros Hb. revert off. induction k as [|k IH]; intros off; cbn [le_words]; constructor; [|done].
  unfold uint, le_word.
  pose proof (nth_is_byte kn off Hb). pose proof (nth_is_byte kn (off + 1) Hb).
  pose proof (nth_is_byte kn (off + 2) Hb). pose proof (nth_is_byte kn (off + 3) Hb). lia.
Qed.

Lemma seed_state_wf kn : bytes kn -> wf_state (seed_state kn).
Proof.
  intros Hb. split; [done|]. unfold seed_state.
  rewrite !Forall_app. split_and!; try (by apply le_words_range).
  - repeat constructor; done.
  - repeat constructor; done.
Qed.

(** The four bytes of a word joined with [|] and [<<]. *)
Lemma le_join b0 b1 b2 b3 :
  uint 8 b0 -> uint 8 b1 -> uint 8 b2 -> uint 8 b3 ->
  Z.lor (Z.lor (Z.lor b0 (u32 (Z.shiftl b1 8))) (u32 (Z.shiftl b2 16))) (u32 (Z.shiftl b3 24))
  = b0 + 2 ^ 8 * b1 + 2 ^ 16 * b2 + 2 ^ 24 * b3.
Proof.
  intros H0 H1 H2 H3. rewrite !shl_byte by (done || lia). unfold uint in *.
  rewrite (Z.lor_comm b0), (lor_add (b1 * 2 ^ 8) b0 8) by (try apply Z.mod_mul; lia).
  rewrite (Z.lor_comm _ (b2 * 2 ^ 16)), (lor_add (b2 * 2 ^ 16) _ 16)
    by (try apply Z.mod_mul; lia).
  rewrite (Z.lor_comm _ (b3 * 2 ^ 24)), (lor_add (b3 * 2 ^ 24) _ 24)
    by (try apply Z.mod_mul; lia).
  lia.
Qed.

(** [p] holds the words stored so far. *)
Lemma load_words_append k p st i kn off :
  length p = i -> (i + k <= length st)%nat -> bytes kn -> (off + 4 * k <= length kn)%nat ->
  load_words k (p ++ drop i st) i kn off = Some ((p ++ le_words k kn off) ++ drop (i + k) st).
Proof.
  revert p i off. induction k as [|k IH]; intros p i off Hp Hi Hb Hk.
  { cbn [load_words le_words]. by rewrite Nat.add_0_r, app_nil_r. }
  cbn [load_words le_words]. rewrite Nat.add_0_r.
  destruct (lookup_lt_is_Some_2 kn off ltac:(lia)) as [b0 E0].
  destruct (lookup_lt_is_Some_2 kn (off + 1) ltac:(lia)) as [b1 E1].
  destruct (lookup_lt_is_Some_2 kn (off + 2) ltac:(lia)) as [b2 E2].
  destruct (lookup_lt_is_Some_2 kn (off + 3) ltac:(lia)) as [b3 E3].
  rewrite E0, E1, E2, E3. cbn [mbind option_bind].
  rewrite le_join by (by eapply bytes_lookup).
  rewrite store_append by (done || lia). cbn [mbind option_bind].
  rewrite Nat.add_1_r, IH; try done; try lia.
  - replace (S i + k)%nat with (i + S k)%nat by lia. rewrite <- (app_assoc p). cbn [app].
    unfold le_word at 1.
    by rewrite (nth_lookup_Some _ _ _ _ E0), (nth_lookup_Some _ _ _ _ E1),
      (nth_lookup_Some _ _ _ _ E2), (nth_lookup_Some _ _ _ _ E3).
  - rewrite length_app, Hp. cbn. lia.
Qed.

(** The stores of the seeding: whatever the words held, they are the state of
    the seed. *)
Lemma seed_stores st kn {B} (K : list Z -> option B) :
  length st = 16%nat -> length kn = 44%nat -> bytes kn ->
  (st ← store st 0 CHRONOID_CHACHA20_C0;
   st ← store st 1 CHRONOID_CHACHA20_C1;
   st ← store st 2 CHRONOID_CHACHA20_C2;
   st ← store st 3 CHRONOID_CHACHA20_C3;
   st ← load_words 8 st 4 kn 0;
   st ← store st 12 0;
   st ← load_words 3 st 13 kn 32;
   K st) = K (seed_state kn).
Proof.
  intros Hst Hkn Hb.
  rewrite (store_append [] st 0) by (done || lia). cbn [mbind option_bind Nat.add].
  do 3 (rewrite store_append by (done || lia); cbn [mbind option_bind Nat.add]).
  rewrite load_words_append by (done || lia). cbn [mbind option_bind Nat.add].
  rewrite store_append by (rewrite ?length_app, ?length_le_words; cbn; lia).
  cbn [mbind option_bind Nat.add].
  rewrite load_words_append by (rewrite ?length_app, ?length_le_words; cbn; (done || lia)).
  cbn [mbind option_bind Nat.add]. rewrite (drop_ge st) by lia.
  unfold seed_state. by rewrite app_nil_r, !app_assoc.
Qed.

(** ** Seeding and drawing *)

Lemma rng_set_rng {W} r (p : process W) : chronoid_tls_rng_ (set_rng r p) = r.
Proof. by destruct p. Qed.

Lemma set_rng_set_rng {W} r r' (p : process W) : set_rng r (set_rng r' p) = set_rng r p.
Proof. by destruct p. Qed.

(** The generator of a thread: the arrays have their sizes, and while the seed
    is good it stands somewhere in the keystream of its seed. *)
Definition rng_ok (r : chronoid_tls_rng_t) : Prop :=
  length (state r) = 16%nat /\ length (buf r) = 64%nat /\
  (seeded r = true -> bytes_emitted r < CHRONOID_RNG_RESEED_BYTES ->
   exists s pos, at_position s pos r).

Lemma at_position_lengths s pos r :
  at_position s pos r -> length (state r) = 16%nat /\ length (buf r) = 64%nat.
Proof.
  intros (Hs & k & q & b & -> & _ & Hq & Hb & -> & _). split.
  - by apply iter_next_state_wf.
  - rewrite length_app, length_replicate, length_drop. lia.
Qed.

Lemma at_position_ok s pos r : at_position s pos r -> rng_ok r.
Proof. intros H. destruct (at_position_lengths s pos r H). split_and!; eauto. Qed.

(** What is erased: the bytes of the window already handed out. *)
Lemma at_position_erased s pos r :
  at_position s pos r -> take (Z.to_nat (buf_pos r)) (buf r) = replicate (Z.to_nat (buf_pos r)) 0.
Proof.
  intros (_ & k & q & b & _ & -> & _ & _ & -> & _). rewrite Nat2Z.id.
  by rewrite take_app_length' by (by rewrite length_replicate).
Qed.

Lemma slice_bytes s pos n : bytes (slice s pos n).
Proof.
  unfold slice. apply Forall_map, Forall_forall. intros i _. unfold stream.
  destruct (keystream (Nat.iter (i / 64) next_state s) !! (i mod 64)%nat) as [x|] eqn:E.
  - rewrite (nth_lookup_Some _ _ _ _ E). eapply bytes_lookup; [apply keystream_bytes|exact E].
  - rewrite nth_lookup, E. by unfold uint.
Qed.
