(* ===== verification/Machine.v ===== *)
(** * A machine under the per-thread generator

    An instance of every interface of RandTls.v over the system calls of
    RandOs.v, with the two-piece toy system as the concrete environment. *)
From S2P Require Import Prelude Radix Wipe Chacha20 RandOs Rand RandTls.

(** ** A machine

    An operating system with a process id, a clock that stands still and the
    glibc hook; the entropy is that of rand_os.c over the system calls. *)
Record machine (O : Type) := Machine {
  m_os : O;
  m_pid : Z;
  m_clock : option (Z * Z)
}.
Arguments Machine {O}.
Arguments m_os {O}.
Arguments m_pid {O}.
Arguments m_clock {O}.

(** The rounds each loop of rand_os.c gets. *)
Class OsFuel := os_fuel : nat.

Section Machine.
Context {O : Type} `{!Syscalls O} `{!os_config} `{!OsFuel}.

Definition machine_os_random (b : list Z) (n : nat) (m : machine O)
    : option (Z * list Z * machine O) :=
  '(r, b, o) ← chronoid_os_random_bytes os_fuel b n (m_os m);
  Some (r, b, Machine o (m_pid m) (m_clock m)).

Lemma machine_os_random_ok b n m r b' m' :
  (n <= length b)%nat -> machine_os_random b n m = Some (r, b', m') ->
  length b' = length b /\ (r = 0 \/ r = -1) /\ (r = 0 -> bytes (take n b')).
Proof.
  intros Hn E. unfold machine_os_random in E.
  destruct (os_random_bytes_fills os_fuel n (m_os m))
    as [Hf|(r1 & d & o & (Hr & Hb & _) & Hf)]; rewrite Hf in E by done; [done|].
  injection E as <- <- <-. split_and!.
  - rewrite length_overlay; cbn; lia.
  - naive_solver.
  - intros ->. destruct Hr as [[_ Hd]|[Hr _]]; [|discriminate Hr].
    unfold overlay. rewrite take_0. cbn [app]. by rewrite take_app_length' by (symmetry; exact Hd).
Qed.

#[export] Instance machine_entropy : EntropySource (machine O) :=
  { os_random_bytes := machine_os_random; os_random_bytes_ok := machine_os_random_ok }.

#[export] Instance machine_pid : ProcessId (machine O) := fun m => (m_pid m, m).

#[export] Instance machine_exit : ThreadExit (machine O) :=
  {| hook := HOOK_CXA; cxa_thread_atexit_impl := fun m => (0, m);
     FlsAlloc := fun m => (0, m); FlsSetValue := fun _ m => (true, m) |}.

Definition machine_timespec (m : machine O) : option (Z * Z) * machine O :=
  (match m_clock m with
   | Some (s, ns) =>
       if (INT64_MIN <=? s) && (s <=? INT64_MAX) && (0 <=? ns) && (ns <=? 999999999)
       then Some (s, ns) else None
   | None => None
   end, m).

Lemma machine_timespec_ok m s ns m' :
  machine_timespec m = (Some (s, ns), m') -> int64 s /\ 0 <= ns <= 999999999.
Proof.
  unfold machine_timespec, int64. intros E.
  destruct (m_clock m) as [[s1 ns1]|]; [|done].
  destruct (Z.leb_spec INT64_MIN s1), (Z.leb_spec s1 INT64_MAX), (Z.leb_spec 0 ns1),
    (Z.leb_spec ns1 999999999); cbn [andb] in E; try discriminate E.
  injection E as <- <- <-. lia.
Qed.

#[export] Instance machine_clock : Clock (machine O) :=
  { timespec_get := machine_timespec; timespec_get_ok := machine_timespec_ok }.
End Machine.
