(* ===== verification/TlsRng.v ===== *)
(** * The per-thread generator is correct: chronoid/rand_tls.c

    Draws are the keystream of the seed, the reseeding policy, and the erasure
    of the state. *)
From S2P Require Import Prelude Radix ByteOrder Wipe Chacha20 RandOs Rand RandTls Keystream Machine.

#[local] Opaque keystream next_state.

Section Seeding.
Context {W : Type} `{!EntropySource W} `{!ProcessId W} `{!ThreadExit W} `{!Clock W}
  `{!wipe_config}.
Implicit Types (p : process W) (w : W).

(** Everything of a process but the registration of the hook and the
    environment. *)
Definition same_but_hook p p' : Prop :=
  state (chronoid_tls_rng_ p') = state (chronoid_tls_rng_ p) /\
  buf (chronoid_tls_rng_ p') = buf (chronoid_tls_rng_ p) /\
  buf_pos (chronoid_tls_rng_ p') = buf_pos (chronoid_tls_rng_ p) /\
  bytes_emitted (chronoid_tls_rng_ p') = bytes_emitted (chronoid_tls_rng_ p) /\
  seed_time (chronoid_tls_rng_ p') = seed_time (chronoid_tls_rng_ p) /\
  seed_pid (chronoid_tls_rng_ p') = seed_pid (chronoid_tls_rng_ p) /\
  chronoid_tls_in_destructor_ p' = chronoid_tls_in_destructor_ p /\
  chronoid_time_source_override_ p' = chronoid_time_source_override_ p.

Lemma register_same p : same_but_hook p (chronoid_tls_register_thread_exit p).
Proof.
  destruct p as [[st b q e t pd sd dr] d n o i f w]. unfold chronoid_tls_register_thread_exit.
  cbn [chronoid_tls_rng_ RandTls.destructor_registered]. destruct hook; [..|done].
  - destruct dr; [done|]. cbn. by destruct (cxa_thread_atexit_impl w).
  - destruct dr; [done|].
    unfold InitOnceExecuteOnce, chronoid_fls_init_once. cbn [chronoid_fls_init_].
    destruct f; [|destruct (FlsAlloc w) as [i' w']]; cbn [chronoid_fls_index_];
      (case_match; [done|]); cbn [env]; destruct (FlsSetValue _ _) as [[] ?]; done.
Qed.

(** A freshly seeded generator stands at the start of its keystream. *)
Lemma seed_spec p :
  length (state (chronoid_tls_rng_ p)) = 16%nat ->
  length (buf (chronoid_tls_rng_ p)) = 64%nat ->
  match os_random_bytes (uninit 44) 44 (env p) with
  | None => chronoid_tls_rng_seed p = None
  | Some (rc, kn, w) =>
      if rc =? 0
      then exists p', chronoid_tls_rng_seed p = Some (0, replicate 44 0, p') /\
             at_position (seed_state kn) 0 (chronoid_tls_rng_ p') /\
             seeded (chronoid_tls_rng_ p') = true /\
             seed_pid (chronoid_tls_rng_ p') = (getpid w).1 /\
             seed_time (chronoid_tls_rng_ p') = (chronoid_now_seconds (getpid w).2).1 /\
             chronoid_tls_in_destructor_ p' = chronoid_tls_in_destructor_ p
      else chronoid_tls_rng_seed p = Some (-1, replicate 44 0, set_env w p)
  end.
Proof.
  intros Hst Hbuf. unfold chronoid_tls_rng_seed.
  destruct (os_random_bytes (uninit 44) 44 (env p)) as [[[rc kn] w]|] eqn:E; [|done].
  apply os_random_bytes_ok in E as (Hkn & Hrc & Hb); [|by rewrite length_uninit].
  rewrite length_uninit in Hkn. cbn [mbind option_bind].
  destruct Hrc as [->| ->]; cbn [Z.ltb Z.eqb Z.compare].
  2: { by rewrite explicit_bzero_full. }
  specialize (Hb eq_refl). rewrite (take_ge kn) in Hb by lia.
  replace (chronoid_tls_rng_ (set_env w p)) with (chronoid_tls_rng_ p) by (by destruct p).
  rewrite (seed_stores (state (chronoid_tls_rng_ p)) kn) by done.
  rewrite explicit_bzero_full by done. cbn [mbind option_bind].
  unfold memset. rewrite memcpy_full by (done || apply length_replicate).
  cbn [mbind option_bind]. replace (env (set_env w p)) with w by (by destruct p).
  destruct (getpid w) as [pid w1] eqn:Ep. cbn [fst snd].
  destruct (chronoid_now_seconds w1) as [now w2] eqn:En. cbn [fst snd].
  match goal with |- context [chronoid_tls_register_thread_exit ?q] => set (p1 := q) end.
  destruct (register_same p1) as (R1 & R2 & R3 & R4 & R5 & R6 & R7 & R8).
  set (p2 := chronoid_tls_register_thread_exit p1) in *. clearbody p2.
  eexists. split; [reflexivity|].
  rewrite rng_set_rng. cbn [seeded seed_pid seed_time].
  split_and!; [|done|by rewrite R6; subst p1; rewrite rng_set_rng
                |by rewrite R5; subst p1; rewrite rng_set_rng|].
  - split; [by apply seed_state_wf|]. exists 0%nat, 64%nat, (replicate 64 0).
    cbn [state buf buf_pos bytes_emitted]. rewrite R1, R2, R3, R4. subst p1.
    rewrite rng_set_rng. cbn [state buf buf_pos bytes_emitted].
    split_and!; try reflexivity; lia.
  - transitivity (chronoid_tls_in_destructor_ p1); [|by subst p1; destruct p].
    rewrite <- R7. by destruct p2.
Qed.

(** The conditions of [chronoid_tls_rng_should_reseed]. *)
Definition must_reseed p : Prop :=
  let r := chronoid_tls_rng_ p in
  let pid := (getpid (env p)).1 in
  let now := (chronoid_now_seconds (getpid (env p)).2).1 in
  seeded r = false \/ CHRONOID_RNG_RESEED_BYTES <= bytes_emitted r \/ pid <> seed_pid r \/
  now < seed_time r \/ seed_time r + CHRONOID_RNG_RESEED_SECONDS <= now.

Lemma should_reseed_spec p b p' :
  chronoid_tls_rng_should_reseed p = Some (b, p') ->
  chronoid_tls_rng_ p' = chronoid_tls_rng_ p /\
  chronoid_tls_in_destructor_ p' = chronoid_tls_in_destructor_ p /\
  (b = true <-> must_reseed p).
Proof.
  destruct p as [[st bf bp be stm spd sd dr] d n o i f w].
  unfold chronoid_tls_rng_should_reseed, must_reseed.
  cbn [chronoid_tls_rng_ seeded bytes_emitted seed_pid seed_time env].
  destruct sd; cbn [negb]; [|intros [= <- <-]; split_and!; [done..|]; tauto].
  destruct (Z.leb_spec CHRONOID_RNG_RESEED_BYTES be);
    [intros [= <- <-]; split_and!; [done..|]; tauto|].
  destruct (getpid w) as [pid w1]. cbn [fst snd].
  destruct (Z.eqb_spec pid spd); cbn [negb]; [|intros [= <- <-]; split_and!; [done..|]; tauto].
  destruct (chronoid_now_seconds w1) as [now w2]. cbn [fst snd].
  destruct (Z.ltb_spec now stm); [intros [= <- <-]; split_and!; [done..|]; tauto|].
  unfold i64_sub, i64.
  destruct ((INT64_MIN <=? now - stm) && (now - stm <=? INT64_MAX)); [|done].
  intros [= <- <-]. split_and!; [done..|].
  rewrite Z.leb_le. split; [lia|].
  intros [?|[?|[?|[?|?]]]]; try done; lia.
Qed.

(** A draw from a generator that stands in a keystream. *)
Lemma draw_at p s pos out n :
  at_position s pos (chronoid_tls_rng_ p) -> (n <= length out)%nat ->
  exists r, draw_loop (S n) out 0 n (chronoid_tls_rng_ p)
            = Some (slice s pos n ++ drop n out, r) /\
    at_position s (pos + n) r /\ same_seed (chronoid_tls_rng_ p) r.
Proof.
  intros Hat Hn. destruct (draw_loop_at (S n) out 0 n s pos _ Hat) as (r & E & Hr); [lia..|].
  exists r. rewrite E. split; [|done]. unfold overlay. rewrite take_0, length_slice. done.
Qed.

Lemma random_bytes_reuse p p1 s pos out n :
  chronoid_tls_in_destructor_ p = false -> (n <= length out)%nat ->
  chronoid_tls_rng_should_reseed p = Some (false, p1) ->
  at_position s pos (chronoid_tls_rng_ p) ->
  exists p', chronoid_random_bytes out n p = Some (0, slice s pos n ++ drop n out, p') /\
    at_position s (pos + n) (chronoid_tls_rng_ p') /\
    same_seed (chronoid_tls_rng_ p) (chronoid_tls_rng_ p') /\
    chronoid_tls_in_destructor_ p' = false.
Proof.
  intros Hd Hn E Hat. destruct (should_reseed_spec _ _ _ E) as (Er & Ed & _).
  unfold chronoid_random_bytes. rewrite Hd, E. cbn [mbind option_bind Z.ltb Z.compare].
  rewrite <- Er in *. destruct (draw_at p1 s pos out n Hat Hn) as (r & -> & Hr & Hs).
  cbn [mbind option_bind]. eexists. split; [reflexivity|]. rewrite rng_set_rng.
  split_and!; [done..|]. destruct p1; cbn in *. congruence.
Qed.

Lemma random_bytes_fresh p p1 out n :
  chronoid_tls_in_destructor_ p = false -> (n <= length out)%nat ->
  length (state (chronoid_tls_rng_ p)) = 16%nat ->
  length (buf (chronoid_tls_rng_ p)) = 64%nat ->
  chronoid_tls_rng_should_reseed p = Some (true, p1) ->
  match os_random_bytes (uninit 44) 44 (env p1) with
  | None => chronoid_random_bytes out n p = None
  | Some (rc, kn, w) =>
      if rc =? 0
      then exists p', chronoid_random_bytes out n p
                      = Some (0, slice (seed_state kn) 0 n ++ drop n out, p') /\
             at_position (seed_state kn) n (chronoid_tls_rng_ p') /\
             seeded (chronoid_tls_rng_ p') = true /\
             seed_pid (chronoid_tls_rng_ p') = (getpid w).1 /\
             seed_time (chronoid_tls_rng_ p') = (chronoid_now_seconds (getpid w).2).1 /\
             chronoid_tls_in_destructor_ p' = false
      else exists p', chronoid_random_bytes out n p = Some (-1, out, p') /\
             chronoid_tls_rng_ p' = chronoid_tls_rng_ p /\
             chronoid_tls_in_destructor_ p' = false
  end.
Proof.
  intros Hd Hn Hst Hbuf E. destruct (should_reseed_spec _ _ _ E) as (Er & Ed & _).
  unfold chronoid_random_bytes. rewrite Hd, E. cbn [mbind option_bind].
  pose proof (seed_spec p1) as Hseed. rewrite Er in Hseed. specialize (Hseed Hst Hbuf).
  destruct (os_random_bytes (uninit 44) 44 (env p1)) as [[[rc kn] w]|]; [|by rewrite Hseed].
  destruct (rc =? 0).
  - destruct Hseed as (p2 & -> & Hat & Hsd & Hpid & Htime & Hd2).
    cbn [mbind option_bind Z.ltb Z.compare].
    destruct (draw_at p2 _ 0 out n Hat Hn) as (r & -> & Hr & Hs1 & Hs2 & Hs3 & _).
    cbn [mbind option_bind]. eexists. split; [reflexivity|]. rewrite rng_set_rng.
    split_and!; [done|congruence..|]. destruct p2; cbn in *. congruence.
  - rewrite Hseed. cbn [mbind option_bind Z.ltb Z.compare]. eexists. split; [reflexivity|].
    split; [|rewrite <- Hd, <- Ed; by destruct p1]. rewrite <- Er. by destruct p1.
Qed.
(** Where a reseeding is not due the generator stands in a keystream. *)
Lemma no_reseed_position p p1 :
  rng_ok (chronoid_tls_rng_ p) -> chronoid_tls_rng_should_reseed p = Some (false, p1) ->
  exists s pos, at_position s pos (chronoid_tls_rng_ p).
Proof.
  intros (_ & _ & Hpos) E. destruct (should_reseed_spec _ _ _ E) as (_ & _ & Hb).
  unfold must_reseed in Hb. apply Hpos.
  - destruct (seeded _); [done|]. destruct Hb as [_ Hb]. discriminate Hb. by left.
  - apply Z.lt_nge. intros Hge. destruct Hb as [_ Hb]. discriminate Hb. by right; left.
Qed.

(** What [chronoid_random_bytes] does to a generator that is in order and to a
    buffer of bytes. *)
Lemma random_bytes_preserves (p : process W) b n r b' p' :
  rng_ok (chronoid_tls_rng_ p) -> (n <= length b)%nat ->
  chronoid_random_bytes b n p = Some (r, b', p') ->
  rng_ok (chronoid_tls_rng_ p') /\
  chronoid_tls_in_destructor_ p' = chronoid_tls_in_destructor_ p /\
  length b' = length b /\ (bytes b -> bytes b').
Proof.
  intros Hok Hn E. pose proof Hok as (Hst & Hbuf & _).
  destruct (chronoid_tls_in_destructor_ p) eqn:Hd.
  { unfold chronoid_random_bytes in E. rewrite Hd in E. by injection E as <- <- <-. }
  assert (forall s pos, length (slice s pos n ++ drop n b) = length b /\
            (bytes b -> bytes (slice s pos n ++ drop n b))) as Hout.
  { intros s pos. split; [rewrite length_app, length_slice, length_drop; lia|].
    intros Hb. rewrite bytes_app. split; [apply slice_bytes | by apply bytes_drop]. }
  destruct (chronoid_tls_rng_should_reseed p) as [[[] p1]|] eqn:Er.
  - pose proof (random_bytes_fresh p p1 b n Hd Hn Hst Hbuf Er) as Hf.
    destruct (os_random_bytes (uninit 44) 44 (env p1)) as [[[rc kn] w]|];
      [|by rewrite Hf in E].
    destruct (rc =? 0); destruct Hf as (p2 & E2 & Hr & Hd2); rewrite E2 in E;
      injection E as <- <- <-.
    + split; [by eapply at_position_ok|]. split; [apply Hd2 | apply Hout].
    + by rewrite Hr.
  - destruct (no_reseed_position p p1 Hok Er) as (s & pos & Hat).
    destruct (random_bytes_reuse p p1 s pos b n Hd Hn Er Hat) as (p2 & E2 & Hat2 & _ & Hd2).
    rewrite E2 in E. injection E as <- <- <-.
    split; [by eapply at_position_ok|]. split; [done | apply Hout].
  - unfold chronoid_random_bytes in E. by rewrite Hd, Er in E.
Qed.

(** The only ways a draw can fail to return: the entropy source does not
    return, or the clock is more than an [int64_t] away from the seed time. *)
Lemma random_bytes_returns p out n :
  rng_ok (chronoid_tls_rng_ p) -> (n <= length out)%nat ->
  (exists r, chronoid_random_bytes out n p = Some r) \/
  chronoid_tls_rng_should_reseed p = None \/
  exists p1, chronoid_tls_rng_should_reseed p = Some (true, p1) /\
    os_random_bytes (uninit 44) 44 (env p1) = None.
Proof.
  intros Hok Hn. pose proof Hok as (Hst & Hbuf & _).
  destruct (chronoid_tls_in_destructor_ p) eqn:Hd.
  { left. unfold chronoid_random_bytes. rewrite Hd. by eexists. }
  destruct (chronoid_tls_rng_should_reseed p) as [[[] p1]|] eqn:Er; [| |by right; left].
  - pose proof (random_bytes_fresh p p1 out n Hd Hn Hst Hbuf Er) as Hf.
    destruct (os_random_bytes (uninit 44) 44 (env p1)) as [[[rc kn] w]|] eqn:Eo.
    + left. destruct (rc =? 0); destruct Hf as (p2 & E2 & _); by eexists.
    + right; right. by exists p1.
  - left. destruct (no_reseed_position p p1 Hok Er) as (s & pos & Hat).
    destruct (random_bytes_reuse p p1 s pos out n Hd Hn Er Hat) as (p2 & E2 & _). by eexists.
Qed.

Lemma now_ms_preserves p t p' :
  chronoid_now_ms p = Some (t, p') -> int64 t /\ chronoid_tls_rng_ p' = chronoid_tls_rng_ p /\
  chronoid_tls_in_destructor_ p' = chronoid_tls_in_destructor_ p.
Proof.
  destruct p as [r d k o i f w]. unfold chronoid_now_ms.
  cbn [chronoid_time_source_override_ env].
  destruct o as [src|].
  - destruct (source_fn src w) as [t1 w1] eqn:E. apply source_ok in E. by intros [= <- <-].
  - destruct (timespec_get w) as [[[s ns]|] w1] eqn:E.
    + intros H1. apply bind_Some in H1 as (ms & _ & H1). apply bind_Some in H1 as (t1 & E1 & H1).
      injection H1 as <- <-. split; [|done]. unfold i64_add, i64 in E1.
      destruct (Z.leb_spec INT64_MIN (ms + ns / 1000000)),
        (Z.leb_spec (ms + ns / 1000000) INT64_MAX); cbn [andb] in E1; try discriminate E1.
      injection E1 as <-. by unfold int64.
    + intros [= <- <-]. unfold int64, INT64_MIN, INT64_MAX. split; [lia | done].
Qed.

(** Exactly when the arithmetic of [chronoid_now_ms] stays inside [int64_t]: the
    product overflows for times too early, the product or the sum for times too
    late, and there is no other limit. *)
Lemma now_ms_exact p s ns w :
  chronoid_time_source_override_ p = None -> timespec_get (env p) = (Some (s, ns), w) ->
  chronoid_now_ms p =
    if decide (INT64_MIN <= s * 1000 /\ s * 1000 + ns / 1000000 <= INT64_MAX)
    then Some (s * 1000 + ns / 1000000, set_env w p) else None.
Proof.
  intros Ho Hc. pose proof (timespec_get_ok _ _ _ _ Hc) as [_ Hns].
  assert (0 <= ns / 1000000) by (apply Z.div_pos; lia).
  unfold chronoid_now_ms, i64_mul, i64_add. rewrite Ho, Hc. case_decide as Hd.
  - rewrite i64_Some by (unfold int64; lia). cbn [mbind option_bind].
    by rewrite i64_Some by (unfold int64; lia).
  - destruct (decide (int64 (s * 1000))) as [Hi|Hi].
    + rewrite i64_Some by done. cbn [mbind option_bind].
      rewrite i64_None; [done|]. unfold int64 in *. lia.
    + by rewrite i64_None.
Qed.

(** The wipe leaves zeroed storage and changes nothing but the counter. *)
Lemma wipe_eq p :
  length (state (chronoid_tls_rng_ p)) = 16%nat ->
  length (buf (chronoid_tls_rng_ p)) = 64%nat ->
  chronoid_random_thread_state_wipe p
  = Some (Process zero_rng false (int_wrap (chronoid_thread_exit_wipes_observed p + 1))
            (chronoid_time_source_override_ p) (chronoid_fls_index_ p) (chronoid_fls_init_ p)
            (env p)).
Proof.
  destruct p as [r d k o i f w]. cbn [chronoid_tls_rng_]. intros Hst Hbuf.
  unfold chronoid_random_thread_state_wipe, bzero_rng.
  cbn [set_in_destructor chronoid_tls_rng_]. rewrite !explicit_bzero_full by done.
  cbn [mbind option_bind set_rng set_in_destructor]. by rewrite Hst, Hbuf.
Qed.

Lemma wipe_spec p :
  length (state (chronoid_tls_rng_ p)) = 16%nat ->
  length (buf (chronoid_tls_rng_ p)) = 64%nat ->
  exists p', chronoid_random_thread_state_wipe p = Some p' /\
    chronoid_tls_rng_ p' = zero_rng /\ chronoid_tls_in_destructor_ p' = false /\
    chronoid_thread_exit_wipes_observed p'
    = int_wrap (chronoid_thread_exit_wipes_observed p + 1) /\
    chronoid_time_source_override_ p' = chronoid_time_source_override_ p /\
    env p' = env p.
Proof. intros Hst Hb. eexists. split; [by apply wipe_eq|]. done. Qed.
End Seeding.
(** ** The theorems *)

(** C24: [chronoid_random_bytes] hands out the ChaCha20 keystream of its seed,
    each byte once and in order.  While no reseeding is due, a draw of [n]
    bytes from a generator at byte [pos] of the keystream of [s] returns 0 and
    exactly the bytes [pos] to [pos + n - 1], leaves the rest of the caller's
    buffer alone, and moves the generator to [pos + n] with the bytes of its
    window that were handed out set to zero.  When reseeding is due, the draw
    starts at byte 0 of the keystream of 44 fresh bytes of OS entropy; if the
    entropy source fails, the call returns -1 and neither the caller's buffer
    nor the generator changes. *)
Theorem random_bytes_stream `{EntropySource W} `{ProcessId W} `{ThreadExit W} `{Clock W}
    `{wipe_config} (p : process W) out n :
  chronoid_tls_in_destructor_ p = false -> rng_ok (chronoid_tls_rng_ p) ->
  (n <= length out)%nat ->
  match chronoid_tls_rng_should_reseed p with
  | None => chronoid_random_bytes out n p = None
  | Some (false, _) =>
      exists s pos p', at_position s pos (chronoid_tls_rng_ p) /\
        chronoid_random_bytes out n p = Some (0, slice s pos n ++ drop n out, p') /\
        at_position s (pos + n) (chronoid_tls_rng_ p') /\
        take (Z.to_nat (buf_pos (chronoid_tls_rng_ p'))) (buf (chronoid_tls_rng_ p'))
        = replicate (Z.to_nat (buf_pos (chronoid_tls_rng_ p'))) 0
  | Some (true, p1) =>
      match os_random_bytes (uninit 44) 44 (env p1) with
      | None => chronoid_random_bytes out n p = None
      | Some (rc, kn, w) =>
          if rc =? 0
          then exists p', chronoid_random_bytes out n p
                          = Some (0, slice (seed_state kn) 0 n ++ drop n out, p') /\
                 at_position (seed_state kn) n (chronoid_tls_rng_ p') /\
                 take (Z.to_nat (buf_pos (chronoid_tls_rng_ p'))) (buf (chronoid_tls_rng_ p'))
                 = replicate (Z.to_nat (buf_pos (chronoid_tls_rng_ p'))) 0
          else exists p', chronoid_random_bytes out n p = Some (-1, out, p') /\
                 chronoid_tls_rng_ p' = chronoid_tls_rng_ p
      end
  end.
Proof.
  intros Hd (Hst & Hbuf & Hok) Hn.
  destruct (chronoid_tls_rng_should_reseed p) as [[[] p1]|] eqn:E.
  - pose proof (random_bytes_fresh p p1 out n Hd Hn Hst Hbuf E) as Hf.
    destruct (os_random_bytes (uninit 44) 44 (env p1)) as [[[rc kn] w]|]; [|done].
    destruct (rc =? 0).
    + destruct Hf as (p' & Hp' & Hat & _). exists p'. split_and!; [done..|].
      by eapply at_position_erased.
    + destruct Hf as (p' & Hp' & Hr & _). by exists p'.
  - destruct (no_reseed_position p p1 (conj Hst (conj Hbuf Hok)) E) as (s & pos & Hat).
    destruct (random_bytes_reuse p p1 s pos out n Hd Hn E Hat) as (p' & Hp' & Hat' & _).
    exists s, pos, p'. split_and!; [done..|]. by eapply at_position_erased.
  - unfold chronoid_random_bytes. by rewrite Hd, E.
Qed.

(** A first draw on a system that interrupts one call and delivers the seed in
    two pieces. *)
Definition demo_thread : process (machine toy_os) :=
  fresh_thread (Machine (ToyOs [-4; 30] 7 ∅) 100 (Some (1700000000, 0))).
Definition demo_fuel : OsFuel := 100%nat.
#[local] Existing Instances portable_wipe linux_config demo_fuel.

Example random_bytes_stream_witness :
  rng_ok (chronoid_tls_rng_ demo_thread) /\
  exists p', chronoid_random_bytes (uninit 5) 3 demo_thread
    = Some (0, slice (seed_state (replicate 44 7)) 0 3 ++ [0xcc; 0xcc], p') /\
    at_position (seed_state (replicate 44 7)) 3 (chronoid_tls_rng_ p').
Proof.
  assert (rng_ok (chronoid_tls_rng_ demo_thread)) as Hok by (split_and!; done).
  split; [exact Hok|].
  pose proof (random_bytes_stream demo_thread (uninit 5) 3 eq_refl Hok ltac:(cbn; lia)) as T.
  change (chronoid_tls_rng_should_reseed demo_thread) with (Some (true, demo_thread)) in T.
  cbv beta iota in T.
  replace (os_random_bytes (uninit 44) 44 (env demo_thread))
    with (Some (0, replicate 44 7, Machine (ToyOs [] 7 ∅) 100 (Some (1700000000, 0)))) in T
    by (vm_compute; reflexivity).
  destruct T as (p' & E & Hat & _). exists p'. split; [exact E | exact Hat].
Defined.

Section Policy.
Context {W : Type} `{!EntropySource W} `{!ProcessId W} `{!ThreadExit W} `{!Clock W}
  `{!wipe_config}.
Implicit Types (p : process W).

(** The clock as the reseeding test reads it. *)
Definition reseed_now p : Z := (chronoid_now_seconds (getpid (env p)).2).1.

(** The difference of the times is the only thing that can overflow. *)
Lemma should_reseed_total p :
  reseed_now p - seed_time (chronoid_tls_rng_ p) <= INT64_MAX ->
  exists b p', chronoid_tls_rng_should_reseed p = Some (b, p').
Proof.
  unfold reseed_now, chronoid_tls_rng_should_reseed. intros Hno.
  destruct (negb _); [by do 2 eexists|]. destruct (_ <=? _); [by do 2 eexists|].
  destruct (getpid (env p)) as [pid w1]. cbn [fst snd] in Hno.
  destruct (negb _); [by do 2 eexists|].
  destruct (chronoid_now_seconds w1) as [now w2]. cbn [fst] in Hno.
  destruct (Z.ltb_spec now (seed_time (chronoid_tls_rng_ p))); [by do 2 eexists|].
  unfold i64_sub. rewrite i64_Some by (unfold int64, INT64_MIN, INT64_MAX in *; lia).
  by do 2 eexists.
Qed.

(** The environments in which the test can end: after none, one or both of its
    calls. *)
Definition reseed_env p w : Prop :=
  w = env p \/ w = (getpid (env p)).2 \/ w = (chronoid_now_seconds (getpid (env p)).2).2.

Lemma should_reseed_env p b p' :
  chronoid_tls_rng_should_reseed p = Some (b, p') -> reseed_env p (env p').
Proof.
  unfold chronoid_tls_rng_should_reseed, reseed_env. destruct p as [r d k o i f w].
  cbn [chronoid_tls_rng_ env].
  destruct (negb _); [intros [= _ <-]; by left|].
  destruct (_ <=? _); [intros [= _ <-]; by left|].
  destruct (getpid w) as [pid w1]. destruct (negb _); [intros [= _ <-]; cbn; auto|].
  cbn [fst snd]. destruct (chronoid_now_seconds w1) as [now w2].
  destruct (now <? _); [intros [= _ <-]; cbn; auto|].
  destruct (i64_sub _ _); [|done]. intros [= _ <-]. cbn. auto.
Qed.
End Policy.

(** C25: The reseeding policy.  A draw restarts from fresh OS entropy exactly
    when the thread was never seeded, has handed out 1 MiB since, runs in
    another process than the one that seeded it, or reads a clock that went
    backwards or advanced by an hour: in these cases the bytes are those of a
    newly drawn seed, recorded with the process id and the time at hand, or the
    call returns -1 with no byte written.  In every other case the draw goes on
    with the stream and the record of the seed unchanged.  In particular a
    forked child never repeats a byte of its parent's stream. *)
Theorem random_bytes_reseed_policy `{EntropySource W} `{ProcessId W} `{ThreadExit W}
    `{Clock W} `{wipe_config} (p : process W) out n :
  chronoid_tls_in_destructor_ p = false -> rng_ok (chronoid_tls_rng_ p) ->
  (n <= length out)%nat ->
  reseed_now p - seed_time (chronoid_tls_rng_ p) <= INT64_MAX ->
  (must_reseed p -> exists w0, reseed_env p w0 /\
     match os_random_bytes (uninit 44) 44 w0 with
     | None => chronoid_random_bytes out n p = None
     | Some (rc, kn, w) =>
         if rc =? 0
         then exists p', chronoid_random_bytes out n p
                         = Some (0, slice (seed_state kn) 0 n ++ drop n out, p') /\
                at_position (seed_state kn) n (chronoid_tls_rng_ p') /\
                seed_pid (chronoid_tls_rng_ p') = (getpid w).1 /\
                seed_time (chronoid_tls_rng_ p') = (chronoid_now_seconds (getpid w).2).1
         else exists p', chronoid_random_bytes out n p = Some (-1, out, p') /\
                chronoid_tls_rng_ p' = chronoid_tls_rng_ p
     end) /\
  (~ must_reseed p -> exists s pos p', at_position s pos (chronoid_tls_rng_ p) /\
     chronoid_random_bytes out n p = Some (0, slice s pos n ++ drop n out, p') /\
     at_position s (pos + n) (chronoid_tls_rng_ p') /\
     same_seed (chronoid_tls_rng_ p) (chronoid_tls_rng_ p')).
Proof.
  intros Hd (Hst & Hbuf & Hok) Hn Hno.
  destruct (should_reseed_total p Hno) as (b & p1 & E).
  destruct (should_reseed_spec p b p1 E) as (_ & _ & Hb). split; intros Hm.
  - destruct b; [|by apply Hb in Hm]. exists (env p1).
    split; [by eapply should_reseed_env|].
    pose proof (random_bytes_fresh p p1 out n Hd Hn Hst Hbuf E) as Hf.
    destruct (os_random_bytes (uninit 44) 44 (env p1)) as [[[rc kn] w]|]; [|done].
    destruct (rc =? 0); destruct Hf as (p' & Hf); exists p'; tauto.
  - destruct b; [by destruct Hm; apply Hb|].
    destruct (no_reseed_position p p1 (conj Hst (conj Hbuf Hok)) E) as (s & pos & Hat).
    destruct (random_bytes_reuse p p1 s pos out n Hd Hn E Hat) as (p' & Hp' & Hat' & Hs & _).
    by exists s, pos, p'.
Qed.

(** A child process: the generator was seeded by process 1 at time 0. *)
Definition demo_child : process (machine toy_os) :=
  Process (Rng (seed_state (replicate 44 9)) (replicate 64 0) 64 0 1699999999 1 true true)
    false 0 None FLS_OUT_OF_INDEXES false (Machine (ToyOs [] 7 ∅) 100 (Some (1700000000, 0))).

Lemma demo_child_at : at_position (seed_state (replicate 44 9)) 0 (chronoid_tls_rng_ demo_child).
Proof.
  split; [apply seed_state_wf, bytes_replicate; unfold uint; lia|].
  exists 0%nat, 64%nat, (replicate 64 0). split_and!; try reflexivity; lia.
Qed.

Example random_bytes_reseed_policy_witness :
  must_reseed demo_child /\
  exists w0, reseed_env demo_child w0 /\
    match os_random_bytes (uninit 44) 44 w0 with
    | None => chronoid_random_bytes (uninit 5) 3 demo_child = None
    | Some (rc, kn, w) =>
        if rc =? 0
        then exists p', chronoid_random_bytes (uninit 5) 3 demo_child
                        = Some (0, slice (seed_state kn) 0 3 ++ drop 3 (uninit 5), p') /\
               at_position (seed_state kn) 3 (chronoid_tls_rng_ p') /\
               seed_pid (chronoid_tls_rng_ p') = (getpid w).1 /\
               seed_time (chronoid_tls_rng_ p') = (chronoid_now_seconds (getpid w).2).1
        else exists p', chronoid_random_bytes (uninit 5) 3 demo_child = Some (-1, uninit 5, p') /\
               chronoid_tls_rng_ p' = chronoid_tls_rng_ demo_child
    end.
Proof.
  assert (must_reseed demo_child) as Hm by (right; right; left; cbn; lia).
  split; [exact Hm|].
  apply (random_bytes_reseed_policy demo_child (uninit 5) 3);
    [reflexivity | apply (at_position_ok _ _ _ demo_child_at) | cbn; lia
     | vm_compute; discriminate | exact Hm].
Defined.

(** [chronoid_random_thread_state_wipe] leaves nothing of the thread's
    generator: every word of the ChaCha20 state, every byte of the window and
    every other member read zero afterwards, the process counter has advanced
    by one and nothing else has changed, so that the next draw reseeds.  While
    the wipe is running a draw returns -1 at once and changes nothing. *)
Theorem thread_state_wipe_erases `{EntropySource W} `{ProcessId W} `{ThreadExit W}
    `{Clock W} `{wipe_config} (p : process W) :
  length (state (chronoid_tls_rng_ p)) = 16%nat ->
  length (buf (chronoid_tls_rng_ p)) = 64%nat ->
  exists p', chronoid_random_thread_state_wipe p = Some p' /\
    chronoid_tls_rng_ p' = zero_rng /\ chronoid_tls_in_destructor_ p' = false /\
    chronoid_thread_exit_wipes_observed p'
    = int_wrap (chronoid_thread_exit_wipes_observed p + 1) /\
    chronoid_time_source_override_ p' = chronoid_time_source_override_ p /\
    env p' = env p /\
    chronoid_tls_rng_should_reseed p' = Some (true, p') /\
    forall out n, chronoid_random_bytes out n (set_in_destructor true p)
                  = Some (-1, out, set_in_destructor true p).
Proof.
  intros Hst Hbuf. destruct (wipe_spec p Hst Hbuf) as (p' & E & Hr & Hd & Hn & Ho & He).
  exists p'. split_and!; try done.
  - unfold chronoid_tls_rng_should_reseed. by rewrite Hr.
  - intros out n. unfold chronoid_random_bytes. by destruct p.
Qed.

Example thread_state_wipe_erases_witness :
  length (state (chronoid_tls_rng_ demo_child)) = 16%nat /\
  exists p', chronoid_random_thread_state_wipe demo_child = Some p' /\
    chronoid_tls_rng_ p' = zero_rng /\ chronoid_tls_in_destructor_ p' = false /\
    chronoid_thread_exit_wipes_observed p'
    = int_wrap (chronoid_thread_exit_wipes_observed demo_child + 1) /\
    chronoid_time_source_override_ p' = chronoid_time_source_override_ demo_child /\
    env p' = env demo_child /\
    chronoid_tls_rng_should_reseed p' = Some (true, p') /\
    forall out n, chronoid_random_bytes out n (set_in_destructor true demo_child)
                  = Some (-1, out, set_in_destructor true demo_child).
Proof.
  split; [reflexivity|]. apply (thread_state_wipe_erases demo_child); reflexivity.
Defined.

(** ** Two cases in which the reseeding test answers otherwise than announced *)

(** The sentinel keeps [seeded] set, but its [bytes_emitted] exceeds 1 MiB: the
    next draw reseeds. *)
Lemma sentinel_reseeds `{ProcessId W} `{Clock W} (p : process W) :
  chronoid_tls_rng_should_reseed (chronoid_random_thread_state_set_sentinel_for_testing p)
  = Some (true, chronoid_random_thread_state_set_sentinel_for_testing p).
Proof. by destruct p. Qed.

(** When the clock was already unreadable at the last seeding, an unreadable
    clock does not force a reseed. *)
Lemma clock_failure_no_reseed `{ProcessId W} `{Clock W} (p : process W) w1 w2 :
  seeded (chronoid_tls_rng_ p) = true ->
  bytes_emitted (chronoid_tls_rng_ p) < CHRONOID_RNG_RESEED_BYTES ->
  seed_time (chronoid_tls_rng_ p) = -1 ->
  getpid (env p) = (seed_pid (chronoid_tls_rng_ p), w1) -> timespec_get w1 = (None, w2) ->
  chronoid_tls_rng_should_reseed p = Some (false, set_env w2 p).
Proof.
  intros Hs Hb Ht Hpid Hc. unfold chronoid_tls_rng_should_reseed, chronoid_now_seconds.
  rewrite Hs, Hpid, Hc, Ht, Z.eqb_refl. cbn [negb].
  destruct (Z.leb_spec CHRONOID_RNG_RESEED_BYTES (bytes_emitted (chronoid_tls_rng_ p))); [lia|].
  done.
Qed.
