(* ===== verification/TlsLayout.v ===== *)
(** * The generator as bytes: the test helpers of chronoid/rand_tls.c

    RandTls keeps the members of [chronoid_tls_rng_t] as they are; the wipe, the
    sentinel and the peek helper work on the storage of the struct, padding
    included.  The layout is the compiler's choice: the offsets are parameters,
    with what C says of them and the assertion of the source on the size. *)
From S2P Require Import Prelude Wipe Chacha20 RandOs Rand RandTls Keystream Machine TlsRng.

(** [CHRONOID_RANDOM_THREAD_STATE_PEEK_CAPACITY] of rand.h. *)
Definition CHRONOID_RANDOM_THREAD_STATE_PEEK_CAPACITY : nat := 256.

(** Members lie one after the other, with padding between and behind them;
    [size_t] has 4 or 8 bytes.  The last law is the [_Static_assert]. *)
Class layout := {
  big_endian : bool;
  size_of_size_t : nat;
  size_t_bytes : size_of_size_t = 4%nat \/ size_of_size_t = 8%nat;
  off_state : nat; off_buf : nat; off_buf_pos : nat; off_bytes_emitted : nat;
  off_seed_time : nat; off_seed_pid : nat; off_seeded : nat; off_registered : nat;
  size_of : nat;
  buf_behind_state : (off_state + 64 <= off_buf)%nat;
  pos_behind_buf : (off_buf + 64 <= off_buf_pos)%nat;
  emitted_behind_pos : (off_buf_pos + size_of_size_t <= off_bytes_emitted)%nat;
  time_behind_emitted : (off_bytes_emitted + 8 <= off_seed_time)%nat;
  pid_behind_time : (off_seed_time + 8 <= off_seed_pid)%nat;
  seeded_behind_pid : (off_seed_pid + 8 <= off_seeded)%nat;
  registered_behind_seeded : (off_seeded < off_registered)%nat;
  size_behind_registered : (off_registered < size_of)%nat;
  size_fits : (size_of <= CHRONOID_RANDOM_THREAD_STATE_PEEK_CAPACITY)%nat
}.

Fixpoint le_bytes (n : nat) (v : Z) : list Z :=
  match n with
  | O => []
  | S n' => v mod 256 :: le_bytes n' (v / 256)
  end.

(** [n] bytes of the image from [off] on. *)
Definition member (img : list Z) (off n : nat) : list Z := take n (drop off img).

Lemma lookup_member img off n i :
  member img off n !! i = if decide (i < n)%nat then img !! (off + i)%nat else None.
Proof.
  unfold member. case_decide; [by rewrite lookup_take, lookup_drop, decide_True by lia|].
  apply lookup_take_None. lia.
Qed.

Lemma member_replicate m x off n :
  (off + n <= m)%nat -> member (replicate m x) off n = replicate n x.
Proof. intros Hm. unfold member. rewrite drop_replicate, take_replicate. f_equal. lia. Qed.

Lemma member_insert img i v off n :
  (i < off \/ off + n <= i)%nat -> member (<[i := v]> img) off n = member img off n.
Proof.
  intros Hi. apply list_eq. intros j. rewrite !lookup_member. case_decide; [|done].
  apply list_lookup_insert_ne. lia.
Qed.

Section Layout.
Context `{layout}.

(** The object representation of an unsigned type of [n] bytes, for the value
    modulo its range. *)
Definition word_bytes (n : nat) (v : Z) : list Z :=
  if big_endian then rev (le_bytes n v) else le_bytes n v.

(** The storage [img] holds the generator [r]; padding holds anything. *)
Record represents (img : list Z) (r : chronoid_tls_rng_t) : Prop := {
  image_length : length img = size_of;
  image_words : length (state r) = 16%nat;
  image_window : length (buf r) = 64%nat;
  image_state : member img off_state 64 = concat (word_bytes 4 <$> state r);
  image_buf : member img off_buf 64 = buf r;
  image_buf_pos : member img off_buf_pos size_of_size_t = word_bytes size_of_size_t (buf_pos r);
  image_emitted : member img off_bytes_emitted 8 = word_bytes 8 (bytes_emitted r);
  image_seed_time : member img off_seed_time 8 = word_bytes 8 (u64 (seed_time r));
  image_seed_pid : member img off_seed_pid 8 = word_bytes 8 (u64 (seed_pid r));
  image_seeded : img !! off_seeded = Some (Z.b2z (seeded r));
  image_registered : img !! off_registered = Some (Z.b2z (destructor_registered r))
}.

(** ** The helpers on the storage *)

(** [chronoid_explicit_bzero (&rng, sizeof rng)]. *)
Definition wipe_image `{wipe_config} (img : list Z) : option (list Z) :=
  chronoid_explicit_bzero img 0 size_of.

Definition set_sentinel_image (img : list Z) : option (list Z) :=
  registered ← img !! off_registered;
  img ← memset img 0 0xa5 size_of;
  img ← store img off_seeded 1;
  store img off_registered registered.

(** The number of bytes copied and [out] afterwards. *)
Definition chronoid_random_thread_state_peek_for_testing (out img : list Z)
    : option (nat * list Z) :=
  out ← memcpy out 0 img 0 size_of;
  Some (size_of, out).

(** ** What they do *)

Ltac layout_lia :=
  pose proof size_t_bytes; pose proof buf_behind_state; pose proof pos_behind_buf; pose proof emitted_behind_pos;
  pose proof time_behind_emitted; pose proof pid_behind_time; pose proof seeded_behind_pid;
  pose proof registered_behind_seeded; pose proof size_behind_registered; pose proof size_fits;
  lia.

Lemma wipe_image_zero `{wipe_config} img :
  length img = size_of -> wipe_image img = Some (replicate size_of 0).
Proof. apply explicit_bzero_full. Qed.

(** An image of one byte value is a generator of one byte value. *)
Lemma zero_image : represents (replicate size_of 0) zero_rng.
Proof.
  split; cbn [zero_rng state buf buf_pos bytes_emitted seed_time seed_pid seeded destructor_registered];
    [by rewrite length_replicate|done|done|..].
  1-6: rewrite member_replicate by layout_lia; unfold word_bytes;
    destruct size_t_bytes as [E|E]; rewrite ?E; by destruct big_endian.
  1-2: apply lookup_replicate; split; [done|layout_lia].
Qed.

Lemma set_sentinel_image_Some img b :
  length img = size_of -> img !! off_registered = Some b ->
  set_sentinel_image img
  = Some (<[off_registered := b]> (<[off_seeded := 1]> (replicate size_of 0xa5))).
Proof.
  intros Hl Hr. unfold set_sentinel_image, memset. rewrite Hr. cbn [mbind option_bind].
  rewrite memcpy_Some by (rewrite ?length_replicate; layout_lia).
  rewrite take_0, drop_0, take_ge, drop_ge, app_nil_r by (rewrite ?length_replicate; lia).
  cbn [app mbind option_bind]. rewrite store_Some by (rewrite length_replicate; layout_lia).
  cbn [mbind option_bind]. by rewrite store_Some by (rewrite length_insert, length_replicate; layout_lia).
Qed.

Lemma sentinel_image_member b off n :
  (off + n <= off_seeded)%nat ->
  member (<[off_registered := b]> (<[off_seeded := 1]> (replicate size_of 0xa5))) off n
  = replicate n 0xa5.
Proof.
  intros Hn. rewrite !member_insert by layout_lia. apply member_replicate. layout_lia.
Qed.

Lemma sentinel_image_represents {W} img (p : process W) :
  represents img (chronoid_tls_rng_ p) ->
  represents (<[off_registered := Z.b2z (destructor_registered (chronoid_tls_rng_ p))]>
                (<[off_seeded := 1]> (replicate size_of 0xa5)))
    (chronoid_tls_rng_ (chronoid_random_thread_state_set_sentinel_for_testing p)).
Proof.
  intros [Hl Hst Hb _ _ _ _ _ _ _ _]. destruct p as [r d k o i f w].
  unfold chronoid_random_thread_state_set_sentinel_for_testing.
  cbn [set_rng chronoid_tls_rng_] in *. rewrite Hst, Hb.
  split; cbn [state buf buf_pos bytes_emitted seed_time seed_pid seeded destructor_registered];
    [by rewrite !length_insert, length_replicate|done|done|..].
  1-6: rewrite sentinel_image_member by layout_lia; unfold word_bytes;
    destruct size_t_bytes as [E|E]; rewrite ?E; by destruct big_endian.
  - rewrite list_lookup_insert_ne by layout_lia. apply list_lookup_insert_eq.
    rewrite length_replicate. layout_lia.
  - apply list_lookup_insert_eq. rewrite length_insert, length_replicate. layout_lia.
Qed.

Lemma peek_Some out img :
  length img = size_of -> (CHRONOID_RANDOM_THREAD_STATE_PEEK_CAPACITY <= length out)%nat ->
  chronoid_random_thread_state_peek_for_testing out img = Some (size_of, img ++ drop size_of out).
Proof.
  intros Hl Ho. unfold chronoid_random_thread_state_peek_for_testing.
  rewrite memcpy_Some by layout_lia. rewrite take_0, drop_0, take_ge by lia. done.
Qed.
End Layout.

(** C26: The wipe and the sentinel on the storage of the struct do what they do
    to its members, for every layout the compiler may choose.  Let [img] be the
    storage of a thread's generator.  After the wipe every byte of it is zero,
    padding included, it is the storage of the generator the wipe leaves, and
    the peek helper copies out exactly [sizeof] zero bytes and leaves the rest of
    the buffer alone.  After the sentinel the storage is that of the sentinel's
    generator and every byte but those of the two flags is 0xa5. *)
Theorem thread_state_image `{layout} `{wipe_config} {W} img (p : process W) out :
  represents img (chronoid_tls_rng_ p) ->
  (CHRONOID_RANDOM_THREAD_STATE_PEEK_CAPACITY <= length out)%nat ->
  (exists p' img', chronoid_random_thread_state_wipe p = Some p' /\ wipe_image img = Some img' /\
     represents img' (chronoid_tls_rng_ p') /\
     chronoid_random_thread_state_peek_for_testing out img'
     = Some (size_of, replicate size_of 0 ++ drop size_of out)) /\
  (exists img', set_sentinel_image img = Some img' /\
     represents img' (chronoid_tls_rng_ (chronoid_random_thread_state_set_sentinel_for_testing p)) /\
     (forall i, (i < size_of)%nat -> i <> off_seeded -> i <> off_registered ->
        img' !! i = Some 0xa5) /\
     chronoid_random_thread_state_peek_for_testing out img' = Some (size_of, img' ++ drop size_of out)).
Proof.
  intros Hi Ho. split.
  - destruct (wipe_spec p (image_words _ _ Hi) (image_window _ _ Hi)) as (p' & E & Hr & _).
    exists p', (replicate size_of 0). split; [done|].
    split; [exact (wipe_image_zero img (image_length _ _ Hi))|]. rewrite Hr. split; [apply zero_image|].
    apply peek_Some; [by rewrite length_replicate|done].
  - eexists. split; [exact (set_sentinel_image_Some img _ (image_length _ _ Hi) (image_registered _ _ Hi))|].
    split; [by apply (sentinel_image_represents img)|]. split.
    + intros i Hs H1 H2. rewrite !list_lookup_insert_ne by done. by apply lookup_replicate.
    + apply peek_Some; [by rewrite !length_insert, length_replicate|done].
Qed.

(** The layout of a 64-bit little-endian machine: no padding but at the end. *)
#[local] Program Instance lp64 : layout := {|
  big_endian := false; size_of_size_t := 8; off_state := 0; off_buf := 64; off_buf_pos := 128;
  off_bytes_emitted := 136; off_seed_time := 144; off_seed_pid := 152; off_seeded := 160;
  off_registered := 161; size_of := 168
|}.
Solve All Obligations with (unfold CHRONOID_RANDOM_THREAD_STATE_PEEK_CAPACITY; lia).

#[local] Existing Instance portable_wipe.

(** A thread that has not drawn; its padding is not zero. *)
Lemma thread_state_image_witness :
  let img := replicate 162 0 ++ replicate 6 0x77 in
  represents img zero_rng /\
  (exists p' img', chronoid_random_thread_state_wipe (fresh_thread tt) = Some p' /\
     wipe_image img = Some img' /\ represents img' (chronoid_tls_rng_ p') /\
     chronoid_random_thread_state_peek_for_testing (replicate 256 9) img'
     = Some (168%nat, replicate 168 0 ++ drop 168 (replicate 256 9))).
Proof.
  assert (represents (replicate 162 0 ++ replicate 6 0x77) zero_rng) as Hi
    by (split; vm_compute; reflexivity).
  split; [exact Hi|].
  refine (proj1 (thread_state_image _ (fresh_thread tt) (replicate 256 9) Hi _)).
  vm_compute. lia.
Defined.
