(* ===== verification/Threads.v ===== *)
(** * Several threads: the thread-local state of chronoid/rand_tls.c

    Every thread has its own generator and its own re-entry flag; the wipe
    counter, the clock override, the fiber-local slot and the environment are
    shared.  The operations of the file, run by any threads in any order, are
    the steps of a transition system; its invariant is that every generator is
    in order. *)
From stdpp Require Import relations.
From S2P Require Import Prelude Wipe Chacha20 RandOs Rand RandTls Keystream Machine TlsRng.

(** ** State *)

Record threads (W : Type) := Threads {
  t_rng : nat -> chronoid_tls_rng_t;
  t_in_destructor : nat -> bool;
  t_wipes : Z;
  t_time_override : option (time_source W);
  t_fls_index : Z;
  t_fls_init : bool;
  t_env : W
}.
Arguments Threads {W}.
Arguments t_rng {W}.
Arguments t_in_destructor {W}.
Arguments t_wipes {W}.
Arguments t_time_override {W}.
Arguments t_fls_index {W}.
Arguments t_fls_init {W}.
Arguments t_env {W}.

Definition set_at {A} (i : nat) (x : A) (f : nat -> A) : nat -> A :=
  fun j => if decide (j = i) then x else f j.

Section Threads.
Context {W : Type} `{!EntropySource W} `{!ProcessId W} `{!ThreadExit W} `{!Clock W}
  `{!wipe_config}.
Implicit Types (S : threads W) (p : process W) (i j : nat).

(** What thread [i] sees, and the state after an operation of thread [i]. *)
Definition view i S : process W :=
  Process (t_rng S i) (t_in_destructor S i) (t_wipes S) (t_time_override S) (t_fls_index S)
    (t_fls_init S) (t_env S).

Definition put i p S : threads W :=
  let 'Process r d n o f b w := p in
  Threads (set_at i r (t_rng S)) (set_at i d (t_in_destructor S)) n o f b w.

(** Before any thread has drawn. *)
Definition initial (w : W) : threads W :=
  Threads (fun _ => zero_rng) (fun _ => false) 0 None FLS_OUT_OF_INDEXES false w.

(** One operation of thread [i].  A thread exits by the hook, which runs the
    wipe; a thread that is created later starts from zeroed storage.  The
    environment can change between operations: time passes, the process
    forks. *)
Variant operation :=
| OpDraw (out : list Z) (n : nat)
| OpForceReseed
| OpThreadExit
| OpThreadStart
| OpSentinel
| OpSetTimeSource (fn : option (time_source W))
| OpNowMs
| OpEnvironment (w : W).

Definition perform (op : operation) p : option (process W) :=
  match op with
  | OpDraw out n =>
      if decide (n <= length out)%nat
      then '(_, _, p) ← chronoid_random_bytes out n p; Some p else None
  | OpForceReseed => Some (chronoid_random_force_reseed p)
  | OpThreadExit =>
      match hook with
      | HOOK_CXA => chronoid_tls_atexit_trampoline p
      | HOOK_FLS => chronoid_fls_destroy p
      | HOOK_NONE => Some p
      end
  | OpThreadStart => Some (set_rng zero_rng p)
  | OpSentinel => Some (chronoid_random_thread_state_set_sentinel_for_testing p)
  | OpSetTimeSource fn => Some (chronoid_set_time_source_for_testing fn p)
  | OpNowMs => '(_, p) ← chronoid_now_ms p; Some p
  | OpEnvironment w => Some (set_env w p)
  end.

Definition threads_step S S' : Prop :=
  exists i op p, perform op (view i S) = Some p /\ S' = put i p S.

(** ** The invariant *)

(** A generator in order, and no draw under way inside a wipe. *)
Definition thread_ok p : Prop :=
  rng_ok (chronoid_tls_rng_ p) /\ chronoid_tls_in_destructor_ p = false.

Lemma zero_rng_ok : rng_ok zero_rng.
Proof. split_and!; [done..|]. intros [=]. Qed.

Lemma sentinel_rng_ok p :
  rng_ok (chronoid_tls_rng_ p) ->
  rng_ok (chronoid_tls_rng_ (chronoid_random_thread_state_set_sentinel_for_testing p)).
Proof.
  intros (Hs & Hb & _). unfold chronoid_random_thread_state_set_sentinel_for_testing.
  rewrite rng_set_rng. split_and!; cbn [state buf seeded bytes_emitted].
  - by rewrite length_replicate.
  - by rewrite length_replicate.
  - intros _ Hlt. exfalso. revert Hlt. unfold CHRONOID_RNG_RESEED_BYTES. lia.
Qed.

Lemma perform_ok op p p' : perform op p = Some p' -> thread_ok p -> thread_ok p'.
Proof.
  intros E [Hok Hd]. destruct op as [out n| | | | |fn| |w]; cbn [perform] in E.
  - case_decide as Hn; [|done]. apply bind_Some in E as ([[r b] p1] & E & E1).
    injection E1 as <-. apply random_bytes_preserves in E as (Hok' & Hd' & _); [|done..].
    split; congruence || done.
  - injection E as <-. destruct p. split; [|done]. cbn in *. destruct Hok as (? & ? & _).
    split_and!; [done..|]. intros [=].
  - assert (length (state (chronoid_tls_rng_ p)) = 16%nat /\
            length (buf (chronoid_tls_rng_ p)) = 64%nat) as [Hs Hb] by (split; apply Hok).
    assert (chronoid_random_thread_state_wipe p = Some p' -> thread_ok p') as Hwipe.
    { intros Ew. destruct (wipe_spec p Hs Hb) as (p1 & E1 & Hr & Hd1 & _).
      rewrite E1 in Ew. injection Ew as <-. split; [rewrite Hr; apply zero_rng_ok | done]. }
    destruct hook; [by apply Hwipe..|]. by injection E as <-.
  - injection E as <-. destruct p. split; [apply zero_rng_ok | done].
  - injection E as <-. split; [by apply sentinel_rng_ok | by destruct p].
  - injection E as <-. by destruct p.
  - apply bind_Some in E as ([t p1] & E & E1). injection E1 as <-.
    apply now_ms_preserves in E as (_ & Hr & Hd1). unfold thread_ok. by rewrite Hr, Hd1.
  - injection E as <-. by destruct p.
Qed.

Definition all_ok S : Prop := forall i, thread_ok (view i S).

Lemma view_put i j p S :
  view j (put i p S) = if decide (j = i) then p else
    Process (t_rng S j) (t_in_destructor S j) (chronoid_thread_exit_wipes_observed p)
      (chronoid_time_source_override_ p) (chronoid_fls_index_ p) (chronoid_fls_init_ p) (env p).
Proof. destruct p. unfold view, put, set_at. cbn. by case_decide. Qed.

Lemma all_ok_put i p S : thread_ok p -> all_ok S -> all_ok (put i p S).
Proof.
  intros Hp Hok j. rewrite view_put. case_decide as Hj; [exact Hp|exact (Hok j)].
Qed.

Lemma all_ok_step S S' : threads_step S S' -> all_ok S -> all_ok S'.
Proof.
  intros (i & op & p & E & ->) Hok. apply all_ok_put; [|done].
  exact (perform_ok _ _ _ E (Hok i)).
Qed.

Lemma all_ok_reach S S' : rtc threads_step S S' -> all_ok S -> all_ok S'.
Proof. induction 1; eauto using all_ok_step. Qed.

Lemma all_ok_initial w : all_ok (initial w).
Proof. intros i. split; [apply zero_rng_ok | done]. Qed.

(** ** When a draw has no result *)

(** Exactly two things leave a draw in the state [p] without a result: the test
    for a reseed has to subtract times that are more than an [int64_t] apart, or
    the test asks for a reseed and the entropy source does not answer in the
    environment the test left. *)
Definition draw_unanswered p : Prop :=
  (chronoid_tls_rng_should_reseed p = None /\
   INT64_MAX < reseed_now p - seed_time (chronoid_tls_rng_ p)) \/
  exists p1, chronoid_tls_rng_should_reseed p = Some (true, p1) /\
    os_random_bytes (uninit 44) 44 (env p1) = None.

Lemma draw_none_iff p out n :
  thread_ok p -> (n <= length out)%nat ->
  chronoid_random_bytes out n p = None <-> draw_unanswered p.
Proof.
  intros [Hok Hd] Hn. unfold draw_unanswered. split.
  - intros E. destruct (random_bytes_returns p out n Hok Hn) as [[r Er]|[Er|?]];
      [congruence| |by right].
    left. split; [done|]. apply Z.lt_nge. intros Hle.
    destruct (should_reseed_total p Hle) as (b & p' & E'). congruence.
  - unfold chronoid_random_bytes. rewrite Hd. intros [[-> _]|(p1 & -> & E)]; [done|].
    cbn [mbind option_bind]. unfold chronoid_tls_rng_seed. by rewrite E.
Qed.

(** Only a thread's own operations change its generator. *)
Lemma step_isolated S i op p j :
  perform op (view i S) = Some p -> j <> i -> t_rng (put i p S) j = t_rng S j.
Proof. intros _ Hj. destruct p. cbn. unfold set_at. by rewrite decide_False. Qed.

(** Operations of the other threads, and changes of the environment, leave the
    keystream position of a thread alone. *)
Lemma others_keep_position S i op p j s pos :
  perform op (view i S) = Some p -> j <> i -> at_position s pos (t_rng S j) ->
  at_position s pos (t_rng (put i p S) j).
Proof. intros E Hj Hat. by rewrite (step_isolated S i op p j E Hj). Qed.
End Threads.

(** C36: No sequence of operations by any number of threads brings a generator
    out of order.  In every state reachable from zeroed storage by draws,
    forced reseeds, thread starts and exits, the test hooks, readings and
    replacements of the clock and arbitrary changes of the environment, and for
    every thread: its arrays have their sizes, and a generator whose seed is
    good stands in the keystream of that seed; no re-entry flag is left set;
    the wipe succeeds and leaves zeroed storage; and a draw into a buffer that
    is large enough stays inside every array and returns, unless, in this very
    state, the test for a reseed subtracts times more than an [int64_t] apart, or
    the test asks for a reseed and the entropy source does not answer it; in these
    two cases it does not return. *)
Theorem threads_stay_ok `{EntropySource W} `{ProcessId W} `{ThreadExit W} `{Clock W}
    `{wipe_config} (w : W) (S : threads W) i out n :
  rtc threads_step (initial w) S -> (n <= length out)%nat ->
  rng_ok (t_rng S i) /\ t_in_destructor S i = false /\
  (exists p', chronoid_random_thread_state_wipe (view i S) = Some p' /\
     chronoid_tls_rng_ p' = zero_rng) /\
  match chronoid_random_bytes out n (view i S) with
  | None => draw_unanswered (view i S)
  | Some (_, out', p') =>
      ~ draw_unanswered (view i S) /\ length out' = length out /\ thread_ok p'
  end.
Proof.
  intros Hr Hn. apply all_ok_reach in Hr; [|apply all_ok_initial].
  destruct (Hr i) as [Hok Hd]. pose proof Hok as (Hst & Hbuf & _).
  split_and!; [done|done| |].
  - destruct (wipe_spec (view i S) Hst Hbuf) as (p' & E & Hz & _). by exists p'.
  - pose proof (draw_none_iff (view i S) out n (Hr i) Hn) as Hnone.
    destruct (chronoid_random_bytes out n (view i S)) as [[[r out'] p']|] eqn:E; [|by apply Hnone].
    destruct (random_bytes_preserves _ _ _ _ _ _ Hok Hn E) as (Hok' & Hd' & Hl & _).
    split; [by intros [=]%Hnone|]. split; [done|]. split; [done|]. rewrite Hd'. exact Hd.
Qed.

(** Two threads: the first draws three bytes, the second exits; the first draws
    again and gets its bytes. *)
#[local] Existing Instances portable_wipe linux_config demo_fuel.

Definition demo_first : process (machine toy_os) :=
  default demo_thread (perform (OpDraw (uninit 5) 3) demo_thread).
Definition demo_two : threads (machine toy_os) :=
  let S := put 0 demo_first (initial (env demo_thread)) in
  put 1 (default demo_thread (perform OpThreadExit (view 1 S))) S.

Lemma default_Some {A} (a : A) o : is_Some o -> o = Some (default a o).
Proof. by intros [x ->]. Qed.

Lemma demo_two_reach : rtc threads_step (initial (env demo_thread)) demo_two.
Proof.
  eapply rtc_l; [|eapply rtc_l; [|apply rtc_refl]].
  - exists 0%nat, (OpDraw (uninit 5) 3), demo_first. split; [|reflexivity].
    apply (default_Some demo_thread). vm_compute. by eexists.
  - eexists 1%nat, OpThreadExit, _. split; [|reflexivity].
    apply (default_Some demo_thread). vm_compute. by eexists.
Qed.

Example threads_stay_ok_witness :
  rng_ok (t_rng demo_two 0%nat) /\ t_in_destructor demo_two 0%nat = false /\
  (exists p', chronoid_random_thread_state_wipe (view 0 demo_two) = Some p' /\
     chronoid_tls_rng_ p' = zero_rng) /\
  exists r out' p', chronoid_random_bytes (uninit 7) 7 (view 0 demo_two) = Some (r, out', p') /\
    ~ draw_unanswered (view 0 demo_two) /\ length out' = 7%nat /\ thread_ok p'.
Proof.
  pose proof (threads_stay_ok (env demo_thread) demo_two 0 (uninit 7) 7 demo_two_reach
                ltac:(cbn; lia)) as (H1 & H2 & H3 & H4).
  split; [exact H1|]. split; [exact H2|]. split; [exact H3|].
  destruct (chronoid_random_bytes (uninit 7) 7 (view 0 demo_two)) as [[[r out'] p']|] eqn:E;
    [|vm_compute in E; discriminate E].
  exists r, out', p'. split; [reflexivity|exact H4].
Defined.
