(* ===== verification/Extra.v ===== *)
(** * Environments with an extra component

    Some theories add a component of their own to an arbitrary environment: the
    process id of Processes, the pending destructors of ThreadEnd, the fiber-local
    storage of FlsExit.  The entropy source and the clock are those below and leave
    it alone, and a draw changes it only where it registers the thread-exit hook. *)
From S2P Require Import Prelude Wipe Chacha20 RandOs Rand RandTls Keystream Machine TlsRng.

Definition extra (X W : Type) : Type := X * W.

Section Extra.
Context {X W : Type} `{!EntropySource W} `{!Clock W}.

Definition extra_random (b : list Z) (n : nat) (x : extra X W)
    : option (Z * list Z * extra X W) :=
  '(r, b, w) ← os_random_bytes b n x.2; Some (r, b, (x.1, w)).

Lemma extra_random_ok b n x r b' x' :
  (n <= length b)%nat -> extra_random b n x = Some (r, b', x') ->
  length b' = length b /\ (r = 0 \/ r = -1) /\ (r = 0 -> bytes (take n b')).
Proof.
  intros Hn E. apply bind_Some in E as ([[r1 b1] w] & E & E1). injection E1 as <- <- <-.
  by eapply os_random_bytes_ok.
Qed.

#[export] Instance extra_entropy : EntropySource (extra X W) :=
  { os_random_bytes := extra_random; os_random_bytes_ok := extra_random_ok }.

Definition extra_timespec (x : extra X W) : option (Z * Z) * extra X W :=
  let '(ts, w) := timespec_get x.2 in (ts, (x.1, w)).

Lemma extra_timespec_ok x s ns x' :
  extra_timespec x = (Some (s, ns), x') -> int64 s /\ 0 <= ns <= 999999999.
Proof.
  unfold extra_timespec. destruct (timespec_get x.2) as [ts w] eqn:E.
  intros [= -> _]. by eapply timespec_get_ok.
Qed.

#[export] Instance extra_clock : Clock (extra X W) :=
  { timespec_get := extra_timespec; timespec_get_ok := extra_timespec_ok }.

(** What leaves the extra component alone. *)

Lemma extra_random_keeps b n (x : extra X W) r b' x' :
  os_random_bytes b n x = Some (r, b', x') -> x'.1 = x.1.
Proof.
  cbn [os_random_bytes extra_entropy]. unfold extra_random. intros E.
  apply bind_Some in E as ([[r1 b1] w1] & _ & E). by injection E as _ _ <-.
Qed.

Lemma extra_now_seconds_keeps (x : extra X W) : (chronoid_now_seconds x).2.1 = x.1.
Proof.
  unfold chronoid_now_seconds. cbn [timespec_get extra_clock]. unfold extra_timespec.
  by destruct (timespec_get x.2) as [[[s ns]|] w].
Qed.

(** The process id below. *)
Definition extra_pid `{!ProcessId W} : ProcessId (extra X W) :=
  fun x => let '(pid, w) := getpid x.2 in (pid, (x.1, w)).

Lemma extra_pid_keeps `{!ProcessId W} (x : extra X W) : (extra_pid x).2.1 = x.1.
Proof. unfold extra_pid. by destruct (getpid x.2). Qed.

Context `{!ProcessId (extra X W)} `{!ThreadExit (extra X W)} `{!wipe_config}.

(** ** What a draw does to the hook

    A draw touches the registration flag, the fiber-local slot and the extra
    component only through [chronoid_tls_register_thread_exit]. *)
Implicit Types (p q : process (extra X W)).

Definition registered p : bool := destructor_registered (chronoid_tls_rng_ p).

Lemma registered_same p q : chronoid_tls_rng_ p = chronoid_tls_rng_ q -> registered p = registered q.
Proof. unfold registered. congruence. Qed.

Definition hook_view p : bool * X * Z * bool :=
  (registered p, (env p).1, chronoid_fls_index_ p, chronoid_fls_init_ p).

Lemma hook_view_rng r p :
  destructor_registered r = registered p -> hook_view (set_rng r p) = hook_view p.
Proof. destruct p. unfold hook_view, registered. cbn. by intros ->. Qed.

Lemma hook_view_env x p : x.1 = (env p).1 -> hook_view (set_env x p) = hook_view p.
Proof. destruct p. unfold hook_view. cbn. by intros ->. Qed.

(** A test clock may do anything but touch the extra component. *)
Definition clock_keeps p : Prop :=
  match chronoid_time_source_override_ p with
  | None => True
  | Some fn => forall x, (source_fn fn x).2.1 = x.1
  end.

Lemma now_ms_view p t p' :
  clock_keeps p -> chronoid_now_ms p = Some (t, p') -> hook_view p' = hook_view p.
Proof.
  unfold clock_keeps, chronoid_now_ms. destruct (chronoid_time_source_override_ p) as [fn|].
  - intros Hk. specialize (Hk (env p)). destruct (source_fn fn (env p)) as [t1 x1].
    intros [= _ <-]. by apply hook_view_env.
  - intros _. cbn [timespec_get extra_clock]. unfold extra_timespec.
    destruct (timespec_get (env p).2) as [[[sec ns]|] w].
    + intros E. apply bind_Some in E as (ms & _ & E). apply bind_Some in E as (t1 & _ & [= _ <-]).
      by apply hook_view_env.
    + intros [= _ <-]. by apply hook_view_env.
Qed.

Hypothesis getpid_keeps : forall x : extra X W, (getpid (W := extra X W) x).2.1 = x.1.

Lemma should_reseed_view p b p1 :
  chronoid_tls_rng_should_reseed p = Some (b, p1) -> hook_view p1 = hook_view p.
Proof.
  unfold chronoid_tls_rng_should_reseed.
  destruct (negb _); [by intros [= _ <-]|]. destruct (_ <=? _); [by intros [= _ <-]|].
  pose proof (getpid_keeps (env p)) as Hpid. destruct (getpid (env p)) as [pid y].
  destruct (negb _); [intros [= _ <-]; by apply hook_view_env|].
  pose proof (extra_now_seconds_keeps y) as Hy. destruct (chronoid_now_seconds y) as [now z].
  cbn [snd] in *.
  assert (hook_view (set_env z p) = hook_view p) as Hz by (apply hook_view_env; congruence).
  destruct (now <? _); [by intros [= _ <-]|].
  intros E. by apply bind_Some in E as (d1 & _ & [= _ <-]).
Qed.

Lemma should_reseed_keeps p b p1 :
  chronoid_tls_rng_should_reseed p = Some (b, p1) -> (env p1).1 = (env p).1.
Proof. intros E. apply should_reseed_view in E. unfold hook_view in E. congruence. Qed.

(** Seeding registers once, or it failed and left the generator alone. *)
Lemma seed_hook p rc kn p' :
  chronoid_tls_rng_seed p = Some (rc, kn, p') ->
  if rc <? 0 then chronoid_tls_rng_ p' = chronoid_tls_rng_ p /\ hook_view p' = hook_view p
  else exists q, hook_view q = hook_view p /\
         hook_view p' = hook_view (chronoid_tls_register_thread_exit q).
Proof.
  unfold chronoid_tls_rng_seed. intros E.
  apply bind_Some in E as ([[rc1 kn1] x] & Eo & E). apply extra_random_keeps in Eo.
  destruct (rc1 <? 0).
  { apply bind_Some in E as (k2 & _ & E). injection E as <- _ <-.
    split; [by destruct p|by apply hook_view_env]. }
  do 9 (apply bind_Some in E as (? & _ & E)).
  replace (env (set_env x p)) with x in E by (by destruct p).
  destruct (getpid x) as [pid y] eqn:Ep.
  assert (y.1 = x.1) as Hy by (rewrite <- (getpid_keeps x); by rewrite Ep).
  destruct (chronoid_now_seconds y) as [now z] eqn:Ez.
  assert (z.1 = y.1) as Hz by (rewrite <- (extra_now_seconds_keeps y); by rewrite Ez).
  match type of E with context [chronoid_tls_register_thread_exit ?q] => set (q0 := q) in * end.
  injection E as <- _ <-. exists q0. split; [|by apply hook_view_rng].
  subst q0. rewrite hook_view_rng, hook_view_env; [by apply hook_view_env| |by destruct p].
  destruct p. cbn. congruence.
Qed.

Lemma draw_loop_registered fuel out off n r out' r' :
  draw_loop fuel out off n r = Some (out', r') ->
  destructor_registered r' = destructor_registered r.
Proof.
  revert out off n r. induction fuel as [|fuel IH]; intros out off n r; [done|]. cbn [draw_loop].
  case_decide; [|by intros [= _ <-]]. intros E.
  apply bind_Some in E as (r1 & E1 & E). apply bind_Some in E as (o1 & _ & E).
  apply bind_Some in E as (b1 & _ & E). apply IH in E. rewrite E. cbn [destructor_registered].
  unfold refill in E1. destruct (_ =? _); [|by injection E1 as <-].
  apply bind_Some in E1 as ([[b2 st2] x2] & _ & E1). by injection E1 as <-.
Qed.

(** A draw does not touch the hook, and then the generator is as before or was
    seeded; or it seeded. *)
Lemma draw_hook p out n r out' p' :
  chronoid_random_bytes out n p = Some (r, out', p') ->
  (hook_view p' = hook_view p /\
   (chronoid_tls_rng_ p' = chronoid_tls_rng_ p \/ seeded (chronoid_tls_rng_ p) = true)) \/
  (exists q, hook_view q = hook_view p /\
     hook_view p' = hook_view (chronoid_tls_register_thread_exit q)).
Proof.
  unfold chronoid_random_bytes.
  destruct (chronoid_tls_in_destructor_ p); [intros [= _ _ <-]; tauto|].
  intros E. apply bind_Some in E as ([b p1] & Er & E).
  destruct (should_reseed_spec _ _ _ Er) as (Hr1 & _ & Hb).
  assert (hook_view p1 = hook_view p) as Hv1 by (by apply should_reseed_view in Er).
  apply bind_Some in E as ([rc p2] & E2 & E).
  assert (forall r2, draw_loop (S n) out 0 n (chronoid_tls_rng_ p2) = Some (out', r2) ->
            hook_view (set_rng r2 p2) = hook_view p2) as Hloop
    by (intros r2 E3; by apply hook_view_rng, (draw_loop_registered _ _ _ _ _ _ _ E3)).
  destruct b.
  - apply bind_Some in E2 as ([[rc1 kn] p3] & E2 & [= <- <-]). apply seed_hook in E2.
    destruct (rc1 <? 0).
    + injection E as _ _ <-. left. destruct E2 as [-> ->]. by rewrite Hv1, Hr1; split; [|left].
    + apply bind_Some in E as ([o r2] & E3 & [= _ -> <-]). right.
      destruct E2 as (q & Hq & Hp3). exists q. by rewrite (Hloop r2 E3), Hq.
  - injection E2 as <- <-. cbn [Z.ltb Z.compare] in E.
    apply bind_Some in E as ([o r2] & E3 & [= _ -> <-]). left. split; [by rewrite (Hloop r2 E3)|].
    right. destruct (seeded (chronoid_tls_rng_ p)) eqn:Es; [done|]. destruct Hb as [_ Hb].
    discriminate Hb. by left.
Qed.
End Extra.
