(* ===== verification/Processes.v ===== *)
(** * Forks and threads: no byte of a keystream is handed out twice

    A program forks and starts threads; every thread has a generator, a fork
    copies the generator of the calling thread into the child.  The process id
    that chronoid/rand_tls.c compares is what keeps parent and child apart.  The
    first part is the transition system, the second its invariant; the last
    lemma shows what happens when the system hands out a process id again. *)
From stdpp Require Import relations.
From S2P Require Import Prelude Wipe Chacha20 RandOs Rand RandTls Keystream Machine TlsRng Threads Extra.

#[local] Opaque keystream next_state.

(** ** Environments with a process id *)

(** What a thread of process [pid] sees of the system [W]. *)
Definition in_process (W : Type) : Type := extra Z W.

Section InProcess.
Context {W : Type} `{!ThreadExit W}.

#[export] Instance in_process_entropy `{!EntropySource W} : EntropySource (in_process W) :=
  extra_entropy.
#[export] Instance in_process_clock `{!Clock W} : Clock (in_process W) := extra_clock.

#[export] Instance in_process_pid : ProcessId (in_process W) := fun x => (x.1, x).

#[export] Instance in_process_exit : ThreadExit (in_process W) :=
  {| hook := hook;
     cxa_thread_atexit_impl := fun x => let '(r, w) := cxa_thread_atexit_impl x.2 in (r, (x.1, w));
     FlsAlloc := fun x => let '(r, w) := FlsAlloc x.2 in (r, (x.1, w));
     FlsSetValue := fun i x => let '(r, w) := FlsSetValue i x.2 in (r, (x.1, w)) |}.
End InProcess.

(** ** The transition system *)

(** A thread: the process it belongs to, its generator, and, for the record,
    the seeding its generator comes from and how many bytes of that seed's
    keystream were handed out. *)
Record agent := Agent { a_pid : Z; a_rng : chronoid_tls_rng_t; a_own : nat * nat }.

(** A successful draw: [d_len] bytes from byte [d_pos] of the keystream of
    seeding [d_seed], and what the caller's buffer held afterwards. *)
Record drawn := Drawn { d_seed : nat; d_pos : nat; d_len : nat; d_out : list Z }.

(** The threads there have been, the process ids handed out, the seedings and
    the draws, in order. *)
Record world := World {
  agents : list agent;
  pids : list Z;
  seedings : list (list Z);
  draws : list drawn
}.

Section Processes.
Context {W : Type} `{!EntropySource W} `{!ThreadExit W} `{!Clock W} `{!wipe_config}.
Implicit Types (p : process (in_process W)) (a : agent) (w : world) (i : nat).

(** Thread [a] is about to run an operation.  Nothing is said of the rest of
    its process, which other threads may have changed, and of the system. *)
Definition runs a p : Prop :=
  chronoid_tls_rng_ p = a_rng a /\ chronoid_tls_in_destructor_ p = false /\ (env p).1 = a_pid a.

(** Which process ids a fork may hand out, given those handed out before. *)
Context (fork_pid : list Z -> Z -> Prop).

Definition is_draw (op : operation (W := in_process W)) : bool :=
  match op with OpDraw _ _ => true | _ => false end.

Variant world_step : world -> world -> Prop :=
| step_draw_fresh ags ps ss ds i a p p1 out n out' p' kn x :
    ags !! i = Some a -> runs a p -> (n <= length out)%nat ->
    chronoid_tls_rng_should_reseed p = Some (true, p1) ->
    os_random_bytes (uninit 44) 44 (env p1) = Some (0, kn, x) ->
    chronoid_random_bytes out n p = Some (0, out', p') ->
    world_step (World ags ps ss ds)
      (World (<[i := Agent (a_pid a) (chronoid_tls_rng_ p') (length ss, n)]> ags) ps
         (ss ++ [seed_state kn]) (ds ++ [Drawn (length ss) 0 n out']))
| step_draw_more ags ps ss ds i a p p1 out n out' p' :
    ags !! i = Some a -> runs a p -> (n <= length out)%nat ->
    chronoid_tls_rng_should_reseed p = Some (false, p1) ->
    chronoid_random_bytes out n p = Some (0, out', p') ->
    world_step (World ags ps ss ds)
      (World (<[i := Agent (a_pid a) (chronoid_tls_rng_ p') ((a_own a).1, (a_own a).2 + n)%nat]> ags)
         ps ss (ds ++ [Drawn (a_own a).1 (a_own a).2 n out']))
| step_draw_failed ags ps ss ds i a p out n out' r p' :
    ags !! i = Some a -> runs a p -> (n <= length out)%nat ->
    chronoid_random_bytes out n p = Some (r, out', p') -> r <> 0 ->
    world_step (World ags ps ss ds)
      (World (<[i := Agent (a_pid a) (chronoid_tls_rng_ p') (a_own a)]> ags) ps ss ds)
| step_other ags ps ss ds i a p op p' :
    ags !! i = Some a -> runs a p -> is_draw op = false -> perform op p = Some p' ->
    world_step (World ags ps ss ds)
      (World (<[i := Agent (a_pid a) (chronoid_tls_rng_ p') (a_own a)]> ags) ps ss ds)
| step_new_thread ags ps ss ds i a :
    ags !! i = Some a ->
    world_step (World ags ps ss ds)
      (World (ags ++ [Agent (a_pid a) zero_rng (0, 0)%nat]) ps ss ds)
| step_fork ags ps ss ds i a j :
    ags !! i = Some a -> fork_pid ps j ->
    world_step (World ags ps ss ds)
      (World (ags ++ [Agent j (a_rng a) (a_own a)]) (j :: ps) ss ds).

(** One process with one thread that has not drawn. *)
Definition first_process (pid : Z) : world :=
  World [Agent pid zero_rng (0, 0)%nat] [pid] [] [].

(** ** The invariant *)

(** The next draw of [a] may go on with the keystream of its generator. *)
Definition live a : Prop :=
  seeded (a_rng a) = true /\ bytes_emitted (a_rng a) < CHRONOID_RNG_RESEED_BYTES /\
  seed_pid (a_rng a) = a_pid a.

(** Draw [d] lies below byte [pos] of seeding [k]. *)
Definition below (k pos : nat) (d : drawn) : Prop := d_seed d = k -> (d_pos d + d_len d <= pos)%nat.

Definition agent_ok (ps : list Z) a : Prop :=
  rng_ok (a_rng a) /\ a_pid a ∈ ps /\
  (seeded (a_rng a) = true -> bytes_emitted (a_rng a) < CHRONOID_RNG_RESEED_BYTES ->
   seed_pid (a_rng a) ∈ ps).

(** A live generator stands where the record says, behind every recorded draw
    of its seeding. *)
Definition owner_ok (ss : list (list Z)) (ds : list drawn) a : Prop :=
  exists seed, ss !! (a_own a).1 = Some seed /\ at_position seed (a_own a).2 (a_rng a) /\
    Forall (below (a_own a).1 (a_own a).2) ds.

(** The recorded bytes are those of the recorded place. *)
Definition draw_ok (ss : list (list Z)) (d : drawn) : Prop :=
  exists seed, ss !! d_seed d = Some seed /\ take (d_len d) (d_out d) = slice seed (d_pos d) (d_len d).

Definition disjoint_draws (d e : drawn) : Prop :=
  d_seed d = d_seed e ->
  (d_pos d + d_len d <= d_pos e \/ d_pos e + d_len e <= d_pos d)%nat.

Record world_ok w : Prop := {
  agents_ok : Forall (agent_ok (pids w)) (agents w);
  owners_ok : forall i a, agents w !! i = Some a -> live a -> owner_ok (seedings w) (draws w) a;
  owners_apart : forall i j a b, agents w !! i = Some a -> agents w !! j = Some b -> i <> j ->
    live a -> live b -> (a_own a).1 <> (a_own b).1;
  draws_ok : Forall (draw_ok (seedings w)) (draws w);
  draws_apart : forall i j d e, draws w !! i = Some d -> draws w !! j = Some e -> i <> j ->
    disjoint_draws d e
}.

Lemma first_process_ok pid : world_ok (first_process pid).
Proof.
  split; cbn [first_process agents pids seedings draws].
  - apply Forall_singleton. split; [apply zero_rng_ok|]. split; [by left | by intros [=]].
  - intros [|i] a E; [|done]. injection E as <-. intros [? _]. done.
  - intros [|i] [|j] a b Ha Hb Hij; try done.
  - constructor.
  - intros i j d e E. done.
Qed.

(** Replacing a thread's generator by one that is not live, or leaving it. *)
Lemma update_agent_ok ags ps ss ds i a r :
  world_ok (World ags ps ss ds) -> ags !! i = Some a -> agent_ok ps (Agent (a_pid a) r (a_own a)) ->
  (r = a_rng a \/ ~ live (Agent (a_pid a) r (a_own a))) ->
  world_ok (World (<[i := Agent (a_pid a) r (a_own a)]> ags) ps ss ds).
Proof.
  intros [H1 H2 H3 H4 H5] Ha Hok Hr. cbn [agents pids seedings draws] in *.
  assert (forall j b, <[i := Agent (a_pid a) r (a_own a)]> ags !! j = Some b -> live b ->
    ags !! j = Some b) as Hsame.
  { intros j b Hb Hl. destruct (decide (i = j)) as [<-|Hij].
    - rewrite list_lookup_insert_eq in Hb by (by eapply lookup_lt_Some). injection Hb as <-.
      destruct Hr as [->|Hr]; [|done]. by destruct a.
    - by rewrite list_lookup_insert_ne in Hb. }
  split; cbn [agents pids seedings draws]; eauto. by apply Forall_insert.
Qed.

Lemma perform_other op p p' :
  rng_ok (chronoid_tls_rng_ p) -> is_draw op = false -> perform op p = Some p' ->
  chronoid_tls_rng_ p' = chronoid_tls_rng_ p \/
  seeded (chronoid_tls_rng_ p') = false \/
  CHRONOID_RNG_RESEED_BYTES <= bytes_emitted (chronoid_tls_rng_ p').
Proof.
  intros (Hs & Hb & _) Ho E. destruct op as [out n| | | | |fn| |x]; cbn [perform is_draw] in *.
  - done.
  - injection E as <-. right; left. by destruct p.
  - assert (chronoid_random_thread_state_wipe p = Some p' ->
            seeded (chronoid_tls_rng_ p') = false) as Hw.
    { intros Ew. destruct (wipe_spec p Hs Hb) as (p1 & E1 & Hr & _).
      rewrite Ew in E1. injection E1 as <-. by rewrite Hr. }
    destruct hook; [right; left; by apply Hw..|]. injection E as <-. by left.
  - injection E as <-. right; left. by destruct p.
  - injection E as <-. right; right. by destruct p.
  - injection E as <-. left. by destruct p.
  - apply bind_Some in E as ([t p1] & E & E1). injection E1 as <-.
    apply now_ms_preserves in E as (_ & Hr & _). by left.
  - injection E as <-. left. by destruct p.
Qed.

(** What the three kinds of draw do to the generator. *)
Lemma draw_fresh p p1 out n out' p' kn x :
  rng_ok (chronoid_tls_rng_ p) -> chronoid_tls_in_destructor_ p = false -> (n <= length out)%nat ->
  chronoid_tls_rng_should_reseed p = Some (true, p1) ->
  os_random_bytes (uninit 44) 44 (env p1) = Some (0, kn, x) ->
  chronoid_random_bytes out n p = Some (0, out', p') ->
  out' = slice (seed_state kn) 0 n ++ drop n out /\
  at_position (seed_state kn) n (chronoid_tls_rng_ p') /\
  seed_pid (chronoid_tls_rng_ p') = x.1.
Proof.
  intros (Hst & Hb & _) Hd Hn Er Eo E.
  pose proof (random_bytes_fresh p p1 out n Hd Hn Hst Hb Er) as Hf. rewrite Eo in Hf.
  destruct Hf as (p2 & E2 & Hat & _ & Hpid & _). rewrite E in E2. by injection E2 as <- <-.
Qed.

Lemma draw_more p p1 s pos out n out' p' :
  chronoid_tls_in_destructor_ p = false -> (n <= length out)%nat ->
  chronoid_tls_rng_should_reseed p = Some (false, p1) -> at_position s pos (chronoid_tls_rng_ p) ->
  chronoid_random_bytes out n p = Some (0, out', p') ->
  out' = slice s pos n ++ drop n out /\ at_position s (pos + n) (chronoid_tls_rng_ p') /\
  same_seed (chronoid_tls_rng_ p) (chronoid_tls_rng_ p').
Proof.
  intros Hd Hn Er Hat E.
  destruct (random_bytes_reuse p p1 s pos out n Hd Hn Er Hat) as (p2 & E2 & Hat2 & Hs & _).
  rewrite E in E2. by injection E2 as <- <-.
Qed.

Lemma draw_failed p out n out' r p' :
  rng_ok (chronoid_tls_rng_ p) -> chronoid_tls_in_destructor_ p = false -> (n <= length out)%nat ->
  chronoid_random_bytes out n p = Some (r, out', p') -> r <> 0 ->
  chronoid_tls_rng_ p' = chronoid_tls_rng_ p.
Proof.
  intros Hok Hd Hn E Hr. pose proof Hok as (Hst & Hb & _).
  destruct (chronoid_tls_rng_should_reseed p) as [[[] p1]|] eqn:Er.
  - pose proof (random_bytes_fresh p p1 out n Hd Hn Hst Hb Er) as Hf.
    destruct (os_random_bytes (uninit 44) 44 (env p1)) as [[[rc kn] x]|]; [|by rewrite Hf in E].
    destruct (rc =? 0); destruct Hf as (p2 & E2 & H2); rewrite E in E2;
      injection E2 as Er2 _ Ep2; [done|]. rewrite Ep2. apply H2.
  - destruct (no_reseed_position p p1 Hok Er) as (s & pos & Hat).
    destruct (random_bytes_reuse p p1 s pos out n Hd Hn Er Hat) as (p2 & E2 & _).
    rewrite E in E2. by injection E2 as Er2 _ _.
  - unfold chronoid_random_bytes in E. by rewrite Hd, Er in E.
Qed.

(** No operation changes the process a thread is in. *)
Lemma should_reseed_pid p b p1 :
  chronoid_tls_rng_should_reseed p = Some (b, p1) -> (env p1).1 = (env p).1.
Proof. apply should_reseed_keeps. intros x. by unfold getpid; cbn. Qed.

(** A generator that need not reseed is live. *)
Lemma no_reseed_live a p p1 :
  runs a p -> chronoid_tls_rng_should_reseed p = Some (false, p1) -> live a.
Proof.
  intros (Hr & _ & Hp) Er. destruct (should_reseed_spec _ _ _ Er) as (_ & _ & Hm).
  assert (~ must_reseed p) as Hn by (intros Hx; apply Hm in Hx; discriminate Hx).
  unfold must_reseed in Hn. rewrite Hr in Hn. cbn [getpid in_process_pid fst snd] in Hn. unfold live.
  destruct (seeded (a_rng a)) eqn:Es; [|exfalso; by apply Hn; left].
  split; [done|]. split.
  - apply Z.lt_nge. intros Hge. apply Hn. by right; left.
  - rewrite <- Hp. destruct (Z.eq_dec (env p).1 (seed_pid (a_rng a))) as [<-|Hne]; [done|].
    exfalso. apply Hn. by right; right; left.
Qed.

(** One more draw, past those of its seed. *)
Lemma draws_apart_snoc ds d :
  (forall i j e f, ds !! i = Some e -> ds !! j = Some f -> i <> j -> disjoint_draws e f) ->
  Forall (fun e => d_seed e = d_seed d -> (d_pos e + d_len e <= d_pos d)%nat) ds ->
  forall i j e f, (ds ++ [d]) !! i = Some e -> (ds ++ [d]) !! j = Some f -> i <> j ->
    disjoint_draws e f.
Proof.
  intros Hds Hbehind.
  rewrite Forall_forall in Hbehind.
  assert (forall j e f, (ds ++ [d]) !! j = Some e -> (j < length ds)%nat -> f = d ->
    disjoint_draws e f) as Hlast.
  { intros j e f He Hj ->. rewrite lookup_app_l in He by done. intros E. left.
    apply Hbehind; [|done]. apply list_elem_of_In. by eapply list_elem_of_lookup_2. }
  intros j k e f He Hf Hjk.
  destruct (decide (j < length ds)%nat) as [Hj|Hj], (decide (k < length ds)%nat) as [Hk|Hk].
  - rewrite lookup_app_l in He, Hf by done. eauto.
  - apply (Hlast j e f He Hj). rewrite lookup_app_r in Hf by lia.
    by apply list_lookup_singleton_Some in Hf as [_ <-].
  - enough (disjoint_draws f e) as Hfe by (intros E; destruct (Hfe (eq_sym E)); auto).
    apply (Hlast k f e Hf Hk). rewrite lookup_app_r in He by lia.
    by apply list_lookup_singleton_Some in He as [_ <-].
  - rewrite lookup_app_r in He, Hf by lia.
    apply list_lookup_singleton_Some in He as [? _]. apply list_lookup_singleton_Some in Hf as [? _].
    lia.
Qed.

(** A draw by thread [i] puts its generator at [own'], with a new record
    behind all records of that seeding. *)
Lemma draw_world_ok ags ps ss ss' ds i a r own' d :
  world_ok (World ags ps ss ds) -> ags !! i = Some a -> ss `prefix_of` ss' ->
  agent_ok ps (Agent (a_pid a) r own') ->
  owner_ok ss' (ds ++ [d]) (Agent (a_pid a) r own') ->
  draw_ok ss' d -> Forall (fun e => d_seed e = d_seed d -> (d_pos e + d_len e <= d_pos d)%nat) ds ->
  d_seed d = own'.1 ->
  (forall j b, ags !! j = Some b -> j <> i -> live b -> (a_own b).1 <> own'.1) ->
  world_ok (World (<[i := Agent (a_pid a) r own']> ags) ps ss' (ds ++ [d])).
Proof.
  intros [H1 H2 H3 H4 H5] Ha Hss Hag Hown Hd Hbehind Hseed Hapart.
  cbn [agents pids seedings draws] in *.
  pose proof (lookup_lt_Some _ _ _ Ha) as Hi.
  split; cbn [agents pids seedings draws].
  - by apply Forall_insert.
  - intros j b Hb Hl. destruct (decide (i = j)) as [<-|Hij].
    { rewrite list_lookup_insert_eq in Hb by done. by injection Hb as <-. }
    rewrite list_lookup_insert_ne in Hb by done.
    destruct (H2 j b Hb Hl) as (seed & E & Hat & Hbel). exists seed.
    split; [by eapply prefix_lookup_Some|]. split; [done|].
    apply Forall_app. split; [done|]. apply Forall_singleton. intros E2. exfalso.
    apply (Hapart j b Hb (not_eq_sym Hij) Hl). congruence.
  - intros j k b c Hb Hc Hjk Hlb Hlc.
    destruct (decide (i = j)) as [<-|Hij], (decide (i = k)) as [<-|Hik]; [done|..].
    + rewrite list_lookup_insert_eq in Hb by done. injection Hb as <-.
      rewrite list_lookup_insert_ne in Hc by done. cbn [a_own]. intros E. symmetry in E.
      by apply (Hapart k c Hc (not_eq_sym Hik) Hlc).
    + rewrite list_lookup_insert_ne in Hb by done.
      rewrite list_lookup_insert_eq in Hc by done. injection Hc as <-. cbn [a_own].
      by apply (Hapart j b Hb (not_eq_sym Hij) Hlb).
    + rewrite list_lookup_insert_ne in Hb, Hc by done. eauto.
  - apply Forall_app. split; [|by apply Forall_singleton].
    eapply Forall_impl; [|exact H4]. intros e (seed & E & Hs). exists seed.
    split; [by eapply prefix_lookup_Some|done].
  - by apply draws_apart_snoc.
Qed.

Lemma agent_lookup_ok w i a : world_ok w -> agents w !! i = Some a -> agent_ok (pids w) a.
Proof. intros [H1 _ _ _ _] Ha. by eapply Forall_lookup_1. Qed.

Lemma fresh_ok ags ps ss ds i a p p1 out n out' p' kn x :
  world_ok (World ags ps ss ds) ->
  ags !! i = Some a -> runs a p -> (n <= length out)%nat ->
  chronoid_tls_rng_should_reseed p = Some (true, p1) ->
  os_random_bytes (uninit 44) 44 (env p1) = Some (0, kn, x) ->
  chronoid_random_bytes out n p = Some (0, out', p') ->
  world_ok (World (<[i := Agent (a_pid a) (chronoid_tls_rng_ p') (length ss, n)]> ags) ps
              (ss ++ [seed_state kn]) (ds ++ [Drawn (length ss) 0 n out'])).
Proof.
  intros Hok Ha Hr Hn Er Eo E. pose proof Hok as [_ H2 _ H4 _].
  destruct (agent_lookup_ok _ i a Hok Ha) as (Hrng & Hpid & _).
  cbn [agents pids seedings draws] in *. destruct Hr as (Er1 & Hd & Hp). rewrite <- Er1 in Hrng.
  destruct (draw_fresh p p1 out n out' p' kn x Hrng Hd Hn Er Eo E) as (-> & Hat & Hsp).
  assert (x.1 = a_pid a) as Hx
    by (rewrite (extra_random_keeps _ _ _ _ _ _ Eo), (should_reseed_pid _ _ _ Er); exact Hp).
  assert ((ss ++ [seed_state kn]) !! length ss = Some (seed_state kn)) as Hlk
    by (rewrite lookup_app_r, Nat.sub_diag by lia; done).
  assert (Forall (fun e => d_seed e < length ss)%nat ds) as Hlt.
  { eapply Forall_impl; [|exact H4]. intros e (seed & Es & _). by eapply lookup_lt_Some. }
  apply (draw_world_ok ags ps ss _ ds i a); cbn [d_seed d_pos d_len d_out fst snd]; try done.
  - by eexists.
  - split; [by eapply at_position_ok|]. split; [done|]. intros _ _. cbn [a_rng].
    by rewrite Hsp, Hx.
  - exists (seed_state kn). cbn [a_own a_rng fst snd]. split; [done|]. split; [done|].
    apply Forall_app. split; [|by apply Forall_singleton; intros _; cbn; lia].
    eapply Forall_impl; [|exact Hlt]. intros e He Ee. cbn in He, Ee. lia.
  - exists (seed_state kn). split; [done|]. cbn [d_len d_out d_pos].
    by rewrite take_app_length' by (by rewrite length_slice).
  - eapply Forall_impl; [|exact Hlt]. intros e He Ee. cbn in He. lia.
  - intros j b Hb _ Hl Eown. destruct (H2 j b Hb Hl) as (seed & Es & _).
    apply lookup_lt_Some in Es. lia.
Qed.

Lemma more_ok ags ps ss ds i a p p1 out n out' p' :
  world_ok (World ags ps ss ds) ->
  ags !! i = Some a -> runs a p -> (n <= length out)%nat ->
  chronoid_tls_rng_should_reseed p = Some (false, p1) ->
  chronoid_random_bytes out n p = Some (0, out', p') ->
  world_ok (World (<[i := Agent (a_pid a) (chronoid_tls_rng_ p')
                            ((a_own a).1, (a_own a).2 + n)%nat]> ags)
              ps ss (ds ++ [Drawn (a_own a).1 (a_own a).2 n out'])).
Proof.
  intros Hok Ha Hr Hn Er E. pose proof Hok as [_ H2 H3 _ _].
  destruct (agent_lookup_ok _ i a Hok Ha) as (_ & Hpid & Hseed).
  cbn [agents pids seedings draws] in *.
  pose proof (no_reseed_live a p p1 Hr Er) as Hl. destruct Hr as (Er1 & Hd & Hp).
  destruct (H2 i a Ha Hl) as (seed & Es & Hat & Hbel). rewrite <- Er1 in Hat.
  destruct (draw_more p p1 seed _ out n out' p' Hd Hn Er Hat E) as (-> & Hat' & Hsame).
  apply (draw_world_ok ags ps ss ss ds i a); cbn [d_seed d_pos d_len d_out fst snd]; try done.
  - split; [by eapply at_position_ok|]. split; [done|]. intros _ _. cbn [a_rng].
    destruct Hsame as (_ & -> & _). rewrite Er1. by apply Hseed; apply Hl.
  - exists seed. cbn [a_own a_rng fst snd]. split; [done|]. split; [done|].
    apply Forall_app. split; [|by apply Forall_singleton; intros _; cbn; lia].
    eapply Forall_impl; [|exact Hbel]. intros e He Ee. specialize (He Ee). lia.
  - exists seed. split; [done|]. cbn [d_len d_out d_pos].
    by rewrite take_app_length' by (by rewrite length_slice).
  - intros j b Hb Hji Hlb. by apply (H3 j i b a Hb Ha Hji Hlb Hl).
Qed.

Lemma other_ok ags ps ss ds i a p op p' :
  world_ok (World ags ps ss ds) ->
  ags !! i = Some a -> runs a p -> is_draw op = false -> perform op p = Some p' ->
  world_ok (World (<[i := Agent (a_pid a) (chronoid_tls_rng_ p') (a_own a)]> ags) ps ss ds).
Proof.
  intros Hok Ha (Er1 & Hd & Hp) Ho E.
  destruct (agent_lookup_ok _ i a Hok Ha) as (Hrng & Hpid & Hseed).
  cbn [agents pids seedings draws] in *. rewrite <- Er1 in Hrng.
  destruct (perform_ok op p p' E (conj Hrng Hd)) as [Hrng' _].
  pose proof (perform_other op p p' Hrng Ho E) as Hk.
  apply update_agent_ok; [done..| |].
  - split; [done|]. split; [done|]. cbn [a_rng]. intros Hs1 Hs2.
    destruct Hk as [Hk|[Hk|Hk]]; [|congruence|lia]. rewrite Hk, Er1 in *. by apply Hseed.
  - destruct Hk as [->|Hk]; [by left|right]. unfold live. cbn [a_rng].
    intros (Hs1 & Hs2 & _). destruct Hk as [Hk|Hk]; [congruence|lia].
Qed.

(** A thread whose generator is not live may appear. *)
Lemma new_agent_ok ags ps ps' ss ds b :
  world_ok (World ags ps ss ds) -> (forall j, j ∈ ps -> j ∈ ps') -> agent_ok ps' b -> ~ live b ->
  world_ok (World (ags ++ [b]) ps' ss ds).
Proof.
  intros [H1 H2 H3 H4 H5] Hps Hb Hdead. cbn [agents pids seedings draws] in *.
  assert (forall i c, (ags ++ [b]) !! i = Some c -> live c -> ags !! i = Some c) as Hold.
  { intros i c Hc Hl. apply lookup_app_Some in Hc as [?|[_ Hc]]; [done|].
    by apply list_lookup_singleton_Some in Hc as [_ <-]. }
  split; cbn [agents pids seedings draws]; eauto.
  apply Forall_app. split; [|by apply Forall_singleton].
  eapply Forall_impl; [|exact H1]. intros c (Hc1 & Hc2 & Hc3). split_and!; auto.
Qed.

Lemma world_step_ok w w' :
  (forall ps j, fork_pid ps j -> j ∉ ps) -> world_step w w' -> world_ok w -> world_ok w'.
Proof.
  intros Hfresh Hs Hok.
  destruct Hs as [| |ags ps ss ds i a p out n out' r p' Ha Hr Hn E Hne| 
                 |ags ps ss ds i a Ha|ags ps ss ds i a j Ha Hj].
  - by eapply fresh_ok.
  - by eapply more_ok.
  - destruct Hr as (Er1 & Hd & Hp).
    pose proof (agent_lookup_ok _ i a Hok Ha) as Hag. pose proof Hag as (Hrng & _).
    rewrite <- Er1 in Hrng. rewrite (draw_failed p out n out' r p' Hrng Hd Hn E Hne), Er1.
    apply update_agent_ok; [done..| |by left]. by destruct a.
  - by eapply other_ok.
  - destruct (agent_lookup_ok _ i a Hok Ha) as (_ & Hpid & _).
    apply (new_agent_ok ags ps); [done|auto| |by intros [[=] _]].
    split; [apply zero_rng_ok|]. split; [done | by intros [=]].
  - destruct (agent_lookup_ok _ i a Hok Ha) as (Hrng & _ & Hseed).
    apply (new_agent_ok ags ps); [done|by right| |].
    + split; [done|]. split; [by left|]. intros Hs1 Hs2. right. by apply Hseed.
    + intros (Hs1 & Hs2 & Hs3). cbn [a_rng a_pid] in *. apply (Hfresh _ _ Hj).
      rewrite <- Hs3. by apply Hseed.
Qed.

Lemma world_reach_ok w w' :
  (forall ps j, fork_pid ps j -> j ∉ ps) -> rtc world_step w w' -> world_ok w -> world_ok w'.
Proof. intros Hfresh. induction 1; eauto using world_step_ok. Qed.
End Processes.

(** C29: No byte of a keystream is handed out twice, whatever threads are
    started and whatever is forked.  Take any run from one fresh process in
    which threads draw, reseed, exit, run the test hooks, start threads and
    fork in any order, with the rest of their processes and the system changing
    arbitrarily between their operations.  As long as a fork never hands out a
    process id that was in use before, every draw of every thread returned
    exactly the bytes of one place of the keystream of one seeding, and the
    places of any two draws from the same seeding are disjoint. *)
Theorem keystream_never_reused `{EntropySource W} `{ThreadExit W} `{Clock W} `{wipe_config}
    pid (w : world) :
  rtc (world_step (W := W) (fun ps j => j ∉ ps)) (first_process pid) w ->
  (forall d, d ∈ draws w -> exists seed, seedings w !! d_seed d = Some seed /\
     take (d_len d) (d_out d) = slice seed (d_pos d) (d_len d)) /\
  (forall i j d e, draws w !! i = Some d -> draws w !! j = Some e -> i <> j ->
     d_seed d = d_seed e ->
     (d_pos d + d_len d <= d_pos e \/ d_pos e + d_len e <= d_pos d)%nat).
Proof.
  intros Hr. apply world_reach_ok in Hr as [_ _ _ H4 H5]; [|done|apply first_process_ok].
  split; [|exact H5]. intros d Hd. rewrite Forall_forall in H4. apply H4. by apply list_elem_of_In.
Qed.

(** ** Runs *)

#[local] Existing Instances portable_wipe linux_config demo_fuel.

(** The first thread of process 100 on the toy system, before and after its
    first draw, and after a second one. *)
Definition demo_system : machine toy_os := Machine (ToyOs [-4; 30] 7 ∅) 0 (Some (1700000000, 0)).

Definition draw_three (p : process (in_process (machine toy_os))) :=
  match chronoid_random_bytes (uninit 3) 3 p with
  | Some (r, out, p') => (r, out, p')
  | None => (-1, [], p)
  end.

Definition demo_p0 : process (in_process (machine toy_os)) := fresh_thread (100, demo_system).
Definition demo_p1 := (draw_three demo_p0).2.
Definition demo_p2 := (draw_three demo_p1).2.

Lemma draw_three_ok p :
  (draw_three p).1.1 = 0 -> chronoid_random_bytes (uninit 3) 3 p = Some (draw_three p).
Proof. unfold draw_three. by destruct (chronoid_random_bytes (uninit 3) 3 p) as [[[r out] p']|]. Qed.

(** The first draw seeds; a second one by a thread of the same process with the
    same generator does not. *)
Lemma demo_first_draw forkpid :
  exists out, world_step (W := machine toy_os) forkpid (first_process 100)
    (World [Agent 100 (chronoid_tls_rng_ demo_p1) (0, 3)%nat] [100]
       [seed_state (replicate 44 7)] [Drawn 0 0 3 out]).
Proof.
  exists (draw_three demo_p0).1.2.
  assert (chronoid_random_bytes (uninit 3) 3 demo_p0
          = Some (0, (draw_three demo_p0).1.2, demo_p1)) as E.
  { rewrite (draw_three_ok demo_p0) by (vm_compute; reflexivity). unfold demo_p1.
    assert ((draw_three demo_p0).1.1 = 0) as Hr by (vm_compute; reflexivity).
    destruct (draw_three demo_p0) as [[r o] q]. cbn [fst snd] in *. by rewrite Hr. }
  assert (exists x, os_random_bytes (uninit 44) 44 (env demo_p0) = Some (0, replicate 44 7, x)) as [x Ex]
    by (vm_compute; by eexists).
  exact (step_draw_fresh forkpid [Agent 100 zero_rng (0, 0)%nat] [100] [] [] 0
           (Agent 100 zero_rng (0, 0)%nat) demo_p0 demo_p0 (uninit 3) 3 _ demo_p1 (replicate 44 7) x
           eq_refl (conj eq_refl (conj eq_refl eq_refl)) ltac:(cbn; lia) eq_refl Ex E).
Qed.

Lemma demo_second_draw forkpid ags ps ss ds i :
  ags !! i = Some (Agent 100 (chronoid_tls_rng_ demo_p1) (0, 3)%nat) ->
  exists out, world_step (W := machine toy_os) forkpid (World ags ps ss ds)
    (World (<[i := Agent 100 (chronoid_tls_rng_ demo_p2) (0, 6)%nat]> ags) ps ss
       (ds ++ [Drawn 0 3 3 out])).
Proof.
  intros Hi. exists (draw_three demo_p1).1.2.
  assert (chronoid_random_bytes (uninit 3) 3 demo_p1
          = Some (0, (draw_three demo_p1).1.2, demo_p2)) as E.
  { rewrite (draw_three_ok demo_p1) by (vm_compute; reflexivity). unfold demo_p2.
    assert ((draw_three demo_p1).1.1 = 0) as Hr by (vm_compute; reflexivity).
    destruct (draw_three demo_p1) as [[r o] q]. cbn [fst snd] in *. by rewrite Hr. }
  assert (exists q, chronoid_tls_rng_should_reseed demo_p1 = Some (false, q)) as [q Er].
  { assert (match chronoid_tls_rng_should_reseed demo_p1 with
            | Some (b, _) => negb b | None => false end = true) as Hb by (vm_compute; reflexivity).
    destruct (chronoid_tls_rng_should_reseed demo_p1) as [[[] q]|]; try discriminate Hb. by exists q. }
  assert (chronoid_tls_in_destructor_ demo_p1 = false) as Hd by (vm_compute; reflexivity).
  assert ((env demo_p1).1 = 100) as Hp by (vm_compute; reflexivity).
  assert (runs (Agent 100 (chronoid_tls_rng_ demo_p1) (0, 3)%nat) demo_p1) as Hr
    by exact (conj eq_refl (conj Hd Hp)).
  exact (step_draw_more forkpid ags ps ss ds i (Agent 100 (chronoid_tls_rng_ demo_p1) (0, 3)%nat)
           demo_p1 q (uninit 3) 3 _ demo_p2 Hi Hr ltac:(cbn; lia) Er E).
Qed.

#[local] Opaque demo_p1 demo_p2.

(** A draw, a fork, and a draw of the parent. *)
Lemma keystream_never_reused_witness :
  exists w, rtc (world_step (W := machine toy_os) (fun ps j => j ∉ ps)) (first_process 100) w /\
    length (agents w) = 2%nat /\ length (draws w) = 2%nat /\
    (forall d, d ∈ draws w -> exists seed, seedings w !! d_seed d = Some seed /\
       take (d_len d) (d_out d) = slice seed (d_pos d) (d_len d)) /\
    (forall i j d e, draws w !! i = Some d -> draws w !! j = Some e -> i <> j ->
       d_seed d = d_seed e ->
       (d_pos d + d_len d <= d_pos e \/ d_pos e + d_len e <= d_pos d)%nat).
Proof.
  destruct (demo_first_draw (fun ps j => j ∉ ps)) as [o1 S1].
  destruct (demo_second_draw (fun ps j => j ∉ ps)
              [Agent 100 (chronoid_tls_rng_ demo_p1) (0, 3)%nat;
               Agent 101 (chronoid_tls_rng_ demo_p1) (0, 3)%nat] [101; 100]
              [seed_state (replicate 44 7)] [Drawn 0 0 3 o1] 0 eq_refl) as [o2 S2].
  assert (rtc (world_step (W := machine toy_os) (fun ps j => j ∉ ps)) (first_process 100)
            (World [Agent 100 (chronoid_tls_rng_ demo_p2) (0, 6)%nat;
                    Agent 101 (chronoid_tls_rng_ demo_p1) (0, 3)%nat] [101; 100]
               [seed_state (replicate 44 7)] [Drawn 0 0 3 o1; Drawn 0 3 3 o2])) as Hr.
  { eapply rtc_l; [exact S1|]. eapply rtc_l; [|eapply rtc_l; [exact S2|apply rtc_refl]].
    by apply (step_fork _ [Agent 100 (chronoid_tls_rng_ demo_p1) (0, 3)%nat] [100]
                [seed_state (replicate 44 7)] [Drawn 0 0 3 o1] 0
                (Agent 100 (chronoid_tls_rng_ demo_p1) (0, 3)%nat) 101 eq_refl);
      rewrite list_elem_of_singleton. }
  eexists. split; [exact Hr|]. split; [reflexivity|]. split; [reflexivity|].
  exact (keystream_never_reused 100 _ Hr).
Defined.

(** The hypothesis on process ids is needed: the generator compares the id of
    the process with the one it was seeded in, and nothing else.  When a process
    has drawn, forked and exited, and the child, without having drawn, forks a
    process that is given the id of the first one again, that process goes on
    with the keystream of the first one. *)
Lemma recycled_pid_reuses_keystream :
  exists w d e, rtc (world_step (W := machine toy_os) (fun _ _ => True)) (first_process 100) w /\
    draws w !! 1%nat = Some d /\ draws w !! 2%nat = Some e /\
    d_seed d = d_seed e /\ d_pos d = d_pos e /\ d_len d = d_len e /\ d_len d = 3%nat.
Proof.
  destruct (demo_first_draw (fun _ _ => True)) as [o1 S1].
  set (a := Agent 100 (chronoid_tls_rng_ demo_p1) (0, 3)%nat) in *.
  set (b := Agent 101 (chronoid_tls_rng_ demo_p1) (0, 3)%nat) in *.
  destruct (demo_second_draw (fun _ _ => True) [a; b] [101; 100]
              [seed_state (replicate 44 7)] [Drawn 0 0 3 o1] 0 eq_refl) as [o2 S2].
  destruct (demo_second_draw (fun _ _ => True)
              [Agent 100 (chronoid_tls_rng_ demo_p2) (0, 6)%nat; b; a] [100; 101; 100]
              [seed_state (replicate 44 7)] [Drawn 0 0 3 o1; Drawn 0 3 3 o2] 2 eq_refl) as [o3 S3].
  exists (World [Agent 100 (chronoid_tls_rng_ demo_p2) (0, 6)%nat; b;
                 Agent 100 (chronoid_tls_rng_ demo_p2) (0, 6)%nat] [100; 101; 100]
            [seed_state (replicate 44 7)] [Drawn 0 0 3 o1; Drawn 0 3 3 o2; Drawn 0 3 3 o3]),
    (Drawn 0 3 3 o2), (Drawn 0 3 3 o3). split; [|done].
  eapply rtc_l; [exact S1|].
  eapply rtc_l; [exact (step_fork _ [a] [100] [seed_state (replicate 44 7)] [Drawn 0 0 3 o1] 0 a 101
                      eq_refl I)|].
  eapply rtc_l; [exact S2|].
  eapply rtc_l; [|eapply rtc_l; [exact S3|apply rtc_refl]].
  exact (step_fork _ [Agent 100 (chronoid_tls_rng_ demo_p2) (0, 6)%nat; b] [101; 100]
           [seed_state (replicate 44 7)] [Drawn 0 0 3 o1; Drawn 0 3 3 o2] 1 b 100 eq_refl I).
Qed.
