(* ===== verification/ThreadEnd.v ===== *)
(** * The end of a thread: nothing of the generator is left

    Threads runs the wipe whenever a thread exits.  Here the exit is what the C
    library does with __cxa_thread_atexit_impl: the destructors of the thread are
    run, last registered first, until none is left, and a destructor may register
    another one.  The generator registers its wipe when it is first seeded, and
    again when a destructor of the application draws after the wipe. *)
From stdpp Require Import relations.
From S2P Require Import Prelude Wipe Chacha20 RandOs Rand RandTls Keystream Machine TlsRng.
From S2P Require Import Threads Extra.

#[local] Opaque keystream next_state.

(** A destructor of the thread: the trampoline of rand_tls.c, or one of the
    application, which draws buffers of the given lengths. *)
Variant dtor := DtorWipe | DtorDraws (lens : list nat).

(** What the C library keeps for the thread: the pending destructors, the last
    registered first, and whether it has refused one. *)
Record pending := Pending { pd_dtors : list dtor; pd_refused : bool }.

(** The pending destructors on top of the system [W]. *)
Definition dtor_env (W : Type) : Type := extra pending W.

Definition push (d : dtor) (x : pending) : pending := Pending (d :: pd_dtors x) (pd_refused x).

(** The library takes a registration of the wipe or refuses it. *)
Definition registration (takes : bool) (x : pending) : pending :=
  if takes then push DtorWipe x else Pending (pd_dtors x) true.

Section ThreadEnd.
Context {W : Type} `{!EntropySource W} `{!ProcessId W} `{!Clock W} `{!wipe_config}.

(** Does the C library take the registration? *)
Context (registers : W -> bool).

#[local] Instance dtor_entropy : EntropySource (dtor_env W) := extra_entropy.
#[local] Instance dtor_clock : Clock (dtor_env W) := extra_clock.
#[local] Instance dtor_pid : ProcessId (dtor_env W) := extra_pid.
#[local] Instance dtor_exit : ThreadExit (dtor_env W) :=
  {| hook := HOOK_CXA;
     cxa_thread_atexit_impl := fun x =>
       (if registers x.2 then 0 else -1, (registration (registers x.2) x.1, x.2));
     FlsAlloc := fun x => (FLS_OUT_OF_INDEXES, x);
     FlsSetValue := fun _ x => (false, x) |}.

Implicit Types (p : process (dtor_env W)).

Definition dtors p : list dtor := pd_dtors (env p).1.
Definition refused p : bool := pd_refused (env p).1.

(** ** The life of a thread *)

(** What the thread may do before it exits.  The sentinel is for a thread that
    has drawn (rand_tls.c says so); the environment may change, but not the
    destructors of the thread. *)
Definition allowed (op : operation (W := dtor_env W)) p : Prop :=
  match op with
  | OpDraw _ _ | OpForceReseed | OpSetTimeSource _ => True
  | OpNowMs => clock_keeps p
  | OpSentinel => destructor_registered (chronoid_tls_rng_ p) = true
  | OpEnvironment x => x.1 = (env p).1
  | OpThreadExit | OpThreadStart => False
  end.

Variant life_step : process (dtor_env W) -> process (dtor_env W) -> Prop :=
| step_op op p p' : allowed op p -> perform op p = Some p' -> life_step p p'
| step_register lens p :
    life_step p (set_env (push (DtorDraws lens) (env p).1, (env p).2) p).

(** One destructor. *)
Definition run_dtor (d : dtor) p : option (process (dtor_env W)) :=
  match d with
  | DtorWipe => chronoid_tls_atexit_trampoline p
  | DtorDraws lens =>
      foldl (fun o n => p ← o; '(_, _, p) ← chronoid_random_bytes (uninit n) n p; Some p)
        (Some p) lens
  end.

(** The library takes a destructor off the list, then runs it. *)
Definition popped (ds : list dtor) p : process (dtor_env W) :=
  set_env (Pending ds (refused p), (env p).2) p.

Variant exit_step : process (dtor_env W) -> process (dtor_env W) -> Prop :=
| step_dtor d ds p p' :
    dtors p = d :: ds -> run_dtor d (popped ds p) = Some p' -> exit_step p p'.

(** The exit stands still: one of the draws of the next destructor has no
    result. *)
Definition stuck p : Prop :=
  exists before n after ds p1,
    dtors p = DtorDraws (before ++ n :: after) :: ds /\
    run_dtor (DtorDraws before) (popped ds p) = Some p1 /\ draw_unanswered p1.

(** ** Which operations touch the destructors *)

(** An operation leaves the hook alone, or it is the one registration of an
    unregistered generator, which the library takes or refuses. *)
Definition grown p p' : Prop :=
  (env p').1 = (env p).1 /\ registered p' = registered p \/
  registered p = false /\ registered p' = true /\
  exists w, (env p').1 = registration (registers w) (env p).1.

Lemma view_parts p p' :
  hook_view p' = hook_view p -> (env p').1 = (env p).1 /\ registered p' = registered p.
Proof. unfold hook_view. intros E. by injection E. Qed.

Lemma register_grown p :
  grown p (chronoid_tls_register_thread_exit p) /\
  registered (chronoid_tls_register_thread_exit p) = true.
Proof.
  destruct p as [[st b q e t pd sd dr] d n o i f [x w]].
  unfold chronoid_tls_register_thread_exit, grown, registered.
  cbn [hook dtor_exit chronoid_tls_rng_ destructor_registered]. destruct dr.
  - split; [by left|done].
  - split; [right|done]. split; [done|]. split; [done|]. by exists w.
Qed.

(** ** The invariant *)

Fixpoint wipes (ds : list dtor) : nat :=
  match ds with
  | [] => 0
  | DtorWipe :: ds => S (wipes ds)
  | DtorDraws _ :: ds => wipes ds
  end.

(** One wipe is pending for a registered generator whose registration was taken,
    and none otherwise; a refusal is for good, and somebody refused. *)
Definition hook_ok (x : pending) (fl : bool) : Prop :=
  wipes (pd_dtors x) = (if fl && negb (pd_refused x) then 1 else 0)%nat /\
  (pd_refused x = true -> fl = true /\ exists w, registers w = false).

(** A generator that is not zero is registered. *)
Definition covered p : Prop :=
  hook_ok (env p).1 (registered p) /\
  (registered p = true \/ chronoid_tls_rng_ p = zero_rng).

Lemma grown_hook p p' :
  hook_ok (env p).1 (registered p) -> grown p p' -> hook_ok (env p').1 (registered p').
Proof.
  intros Hok [[-> ->]|(H1 & -> & w & ->)]; [done|]. rewrite H1 in Hok.
  destruct Hok as [Hw Hr]. destruct (env p).1 as [ds []]; [by destruct (Hr eq_refl)|].
  unfold registration, push. destruct (registers w) eqn:E; cbn in *.
  - split; [cbn; by rewrite Hw|done].
  - split; [done|]. intros _. split; [done|by exists w].
Qed.

(** What a draw does to the destructors, and that it keeps the invariant. *)
Lemma draw_effect p out n r out' p' :
  chronoid_random_bytes out n p = Some (r, out', p') ->
  grown p p' /\
  (registered p' = true \/ chronoid_tls_rng_ p' = chronoid_tls_rng_ p \/
   seeded (chronoid_tls_rng_ p) = true /\ registered p' = registered p).
Proof.
  intros E. apply (draw_hook (X := pending) extra_pid_keeps) in E
    as [[Hv Hr]|(q & [Hq1 Hq2]%view_parts & [H1 H2]%view_parts)].
  - apply view_parts in Hv as [H1 H2]. split; [by left|]. tauto.
  - destruct (register_grown q) as [Hg Hr]. unfold grown in *.
    rewrite H1, H2, <- Hq1, <- Hq2. tauto.
Qed.

Lemma draw_covered p out n r out' p' :
  chronoid_random_bytes out n p = Some (r, out', p') -> covered p -> covered p'.
Proof.
  intros E [Hm Hz]. destruct (draw_effect _ _ _ _ _ _ E) as [Hg Hr].
  split; [by eapply grown_hook|]. destruct Hr as [Hr|[Hr|[Hs Hr]]]; [by left| |].
  - rewrite (registered_same _ _ Hr), Hr. done.
  - left. rewrite Hr. destruct Hz as [?|Hz]; [done|]. by rewrite Hz in Hs.
Qed.

Definition life_ok p : Prop := thread_ok p /\ covered p.

(** The invariant is about the generator, the number of pending wipes and the
    refusal only. *)
Lemma covered_same p p' :
  covered p -> chronoid_tls_rng_ p' = chronoid_tls_rng_ p ->
  wipes (dtors p') = wipes (dtors p) -> refused p' = refused p -> covered p'.
Proof.
  intros [Hm Hz] Hr Hd Hf. unfold covered, hook_ok, dtors, refused in *.
  by rewrite (registered_same _ _ Hr), Hr, Hd, Hf.
Qed.

Lemma life_step_ok p p' : life_step p p' -> life_ok p -> life_ok p'.
Proof.
  intros Hs [Ht Hc]. destruct Hs as [op p p' Ha E|lens p].
  - split; [by eapply perform_ok|].
    destruct op as [out n| | | | |fn| |x]; cbn [allowed perform] in *; try done.
    + case_decide; [|done]. apply bind_Some in E as ([[r o] p1] & E & E1). injection E1 as <-.
      by eapply draw_covered.
    + injection E as <-. unfold covered, registered in *. destruct p. cbn in *.
      destruct Hc as [Hm Hz]. split; [done|]. destruct Hz as [Hz|Hz]; [by left|right].
      by rewrite Hz.
    + injection E as <-. unfold covered, registered in *. destruct p. cbn in *.
      destruct Hc as [Hm _]. by split; [|left].
    + injection E as <-. by destruct p.
    + apply bind_Some in E as ([t1 p1] & E & E1). injection E1 as <-.
      destruct (view_parts _ _ (now_ms_view _ _ _ Ha E)) as [Hv _].
      eapply covered_same; [exact Hc|by apply now_ms_preserves in E as (_ & ? & _)| |];
        unfold dtors, refused; by rewrite Hv.
    + injection E as <-. eapply covered_same; [exact Hc|by destruct p| |];
        unfold dtors, refused; destruct p; cbn in *; by rewrite Ha.
  - split; [destruct Ht; by destruct p|]. by eapply covered_same; [exact Hc|destruct p..].
Qed.

(** ** The exit *)

Definition weight_of (d : dtor) : nat :=
  match d with DtorWipe => 1 | DtorDraws lens => 1 + length lens end.
Definition weight (ds : list dtor) : nat := sum_list (weight_of <$> ds).

Lemma grown_weight p p' : grown p p' -> (weight (dtors p') <= weight (dtors p) + 1)%nat.
Proof.
  unfold dtors. intros [[-> _]|(_ & _ & w & ->)]; [lia|].
  unfold registration, weight. destruct (registers w); cbn; lia.
Qed.

(** One draw into a buffer of its own. *)
Lemma draw_life_ok n p r o p1 :
  chronoid_random_bytes (uninit n) n p = Some (r, o, p1) -> thread_ok p ->
  thread_ok p1 /\ (covered p -> covered p1) /\ (weight (dtors p1) <= weight (dtors p) + 1)%nat.
Proof.
  intros E [Hr Hd]. split_and!.
  - apply random_bytes_preserves in E as (H1 & H2 & _); [|done|by rewrite length_uninit].
    by split; [|congruence].
  - by eapply draw_covered.
  - eapply grown_weight, draw_effect, E.
Qed.

Lemma draws_none lens :
  foldl (fun o n => p ← o; '(_, _, p) ← chronoid_random_bytes (uninit n) n p; Some p)
    (None : option (process (dtor_env W))) lens = None.
Proof. by induction lens. Qed.

(** A destructor of the application. *)
Lemma draws_ok lens p p' :
  run_dtor (DtorDraws lens) p = Some p' -> life_ok p ->
  life_ok p' /\ (weight (dtors p') <= weight (dtors p) + length lens)%nat.
Proof.
  cbn [run_dtor]. revert p. induction lens as [|n lens IH]; intros p.
  { cbn. intros [= <-] Hok. split; [done|lia]. }
  cbn [foldl mbind option_bind]. intros E [Ht Hc].
  destruct (chronoid_random_bytes (uninit n) n p) as [[[r o] p1]|] eqn:E1.
  2:{ cbn [mbind option_bind] in E. by rewrite draws_none in E. }
  cbn [mbind option_bind] in E. destruct (draw_life_ok _ _ _ _ _ E1 Ht) as (Ht1 & Hc1 & Hw).
  destruct (IH p1 E (conj Ht1 (Hc1 Hc))) as [Hok2 Hw2]. split; [done|]. cbn [length]. lia.
Qed.

(** It returns, or one of its draws has no result. *)
Lemma draws_progress lens p :
  thread_ok p ->
  (exists p', run_dtor (DtorDraws lens) p = Some p') \/
  exists before n after p1, lens = before ++ n :: after /\
    run_dtor (DtorDraws before) p = Some p1 /\ draw_unanswered p1.
Proof.
  cbn [run_dtor]. revert p. induction lens as [|n lens IH]; intros p Ht; [by left; exists p|].
  cbn [foldl mbind option_bind].
  destruct (chronoid_random_bytes (uninit n) n p) as [[[r o] p1]|] eqn:E1.
  - destruct (draw_life_ok _ _ _ _ _ E1 Ht) as (Ht1 & _).
    destruct (IH p1 Ht1) as [?|(before & m & after & p2 & -> & E2 & Hu)]; [by left|right].
    exists (n :: before), m, after, p2. split; [done|]. split; [|done].
    cbn [foldl mbind option_bind]. by rewrite E1.
  - right. exists [], n, lens, p. split; [done|]. split; [done|].
    eapply draw_none_iff; [done| |exact E1]. by rewrite length_uninit.
Qed.

Lemma popped_parts ds p :
  dtors (popped ds p) = ds /\ refused (popped ds p) = refused p /\
  chronoid_tls_rng_ (popped ds p) = chronoid_tls_rng_ p /\
  (thread_ok p -> thread_ok (popped ds p)).
Proof. by destruct p. Qed.

(** The wipe returns with a zero generator, and nothing is pending for it. *)
Lemma wipe_ok ds p :
  dtors p = DtorWipe :: ds -> life_ok p ->
  exists p', run_dtor DtorWipe (popped ds p) = Some p' /\ life_ok p' /\ dtors p' = ds.
Proof.
  intros Ed [Ht [[Hn Hf] _]]. destruct (popped_parts ds p) as (Hd0 & Hf0 & _ & Ht0).
  destruct (Ht0 Ht) as [(Hst & Hb & _) Hd].
  destruct (wipe_spec (popped ds p) Hst Hb) as (p1 & E1 & Hr & Hd1 & _ & _ & He).
  exists p1. split; [done|].
  pose proof (f_equal destructor_registered Hr : registered p1 = false) as Hreg.
  assert (dtors p1 = ds /\ refused p1 = refused p) as [Hds Hrf]
    by (unfold dtors, refused in *; rewrite He; tauto).
  split; [split|done].
  - split; [rewrite Hr; apply zero_rng_ok|done].
  - split; [|by right]. fold (dtors p) in Hn. rewrite Ed in Hn. cbn [wipes] in Hn.
    unfold hook_ok. fold (dtors p1) (refused p1). rewrite Hreg, Hds, Hrf.
    fold (refused p) in Hn, Hf. destruct (registered p), (refused p); cbn in *; try done.
    split; [lia|done].
Qed.

Lemma popped_draws_ok lens ds p :
  dtors p = DtorDraws lens :: ds -> life_ok p -> life_ok (popped ds p).
Proof.
  intros Ed [Ht Hc]. destruct (popped_parts ds p) as (Hd0 & Hf0 & Hr0 & Ht0).
  split; [by apply Ht0|]. eapply covered_same; [exact Hc|done| |done]. by rewrite Hd0, Ed.
Qed.

Lemma exit_step_ok p p' :
  exit_step p p' -> life_ok p ->
  life_ok p' /\ (weight (dtors p') < weight (dtors p))%nat.
Proof.
  intros Hs Hok. destruct Hs as [d ds p p' Ed E].
  destruct d as [|lens].
  - destruct (wipe_ok ds p Ed Hok) as (p1 & E1 & Hok1 & Hd1). rewrite E1 in E. injection E as <-.
    split; [done|]. rewrite Hd1, Ed. unfold weight. cbn. lia.
  - destruct (draws_ok lens _ _ E (popped_draws_ok _ _ _ Ed Hok)) as [Hok' Hw]. split; [done|].
    rewrite (proj1 (popped_parts ds p)) in Hw. rewrite Ed. unfold weight in *. cbn. lia.
Qed.

Lemma exit_progress p :
  life_ok p -> dtors p <> [] -> (exists p', exit_step p p') \/ stuck p.
Proof.
  intros Hok Hne. destruct (dtors p) as [|[|lens] ds] eqn:Ed; [done|left|].
  - destruct (wipe_ok ds p Ed Hok) as (p1 & E1 & _). exists p1. by eapply step_dtor.
  - destruct (draws_progress lens (popped ds p)) as [[p' E]|(before & n & after & p1 & -> & E & Hu)].
    + by apply (popped_draws_ok _ _ _ Ed Hok).
    + left. exists p'. by eapply step_dtor.
    + right. by exists before, n, after, ds, p1.
Qed.

Lemma life_reach_ok w p : rtc life_step (fresh_thread (Pending [] false, w)) p -> life_ok p.
Proof.
  intros Hr. assert (life_ok (fresh_thread (Pending [] false, w))) as Hi.
  { split; [split; [apply zero_rng_ok|done]|]. split; [by split|by right]. }
  induction Hr; eauto using life_step_ok.
Qed.

Lemma exit_reach_ok p p' : rtc exit_step p p' -> life_ok p -> life_ok p'.
Proof. induction 1 as [|p p1 p2 Hs Hr IH]; [done|]. intros Hok. by apply IH, (exit_step_ok p p1). Qed.

(** The exit as a function; [weight] steps are enough. *)
Fixpoint exit_run (fuel : nat) p : process (dtor_env W) :=
  match fuel, dtors p with
  | S fuel', d :: ds =>
      match run_dtor d (popped ds p) with
      | Some p' => exit_run fuel' p'
      | None => p
      end
  | _, _ => p
  end.

Lemma exit_run_steps fuel p : rtc exit_step p (exit_run fuel p).
Proof.
  revert p. induction fuel as [|fuel IH]; intros p; [done|]. cbn [exit_run].
  destruct (dtors p) as [|d ds] eqn:Ed; [done|].
  destruct (run_dtor d _) as [p'|] eqn:E; [|done].
  eapply rtc_l; [by eapply step_dtor|apply IH].
Qed.
End ThreadEnd.

(** C27: What the end of a thread leaves of the generator, with no condition on
    the C library.  A thread draws, forces reseeds, sets test hooks and registers
    destructors of its own, which may draw again; then it exits and the library
    runs the destructors, last registered first.  When none is left, either the
    library has taken every registration and the whole generator is zero, whether
    the last destructor of the application ran before the wipe or after it; or it
    has refused one, and then the generator is still marked registered, which
    the zero of a wipe is not.  The exit ends: it takes at most one step per destructor
    and per draw of one, and as long as a destructor is pending there is a next
    step, unless that destructor makes a draw that has no result (which is when the
    clock or the entropy source leaves [chronoid_random_bytes] without one); the
    wipe is never such a destructor. *)
Theorem thread_end_leaves_nothing `{EntropySource W} `{ProcessId W} `{Clock W} `{wipe_config}
    registers (w : W) p :
  rtc (life_step registers) (fresh_thread (Pending [] false, w)) p ->
  (forall p', rtc (exit_step registers) p p' -> dtors p' = [] ->
     if refused p' then registered p' = true else chronoid_tls_rng_ p' = zero_rng) /\
  (forall p', rtc (exit_step registers) p p' -> refused p' = true ->
     exists w', registers w' = false) /\
  (forall k p', nsteps (exit_step registers) k p p' -> (k <= weight (dtors p))%nat) /\
  (forall p', rtc (exit_step registers) p p' -> dtors p' <> [] ->
     (exists p'', exit_step registers p' p'') \/ stuck registers p').
Proof.
  intros Hl. apply life_reach_ok in Hl. split_and!.
  - intros p' Hr Hd. apply exit_reach_ok in Hr as [_ [[Hn Hf] Hz]]; [|done].
    unfold refused, dtors in *. rewrite Hd in Hn. destruct (pd_refused (env p').1); [by apply Hf|].
    destruct Hz as [Hz|]; [|done]. by rewrite Hz in Hn.
  - intros p' Hr Hf. apply exit_reach_ok in Hr as [_ [[_ Hf'] _]]; [|done]. by apply Hf'.
  - intros k. revert p Hl. induction k as [|k IH]; intros p Hl p' Hr; [lia|].
    inversion Hr as [|k' x p1 z Hs Hr1]; subst.
    destruct (exit_step_ok registers p p1 Hs Hl) as [Hok Hw].
    specialize (IH p1 Hok p' Hr1). lia.
  - intros p' Hr. apply exit_progress. by eapply exit_reach_ok.
Qed.

(** ** Runs *)

#[local] Existing Instances portable_wipe linux_config demo_fuel.

Definition demo_below : machine toy_os := Machine (ToyOs [] 7 ∅) 100 (Some (1700000000, 0)).

(** A thread registers a destructor that draws two bytes and then draws three
    bytes: the wipe runs first, the destructor of the application seeds the
    generator again, and a second wipe clears it. *)
Definition demo_start (registers : machine toy_os -> bool) : process (dtor_env (machine toy_os)) :=
  set_env (Pending [DtorDraws [2%nat]] false, demo_below)
    (fresh_thread (Pending [] false, demo_below)).

Definition demo_drawn (registers : machine toy_os -> bool) : process (dtor_env (machine toy_os)) :=
  default (demo_start registers)
    (perform (EntropySource0 := dtor_entropy) (ProcessId0 := dtor_pid)
       (ThreadExit0 := dtor_exit registers) (Clock0 := dtor_clock)
       (OpDraw (uninit 3) 3) (demo_start registers)).

Lemma demo_life registers :
  is_Some (perform (EntropySource0 := dtor_entropy) (ProcessId0 := dtor_pid)
       (ThreadExit0 := dtor_exit registers) (Clock0 := dtor_clock)
       (OpDraw (uninit 3) 3) (demo_start registers)) ->
  rtc (life_step registers) (fresh_thread (Pending [] false, demo_below)) (demo_drawn registers).
Proof.
  intros [p E]. eapply rtc_l; [apply (step_register registers [2%nat])|].
  eapply rtc_l; [|apply rtc_refl]. unfold demo_drawn. rewrite E. by eapply (step_op registers (OpDraw _ _)).
Qed.

Lemma thread_end_leaves_nothing_witness :
  let p := demo_drawn (fun _ => true) in
  let p' := exit_run (fun _ => true) 3 p in
  dtors p = [DtorWipe; DtorDraws [2%nat]] /\ dtors p' = [] /\ refused p' = false /\
  chronoid_thread_exit_wipes_observed p' = 2 /\
  (if refused p' then registered p' = true else chronoid_tls_rng_ p' = zero_rng).
Proof.
  cbv zeta.
  assert (dtors (exit_run (fun _ => true) 3 (demo_drawn (fun _ => true))) = []) as Hd
    by (vm_compute; reflexivity).
  split; [vm_compute; reflexivity|]. split; [exact Hd|]. split; [vm_compute; reflexivity|].
  split; [vm_compute; reflexivity|].
  refine (proj1 (thread_end_leaves_nothing (fun _ => true) demo_below (demo_drawn (fun _ => true))
                   _) _ (exit_run_steps _ 3 _) Hd).
  apply demo_life. vm_compute. by eexists.
Defined.

(** rand_tls.c sets the flag before it registers and ignores the answer: where
    the C library refuses, the generator is marked registered, no later seeding
    tries again, and what it holds stays when the thread has ended. *)
Lemma refused_registration_leaves_state :
  let p := demo_drawn (fun _ => false) in
  rtc (life_step (fun _ => false)) (fresh_thread (Pending [] false, demo_below)) p /\
  refused p = true /\ registered p = true /\
  dtors (exit_run (fun _ => false) 1 p) = [] /\
  seeded (chronoid_tls_rng_ (exit_run (fun _ => false) 1 p)) = true.
Proof.
  split; [apply demo_life; vm_compute; by eexists|]. repeat split; vm_compute; reflexivity.
Qed.
