(* ===== verification/FlsExit.v ===== *)
(** * Thread exit on Windows: the fiber-local slot of chronoid/rand_tls.c

    Windows runs the callback of a fiber-local slot when a thread that has stored a
    value in it exits.  The process allocates one slot, once (InitOnce), and every
    thread stores its value when it seeds.  Both system calls can be refused.
    Threads are those of Threads.v over an environment that keeps the slot. *)
From stdpp Require Import relations.
From S2P Require Import Prelude Wipe Chacha20 RandOs Rand RandTls Keystream Machine TlsRng.
From S2P Require Import Threads Extra.

#[local] Opaque keystream next_state.

(** How often FlsAlloc was called, the index it gave, the running thread, and the
    threads with a value in the slot. *)
Record fls := Fls {
  fls_allocs : nat;
  fls_slot : Z;
  fls_current : nat;
  fls_values : nat -> bool
}.
Definition fls_env (W : Type) : Type := extra fls W.

Definition no_fls : fls := Fls 0 0 0 (fun _ => false).
Definition fls_run (i : nat) (f : fls) : fls :=
  Fls (fls_allocs f) (fls_slot f) i (fls_values f).
Definition fls_set (i : nat) (b : bool) (f : fls) : fls :=
  Fls (fls_allocs f) (fls_slot f) (fls_current f) (set_at i b (fls_values f)).
Definition fls_new (i : Z) (f : fls) : fls :=
  Fls (S (fls_allocs f)) i (fls_current f) (fls_values f).

Section FlsExit.
Context {W : Type} `{!EntropySource W} `{!ProcessId W} `{!Clock W} `{!wipe_config}.

(** What Windows answers: the index [FlsAlloc] gives, which is
    [FLS_OUT_OF_INDEXES] when it fails, and whether [FlsSetValue] succeeds. *)
Context (alloc : W -> Z) (takes : W -> bool).

#[local] Instance fls_entropy : EntropySource (fls_env W) := extra_entropy.
#[local] Instance fls_clock : Clock (fls_env W) := extra_clock.
#[local] Instance fls_pid : ProcessId (fls_env W) := extra_pid.
#[local] Instance fls_exit : ThreadExit (fls_env W) :=
  {| hook := HOOK_FLS;
     cxa_thread_atexit_impl := fun x => (-1, x);
     FlsAlloc := fun x => (alloc x.2, (fls_new (alloc x.2) x.1, x.2));
     FlsSetValue := fun i x =>
       if takes x.2 && (i =? fls_slot x.1)
       then (true, (fls_set (fls_current x.1) true x.1, x.2)) else (false, x) |}.

Implicit Types (p q : process (fls_env W)) (S : threads (fls_env W)) (i j : nat).

Definition slot S : fls := (t_env S).1.
Definition flag S i : bool := destructor_registered (t_rng S i).

(** ** Steps *)

Definition set_slot (f : fls) S : threads (fls_env W) :=
  Threads (t_rng S) (t_in_destructor S) (t_wipes S) (t_time_override S) (t_fls_index S)
    (t_fls_init S) (f, (t_env S).2).
Definition enter i S : threads (fls_env W) := set_slot (fls_run i (slot S)) S.

(** What a thread may do; the sentinel is for a registered thread (rand_tls.c
    says so), and the environment changes, but not the slot. *)
Definition allowed (op : operation (W := fls_env W)) p : Prop :=
  match op with
  | OpDraw _ _ | OpForceReseed | OpSetTimeSource _ => True
  | OpNowMs => clock_keeps p
  | OpSentinel => registered p = true
  | OpEnvironment x => x.1 = (env p).1
  | OpThreadExit | OpThreadStart => False
  end.

(** Windows ends thread [i]: the callback runs if the thread has a value, which
    is NULL by then. *)
Variant fls_end i S : threads (fls_env W) -> Prop :=
| end_callback p :
    fls_values (slot S) i = true ->
    chronoid_fls_destroy (view i (set_slot (fls_run i (fls_set i false (slot S))) S)) = Some p ->
    fls_end i S (put i p S)
| end_silent : fls_values (slot S) i = false -> fls_end i S S.

Variant fls_step S : threads (fls_env W) -> Prop :=
| step_op i op p :
    allowed op (view i (enter i S)) -> perform op (view i (enter i S)) = Some p ->
    fls_step S (put i p S)
| step_end i S' : fls_end i S S' -> fls_step S S'
| step_start i :
    fls_step S (set_slot (fls_set i false (slot S)) (put i (set_rng zero_rng (view i S)) S)).

(** ** The effect of a step on the hook *)

(** What registering does: nothing for a registered thread; else the slot is
    allocated, by the first caller only, and the value is stored. *)
Definition reg (a : Z) (t : bool) (v : bool * fls * Z * bool) : bool * fls * Z * bool :=
  let '(fl, f, k, b) := v in
  if fl then v
  else
    let '(k, f) := if (b : bool) then (k, f) else (a, fls_new a f) in
    if negb (k =? FLS_OUT_OF_INDEXES) && (t && (k =? fls_slot f))
    then (true, fls_set (fls_current f) true f, k, true) else (false, f, k, true).

Lemma register_view q :
  hook_view (chronoid_tls_register_thread_exit q)
  = reg (alloc (env q).2) (takes (env q).2) (hook_view q).
Proof.
  destruct q as [[st b q e t pd sd dr] d n o k f [x w]].
  unfold chronoid_tls_register_thread_exit. cbn -[FLS_OUT_OF_INDEXES Z.eqb].
  destruct dr; [by destruct f|]. unfold InitOnceExecuteOnce.
  destruct f; cbn -[FLS_OUT_OF_INDEXES Z.eqb].
  - destruct (k =? FLS_OUT_OF_INDEXES); cbn -[Z.eqb]; [done|].
    by destruct (takes w && _).
  - destruct (alloc w =? FLS_OUT_OF_INDEXES); cbn -[Z.eqb]; [done|].
    by destruct (takes w && _).
Qed.

(** An operation leaves the hook alone, and then a zero generator is still
    zero; or it registers. *)
Lemma perform_hook op p p' :
  allowed op p -> perform op p = Some p' ->
  (hook_view p' = hook_view p /\
   (chronoid_tls_rng_ p = zero_rng -> chronoid_tls_rng_ p' = zero_rng)) \/
  exists w, hook_view p' = reg (alloc w) (takes w) (hook_view p).
Proof.
  destruct op as [out n| | | | |fn| |x]; cbn [allowed perform]; intros Ha E; try done.
  - case_decide; [|done]. apply bind_Some in E as ([[r o] p1] & E & [= <-]).
    apply (draw_hook (X := fls) extra_pid_keeps) in E as [[Hv Hr]|(q & Hq & Hv)].
    + left. split; [done|]. intros Hz. destruct Hr as [Hr|Hs]; [exact (eq_trans Hr Hz)|].
      discriminate (eq_trans (eq_sym Hs) (f_equal seeded Hz)).
    + right. exists (env q).2. by rewrite Hv, register_view, Hq.
  - injection E as <-. left. destruct p. split; [done|]. cbn. by intros ->.
  - injection E as <-. left. destruct p. split; [done|]. cbn in *. intros ->. discriminate Ha.
  - injection E as <-. left. by destruct p.
  - left. apply bind_Some in E as ([t1 p1] & E & [= <-]). split; [by apply (now_ms_view _ t1)|].
    apply now_ms_preserves in E as (_ & Hr & _). intros Hz. exact (eq_trans Hr Hz).
  - injection E as <-. left. split; [by apply hook_view_env|]. by destruct p.
Qed.

(** ** The invariant *)

(** One call of [FlsAlloc] at most, and the index everybody uses is the one it
    gave; a registered thread has a value in a slot that exists. *)
Definition slot_ok (v : fls * Z * bool) : Prop :=
  let '(f, k, b) := v in
  if (b : bool) then fls_allocs f = 1%nat /\ k = fls_slot f
  else fls_allocs f = 0%nat /\ k = FLS_OUT_OF_INDEXES.

Definition armed (v : fls * Z * bool) j : Prop :=
  let '(f, k, b) := v in b = true /\ k <> FLS_OUT_OF_INDEXES /\ fls_values f j = true.

Definition shared S : fls * Z * bool := (slot S, t_fls_index S, t_fls_init S).

Definition fls_inv S : Prop :=
  all_ok S /\ slot_ok (shared S) /\ forall j, flag S j = true -> armed (shared S) j.

Lemma reg_ok a t fl f k b :
  slot_ok (f, k, b) -> (fl = true -> armed (f, k, b) (fls_current f)) ->
  let '(fl', f', k', b') := reg a t (fl, f, k, b) in
  slot_ok (f', k', b') /\ (fl' = true -> armed (f', k', b') (fls_current f)) /\
  (forall j, armed (f, k, b) j -> armed (f', k', b') j).
Proof.
  intros Hs Ha. unfold reg. destruct fl; [by split_and!|]. unfold armed, slot_ok in *.
  assert (forall i f1, fls_values (fls_set i true f1) i = true) as Hset
    by (intros; cbn; unfold set_at; by rewrite decide_True).
  assert (forall i f1 j, fls_values f1 j = true -> fls_values (fls_set i true f1) j = true) as Hmono
    by (intros i f1 j Hj; cbn; unfold set_at; by case_decide).
  destruct b; cbn -[FLS_OUT_OF_INDEXES Z.eqb].
  - destruct Hs as [Hal Hk]. rewrite <- Hk, Z.eqb_refl, andb_true_r.
    destruct (Z.eqb_spec k FLS_OUT_OF_INDEXES), t; cbn -[FLS_OUT_OF_INDEXES];
      split_and!; try done; intros; split_and!; try done; try tauto;
      [apply Hset|apply Hmono; tauto].
  - destruct Hs as [Hal Hk]. rewrite Z.eqb_refl, andb_true_r.
    destruct (Z.eqb_spec a FLS_OUT_OF_INDEXES), t; cbn -[FLS_OUT_OF_INDEXES];
      split_and!; try done; try lia; intros; split_and!; try done; try tauto.
    apply (Hset _ f).
Qed.

Lemma put_shared i p S :
  shared (put i p S) = ((env p).1, chronoid_fls_index_ p, chronoid_fls_init_ p).
Proof. by destruct p. Qed.

Lemma put_flag i p S j : flag (put i p S) j = if decide (j = i) then registered p else flag S j.
Proof. destruct p. unfold flag, put, set_at. cbn. by case_decide. Qed.

(** What thread [i] sees of the hook when it runs. *)
Definition enter_view i S : bool * fls * Z * bool :=
  (flag S i, fls_run i (slot S), t_fls_index S, t_fls_init S).

Lemma perform_view i op p S :
  allowed op (view i (enter i S)) -> perform op (view i (enter i S)) = Some p ->
  exists w, hook_view p = enter_view i S /\
      (t_rng S i = zero_rng -> chronoid_tls_rng_ p = zero_rng) \/
    hook_view p = reg (alloc w) (takes w) (enter_view i S).
Proof.
  intros Ha E. destruct (perform_hook _ _ _ Ha E) as [Hv|[w Hv]]; [|by exists w; right].
  exists (t_env S).2. by left.
Qed.

Lemma perform_inv i op p S :
  allowed op (view i (enter i S)) -> perform op (view i (enter i S)) = Some p ->
  fls_inv S -> fls_inv (put i p S).
Proof.
  intros Ha E (Hok & Hs & Harm). split; [|].
  { apply all_ok_put; [|done]. exact (perform_ok _ _ _ E (Hok i)). }
  destruct (perform_view _ _ _ _ Ha E) as (w & Hv).
  pose proof (reg_ok (alloc w) (takes w) (flag S i) (fls_run i (slot S)) (t_fls_index S)
                (t_fls_init S) Hs (Harm i)) as Hreg.
  assert (slot_ok (shared (put i p S)) /\ (registered p = true -> armed (shared (put i p S)) i) /\
          (forall j, armed (shared S) j -> armed (shared (put i p S)) j)) as (H1 & H2 & H3).
  { rewrite put_shared. unfold hook_view, enter_view in Hv. destruct Hv as [[Hv _]|Hv].
    2: { rewrite <- Hv in Hreg. exact Hreg. }
    destruct p as [r d n o k b x]. cbn in Hv |- *. injection Hv as -> -> -> ->.
    split; [done|]. split; [apply Harm|]. by intros j. }
  split; [done|]. intros j. rewrite put_flag. case_decide as Hj; [by subst|].
  intros Hf. by apply H3, Harm.
Qed.

(** What the callback leaves of thread [i]. *)
Definition ended i S : threads (fls_env W) :=
  Threads (set_at i zero_rng (t_rng S)) (set_at i false (t_in_destructor S))
    (int_wrap (t_wipes S + 1)) (t_time_override S) (t_fls_index S) (t_fls_init S)
    (fls_run i (fls_set i false (slot S)), (t_env S).2).

Lemma callback_eq i S :
  all_ok S ->
  chronoid_fls_destroy (view i (set_slot (fls_run i (fls_set i false (slot S))) S))
  = Some (view i (ended i S)).
Proof.
  intros Hok. destruct (Hok i) as [(Hst & Hb & _) _].
  unfold chronoid_fls_destroy. rewrite wipe_eq by done. unfold view, ended, set_at. cbn.
  by rewrite !decide_True by done.
Qed.

Lemma put_ended i S : put i (view i (ended i S)) S = ended i S.
Proof.
  unfold put, view, ended, set_at. cbn. rewrite !decide_True by done. f_equal.
Qed.

Lemma end_spec i S S' :
  all_ok S -> fls_end i S S' <->
  S' = if fls_values (slot S) i then ended i S else S.
Proof.
  intros Hok. split.
  - intros [p Hv E|Hv]; rewrite Hv; [|done]. rewrite callback_eq in E by done.
    injection E as <-. apply put_ended.
  - intros ->. destruct (fls_values (slot S) i) eqn:Hv; [|by apply end_silent].
    rewrite <- put_ended. apply end_callback; [done|by apply callback_eq].
Qed.

(** Clearing the value and the storage of thread [i]. *)
Lemma cleared_inv i r f S S' :
  fls_inv S -> all_ok S' -> shared S' = (f, t_fls_index S, t_fls_init S) ->
  fls_allocs f = fls_allocs (slot S) -> fls_slot f = fls_slot (slot S) ->
  fls_values f = set_at i false (fls_values (slot S)) ->
  t_rng S' = set_at i r (t_rng S) -> destructor_registered r = false -> fls_inv S'.
Proof.
  intros (_ & Hs & Harm) Hok Hsh Ha Hk Hv Hr Hd. split; [done|]. unfold shared in Hs, Harm.
  rewrite Hsh. unfold slot_ok, armed in *. rewrite Ha, Hk. split; [done|].
  intros j. unfold flag in *. rewrite Hr, Hv. unfold set_at. case_decide; [congruence|]. apply Harm.
Qed.

Lemma step_inv S S' : fls_step S S' -> fls_inv S -> fls_inv S'.
Proof.
  intros Hstep Hinv. pose proof Hinv as (Hok & _ & _).
  destruct Hstep as [i op p Ha E|i S' He|i]; [by eapply perform_inv| |].
  - apply end_spec in He as ->; [|done]. destruct (fls_values (slot S) i); [|done].
    apply (cleared_inv i zero_rng (fls_run i (fls_set i false (slot S))) S); try done.
    intros j. unfold ended, view, set_at. cbn. case_decide; [split; [apply zero_rng_ok|done]|].
    exact (Hok j).
  - apply (cleared_inv i zero_rng (fls_set i false (slot S)) S); try done.
    apply (all_ok_put i (set_rng zero_rng (view i S)) S); [|done].
    split; [apply zero_rng_ok|]. exact (proj2 (Hok i)).
Qed.

Lemma reach_inv w S : rtc fls_step (initial (no_fls, w)) S -> fls_inv S.
Proof.
  assert (fls_inv (initial (no_fls, w))) as Hi by (split; [apply all_ok_initial|done]).
  intros Hr. induction Hr; eauto using step_inv.
Qed.

(** ** A value in the slot is the mark *)

(** Conversely, a thread with a value is marked. *)
Definition values_marked S : Prop := forall j, fls_values (slot S) j = true -> flag S j = true.

Lemma reg_values a t fl f k b :
  (fls_values f (fls_current f) = true -> fl = true) ->
  let '(fl', f', k', b') := reg a t (fl, f, k, b) in
  (fls_values f' (fls_current f) = true -> fl' = true) /\
  forall j, j <> fls_current f -> fls_values f' j = fls_values f j.
Proof.
  intros Hv. unfold reg. destruct fl; [done|].
  assert (forall i f1 j, j <> i -> fls_values (fls_set i true f1) j = fls_values f1 j) as Hset
    by (intros; cbn; unfold set_at; by rewrite decide_False).
  destruct b; cbn -[FLS_OUT_OF_INDEXES Z.eqb fls_set]; destruct (_ && _); split; try done;
    intros j Hj; exact (Hset _ (fls_new a f) j Hj).
Qed.

Lemma step_values_marked S S' :
  fls_step S S' -> fls_inv S -> values_marked S -> values_marked S'.
Proof.
  intros Hstep (Hok & _ & _) Hv. destruct Hstep as [i op p Ha E|i S' He|i].
  - destruct (perform_view _ _ _ _ Ha E) as (w & Hp).
    pose proof (reg_values (alloc w) (takes w) (flag S i) (fls_run i (slot S)) (t_fls_index S)
                  (t_fls_init S) (Hv i)) as Hreg.
    assert ((fls_values (env p).1 i = true -> registered p = true) /\
            forall j, j <> i -> fls_values (env p).1 j = fls_values (slot S) j) as [H1 H2].
    { unfold hook_view, enter_view in Hp. destruct Hp as [[Hp _]|Hp].
      2: { rewrite <- Hp in Hreg. exact Hreg. }
      destruct p as [r d n o k b x]. cbn in Hp |- *. injection Hp as -> -> _ _.
      split; [apply Hv|done]. }
    intros j. rewrite put_flag. replace (slot (put i p S)) with (env p).1 by (by destruct p).
    case_decide as Hj; [by subst|]. rewrite (H2 j Hj). apply Hv.
  - apply end_spec in He as ->; [|done]. destruct (fls_values (slot S) i); [|done].
    intros j. unfold flag. cbn. unfold set_at. case_decide; [done|apply Hv].
  - intros j. unfold flag. cbn. unfold set_at. case_decide; [done|apply Hv].
Qed.

Lemma reach_values_marked w S : rtc fls_step (initial (no_fls, w)) S -> values_marked S.
Proof.
  assert (fls_inv (initial (no_fls, w)) /\ values_marked (initial (no_fls, w))) as Hi
    by (split; [split; [apply all_ok_initial|done]|done]).
  intros Hr. induction Hr as [|S1 S2 S3 Hs Hr IH]; [by destruct Hi|]. destruct Hi. apply IH.
  split; [by eapply step_inv|by eapply step_values_marked].
Qed.

(** So the end of a thread is decided by its mark. *)
Lemma end_by_flag i S S' :
  fls_inv S -> values_marked S -> fls_end i S S' <-> S' = if flag S i then ended i S else S.
Proof.
  intros (Hok & _ & Harm) Hv. rewrite end_spec by done.
  destruct (flag S i) eqn:Hf; [by destruct (Harm i Hf) as (_ & _ & ->)|].
  destruct (fls_values (slot S) i) eqn:E; [|done]. apply Hv in E. congruence.
Qed.

(** ** A slot that was refused *)

Lemma step_refused S S' :
  fls_step S S' -> fls_inv S -> t_fls_init S = true -> t_fls_init S' = true /\
  t_fls_index S' = t_fls_index S.
Proof.
  intros Hstep (Hok & _ & _) Hi. destruct Hstep as [i op p Ha E|i S' He|i]; [| |done].
  - destruct (perform_view _ _ _ _ Ha E) as (w & Hv). destruct p as [r d n o k b x].
    unfold hook_view, enter_view, reg in Hv. rewrite Hi in Hv. cbn -[FLS_OUT_OF_INDEXES Z.eqb] in *.
    destruct Hv as [[Hv _]|Hv]; [by injection Hv|].
    destruct (flag S i); [by injection Hv|]. case_match; by injection Hv.
  - apply end_spec in He as ->; [|done]. by destruct (fls_values (slot S) i).
Qed.

Lemma refused_unmarked S S' i :
  rtc fls_step S S' -> fls_inv S -> t_fls_init S = true ->
  t_fls_index S = FLS_OUT_OF_INDEXES -> flag S' i = false.
Proof.
  intros Hr'. induction Hr' as [S|S S1 S2 Hs Hr' IH]; intros Hinv Hi Hk.
  - destruct (flag S i) eqn:Hf; [|done]. destruct Hinv as (_ & _ & Harm).
    destruct (Harm i Hf) as (_ & Hne & _). by destruct Hne.
  - destruct (step_refused S S1 Hs Hinv Hi) as [Hi1 Hk1].
    apply IH; [by eapply step_inv|done|congruence].
Qed.

(** ** What Windows grants *)

Definition granted : Prop :=
  (forall w, alloc w <> FLS_OUT_OF_INDEXES) /\ (forall w, takes w = true).

Definition granted_inv S : Prop :=
  (t_fls_init S = true -> t_fls_index S <> FLS_OUT_OF_INDEXES) /\
  forall i, flag S i = true \/ t_rng S i = zero_rng.

Lemma reg_granted a t fl f k b :
  a <> FLS_OUT_OF_INDEXES -> t = true -> slot_ok (f, k, b) ->
  (b = true -> k <> FLS_OUT_OF_INDEXES) ->
  let '(fl', f', k', b') := reg a t (fl, f, k, b) in
  fl' = true /\ (b' = true -> k' <> FLS_OUT_OF_INDEXES).
Proof.
  intros Ha -> Hs Hk. unfold reg, slot_ok in *. destruct fl; [done|]. destruct b.
  - destruct Hs as [_ <-]. rewrite (proj2 (Z.eqb_neq _ _)) by auto. rewrite Z.eqb_refl. cbn. auto.
  - rewrite (proj2 (Z.eqb_neq _ _)) by auto. cbn -[FLS_OUT_OF_INDEXES]. rewrite Z.eqb_refl. cbn. auto.
Qed.

Lemma step_granted S S' :
  granted -> fls_step S S' -> fls_inv S -> granted_inv S -> granted_inv S'.
Proof.
  intros [Ha Ht] Hstep (Hok & Hs & Harm) [Hk Hc]. destruct Hstep as [i op p Hal E|i S' He|i].
  - destruct (perform_view _ _ _ _ Hal E) as (w & Hv).
    assert ((chronoid_fls_init_ p = true -> chronoid_fls_index_ p <> FLS_OUT_OF_INDEXES) /\
            (registered p = true \/ chronoid_tls_rng_ p = zero_rng)) as [H1 H2].
    { pose proof (reg_granted (alloc w) (takes w) (flag S i) (fls_run i (slot S)) (t_fls_index S)
                    (t_fls_init S) (Ha w) (Ht w) Hs Hk) as Hreg.
      destruct p as [r d n o k b x]. unfold hook_view, enter_view in Hv.
      cbn -[FLS_OUT_OF_INDEXES reg] in *. destruct Hv as [[Hv Hz]|Hv].
      - injection Hv as Hr _ -> ->. rewrite Hr. specialize (Hc i). tauto.
      - rewrite <- Hv in Hreg. tauto. }
    split; [by destruct p|]. intros j. rewrite put_flag. specialize (Hc j).
    destruct p. unfold put, set_at. cbn in *. by case_decide.
  - apply end_spec in He as ->; [|done]. destruct (fls_values (slot S) i); [|done].
    split; [done|]. intros j. unfold flag. cbn. unfold set_at. case_decide; [by right|apply Hc].
  - split; [done|]. intros j. unfold flag. cbn. unfold set_at. case_decide; [by right|apply Hc].
Qed.

Lemma reach_granted w S :
  granted -> rtc fls_step (initial (no_fls, w)) S -> fls_inv S /\ granted_inv S.
Proof.
  intros Hg. assert (fls_inv (initial (no_fls, w)) /\ granted_inv (initial (no_fls, w))) as Hi.
  { split; [split; [apply all_ok_initial|done]|]. split; [done|]. by right. }
  intros Hr. induction Hr as [|S1 S2 S3 Hs Hr IH]; [done|]. destruct Hi. apply IH.
  split; [by eapply step_inv|by eapply step_granted].
Qed.

(** Threads [l] draw three bytes each, in this order. *)
Fixpoint draws (l : list nat) S : option (threads (fls_env W)) :=
  match l with
  | [] => Some S
  | i :: l =>
      p ← perform (OpDraw (uninit 3) 3) (view i (enter i S));
      draws l (put i p S)
  end.

Lemma draws_reach l S S' : draws l S = Some S' -> rtc fls_step S S'.
Proof.
  revert S. induction l as [|i l IH]; intros S; cbn [draws]; [by intros [= <-]|].
  intros (p & E & Hl)%bind_Some. eapply rtc_l; [by eapply (step_op S i (OpDraw _ _))|by apply IH].
Qed.
End FlsExit.

(** C28: The thread-exit hook on Windows.  Any number of threads draw, force
    reseeds, use the test helpers, exit and start again, in any order.  FlsAlloc is
    called at most once for the process.  A thread can always end.  When one that is
    marked registered ends, Windows runs the callback: the generator of the thread
    is zero, the wipe is counted, and no other thread's generator has changed; when
    one that is not marked ends, no callback runs and nothing changes.  Where Windows
    refuses neither call, every thread that ends leaves a zero generator, marked or
    not.  And where the one call of FlsAlloc failed, from then on no thread is ever
    marked and no callback ever runs, so every thread that ends leaves its generator
    as it is. *)
Theorem fls_exit_hook `{EntropySource W} `{ProcessId W} `{Clock W} `{wipe_config}
    alloc takes (w : W) (S : threads (fls_env W)) :
  rtc (fls_step alloc takes) (initial (no_fls, w)) S ->
  (fls_allocs (slot S) <= 1)%nat /\
  (forall i, exists S', fls_end i S S') /\
  (forall i S', fls_end i S S' ->
     if flag S i
     then t_rng S' i = zero_rng /\ t_wipes S' = int_wrap (t_wipes S + 1) /\
          forall j, j <> i -> t_rng S' j = t_rng S j
     else S' = S) /\
  (granted alloc takes -> forall i S', fls_end i S S' -> t_rng S' i = zero_rng) /\
  (t_fls_init S = true -> t_fls_index S = FLS_OUT_OF_INDEXES ->
     forall S' i, rtc (fls_step alloc takes) S S' ->
       flag S' i = false /\ forall S'', fls_end i S' S'' -> S'' = S').
Proof.
  intros Hr. pose proof (reach_inv alloc takes w S Hr) as Hinv.
  pose proof (reach_values_marked alloc takes w S Hr) as Hv.
  assert (forall i S', fls_end i S S' <-> S' = if flag S i then ended i S else S) as Hend
    by (intros i S'; by apply end_by_flag).
  split_and!.
  - destruct Hinv as (_ & Hs & _). unfold slot_ok, shared in Hs.
    destruct (t_fls_init S); destruct Hs as [-> _]; lia.
  - intros i. eexists. by apply Hend.
  - intros i S' ->%Hend. destruct (flag S i); [|done]. cbn. unfold set_at.
    rewrite decide_True by done. split; [done|]. split; [done|]. intros j Hj. by rewrite decide_False.
  - intros Hg i S' ->%Hend. destruct (reach_granted alloc takes w S Hg Hr) as [_ [_ Hc]].
    destruct (flag S i) eqn:Hf; [cbn; unfold set_at; by rewrite decide_True|].
    destruct (Hc i); [congruence|done].
  - intros Hi Hk S' i Hr'. pose proof (refused_unmarked alloc takes S S' i Hr' Hinv Hi Hk) as Hf.
    split; [done|]. intros S'' He.
    assert (rtc (fls_step alloc takes) (initial (no_fls, w)) S') as Hr2 by (by etrans).
    apply end_by_flag in He; [by rewrite Hf in He|by eapply reach_inv|by eapply reach_values_marked].
Qed.

(** ** Runs *)

#[local] Existing Instances portable_wipe linux_config demo_fuel.

Definition demo_windows : machine toy_os := Machine (ToyOs [] 7 ∅) 100 (Some (1700000000, 0)).

(** Two threads draw, the first one twice. *)
Definition demo_threads (alloc : machine toy_os -> Z) (takes : machine toy_os -> bool)
    : threads (fls_env (machine toy_os)) :=
  default (initial (no_fls, demo_windows))
    (draws alloc takes [0%nat; 1%nat; 0%nat] (initial (no_fls, demo_windows))).

Lemma demo_threads_reach alloc takes :
  is_Some (draws alloc takes [0%nat; 1%nat; 0%nat] (initial (no_fls, demo_windows))) ->
  rtc (fls_step alloc takes) (initial (no_fls, demo_windows)) (demo_threads alloc takes).
Proof. unfold demo_threads. intros [S E]. rewrite E. by eapply draws_reach. Qed.

Lemma fls_exit_hook_witness :
  let S := demo_threads (fun _ => 4) (fun _ => true) in
  seeded (t_rng S 0%nat) = true /\ flag S 0 = true /\ flag S 1 = true /\
  (fls_allocs (slot S) <= 1)%nat /\
  (exists S', fls_end 0 S S') /\
  (forall S', fls_end 0 S S' ->
     t_rng S' 0%nat = zero_rng /\ t_wipes S' = int_wrap (t_wipes S + 1) /\
     forall j, j <> 0%nat -> t_rng S' j = t_rng S j) /\
  (forall i S', fls_end i S S' -> t_rng S' i = zero_rng).
Proof.
  assert (flag (demo_threads (fun _ => 4) (fun _ => true)) 0 = true) as Hf
    by (vm_compute; reflexivity).
  destruct (fls_exit_hook (fun _ => 4) (fun _ => true) demo_windows
              (demo_threads (fun _ => 4) (fun _ => true))) as (Hn & Hex & Hreg & Hg & _).
  { apply demo_threads_reach. vm_compute. by eexists. }
  split; [vm_compute; reflexivity|]. split; [exact Hf|]. split; [vm_compute; reflexivity|].
  split; [exact Hn|]. split; [apply Hex|].
  split; [intros S' He; specialize (Hreg 0%nat S' He); rewrite Hf in Hreg; exact Hreg|].
  apply Hg. split; [|done]. intros _. vm_compute. discriminate.
Defined.

(** A refused value is asked for again: the flag is set by the answer, so the
    next seeding tries once more (unlike the registration of __cxa_thread_atexit_impl,
    [refused_registration_leaves_state] of ThreadEnd).  Here Windows refuses until the
    clock has gone on by two hours. *)
Example refused_value_retried :
  let takes := fun m : machine toy_os =>
    match m_clock m with Some (t, _) => 1700007200 <=? t | None => false end in
  let S := demo_threads (fun _ => 4) takes in
  let later := put 0 (set_env (slot S, Machine (ToyOs [] 7 ∅) 100 (Some (1700007200, 0)))
                        (view 0 (enter 0 S))) S in
  seeded (t_rng S 0%nat) = true /\ flag S 0 = false /\
  (S' ← draws (fun _ => 4) takes [0%nat] later; Some (flag S' 0)) = Some true.
Proof. split_and!; vm_compute; reflexivity. Qed.

(** A refused slot is not: the callback of InitOnce returns TRUE also when
    [FlsAlloc] failed, so nobody asks again, and a thread that ends leaves its
    generator. *)
Lemma refused_slot_leaves_state :
  let S := demo_threads (fun _ => FLS_OUT_OF_INDEXES) (fun _ => true) in
  rtc (fls_step (fun _ => FLS_OUT_OF_INDEXES) (fun _ => true)) (initial (no_fls, demo_windows)) S /\
  fls_allocs (slot S) = 1%nat /\ fls_end 0 S S /\ seeded (t_rng S 0%nat) = true.
Proof.
  split; [apply demo_threads_reach; vm_compute; by eexists|]. split; [vm_compute; reflexivity|].
  split; [|vm_compute; reflexivity]. apply end_silent. vm_compute. reflexivity.
Qed.
