(* ===== verification/RaMemory.v ===== *)
(** * A memory with release stores and acquire loads

    The C11 atomics of the library are stored with [memory_order_release] and
    loaded with [memory_order_acquire].  A location holds all values ever stored
    to it, in modification order; the place of a value in that order is its
    timestamp.  A thread has a view: for every location, the oldest value it may
    still read.  A release store publishes the view of its thread with the
    value, an acquire load takes the published view over; a relaxed access does
    neither.  Timestamps need not be consecutive, so a store may go between two
    others in modification order. *)
From stdpp Require Import gmap.
From S2P Require Import Prelude.

Variant order := RLX | REL_ACQ.

(** ** Functions on locations *)

Section Update.
Context {L B : Type} `{!EqDecision L}.

Definition upd (l : L) (b : B) (f : L -> B) : L -> B :=
  fun l' => if decide (l = l') then b else f l'.

Lemma upd_eq l b f : upd l b f l = b.
Proof. unfold upd. by case_decide. Qed.
Lemma upd_ne l l' b f : l <> l' -> upd l b f l' = f l'.
Proof. intros Hl. unfold upd. by case_decide. Qed.
End Update.

(** ** Views *)

Section Views.
Context {L : Type} `{!EqDecision L}.

Definition view : Type := L -> nat.

Definition bot : view := fun _ => 0%nat.
#[export] Instance view_le : SqSubsetEq view := fun a b => forall l, (a l <= b l)%nat.
#[export] Instance view_join : Join view := fun a b l => (a l `max` b l)%nat.

#[export] Instance view_preorder : PreOrder (⊑@{view}).
Proof.
  split; [intros a l; apply Nat.le_refl|].
  intros a b c H1 H2 l. exact (Nat.le_trans _ _ _ (H1 l) (H2 l)).
Qed.

Lemma bot_le (a : view) : bot ⊑ a.
Proof. intros l. unfold bot. lia. Qed.
Lemma join_l (a b : view) : a ⊑ a ⊔ b.
Proof. intros l. unfold join, view_join. lia. Qed.
Lemma join_r (a b : view) : b ⊑ a ⊔ b.
Proof. intros l. unfold join, view_join. lia. Qed.
Lemma join_le (a b c : view) : a ⊑ c -> b ⊑ c -> a ⊔ b ⊑ c.
Proof. intros H1 H2 l. specialize (H1 l). specialize (H2 l). unfold join, view_join. lia. Qed.
Lemma upd_le (a : view) l t : (a l <= t)%nat -> a ⊑ upd l t a.
Proof.
  intros Ht l'. destruct (decide (l = l')) as [<-|Hl];
    [by rewrite upd_eq | by rewrite upd_ne].
Qed.

#[export] Instance join_proper : Proper ((⊑) ==> (⊑) ==> (⊑@{view})) join.
Proof. intros a a' Ha b b' Hb. apply join_le; etrans; eauto using join_l, join_r. Qed.
End Views.
Arguments view : clear implicits.

(** ** Messages and accesses *)

Section Memory.
Context {L V : Type} `{!EqDecision L}.

(** A stored value and the view published with it. *)
Record message := Msg { m_val : V; m_view : view L }.
Definition memory : Type := L -> gmap nat message.
Implicit Types (m : memory) (w : view L) (l : L) (t : nat).

Definition published (o : order) w l t : view L :=
  match o with REL_ACQ => upd l t w | RLX => upd l t bot end.

(** Storing [v] at timestamp [t], later than what the thread has seen. *)
Definition do_store (o : order) l (v : V) t m w : option (memory * view L) :=
  if decide (w l < t)%nat then
    match m l !! t with
    | None => Some (upd l (<[t := Msg v (published o w l t)]> (m l)) m, upd l t w)
    | Some _ => None
    end
  else None.

(** Loading the value at timestamp [t], not older than what the thread has
    seen. *)
Definition do_load (o : order) l t m w : option (V * view L) :=
  if decide (w l <= t)%nat then
    match m l !! t with
    | Some msg =>
        Some (m_val msg, w ⊔ match o with REL_ACQ => m_view msg | RLX => upd l t bot end)
    | None => None
    end
  else None.

Definition init_memory (v : L -> V) : memory := fun l => {[ 0%nat := Msg (v l) bot ]}.

(** ** Views point at messages *)

Definition view_closed m w : Prop := forall l, is_Some (m l !! w l).

Record mem_ok m : Prop := {
  mem_init_ok : view_closed m bot;
  mem_msg_ok : forall l t msg, m l !! t = Some msg -> m_view msg l = t /\ view_closed m (m_view msg)
}.

(** Every message of [m] is one of [m']. *)
Definition grows m m' : Prop := forall l t msg, m l !! t = Some msg -> m' l !! t = Some msg.

#[export] Instance grows_preorder : PreOrder grows.
Proof. split; [by intros m l t msg|]. intros m1 m2 m3 H1 H2 l t msg E. by apply H2, H1. Qed.

Lemma view_closed_grows m m' w : grows m m' -> view_closed m w -> view_closed m' w.
Proof. intros Hg Hw l. destruct (Hw l) as [msg E]. exists msg. by apply Hg. Qed.

Lemma view_closed_join m w w' : view_closed m w -> view_closed m w' -> view_closed m (w ⊔ w').
Proof.
  intros H1 H2 l. unfold join, view_join.
  destruct (Nat.max_spec (w l) (w' l)) as [[_ ->]|[_ ->]]; [apply H2 | apply H1].
Qed.

Lemma view_closed_upd m w l t : is_Some (m l !! t) -> view_closed m w -> view_closed m (upd l t w).
Proof.
  intros Ht Hw l'. destruct (decide (l = l')) as [<-|Hl];
    [by rewrite upd_eq | by rewrite upd_ne].
Qed.

Lemma init_memory_ok v : mem_ok (init_memory v).
Proof.
  assert (view_closed (init_memory v) bot) as Hb by (intros l; by eexists).
  split; [done|]. intros l t msg E. unfold init_memory in E.
  apply lookup_singleton_Some in E as [<- <-]. done.
Qed.

Lemma init_memory_latest v l t : is_Some (init_memory v l !! t) -> (t <= bot l)%nat.
Proof.
  intros [x E]. unfold init_memory in E. by apply lookup_singleton_Some in E as [<- _].
Qed.

(** What a store leaves: one message more, and the thread has seen it. *)
Lemma do_store_inv o l v t m w m' w' :
  do_store o l v t m w = Some (m', w') ->
  (w l < t)%nat /\ m l !! t = None /\ w' = upd l t w /\ w ⊑ w' /\ grows m m' /\
  (forall l' t' msg, m' l' !! t' = Some msg ->
     m l' !! t' = Some msg \/ (l' = l /\ t' = t /\ msg = Msg v (published o w l t))) /\
  m' l !! t = Some (Msg v (published o w l t)).
Proof.
  unfold do_store. case_decide as Ht; [|done]. destruct (m l !! t) eqn:E; [done|].
  intros [= <- <-]. split; [done|]. split; [done|]. split; [done|].
  split; [apply upd_le; lia|]. split; [|split].
  - intros l' t' msg E'. destruct (decide (l = l')) as [<-|Hl].
    + rewrite upd_eq, lookup_insert_ne; [done|congruence].
    + by rewrite upd_ne.
  - intros l' t' msg. destruct (decide (l = l')) as [<-|Hl].
    + rewrite upd_eq. destruct (decide (t = t')) as [<-|Ht'].
      * rewrite lookup_insert_eq. intros [= <-]. by right.
      * rewrite lookup_insert_ne by done. by left.
    + rewrite upd_ne by done. by left.
  - by rewrite upd_eq, lookup_insert_eq.
Qed.

Lemma do_load_inv o l t m w v w' :
  do_load o l t m w = Some (v, w') ->
  exists msg, m l !! t = Some msg /\ m_val msg = v /\ (w l <= t)%nat /\
    w' = w ⊔ match o with REL_ACQ => m_view msg | RLX => upd l t bot end.
Proof.
  unfold do_load. case_decide as Ht; [|done]. destruct (m l !! t) as [msg|] eqn:E; [|done].
  intros [= <- <-]. by exists msg.
Qed.

Lemma do_store_ok o l v t m w m' w' :
  mem_ok m -> view_closed m w -> do_store o l v t m w = Some (m', w') ->
  mem_ok m' /\ view_closed m' w'.
Proof.
  intros [Hb Hm] Hw E. apply do_store_inv in E as (Ht & Hf & -> & _ & Hg & Hnew & Hl).
  assert (forall u, view_closed m u -> view_closed m' (upd l t u)) as Hins
    by (intros u Hu; apply view_closed_upd; [by eexists | by eapply view_closed_grows]).
  split; [split|]; [by eapply view_closed_grows| |by apply Hins].
  intros l' t' msg E. destruct (Hnew _ _ _ E) as [E'|(-> & -> & ->)].
  - destruct (Hm _ _ _ E') as [? ?]. split; [done|]. by eapply view_closed_grows.
  - split; [by destruct o; cbn; rewrite upd_eq|]. destruct o; by apply Hins.
Qed.

Lemma do_load_ok o l t m w v w' :
  mem_ok m -> view_closed m w -> do_load o l t m w = Some (v, w') -> view_closed m w' /\ w ⊑ w'.
Proof.
  intros [Hb Hm] Hw E. apply do_load_inv in E as (msg & E & _ & Ht & ->).
  split; [|apply join_l]. apply view_closed_join; [done|].
  destruct o; [by apply view_closed_upd; [eexists|]|]. by apply (Hm l t).
Qed.

(** An acquire load has seen what was published with the value. *)
Lemma do_load_acquires l t m w v w' :
  mem_ok m -> do_load REL_ACQ l t m w = Some (v, w') ->
  exists msg, m l !! t = Some msg /\ m_val msg = v /\ (w l <= t)%nat /\ m_view msg ⊑ w' /\
    (t <= w' l)%nat.
Proof.
  intros [_ Hm] E. apply do_load_inv in E as (msg & E & Hv & Ht & ->). exists msg.
  split; [done|]. split; [done|]. split; [done|]. split; [apply join_r|].
  destruct (Hm _ _ _ E) as [Hl _]. rewrite <- Hl at 1. apply join_r.
Qed.

(** A thread's view takes part in every later choice of a value: coherence. *)
Lemma do_load_coherent o l t m w v w' :
  do_load o l t m w = Some (v, w') -> (w l <= t)%nat.
Proof. intros E. by apply do_load_inv in E as (? & _ & _ & ? & _). Qed.
End Memory.
Arguments message : clear implicits.
Arguments memory : clear implicits.
Arguments Msg {L V}.
Arguments m_val {L V}.
Arguments m_view {L V}.

#[export] Hint Resolve bot_le join_l join_r : views.
