(* ===== verification/Override.v ===== *)
(** * The random source override: chronoid_set_rand and
    chronoid_internal_fill_random (chronoid/ksuid/ksuid.c)

    The two slots are separate atomics.  The first part runs writers and a
    reader of the slots step by step and in every interleaving; the second part
    puts the override on top of the per-thread generator, which gives the
    random source the generators of both formats draw from. *)
From stdpp Require Import relations.
From S2P Require Import Prelude Radix Wipe Chacha20 RandOs Rand RandTls Keystream Machine TlsRng.

(** ** Draws racing with swaps

    [F] is the type of hooks ([None] is NULL), [C] that of contexts.  The
    release stores and acquire loads of the source make a load that reads a
    stored hook see every store before it, as in an interleaving. *)
Section Race.
Context {F C : Type}.

(** What a call of [chronoid_set_rand (fn, ctx)] and a call of
    [chronoid_internal_fill_random] have still to do. *)
Variant setter := SetIdle | SetStoreFn (fn : option F).
Variant drawer := DrawLoadFn | DrawLoadCtx (fn : F) | DrawCall (fn : F) (ctx : C) | DrawDefault.

Record race := Race {
  r_fn : option F;
  r_ctx : C;
  r_setter : setter;
  r_todo : list (option F * C);
  r_drawer : drawer
}.

(** One atomic access of either thread. *)
Variant race_step : race -> race -> Prop :=
| step_store_ctx f c fn ctx todo d :
    race_step (Race f c SetIdle ((fn, ctx) :: todo) d) (Race f ctx (SetStoreFn fn) todo d)
| step_store_fn f c fn todo d :
    race_step (Race f c (SetStoreFn fn) todo d) (Race fn c SetIdle todo d)
| step_load_fn f c s todo :
    race_step (Race f c s todo DrawLoadFn)
      (Race f c s todo (match f with Some fn => DrawLoadCtx fn | None => DrawDefault end))
| step_load_ctx f c s todo fn :
    race_step (Race f c s todo (DrawLoadCtx fn)) (Race f c s todo (DrawCall fn c)).

(** Before any swap of the list [swaps] the slots hold [installed]. *)
Definition race_init (installed : option F * C) (swaps : list (option F * C)) : race :=
  Race installed.1 installed.2 SetIdle swaps DrawLoadFn.

(** [k] swaps have been started; what the slots and the draw hold is from
    swaps up to the [k]-th, and the draw's context is not older than its
    hook. *)
Definition race_inv (all : list (option F * C)) (s : race) : Prop :=
  exists k, drop (S k) all = r_todo s /\ snd <$> all !! k = Some (r_ctx s) /\
    (match r_setter s with
     | SetIdle => fst <$> all !! k = Some (r_fn s)
     | SetStoreFn fn => fst <$> all !! k = Some fn /\
         exists i, (i <= k)%nat /\ fst <$> all !! i = Some (r_fn s)
     end) /\
    match r_drawer s with
    | DrawLoadCtx fn => exists i, (i <= k)%nat /\ fst <$> all !! i = Some (Some fn)
    | DrawCall fn ctx => exists i j, (i <= j)%nat /\
        fst <$> all !! i = Some (Some fn) /\ snd <$> all !! j = Some ctx
    | _ => True
    end.

Lemma race_inv_init installed swaps : race_inv (installed :: swaps) (race_init installed swaps).
Proof. exists 0%nat. by destruct installed. Qed.

Lemma race_inv_step all s s' : race_step s s' -> race_inv all s -> race_inv all s'.
Proof.
  intros [f c fn ctx todo d|f c fn todo d|f c st todo|f c st todo fn] (k & Ht & Hc & Hs & Hd);
    cbn [r_todo r_ctx r_setter r_fn r_drawer] in *.
  - assert (all !! S k = Some (fn, ctx)) as Hk.
    { rewrite <- (Nat.add_0_r (S k)), <- lookup_drop, Ht. done. }
    exists (S k). cbn [r_todo r_ctx r_setter r_fn r_drawer]. rewrite Hk. split_and!; try done.
    + rewrite <- (Nat.add_1_r (S k)), <- drop_drop, Ht. done.
    + exists k. split; [lia | done].
    + destruct d; try done. destruct Hd as (i & Hi & E). exists i. split; [lia | done].
  - exists k. cbn. destruct Hs as [Hs _]. split_and!; done.
  - exists k. cbn. split_and!; try done. destruct f as [fn|]; [|done].
    destruct st; [by exists k|]. destruct Hs as (_ & i & Hi & E). by exists i.
  - exists k. cbn. split_and!; try done. destruct Hd as (i & Hi & E). by exists i, k.
Qed.

Lemma race_inv_reach all s s' : rtc race_step s s' -> race_inv all s -> race_inv all s'.
Proof. induction 1; eauto using race_inv_step. Qed.

(** One call of [chronoid_set_rand], alone. *)
Lemma setter_steps f c fn ctx d :
  rtc race_step (Race f c SetIdle [(fn, ctx)] d) (Race fn ctx SetIdle [] d).
Proof. eapply rtc_l; [apply step_store_ctx|]. eapply rtc_l; [apply step_store_fn|]. apply rtc_refl. Qed.

(** One draw, alone. *)
Lemma drawer_steps f c s todo :
  rtc race_step (Race f c s todo DrawLoadFn)
    (Race f c s todo (match f with Some fn => DrawCall fn c | None => DrawDefault end)).
Proof.
  eapply rtc_l; [apply step_load_fn|]. destruct f; [|apply rtc_refl].
  eapply rtc_l; [apply step_load_ctx|]. apply rtc_refl.
Qed.

(** A draw that races with any number of [chronoid_set_rand] calls never
    combines a hook with an older context.  If the draw calls hook [fn] with
    context [ctx], then [fn] was installed by some call, [ctx] by the same or a
    later call; both are values some call installed. *)
Theorem override_ctx_not_older installed swaps s fn ctx :
  rtc race_step (race_init installed swaps) s -> r_drawer s = DrawCall fn ctx ->
  exists i j, (i <= j)%nat /\ fst <$> (installed :: swaps) !! i = Some (Some fn) /\
    snd <$> (installed :: swaps) !! j = Some ctx.
Proof.
  intros Hr Hd. apply (race_inv_reach (installed :: swaps)) in Hr; [|apply race_inv_init].
  destruct Hr as (k & _ & _ & _ & H). by rewrite Hd in H.
Qed.

(** The pair is not one snapshot: a draw that loads the old hook before a swap
    and the context during it calls the old hook with the new context. *)
Lemma override_crossed fn0 ctx0 fn1 ctx1 :
  exists s, rtc race_step (race_init (Some fn0, ctx0) [(fn1, ctx1)]) s /\
    r_drawer s = DrawCall fn0 ctx1.
Proof.
  exists (Race (Some fn0) ctx1 (SetStoreFn fn1) [] (DrawCall fn0 ctx1)). split.
  - eapply rtc_l; [apply step_load_fn|]. eapply rtc_l; [apply step_store_ctx|].
    eapply rtc_l; [apply step_load_ctx|]. apply rtc_refl.
  - done.
Qed.
End Race.

Example override_ctx_not_older_witness :
  rtc race_step (race_init (Some 10, 20) [(Some 11, 21)])
    (Race (Some 10) 21 (SetStoreFn (Some 11)) [] (DrawCall 10 21)) /\
  exists i j, (i <= j)%nat /\ fst <$> [(Some 10, 20); (Some 11, 21)] !! i = Some (Some 10) /\
    snd <$> [(Some 10, 20); (Some 11, 21)] !! j = Some 21.
Proof.
  assert (rtc race_step (race_init (Some 10, 20) [(Some 11, 21)])
    (Race (Some 10) 21 (SetStoreFn (Some 11)) [] (DrawCall 10 21))) as Hr.
  { eapply rtc_l; [apply step_load_fn|]. eapply rtc_l; [apply step_store_ctx|].
    eapply rtc_l; [apply step_load_ctx|]. apply rtc_refl. }
  split; [exact Hr|].
  exact (override_ctx_not_older (Some 10, 20) [(Some 11, 21)] _ 10 21 Hr eq_refl).
Defined.

(** ** The source the generators use *)

(** A thread whose generator is in order. *)
Record tls_thread (W : Type) := Thread {
  thread_process : process W;
  thread_ok : rng_ok (chronoid_tls_rng_ thread_process)
}.
Arguments Thread {W}.
Arguments thread_process {W}.
Arguments thread_ok {W}.

(** A hook [fn (ctx, buf, n)]: the return code and the buffer afterwards.  It
    stays inside the buffer and stores bytes. *)
Record chronoid_rng_fn (T : Type) := RngFn {
  rng_call : Z -> list Z -> nat -> T -> option (Z * list Z * T);
  rng_call_ok : forall ctx b n t r b' t',
    rng_call ctx b n t = Some (r, b', t') -> length b' = length b /\ (bytes b -> bytes b')
}.
Arguments rng_call {T}.
Arguments rng_call_ok {T}.

(** The two slots of ksuid.c and the thread below them. *)
Record program (W : Type) := Program {
  g_rng_fn : option (chronoid_rng_fn (tls_thread W));
  g_rng_ctx : Z;
  caller : tls_thread W
}.
Arguments Program {W}.
Arguments g_rng_fn {W}.
Arguments g_rng_ctx {W}.
Arguments caller {W}.

Section Source.
Context {W : Type} `{!EntropySource W} `{!ProcessId W} `{!ThreadExit W} `{!Clock W}
  `{!wipe_config}.

Definition chronoid_set_rand (fn : option (chronoid_rng_fn (tls_thread W))) (ctx : Z)
    (p : program W) : program W :=
  let p := Program (g_rng_fn p) ctx (caller p) in
  Program fn (g_rng_ctx p) (caller p).

(** The result of a call that keeps the generator in order. *)
Definition keep_ok {A} (o : option (A * process W)) :
    (forall a p, o = Some (a, p) -> rng_ok (chronoid_tls_rng_ p)) -> option (A * tls_thread W) :=
  match o with
  | Some (a, p) => fun H => Some (a, Thread p (H a p eq_refl))
  | None => fun _ => None
  end.

Lemma keep_ok_inv {A} (o : option (A * process W)) Ho a t :
  keep_ok o Ho = Some (a, t) -> o = Some (a, thread_process t).
Proof. destruct o as [[a1 p1]|]; cbn; [|done]. by intros [= <- <-]. Qed.

Lemma keep_ok_Some {A} (o : option (A * process W)) Ho a p :
  o = Some (a, p) -> exists t, keep_ok o Ho = Some (a, t) /\ thread_process t = p.
Proof. destruct o as [[a1 p1]|]; cbn; [|done]. intros [= <- <-]. by eexists. Qed.

Lemma random_bytes_keeps (t : tls_thread W) b n : (n <= length b)%nat ->
  forall a p, chronoid_random_bytes b n (thread_process t) = Some (a, p) ->
  rng_ok (chronoid_tls_rng_ p).
Proof.
  intros Hn [r b'] p E. by apply (random_bytes_preserves _ _ _ _ _ _ (thread_ok t) Hn) in E as [? _].
Qed.

(** [chronoid_random_bytes] for a thread in order. *)
Definition thread_random_bytes (b : list Z) (n : nat) (t : tls_thread W)
    : option (Z * list Z * tls_thread W) :=
  match decide (n <= length b)%nat with
  | left Hn => keep_ok _ (random_bytes_keeps t b n Hn)
  | right _ => None
  end.

Lemma thread_random_bytes_inv b n t r b' t' :
  thread_random_bytes b n t = Some (r, b', t') ->
  chronoid_random_bytes b n (thread_process t) = Some (r, b', thread_process t') /\
  length b' = length b /\ (bytes b -> bytes b').
Proof.
  unfold thread_random_bytes. case_decide as Hn; [|done]. intros E. apply keep_ok_inv in E.
  split; [done|]. by apply (random_bytes_preserves _ _ _ _ _ _ (thread_ok t) Hn) in E as (_ & _ & ?).
Qed.

Definition chronoid_internal_fill_random (b : list Z) (n : nat) (p : program W)
    : option (Z * list Z * program W) :=
  match g_rng_fn p with
  | Some fn =>
      '(r, b, t) ← rng_call fn (g_rng_ctx p) b n (caller p);
      Some (r, b, Program (g_rng_fn p) (g_rng_ctx p) t)
  | None =>
      '(r, b, t) ← thread_random_bytes b n (caller p);
      Some (r, b, Program (g_rng_fn p) (g_rng_ctx p) t)
  end.

(** The callers pass a local array of [n] bytes. *)
Lemma internal_fill_random_ok n p r b p' :
  chronoid_internal_fill_random (uninit n) n p = Some (r, b, p') -> length b = n /\ bytes b.
Proof.
  assert (bytes (uninit n)) as Hu by (apply bytes_replicate; unfold uint; lia).
  unfold chronoid_internal_fill_random. destruct (g_rng_fn p) as [fn|]; intros E; inv_bind;
    destruct x as [[r1 b1] t1]; injection E as <- <- <-.
  - apply rng_call_ok in Hx as [Hl Hb]. by rewrite Hl, length_uninit; auto.
  - apply thread_random_bytes_inv in Hx as (_ & Hl & Hb). by rewrite Hl, length_uninit; auto.
Qed.

#[export] Instance program_random : RandomSource (program W) :=
  { fill_random := fun n p => chronoid_internal_fill_random (uninit n) n p;
    fill_random_ok := internal_fill_random_ok }.

(** Without an override a draw is a draw of the calling thread. *)
Lemma fill_random_thread n p r b q :
  g_rng_fn p = None ->
  chronoid_random_bytes (uninit n) n (thread_process (caller p)) = Some (r, b, q) ->
  exists th, fill_random n p = Some (r, b, Program None (g_rng_ctx p) th) /\
    thread_process th = q.
Proof.
  intros Hg E. cbn [fill_random program_random]. unfold chronoid_internal_fill_random.
  rewrite Hg. unfold thread_random_bytes.
  case_decide as Hn; [|by rewrite length_uninit in Hn].
  destruct (keep_ok_Some _ (random_bytes_keeps (caller p) (uninit n) n Hn) _ _ E) as (th & -> & Hth).
  by exists th.
Qed.

(** The clocks of the program, through the thread. *)

Lemma now_ms_keeps (t : tls_thread W) a p :
  chronoid_now_ms (thread_process t) = Some (a, p) -> rng_ok (chronoid_tls_rng_ p).
Proof. intros E. apply now_ms_preserves in E as (_ & -> & _). apply thread_ok. Qed.

Definition program_now_ms (p : program W) : option (Z * program W) :=
  '(t, th) ← keep_ok _ (now_ms_keeps (caller p));
  Some (t, Program (g_rng_fn p) (g_rng_ctx p) th).

Lemma program_now_ms_ok p t p' : program_now_ms p = Some (t, p') -> int64 t.
Proof.
  unfold program_now_ms. intros E. apply bind_Some in E as ([t1 th] & E & H1).
  injection H1 as <- <-. apply keep_ok_inv in E. by apply now_ms_preserves in E as [? _].
Qed.

#[export] Instance program_now : NowMs (program W) :=
  { now_ms := program_now_ms; now_ms_ok := program_now_ms_ok }.
End Source.
