(* ===== verification/OverrideMemory.v ===== *)
(** * The hook slots of ksuid.c on release/acquire memory

    Any number of threads call [chronoid_set_rand] and draw.  The two slots live
    in the memory of RaMemory; a draw loads a value of each slot that its thread
    may still read, which need not be the latest one.  The first result says
    what pairs a draw can see whatever the callers do; the second one is the
    contract of ksuid.h on the lifetime of a context, for callers that do not
    swap from two threads at once. *)
From stdpp Require Import gmap relations.
From S2P Require Import Prelude RaMemory.

Variant slot := FnSlot | CtxSlot.

#[export] Instance slot_eq_dec : EqDecision slot.
Proof. solve_decision. Defined.

Section Hooks.
(** Hooks ([None] is NULL) and contexts. *)
Context {F C : Type}.

(** A stored value, with the number of the call of [chronoid_set_rand] that
    stored it, for the record. *)
Variant slot_value := FnVal (fn : option F) | CtxVal (ctx : C).
Record write := Write { w_call : nat; w_val : slot_value }.

Notation mem := (memory slot write).
Notation msg := (message slot write).

(** Where a thread is.  A draw remembers the view it was entered with and, for
    the record, the calls whose values it loaded. *)
Variant task :=
| Idle
| SetStore (k : nat) (fn : option F)
| DrawFn (start : view slot)
| DrawCtx (start : view slot) (a : nat) (fn : F)
| DrawCall (start : view slot) (a : nat) (fn : F) (b : nat) (ctx : C)
| DrawDefault (start : view slot).

Record hooks := Hooks {
  h_mem : mem;
  h_calls : list (option F * C);
  h_threads : list (view slot * task)
}.

(** The orders of the stores and of the loads, and when a thread with a given
    view may enter [chronoid_set_rand]. *)
Context (st_order ld_order : order) (may_swap : hooks -> view slot -> Prop).

Variant hook_step : hooks -> hooks -> Prop :=
| step_set_ctx m cs ths i w fn ctx t m' w' :
    ths !! i = Some (w, Idle) -> may_swap (Hooks m cs ths) w ->
    do_store st_order CtxSlot (Write (length cs) (CtxVal ctx)) t m w = Some (m', w') ->
    hook_step (Hooks m cs ths)
      (Hooks m' (cs ++ [(fn, ctx)]) (<[i := (w', SetStore (length cs) fn)]> ths))
| step_set_fn m cs ths i w k fn t m' w' :
    ths !! i = Some (w, SetStore k fn) ->
    do_store st_order FnSlot (Write k (FnVal fn)) t m w = Some (m', w') ->
    hook_step (Hooks m cs ths) (Hooks m' cs (<[i := (w', Idle)]> ths))
| step_draw m cs ths i w :
    ths !! i = Some (w, Idle) ->
    hook_step (Hooks m cs ths) (Hooks m cs (<[i := (w, DrawFn w)]> ths))
| step_draw_fn m cs ths i w start t a fn w' :
    ths !! i = Some (w, DrawFn start) ->
    do_load ld_order FnSlot t m w = Some (Write a (FnVal fn), w') ->
    hook_step (Hooks m cs ths)
      (Hooks m cs (<[i := (w', match fn with
                               | Some fn => DrawCtx start a fn
                               | None => DrawDefault start
                               end)]> ths))
| step_draw_ctx m cs ths i w start a fn t b ctx w' :
    ths !! i = Some (w, DrawCtx start a fn) ->
    do_load ld_order CtxSlot t m w = Some (Write b (CtxVal ctx), w') ->
    hook_step (Hooks m cs ths) (Hooks m cs (<[i := (w', DrawCall start a fn b ctx)]> ths))
| step_drawn m cs ths i w tk :
    ths !! i = Some (w, tk) ->
    match tk with DrawCall _ _ _ _ _ | DrawDefault _ => True | _ => False end ->
    hook_step (Hooks m cs ths) (Hooks m cs (<[i := (w, Idle)]> ths))
| step_sync m cs ths i j w w' tk tk' :
    ths !! i = Some (w, tk) -> ths !! j = Some (w', tk') ->
    hook_step (Hooks m cs ths) (Hooks m cs (<[j := (w' ⊔ w, tk')]> ths))
| step_spawn m cs ths i w tk :
    ths !! i = Some (w, tk) ->
    hook_step (Hooks m cs ths) (Hooks m cs (ths ++ [(w, Idle)])).

(** Static storage: the pair the program starts with counts as call 0. *)
Definition hooks_init (installed : option F * C) : hooks :=
  Hooks (init_memory (fun l => Write 0 match l with
                                       | FnSlot => FnVal installed.1
                                       | CtxSlot => CtxVal installed.2
                                       end))
    [installed] [(bot, Idle)].

(** ** What holds whatever the callers do *)

(** The context of call [a] is in the slot at or before timestamp [t]. *)
Definition ctx_before (m : mem) (a t : nat) : Prop :=
  exists u x, (u <= t)%nat /\ m CtxSlot !! u = Some x /\ w_call (m_val x) = a.

(** Call [a] stored the message of the slot at timestamp [t]. *)
Definition stored_by (m : mem) (l : slot) (t a : nat) : Prop :=
  exists x, m l !! t = Some x /\ w_call (m_val x) = a.

Definition message_ok (m : mem) (cs : list (option F * C)) (l : slot) (x : msg) : Prop :=
  match l, w_val (m_val x) with
  | FnSlot, FnVal fn =>
      fst <$> cs !! w_call (m_val x) = Some fn /\
      ctx_before m (w_call (m_val x)) (m_view x CtxSlot)
  | CtxSlot, CtxVal ctx => snd <$> cs !! w_call (m_val x) = Some ctx
  | _, _ => False
  end.

Definition task_ok (m : mem) (cs : list (option F * C)) (w : view slot) (tk : task) : Prop :=
  match tk with
  | Idle => True
  | SetStore k fn => fst <$> cs !! k = Some fn /\ ctx_before m k (w CtxSlot)
  | DrawFn start => start ⊑ w
  | DrawCtx start a fn =>
      start ⊑ w /\ fst <$> cs !! a = Some (Some fn) /\ ctx_before m a (w CtxSlot) /\
      exists t, (start FnSlot <= t)%nat /\ stored_by m FnSlot t a
  | DrawCall start a fn b ctx =>
      fst <$> cs !! a = Some (Some fn) /\ snd <$> cs !! b = Some ctx /\
      (exists t, (start FnSlot <= t)%nat /\ stored_by m FnSlot t a) /\
      exists t, (start CtxSlot <= t)%nat /\ stored_by m CtxSlot t b /\ ctx_before m a t
  | DrawDefault start => True
  end.

Definition thread_ok m cs (x : view slot * task) : Prop :=
  view_closed m x.1 /\ task_ok m cs x.1 x.2.

Record hooks_ok (s : hooks) : Prop := {
  hooks_mem_ok : mem_ok (h_mem s);
  hooks_messages_ok : forall l t x, h_mem s l !! t = Some x ->
    message_ok (h_mem s) (h_calls s) l x;
  hooks_threads_ok : Forall (thread_ok (h_mem s) (h_calls s)) (h_threads s)
}.

Lemma ctx_before_mono m m' a t t' :
  grows m m' -> (t <= t')%nat -> ctx_before m a t -> ctx_before m' a t'.
Proof. intros Hg Ht (u & x & Hu & E & Hx). exists u, x. split_and!; [lia|by apply Hg|done]. Qed.

Lemma stored_by_mono m m' l t a : grows m m' -> stored_by m l t a -> stored_by m' l t a.
Proof. intros Hg (x & E & Hx). exists x. split; [by apply Hg|done]. Qed.

Lemma calls_prefix {A} (f : option F * C -> A) cs cs' k v :
  cs `prefix_of` cs' -> f <$> cs !! k = Some v -> f <$> cs' !! k = Some v.
Proof.
  intros Hp E. destruct (cs !! k) eqn:Ek; [|done]. by rewrite (prefix_lookup_Some _ _ _ _ Ek Hp).
Qed.

Lemma message_ok_mono m m' cs cs' l y :
  grows m m' -> cs `prefix_of` cs' -> message_ok m cs l y -> message_ok m' cs' l y.
Proof.
  intros Hg Hp. unfold message_ok. destruct l, (w_val (m_val y)); try done.
  - intros [H1 H2]. split; [by eapply calls_prefix|]. by eapply ctx_before_mono.
  - by apply calls_prefix.
Qed.

(** The obligations of a thread survive a later memory, a later view and more
    calls. *)
Lemma task_ok_mono m m' cs cs' w w' tk :
  grows m m' -> w ⊑ w' -> cs `prefix_of` cs' -> task_ok m cs w tk -> task_ok m' cs' w' tk.
Proof.
  intros Hg Hw Hp. pose proof (Hw CtxSlot) as Hctx.
  assert (forall A (f : option F * C -> A) k v, f <$> cs !! k = Some v -> f <$> cs' !! k = Some v)
    as Hc by eauto using @calls_prefix.
  destruct tk as [|k fn|start|start a fn|start a fn b ctx|start]; cbn [task_ok]; [done|..|done].
  - intros [H1 H2]. split; [by apply Hc|]. by eapply ctx_before_mono.
  - intros H1. by transitivity w.
  - intros (H1 & H2 & H3 & t & Ht & H4). split; [by transitivity w|]. split; [by apply Hc|]. split.
    + by eapply ctx_before_mono.
    + exists t. split; [done|]. by eapply stored_by_mono.
  - intros (H1 & H2 & (t & Ht & H3) & u & Hu & H4 & H5).
    split; [by apply Hc|]. split; [by apply Hc|]. split.
    + exists t. split; [done|]. by eapply stored_by_mono.
    + exists u. split; [done|]. split; [by eapply stored_by_mono | exact (ctx_before_mono _ _ _ _ _ Hg (le_n _) H5)].
Qed.

Lemma thread_ok_mono m m' cs cs' x :
  grows m m' -> cs `prefix_of` cs' -> thread_ok m cs x -> thread_ok m' cs' x.
Proof.
  intros Hg Hp [H1 H2]. split; [by eapply view_closed_grows|]. by eapply task_ok_mono.
Qed.

(** One thread moves on. *)
Lemma hooks_ok_update m cs ths m' cs' i x :
  hooks_ok (Hooks m cs ths) -> grows m m' -> cs `prefix_of` cs' -> mem_ok m' ->
  (forall l t y, m' l !! t = Some y -> m l !! t = Some y \/ message_ok m' cs' l y) ->
  thread_ok m' cs' x -> hooks_ok (Hooks m' cs' (<[i := x]> ths)).
Proof.
  intros [_ Hy Ht] Hg Hp Hm Hnew Hx. cbn [h_mem h_calls h_threads] in *. split; [done| |].
  - intros l t y E. destruct (Hnew l t y E) as [E'|?]; [|done].
    by eapply message_ok_mono; [..|apply (Hy l t)].
  - apply Forall_insert; [|done]. eapply Forall_impl; [|exact Ht]. eauto using thread_ok_mono.
Qed.

Lemma hooks_ok_thread m cs ths i x :
  hooks_ok (Hooks m cs ths) -> thread_ok m cs x -> hooks_ok (Hooks m cs (<[i := x]> ths)).
Proof.
  intros Hs Hx. apply (hooks_ok_update m cs ths); auto; [done|apply Hs].
Qed.

Lemma thread_lookup_ok m cs ths i w tk :
  hooks_ok (Hooks m cs ths) -> ths !! i = Some (w, tk) -> view_closed m w /\ task_ok m cs w tk.
Proof. intros [_ _ Ht] Hi. exact (Forall_lookup_1 _ _ _ _ Ht Hi). Qed.

(** What a draw knows of the value it loads. *)
Lemma load_fn_ok m cs ths t w a fn w' :
  hooks_ok (Hooks m cs ths) ->
  do_load REL_ACQ FnSlot t m w = Some (Write a (FnVal fn), w') ->
  fst <$> cs !! a = Some fn /\ ctx_before m a (w' CtxSlot) /\ (w FnSlot <= t)%nat /\
  stored_by m FnSlot t a.
Proof.
  intros [Hm Hy _] E. apply do_load_acquires in E as (x & E & Hv & Hle & Hview & _); [|done].
  specialize (Hy _ _ _ E). unfold message_ok in Hy. rewrite Hv in Hy. cbn in Hy.
  destruct Hy as [H1 H2]. split; [done|]. split; [|split; [done|]].
  - by eapply ctx_before_mono; [|apply Hview|].
  - exists x. by rewrite Hv.
Qed.

Lemma load_ctx_ok m cs ths t w b ctx w' :
  hooks_ok (Hooks m cs ths) ->
  do_load REL_ACQ CtxSlot t m w = Some (Write b (CtxVal ctx), w') ->
  snd <$> cs !! b = Some ctx /\ (w CtxSlot <= t)%nat /\ stored_by m CtxSlot t b.
Proof.
  intros [Hm Hy _] E. apply do_load_acquires in E as (x & E & Hv & Hle & _ & _); [|done].
  specialize (Hy _ _ _ E). unfold message_ok in Hy. rewrite Hv in Hy.
  split; [exact Hy|]. split; [done|]. exists x. by rewrite Hv.
Qed.

Lemma step_set_ctx_ok m cs ths i w fn ctx t m' w' :
  hooks_ok (Hooks m cs ths) -> ths !! i = Some (w, Idle) ->
  do_store REL_ACQ CtxSlot (Write (length cs) (CtxVal ctx)) t m w = Some (m', w') ->
  hooks_ok (Hooks m' (cs ++ [(fn, ctx)]) (<[i := (w', SetStore (length cs) fn)]> ths)).
Proof.
  intros Hs Hi E. destruct (thread_lookup_ok _ _ _ _ _ _ Hs Hi) as [Hw _].
  pose proof (do_store_ok _ _ _ _ _ _ _ _ (hooks_mem_ok _ Hs) Hw E) as [Hm' Hw'].
  apply do_store_inv in E as (_ & _ & Ew & _ & Hg & Hnew & Hl).
  apply (hooks_ok_update m cs); [done|done|by apply prefix_app_r|done| |].
  - intros l u y Ey. destruct (Hnew _ _ _ Ey) as [?|(-> & -> & ->)]; [by left|right].
    cbn. by rewrite lookup_app_r, Nat.sub_diag.
  - split; [done|]. cbn. rewrite lookup_app_r, Nat.sub_diag by lia. split; [done|].
    exists t, (Msg (Write (length cs) (CtxVal ctx)) (published REL_ACQ w CtxSlot t)).
    rewrite Ew, upd_eq. done.
Qed.

Lemma step_set_fn_ok m cs ths i w k fn t m' w' :
  hooks_ok (Hooks m cs ths) -> ths !! i = Some (w, SetStore k fn) ->
  do_store REL_ACQ FnSlot (Write k (FnVal fn)) t m w = Some (m', w') ->
  hooks_ok (Hooks m' cs (<[i := (w', Idle)]> ths)).
Proof.
  intros Hs Hi E. destruct (thread_lookup_ok _ _ _ _ _ _ Hs Hi) as [Hw [Hk Hc]].
  pose proof (do_store_ok _ _ _ _ _ _ _ _ (hooks_mem_ok _ Hs) Hw E) as [Hm' Hw'].
  apply do_store_inv in E as (_ & _ & _ & _ & Hg & Hnew & _).
  apply (hooks_ok_update m cs); [done|done|done|done| |done].
  intros l u y Ey. destruct (Hnew _ _ _ Ey) as [?|(-> & -> & ->)]; [by left|right].
  cbn. split; [done|]. rewrite upd_ne by done. exact (ctx_before_mono _ _ _ _ _ Hg (le_n _) Hc).
Qed.

Lemma step_draw_fn_ok m cs ths i w start t a fn w' :
  hooks_ok (Hooks m cs ths) -> ths !! i = Some (w, DrawFn start) ->
  do_load REL_ACQ FnSlot t m w = Some (Write a (FnVal fn), w') ->
  hooks_ok (Hooks m cs (<[i := (w', match fn with
                                    | Some fn => DrawCtx start a fn
                                    | None => DrawDefault start
                                    end)]> ths)).
Proof.
  intros Hs Hi E. destruct (thread_lookup_ok _ _ _ _ _ _ Hs Hi) as [Hw Hst].
  destruct (do_load_ok _ _ _ _ _ _ _ (hooks_mem_ok _ Hs) Hw E) as [Hw' Hle].
  destruct (load_fn_ok _ _ _ _ _ _ _ _ Hs E) as (H1 & H2 & H3 & H4).
  apply hooks_ok_thread; [done|]. split; [done|]. cbn [fst snd]. destruct fn as [fn|]; [|done].
  split; [by transitivity w|]. split; [done|]. split; [done|].
  exists t. split; [|done]. exact (Nat.le_trans _ _ _ (Hst FnSlot) H3).
Qed.

Lemma step_draw_ctx_ok m cs ths i w start a fn t b ctx w' :
  hooks_ok (Hooks m cs ths) -> ths !! i = Some (w, DrawCtx start a fn) ->
  do_load REL_ACQ CtxSlot t m w = Some (Write b (CtxVal ctx), w') ->
  hooks_ok (Hooks m cs (<[i := (w', DrawCall start a fn b ctx)]> ths)).
Proof.
  intros Hs Hi E. destruct (thread_lookup_ok _ _ _ _ _ _ Hs Hi) as [Hw (Hst & Ha & Hc & Hf)].
  destruct (do_load_ok _ _ _ _ _ _ _ (hooks_mem_ok _ Hs) Hw E) as [Hw' _].
  destruct (load_ctx_ok _ _ _ _ _ _ _ _ Hs E) as (H1 & H2 & H3).
  apply hooks_ok_thread; [done|]. split; [done|]. cbn [fst snd].
  split; [done|]. split; [done|]. split; [done|]. exists t.
  split; [exact (Nat.le_trans _ _ _ (Hst CtxSlot) H2)|]. split; [done|].
  by eapply ctx_before_mono.
Qed.

Lemma hook_step_ok s s' :
  st_order = REL_ACQ -> ld_order = REL_ACQ -> hook_step s s' -> hooks_ok s -> hooks_ok s'.
Proof.
  intros Hst Hld Hs Hok.
  destruct Hs as [m cs ths i w fn ctx t m' w' Hi _ E|m cs ths i w k fn t m' w' Hi E
    |m cs ths i w Hi|m cs ths i w start t a fn w' Hi E|m cs ths i w start a fn t b ctx w' Hi E
    |m cs ths i w tk Hi Htk|m cs ths i j w w' tk tk' Hi Hj|m cs ths i w tk Hi];
    destruct (thread_lookup_ok _ _ _ _ _ _ Hok Hi) as [Hw Htask];
    try rewrite Hst in E; try rewrite Hld in E.
  - by eapply step_set_ctx_ok.
  - by eapply step_set_fn_ok.
  - apply hooks_ok_thread; [done|]. split; [done|]. by cbn [task_ok snd].
  - by eapply step_draw_fn_ok.
  - by eapply step_draw_ctx_ok.
  - by apply hooks_ok_thread.
  - destruct (thread_lookup_ok _ _ _ _ _ _ Hok Hj) as [Hw' Htask'].
    apply hooks_ok_thread; [done|]. split; [by apply view_closed_join|].
    eapply task_ok_mono; [done|apply join_l|done|exact Htask'].
  - destruct Hok as [Hm Hy Ht]. split; [done..|]. apply Forall_app.
    split; [done|]. by apply Forall_singleton.
Qed.

Lemma hooks_init_ok installed : hooks_ok (hooks_init installed).
Proof.
  pose proof (init_memory_ok (V := write) (fun l : slot =>
    Write 0 match l with FnSlot => FnVal installed.1 | CtxSlot => CtxVal installed.2 end)) as Hm.
  split; cbn [hooks_init h_mem h_calls h_threads]; [done| |].
  - intros l t x E. unfold init_memory in E. apply lookup_singleton_Some in E as [<- <-].
    destruct l; cbn; [|done]. split; [done|]. exists 0%nat. by eexists.
  - apply Forall_singleton. split; [apply Hm | done].
Qed.

Lemma hook_reach_ok installed s :
  st_order = REL_ACQ -> ld_order = REL_ACQ ->
  rtc hook_step (hooks_init installed) s -> hooks_ok s.
Proof.
  intros H1 H2 Hr. pose proof (hooks_init_ok installed) as Hi.
  induction Hr; eauto using hook_step_ok.
Qed.

(** ** One swap at a time *)

(** What a lock around [chronoid_set_rand], or a single thread that calls it,
    gives to the thread that enters it with view [w]: no other call is under
    way, and the stores of all earlier ones have happened before. *)
Definition serialised (s : hooks) (w : view slot) : Prop :=
  (forall l t, is_Some (h_mem s l !! t) -> (t <= w l)%nat) /\
  (forall i w' k fn, h_threads s !! i <> Some (w', SetStore k fn)).

(** The modification order of each slot is the order of the calls. *)
Definition in_call_order (m : mem) : Prop :=
  forall l t t' x x', m l !! t = Some x -> m l !! t' = Some x' -> (t <= t')%nat ->
    (w_call (m_val x) <= w_call (m_val x'))%nat.

(** The thread inside [chronoid_set_rand] runs the latest call, alone. *)
Definition setter_ok (m : mem) (cs : list (option F * C)) (ths : list (view slot * task)) : Prop :=
  forall i w k fn, ths !! i = Some (w, SetStore k fn) ->
    S k = length cs /\ (forall t, is_Some (m FnSlot !! t) -> (t <= w FnSlot)%nat) /\
    forall j w' k' fn', ths !! j = Some (w', SetStore k' fn') -> j = i.

Record serial_ok (s : hooks) : Prop := {
  serial_order : in_call_order (h_mem s);
  serial_calls : forall l t x, h_mem s l !! t = Some x ->
    (w_call (m_val x) < length (h_calls s))%nat;
  serial_setter : setter_ok (h_mem s) (h_calls s) (h_threads s)
}.

(** A store at the end of the modification order, by the latest call. *)
Lemma in_call_order_store o l v t m w m' w' n :
  do_store o l v t m w = Some (m', w') -> in_call_order m ->
  (forall u, is_Some (m l !! u) -> (u <= w l)%nat) ->
  (forall u x, m l !! u = Some x -> (w_call (m_val x) < n)%nat) -> (n <= S (w_call v))%nat ->
  in_call_order m'.
Proof.
  intros E Ho Hlast Hn Hv. apply do_store_inv in E as (Ht & _ & _ & _ & _ & Hnew & _).
  intros l' u u' x x' Ex Ex' Hu.
  destruct (Hnew _ _ _ Ex) as [Ex0|(-> & -> & ->)], (Hnew _ _ _ Ex') as [Ex0'|(? & -> & ->)].
  - by apply (Ho l' u u').
  - subst l'. specialize (Hn _ _ Ex0). cbn. lia.
  - assert (u' <= w l)%nat by (apply Hlast; by eexists). lia.
  - done.
Qed.

(** A thread that is not inside [chronoid_set_rand] afterwards. *)
Lemma setter_ok_update m cs ths i w tk :
  setter_ok m cs ths -> (forall k fn, tk <> SetStore k fn) ->
  setter_ok m cs (<[i := (w, tk)]> ths).
Proof.
  intros Hs Htk.
  assert (forall j w' k' fn', <[i := (w, tk)]> ths !! j = Some (w', SetStore k' fn') ->
    ths !! j = Some (w', SetStore k' fn')) as Hold.
  { intros j w' k' fn' Hj. apply list_lookup_insert_Some in Hj as [(_ & E & _)|[_ ?]]; [|done].
    injection E as _ E. by destruct (Htk k' fn'). }
  intros j w' k' fn' Hj. destruct (Hs j w' k' fn' (Hold _ _ _ _ Hj)) as (H1 & H2 & H3).
  split_and!; eauto.
Qed.

Lemma serial_set_ctx o m cs ths i w fn ctx t m' w' :
  serial_ok (Hooks m cs ths) -> serialised (Hooks m cs ths) w ->
  do_store o CtxSlot (Write (length cs) (CtxVal ctx)) t m w = Some (m', w') ->
  serial_ok (Hooks m' (cs ++ [(fn, ctx)]) (<[i := (w', SetStore (length cs) fn)]> ths)).
Proof.
  intros [Ho Hc Hs] [Hlast Hnone] E. cbn [h_mem h_calls h_threads] in *.
  split; cbn [h_mem h_calls h_threads].
  - eapply (in_call_order_store _ _ _ _ _ _ _ _ (length cs)); eauto.
  - apply do_store_inv in E as (_ & _ & _ & _ & _ & Hnew & _). rewrite length_app.
    intros l u x Ex. destruct (Hnew _ _ _ Ex) as [Ex0|(-> & -> & ->)]; cbn; [|lia].
    specialize (Hc _ _ _ Ex0). lia.
  - apply do_store_inv in E as (_ & _ & -> & _ & _ & Hnew & _).
    assert (forall j w0 k0 fn0, <[i := (upd CtxSlot t w, SetStore (length cs) fn)]> ths !! j
              = Some (w0, SetStore k0 fn0) -> j = i /\ w0 = upd CtxSlot t w /\ k0 = length cs) as Hi.
    { intros j w0 k0 fn0 Hj. apply list_lookup_insert_Some in Hj as [(-> & E & _)|[_ Hj]].
      - by injection E as <- <- _.
      - by destruct (Hnone j w0 k0 fn0). }
    intros j w0 k0 fn0 Hj. destruct (Hi _ _ _ _ Hj) as (-> & -> & ->).
    split; [rewrite length_app; cbn; lia|]. split; [|intros j' ? ? ? Hj'; by apply Hi in Hj' as [-> _]].
    intros u [x Ex]. rewrite upd_ne by done. apply Hlast.
    destruct (Hnew _ _ _ Ex) as [?|(? & _)]; [by eexists|done].
Qed.

Lemma serial_set_fn o m cs ths i w k fn t m' w' :
  serial_ok (Hooks m cs ths) -> ths !! i = Some (w, SetStore k fn) ->
  do_store o FnSlot (Write k (FnVal fn)) t m w = Some (m', w') ->
  serial_ok (Hooks m' cs (<[i := (w', Idle)]> ths)).
Proof.
  intros [Ho Hc Hs] Hi E. cbn [h_mem h_calls h_threads] in *.
  destruct (Hs _ _ _ _ Hi) as (Hk & Hlast & Hone).
  split; cbn [h_mem h_calls h_threads].
  - eapply (in_call_order_store _ _ _ _ _ _ _ _ (length cs)); eauto. cbn. lia.
  - apply do_store_inv in E as (_ & _ & _ & _ & _ & Hnew & _).
    intros l u x Ex. destruct (Hnew _ _ _ Ex) as [Ex0|(-> & -> & ->)]; cbn; [by eapply Hc|lia].
  - intros j w0 k0 fn0 Hj. apply list_lookup_insert_Some in Hj as [(_ & E' & _)|[Hne Hj]].
    + done.
    + by destruct Hne; rewrite (Hone _ _ _ _ Hj).
Qed.

Lemma serial_step s s' :
  (forall s w, may_swap s w -> serialised s w) -> hook_step s s' -> serial_ok s -> serial_ok s'.
Proof.
  intros Hmay Hs Hok.
  destruct Hs as [m cs ths i w fn ctx t m' w' Hi Hsw E|m cs ths i w k fn t m' w' Hi E
    |m cs ths i w Hi|m cs ths i w start t a fn w' Hi E|m cs ths i w start a fn t b ctx w' Hi E
    |m cs ths i w tk Hi Htk|m cs ths i j w w' tk tk' Hi Hj|m cs ths i w tk Hi];
    [by eapply serial_set_ctx; eauto|by eapply serial_set_fn|destruct Hok as [Ho Hc Hset]..];
    cbn [h_mem h_calls h_threads] in *;
    (split; cbn [h_mem h_calls h_threads]; [done|done|]).
  1-4: apply setter_ok_update; [done|]; try done; by destruct fn.
  - intros j0 w0 k0 fn0 Hj0. apply list_lookup_insert_Some in Hj0 as [(<- & E & _)|[Hne Hj0]].
    + injection E as <- ->. destruct (Hset _ _ _ _ Hj) as (H1 & H2 & H3). split; [done|]. split.
      * intros u Hu. exact (Nat.le_trans _ _ _ (H2 u Hu) (join_l w' w FnSlot)).
      * intros j1 w1 k1 fn1 Hj1. apply list_lookup_insert_Some in Hj1 as [(-> & _)|[_ Hj1]]; eauto.
    + destruct (Hset _ _ _ _ Hj0) as (H1 & H2 & H3). split; [done|]. split; [done|].
      intros j1 w1 k1 fn1 Hj1. apply list_lookup_insert_Some in Hj1 as [(-> & E & _)|[_ Hj1]]; [|eauto].
      injection E as _ ->. by apply (H3 j1 w' k1 fn1).
  - assert (forall j w0 k0 fn0, (ths ++ [(w, Idle)]) !! j = Some (w0, SetStore k0 fn0) ->
      ths !! j = Some (w0, SetStore k0 fn0)) as Hold.
    { intros j w0 k0 fn0 Hj. apply lookup_app_Some in Hj as [?|[_ Hj]]; [done|].
      by apply list_lookup_singleton_Some in Hj as [_ [=]]. }
    intros j w0 k0 fn0 Hj. destruct (Hset _ _ _ _ (Hold _ _ _ _ Hj)) as (H1 & H2 & H3).
    split_and!; eauto.
Qed.

Lemma serial_init installed : serial_ok (hooks_init installed).
Proof.
  split; cbn [hooks_init h_mem h_calls h_threads].
  - intros l t t' x x' E E' _. unfold init_memory in *.
    apply lookup_singleton_Some in E as [_ <-]. apply lookup_singleton_Some in E' as [_ <-]. done.
  - intros l t x E. unfold init_memory in E. apply lookup_singleton_Some in E as [_ <-]. cbn. lia.
  - intros [|i] w k fn E; done.
Qed.

Lemma serial_reach installed s :
  (forall s w, may_swap s w -> serialised s w) ->
  rtc hook_step (hooks_init installed) s -> serial_ok s.
Proof.
  intros Hmay Hr. pose proof (serial_init installed) as Hi.
  induction Hr; eauto using serial_step.
Qed.
End Hooks.
Arguments hooks : clear implicits.
Arguments Hooks {F C}.

(** The step relation of the code: release stores, acquire loads. *)
Abbreviation code_step := (hook_step REL_ACQ REL_ACQ).

(** Whatever threads swap and draw, in whatever order: a draw that calls hook
    [fn] with context [ctx] loaded both from calls of [chronoid_set_rand], and in
    the modification order of the context slot the context is not older than the
    one stored by the call the hook is from. *)
Theorem hook_pair_ordered {F C} may_swap installed (s : hooks F C) i w start a fn b ctx :
  rtc (code_step may_swap) (hooks_init installed) s ->
  h_threads s !! i = Some (w, DrawCall start a fn b ctx) ->
  fst <$> h_calls s !! a = Some (Some fn) /\ snd <$> h_calls s !! b = Some ctx /\
  exists ta tb, (ta <= tb)%nat /\ stored_by (h_mem s) CtxSlot ta a /\
    stored_by (h_mem s) CtxSlot tb b.
Proof.
  intros Hr Hi. apply hook_reach_ok in Hr as [_ _ Ht]; [|done..].
  destruct (Forall_lookup_1 _ _ _ _ Ht Hi) as [_ (Ha & Hb & _ & tb & _ & Htb & ta & x & Hle & Hx)].
  split; [done|]. split; [done|]. exists ta, tb. split; [done|]. split; [by exists x|done].
Qed.

(** C33: The lifetime contract of a hook's context, on the memory model of the
    atomics.  Any number of threads draw while swaps go on, and no two calls of
    [chronoid_set_rand] overlap.  A draw that calls hook [fn] with context [ctx]
    took the hook from a call [a] and the context from call [a] or a later one;
    and if a call [k] had returned before the draw began (its store of the hook
    slot is in the view the draw began with), then neither is from a call before
    [k].  So once a swap has returned and the draws begun before that have
    returned, no draw uses an earlier context and it may be freed. *)
Theorem hook_ctx_lifetime {F C} installed (s : hooks F C) i w start a fn b ctx :
  rtc (code_step serialised) (hooks_init installed) s ->
  h_threads s !! i = Some (w, DrawCall start a fn b ctx) ->
  fst <$> h_calls s !! a = Some (Some fn) /\ snd <$> h_calls s !! b = Some ctx /\ (a <= b)%nat /\
  forall k t, stored_by (h_mem s) FnSlot t k -> (t <= start FnSlot)%nat -> (k <= a)%nat.
Proof.
  intros Hr Hi. pose proof (serial_reach _ _ _ installed s (fun _ _ H => H) Hr) as [Ho _ _].
  apply hook_reach_ok in Hr as [_ _ Ht]; [|done..].
  destruct (Forall_lookup_1 _ _ _ _ Ht Hi)
    as [_ (Ha & Hb & (tf & Htf & xf & Ef & <-) & tb & _ & (y & Ey & <-) & ta & x & Hle & Ex & Hx)].
  split; [done|]. split; [done|]. split.
  - rewrite <- Hx. by apply (Ho CtxSlot ta tb).
  - intros k t (z & Ez & <-) Hk. apply (Ho FnSlot t tf); [done..|]. by etrans.
Qed.

(** ** Runs *)

(** Run one more step. *)
Ltac run s :=
  eapply rtc_l; [s; [reflexivity|first [exact I|reflexivity]..]|]; cbn [list_insert insert app length].

Section Runs.
Context {F C : Type} (fn1 fn2 : F) (ctx0 ctx1 ctx2 : C).

(** The swap to [(fn1, ctx1)] by one thread, then a draw of another one that has
    not synchronised with it: with relaxed accesses the new hook is called with
    the old context. *)
Lemma relaxed_pairs_older_ctx :
  exists (s : hooks F C) w start,
    rtc (hook_step RLX RLX serialised) (hooks_init (None, ctx0)) s /\
    h_threads s !! 1%nat = Some (w, DrawCall start 1 fn1 0 ctx0).
Proof.
  do 3 eexists. split.
  { run ltac:(eapply (step_spawn _ _ _ _ _ _ 0)).
  eapply rtc_l; [eapply (step_set_ctx _ _ _ _ _ _ 0 _ (Some fn1) ctx1 1); [reflexivity| |reflexivity]|].
  { split; [intros l t; apply init_memory_latest | by intros [|[|i]]]. }
  cbn [list_insert insert app length].
  run ltac:(eapply (step_set_fn _ _ _ _ _ _ 0 _ _ _ 1)).
  run ltac:(eapply (step_draw _ _ _ _ _ _ 1)).
  run ltac:(eapply (step_draw_fn _ _ _ _ _ _ 1 _ _ 1)).
  run ltac:(eapply (step_draw_ctx _ _ _ _ _ _ 1 _ _ _ _ 0)).
  apply rtc_refl. }
  reflexivity.
Qed.

(** Two swaps that overlap, on release/acquire memory: the hook of the first
    stays installed with the context of the second.  Both calls have returned,
    no draw was in flight, and the draw begins after both. *)
Lemma overlapping_swaps_mix_pair :
  exists (s0 s : hooks F C) w start,
    rtc (code_step (fun _ _ => True)) (hooks_init (None, ctx0)) s0 /\
    Forall (fun x => x.2 = Idle) (h_threads s0) /\
    rtc (code_step (fun _ _ => True)) s0 s /\ h_calls s = h_calls s0 /\
    h_threads s !! 0%nat = Some (w, DrawCall start 1 fn1 2 ctx2) /\
    (forall l, start l = 2%nat).
Proof.
  do 4 eexists. split; [|split; [|split; [|split; [|split]]]].
  - run ltac:(eapply (step_spawn _ _ _ _ _ _ 0)).
    run ltac:(eapply (step_set_ctx _ _ _ _ _ _ 0 _ (Some fn1) ctx1 1)).
    run ltac:(eapply (step_set_ctx _ _ _ _ _ _ 1 _ (Some fn2) ctx2 2)).
    run ltac:(eapply (step_set_fn _ _ _ _ _ _ 1 _ _ _ 1)).
    run ltac:(eapply (step_set_fn _ _ _ _ _ _ 0 _ _ _ 2)).
    run ltac:(eapply (step_sync _ _ _ _ _ _ 1 0)).
    apply rtc_refl.
  - by repeat constructor.
  - run ltac:(eapply (step_draw _ _ _ _ _ _ 0)).
    run ltac:(eapply (step_draw_fn _ _ _ _ _ _ 0 _ _ 2)).
    run ltac:(eapply (step_draw_ctx _ _ _ _ _ _ 0 _ _ _ _ 2)).
    apply rtc_refl.
  - reflexivity.
  - reflexivity.
  - intros []; reflexivity.
Qed.
End Runs.

(** A swap, and a draw of another thread that has synchronised with it. *)
Lemma hook_ctx_lifetime_witness :
  exists (s : hooks nat nat) w start, start FnSlot = 1%nat /\
    rtc (code_step serialised) (hooks_init (None, 20%nat)) s /\
    h_threads s !! 1%nat = Some (w, DrawCall start 1 11%nat 1 21%nat) /\
    (fst <$> h_calls s !! 1%nat = Some (Some 11%nat) /\ snd <$> h_calls s !! 1%nat = Some 21%nat /\
     (1 <= 1)%nat /\
     forall k t, stored_by (h_mem s) FnSlot t k -> (t <= start FnSlot)%nat -> (k <= 1)%nat).
Proof.
  assert (exists (s : hooks nat nat) w start,
    rtc (code_step serialised) (hooks_init (None, 20%nat)) s /\
    h_threads s !! 1%nat = Some (w, DrawCall start 1 11%nat 1 21%nat) /\ start FnSlot = 1%nat)
    as (s & w & start & Hr & Hi & Hst).
  { do 3 eexists. split; [|split].
    { run ltac:(eapply (step_spawn _ _ _ _ _ _ 0)).
      eapply rtc_l; [eapply (step_set_ctx _ _ _ _ _ _ 0 _ (Some 11%nat) 21%nat 1);
                     [reflexivity| |reflexivity]|].
      { split; [intros l t; apply init_memory_latest | by intros [|[|i]]]. }
      cbn [list_insert insert app length].
      run ltac:(eapply (step_set_fn _ _ _ _ _ _ 0 _ _ _ 1)).
      run ltac:(eapply (step_sync _ _ _ _ _ _ 0 1)).
      run ltac:(eapply (step_draw _ _ _ _ _ _ 1)).
      run ltac:(eapply (step_draw_fn _ _ _ _ _ _ 1 _ _ 1)).
      run ltac:(eapply (step_draw_ctx _ _ _ _ _ _ 1 _ _ _ _ 1)).
      apply rtc_refl. }
    all: reflexivity. }
  exists s, w, start. split; [exact Hst|]. split; [exact Hr|]. split; [exact Hi|].
  exact (hook_ctx_lifetime _ s 1 w start 1 11%nat 1 21%nat Hr Hi).
Defined.
