(* ===== verification/DispatchMemory.v ===== *)
(** * The dispatcher on release/acquire memory

    The function pointer of a bulk encoder (ksuid/encode_batch.c,
    uuidv7/hex_batch.c) as one location of RaMemory: a thread that loads it may
    get any value that its thread may still read, the trampoline included, after
    others have stored their choice.  The threads are those of Dispatch. *)
From stdpp Require Import gmap relations.
From S2P Require Import Prelude KsuidTypes Dispatch EncodeDispatch RaMemory.

Section DispatchMemory.
Context {Id : Type} `{StringBatch Id} (h : host).

Notation mem := (memory unit batch_fn).

(** The location, the environment variable and the threads with their views. *)
Record proc_mem := ProcMem {
  pm_mem : mem;
  pm_env : option (list Z);
  pm_threads : list (view unit * thread (Id := Id))
}.

(** Does the thread access the pointer next, and how? *)
Definition loads (t : thread (Id := Id)) : Prop :=
  match t with Entered c => call_n c <> 0%nat | _ => False end.
Definition stores (t : thread (Id := Id)) : option batch_fn :=
  match t with Resolved _ f => Some f | _ => None end.

Context (st_order ld_order : order).

Variant mem_step : proc_mem -> proc_mem -> Prop :=
| mem_load m env ts i w t u g w' t' g' r :
    ts !! i = Some (w, t) -> loads t ->
    do_load ld_order tt u m w = Some (g, w') -> thread_step h env g t = Some (t', g', r) ->
    mem_step (ProcMem m env ts) (ProcMem m env (<[i := (w', t')]> ts))
| mem_store m env ts i w t f u m' w' t' g g' r :
    ts !! i = Some (w, t) -> stores t = Some f ->
    thread_step h env g t = Some (t', g', r) -> do_store st_order tt g' u m w = Some (m', w') ->
    mem_step (ProcMem m env ts) (ProcMem m' env (<[i := (w', t')]> ts))
| mem_local m env ts i w t t' g g' r :
    ts !! i = Some (w, t) -> ~ loads t -> stores t = None ->
    thread_step h env g t = Some (t', g', r) ->
    mem_step (ProcMem m env ts) (ProcMem m env (<[i := (w, t')]> ts))
| mem_call m env ts i w c c' out :
    ts !! i = Some (w, Returned c out) -> call_ok c' ->
    mem_step (ProcMem m env ts) (ProcMem m env (<[i := (w, Entered c')]> ts))
| mem_spawn m env ts w c :
    w = bot \/ (exists i t, ts !! i = Some (w, t)) -> call_ok c ->
    mem_step (ProcMem m env ts) (ProcMem m env (ts ++ [(w, Entered c)]))
| mem_setenv m env env' ts : mem_step (ProcMem m env ts) (ProcMem m env' ts).

Definition mem_start (env : option (list Z)) : proc_mem :=
  ProcMem (init_memory (fun _ => INIT_TRAMPOLINE)) env [].

(** ** Invariant *)

(** Only the initial value of the pointer is the trampoline. *)
Definition pointer_mem_ok (m : mem) : Prop :=
  forall u x, m tt !! u = Some x -> if (u =? 0)%nat then m_val x = INIT_TRAMPOLINE else usable h (m_val x).

Definition mem_inv (p : proc_mem) : Prop :=
  pointer_mem_ok (pm_mem p) /\ Forall (fun x => thread_inv h x.2) (pm_threads p).

Lemma pointer_mem_value m u x : pointer_mem_ok m -> m tt !! u = Some x -> pointer_ok h (m_val x).
Proof.
  intros Hm E. specialize (Hm _ _ E). destruct (u =? 0)%nat; [by left|by right].
Qed.

Lemma mem_start_inv env : mem_inv (mem_start env).
Proof.
  split; [|by constructor]. intros u x E. cbn [mem_start pm_mem] in E. unfold init_memory in E.
  by apply lookup_singleton_Some in E as [<- <-].
Qed.

(** What a thread does besides its access does not depend on the pointer. *)
Lemma local_pointer env g t t' g' r g1 :
  ~ loads t -> thread_step h env g t = Some (t', g', r) ->
  exists g1', thread_step h env g1 t = Some (t', g1', r).
Proof.
  destruct t as [c|c f|c f|c f|c o]; cbn [thread_step loads].
  - destruct (Nat.eqb_spec (call_n c) 0) as [->|]; [|by intros Hl; destruct Hl].
    intros _ [= <- _ <-]. by eexists.
  - destruct f; intros _ [= <- _ <-]; by eexists.
  - intros _ [= <- _ <-]. by eexists.
  - destruct f; [intros _ [= <- _ <-]; by eexists|..];
      (destruct (run_kernel _ _ _ _); [|done]); intros _ [= <- _ <-]; by eexists.
  - done.
Qed.

Lemma stores_value env g t f t' g' r :
  stores t = Some f -> thread_step h env g t = Some (t', g', r) -> g' = f.
Proof. destruct t; try done. cbn. by intros [= ->] [= _ <- _]. Qed.

Lemma mem_step_inv p q : mem_step p q -> mem_inv p -> mem_inv q.
Proof using Type.
  intros Hs [Hm Ht].
  destruct Hs as [m env ts i w t u g w' t' g' r Hi Hl E Es|m env ts i w t f u m' w' t' g g' r Hi Hf Es E
    |m env ts i w t t' g g' r Hi Hl Hf Es|m env ts i w c c' out Hi Hc|m env ts w c Hw Hc|m env env' ts];
    cbn [pm_mem pm_threads] in *;
    try pose proof (Forall_lookup_1 _ _ _ _ Ht Hi) as Hti; (split; cbn [pm_mem pm_threads]; try done).
  - apply Forall_insert; [done|]. cbn [snd].
    apply do_load_inv in E as (x & Ex & <- & _). apply pointer_mem_value in Ex; [|done].
    by apply (thread_step_inv h env _ t t' g' r Ex Hti).
  - apply do_store_inv in E as (Hu & _ & _ & _ & _ & Hnew & _).
    intros v x Ex. destruct (Hnew tt v x Ex) as [Ex0|(_ & -> & ->)]; [by apply Hm|].
    destruct (Nat.eqb_spec u 0) as [->|_]; [lia|]. cbn.
    rewrite (stores_value _ _ _ _ _ _ _ Hf Es). destruct t; try done. injection Hf as ->. apply Hti.
  - apply Forall_insert; [done|]. cbn [snd].
    assert (~ loads t) as Hl by (intros Hl; by destruct t).
    destruct (local_pointer _ _ _ _ _ _ INIT_TRAMPOLINE Hl Es) as [g1 Es'].
    by apply (thread_step_inv h env _ t t' g1 r (or_introl eq_refl) Hti).
  - apply Forall_insert; [done|]. cbn [snd].
    destruct (local_pointer _ _ _ _ _ _ INIT_TRAMPOLINE Hl Es) as [g1 Es'].
    by apply (thread_step_inv h env _ t t' g1 r (or_introl eq_refl) Hti).
  - by apply Forall_insert.
  - apply Forall_app. split; [done|]. by apply Forall_singleton.
Qed.

Lemma mem_reach_inv env p : rtc mem_step (mem_start env) p -> mem_inv p.
Proof.
  intros Hr. pose proof (mem_start_inv env) as Hi. induction Hr; eauto using mem_step_inv.
Qed.
End DispatchMemory.

(** C20: Concurrent first calls of a bulk encoder are harmless on the memory
    model of the atomics.  Whatever threads call, whatever each load of the
    pointer returns among the values its thread may still read, and for relaxed
    as for release/acquire accesses: a call that has returned wrote exactly the
    reference result; a thread about to run a kernel runs one that gives that
    result, and the AVX2 kernel only on a CPU that passed the probe; and a thread that has seen or made a choice never gets the
    trampoline again. *)
Theorem dispatch_memory_safe {Id} `{StringBatch Id} h st_order ld_order env (p : proc_mem) :
  rtc (mem_step h st_order ld_order) (mem_start env) p ->
  (forall i w c out, pm_threads p !! i = Some (w, Returned c out) ->
     out = batch_ref (call_ids c) (call_out c) (call_n c)) /\
  (forall i w c f, pm_threads p !! i = Some (w, Running c f) ->
     run_kernel f (call_ids c) (call_out c) (call_n c)
     = Some (batch_ref (call_ids c) (call_out c) (call_n c)) /\
     (f = BATCH_AVX2 ->
      have_avx2 h = true /\ chronoid_cpu_supports_avx2 (host_cc h) (host_cpu h) = true)) /\
  (forall i w t u g w', pm_threads p !! i = Some (w, t) -> (0 < w tt)%nat ->
     do_load ld_order tt u (pm_mem p) w = Some (g, w') -> g <> INIT_TRAMPOLINE).
Proof.
  intros Hr. apply mem_reach_inv in Hr as [Hm Ht]. split; [|split].
  - intros i w c out Hi. by destruct (Forall_lookup_1 _ _ _ _ Ht Hi) as [_ ->].
  - intros i w c f Hi. destruct (Forall_lookup_1 _ _ _ _ Ht Hi) as [Hc Hu].
    split; [by apply (run_usable h)|]. by intros ->.
  - intros i w t u g w' _ Hw E. apply do_load_inv in E as (x & Ex & <- & Hle & _).
    specialize (Hm _ _ Ex). destruct (Nat.eqb_spec u 0) as [->|_]; [lia|]. by intros E; rewrite E in Hm.
Qed.

(** Two threads that have not synchronised: the second one enters after the
    first has returned, and its load still gives the trampoline. *)
Definition stale_threads : list (view unit * thread) :=
  [(upd tt 1%nat (bot ⊔ bot), Returned one_call race_result);
   (bot ⊔ bot, Loaded one_call INIT_TRAMPOLINE)].

Lemma stale_run :
  exists m, rtc (mem_step avx2_host REL_ACQ REL_ACQ) (mem_start race_env)
              (ProcMem m race_env stale_threads).
Proof.
  pose proof one_call_ok as Hc. eexists.
  eapply rtc_l; [eapply (mem_spawn _ _ _ _ _ _ bot one_call); [by left|done]|]. cbn [app].
  eapply rtc_l.
  { eapply (mem_load _ _ _ _ _ _ 0 bot (Entered one_call) 0 INIT_TRAMPOLINE); [done..| |];
      reflexivity. }
  cbn [list_insert insert].
  eapply rtc_l.
  { eapply (mem_local _ _ _ _ _ _ 0 _ (Loaded one_call INIT_TRAMPOLINE) (Resolved one_call BATCH_SCALAR)
              BATCH_SCALAR); [reflexivity|by intros []|reflexivity|reflexivity]. }
  cbn [list_insert insert].
  eapply rtc_l.
  { eapply (mem_store _ _ _ _ _ _ 0 _ (Resolved one_call BATCH_SCALAR) BATCH_SCALAR 1 _ _
              (Running one_call BATCH_SCALAR) BATCH_SCALAR); reflexivity. }
  cbn [list_insert insert].
  eapply rtc_l.
  { eapply (mem_local _ _ _ _ _ _ 0 _ (Running one_call BATCH_SCALAR)
              (Returned one_call race_result) BATCH_SCALAR BATCH_SCALAR 0);
      [reflexivity|by intros []|reflexivity|cbn [thread_step]; by rewrite race_run]. }
  cbn [list_insert insert].
  eapply rtc_l; [eapply (mem_spawn _ _ _ _ _ _ bot one_call); [by left|done]|]. cbn [app].
  eapply rtc_l.
  { eapply (mem_load _ _ _ _ _ _ 1 bot (Entered one_call) 0 INIT_TRAMPOLINE); [done..| |];
      reflexivity. }
  cbn [list_insert insert]. apply rtc_refl.
Qed.

Lemma dispatch_memory_safe_witness :
  exists m, rtc (mem_step avx2_host REL_ACQ REL_ACQ) (mem_start race_env)
              (ProcMem m race_env stale_threads) /\
    race_result = batch_ref (call_ids one_call) (call_out one_call) (call_n one_call).
Proof.
  destruct stale_run as [m Hr]. exists m. split; [exact Hr|].
  exact (proj1 (dispatch_memory_safe avx2_host REL_ACQ REL_ACQ race_env _ Hr) 0%nat _ one_call
           race_result eq_refl).
Defined.
