(* ===== verification/System.v ===== *)
(** * The generators on the whole random stack

    KSUID generation over chronoid_internal_fill_random, the
    per-thread ChaCha20 generator, the operating-system entropy and the system
    calls: what ends up in the ids when no override is installed. *)
From S2P Require Import Prelude Radix Wipe Chacha20 RandOs Libc Rand RandTls Keystream Machine TlsRng Override.
From S2P Require Import ByteOrder KsuidTypes Base62 Compare Ksuid.

Section Stack.
Context {W : Type} `{!EntropySource W} `{!ProcessId W} `{!ThreadExit W} `{!Clock W}
  `{!wipe_config}.

(** The generator of the calling thread. *)
Definition rng_of (p : program W) : chronoid_tls_rng_t :=
  chronoid_tls_rng_ (thread_process (caller p)).

Lemma fill_random_default n (p : program W) p1 :
  g_rng_fn p = None -> chronoid_tls_in_destructor_ (thread_process (caller p)) = false ->
  chronoid_tls_rng_should_reseed (thread_process (caller p)) = Some (false, p1) ->
  exists s pos p', at_position s pos (rng_of p) /\
    fill_random n p = Some (0, slice s pos n, p') /\ at_position s (pos + n) (rng_of p') /\
    g_rng_fn p' = None.
Proof.
  intros Hg Hd Er.
  destruct (no_reseed_position _ _ (thread_ok (caller p)) Er) as (s & pos & Hat).
  destruct (random_bytes_reuse _ p1 s pos (uninit n) n Hd ltac:(by rewrite length_uninit) Er Hat)
    as (p2 & E & Hat2 & _).
  rewrite drop_ge, app_nil_r in E by (by rewrite length_uninit).
  destruct (fill_random_thread n p _ _ _ Hg E) as (th & Ef & Hth).
  exists s, pos, (Program None (g_rng_ctx p) th). split_and!; [done..| |done].
  unfold rng_of. cbn [caller]. by rewrite Hth.
Qed.
End Stack.

(** The payload of a KSUID is keystream of the calling thread's generator.
    With no override installed and no reseeding due, generating a KSUID for a
    time of the lifetime succeeds; its payload is the next 16 bytes of the
    keystream the generator stands in, and the generator moves behind them, so
    that the payloads of one seed are disjoint parts of one keystream. *)
Theorem ksuid_payload_is_keystream `{EntropySource W} `{ProcessId W} `{ThreadExit W}
    `{Clock W} `{wipe_config} (p : program W) p1 out t :
  g_rng_fn p = None -> chronoid_tls_in_destructor_ (thread_process (caller p)) = false ->
  chronoid_tls_rng_should_reseed (thread_process (caller p)) = Some (false, p1) ->
  wf_ksuid out -> in_lifetime t = true ->
  exists s pos p', at_position s pos (rng_of p) /\
    chronoid_ksuid_new_with_time out t p
    = Some (CHRONOID_KSUID_OK,
            ksuid_of (t - CHRONOID_KSUID_EPOCH_SECONDS) (slice s pos 16), p') /\
    at_position s (pos + 16) (rng_of p') /\ g_rng_fn p' = None.
Proof.
  intros Hg Hd Er Hout Ht.
  destruct (fill_random_default 16 p p1 Hg Hd Er) as (s & pos & p' & Hat & Ef & Hat' & Hg').
  exists s, pos, p'. split_and!; [done| |done|done].
  pose proof Ht as Hl. unfold in_lifetime in Hl. apply andb_true_iff in Hl as [Hlo%Z.leb_le Hhi%Z.leb_le].
  unfold CHRONOID_KSUID_EPOCH_SECONDS, UINT32_MAX in Hlo, Hhi.
  rewrite new_with_time_spec; [|done| |];
    [|unfold int64, INT64_MIN, INT64_MAX; lia|unfold INT64_MIN, CHRONOID_KSUID_EPOCH_SECONDS; lia].
  by rewrite Ht, Ef.
Qed.

(** A thread seeded a second ago in this process. *)
#[local] Existing Instances portable_wipe linux_config demo_fuel.

Definition demo_rng : chronoid_tls_rng_t :=
  Rng (seed_state (replicate 44 9)) (replicate 64 0) 64 0 1699999999 100 true true.

Lemma demo_rng_at : at_position (seed_state (replicate 44 9)) 0 demo_rng.
Proof.
  split; [apply seed_state_wf, bytes_replicate; unfold uint; lia|].
  exists 0%nat, 64%nat, (replicate 64 0). split_and!; try reflexivity; lia.
Qed.

Definition demo_program : program (machine toy_os) :=
  Program None 0
    (Thread (Process demo_rng false 0 None FLS_OUT_OF_INDEXES false
               (Machine (ToyOs [] 7 ∅) 100 (Some (1700000000, 0))))
       (at_position_ok _ _ _ demo_rng_at)).

Lemma ksuid_payload_is_keystream_witness :
  in_lifetime 1700000000 = true /\
  exists s pos p', at_position s pos (rng_of demo_program) /\
    chronoid_ksuid_new_with_time CHRONOID_KSUID_NIL 1700000000 demo_program
    = Some (CHRONOID_KSUID_OK,
            ksuid_of (1700000000 - CHRONOID_KSUID_EPOCH_SECONDS) (slice s pos 16), p') /\
    at_position s (pos + 16) (rng_of p') /\ g_rng_fn p' = None.
Proof.
  split; [reflexivity|].
  eapply (ksuid_payload_is_keystream demo_program _ CHRONOID_KSUID_NIL 1700000000);
    [reflexivity | reflexivity | vm_compute; reflexivity | | reflexivity].
  split; [reflexivity|]. apply bytes_replicate. unfold uint. lia.
Defined.
