(* ===== verification/Stdio.v ===== *)
(** * The text functions of the C library the command-line tool uses

    [printf] conversions, [strtol], [gmtime_r], [localtime_r] and [strftime],
    as functions on character codes.  The rules of the local time zone come
    from the system and are an interface. *)
From Stdlib Require Import String.
From S2P Require Import Prelude Radix.
Open Scope Z_scope.

(** ** Numbers *)

(** The decimal digits of a natural number; [fuel] bounds their count. *)
Fixpoint udec (fuel : nat) (n : Z) : list Z :=
  match fuel with
  | O => []
  | S fuel' => (if n <? 10 then [] else udec fuel' (n / 10)) ++ [48 + n mod 10]
  end.

(** [%PRId64], [%PRIu32], [%d], [%u], [%zu]: no 64-bit number has more than 20
    digits. *)
Definition dec (n : Z) : list Z := if n <? 0 then 45 :: udec 20 (- n) else udec 20 n.

(** [%02d], [%03d]. *)
Definition dec_pad (w : nat) (n : Z) : list Z :=
  let d := dec n in replicate (w - length d) 48 ++ d.

Definition hex_digit_upper (d : Z) : Z := if d <? 10 then 48 + d else 55 + d.

(** [%03X] of a number below [16^3]. *)
Definition hex3_upper (n : Z) : list Z := map hex_digit_upper (to_digits 16 3 n).

(** The width of [long]: 32 bits on Windows and on 32-bit systems, 64 elsewhere. *)
Class c_long := { long_bits : Z; long_bits_ok : long_bits = 32 \/ long_bits = 64 }.

Definition lp64 : c_long := {| long_bits := 64; long_bits_ok := or_intror eq_refl |}.
Definition llp64 : c_long := {| long_bits := 32; long_bits_ok := or_introl eq_refl |}.

Definition LONG_MAX `{!c_long} : Z := 2 ^ (long_bits - 1) - 1.
Definition LONG_MIN `{!c_long} : Z := - 2 ^ (long_bits - 1).

Definition isspace (c : Z) : bool := (c =? 32) || ((9 <=? c) && (c <=? 13)).
Definition isdigit (c : Z) : bool := (48 <=? c) && (c <=? 57).

Fixpoint drop_while (p : Z -> bool) (s : list Z) : list Z :=
  match s with
  | c :: s' => if p c then drop_while p s' else s
  | [] => []
  end.

Fixpoint take_while (p : Z -> bool) (s : list Z) : list Z :=
  match s with
  | c :: s' => if p c then c :: take_while p s' else []
  | [] => []
  end.

(** [strtol (s, &end, 10)]: the value, the string at [end] and whether [errno]
    was set. *)
Definition strtol `{!c_long} (s : list Z) : Z * list Z * bool :=
  let t := drop_while isspace s in
  let '(neg, t) := match t with
                   | c :: t' => if c =? 45 then (true, t') else if c =? 43 then (false, t')
                                else (false, t)
                   | [] => (false, t)
                   end in
  match take_while isdigit t with
  | [] => (0, s, false)
  | ds =>
      let v := val 10 (map (fun c => c - 48) ds) in
      let v := if (neg : bool) then - v else v in
      let rest := drop_while isdigit t in
      if LONG_MAX <? v then (LONG_MAX, rest, true)
      else if v <? LONG_MIN then (LONG_MIN, rest, true)
      else (v, rest, false)
  end.

(** ** The calendar *)

Record tm := Tm {
  tm_year : Z;    (* the year itself, not less 1900 *)
  tm_mon : Z;     (* 1 to 12 *)
  tm_mday : Z;
  tm_hour : Z;
  tm_min : Z;
  tm_sec : Z;
  tm_gmtoff : Z;
  tm_zone : list Z
}.

(** The civil date of day [d] after 1970-01-01, in the proleptic Gregorian
    calendar; years start in March inside the computation, and 146097 days are
    400 years. *)
Definition civil_from_days (d : Z) : Z * Z * Z :=
  let z := d + 719468 in
  let era := z / 146097 in
  let doe := z - era * 146097 in
  let yoe := (doe - doe / 1460 + doe / 36524 - doe / 146096) / 365 in
  let doy := doe - (365 * yoe + yoe / 4 - yoe / 100) in
  let mp := (5 * doy + 2) / 153 in
  let day := doy - (153 * mp + 2) / 5 + 1 in
  let mon := if mp <? 10 then mp + 3 else mp - 9 in
  let year := yoe + era * 400 + (if mon <=? 2 then 1 else 0) in
  (year, mon, day).

(** The broken-down time of [t] seconds after the epoch in a zone [off] seconds
    east; none when the year is not an [int] after 1900. *)
Definition broken_down (t off : Z) (zone : list Z) : option tm :=
  let s := t + off in
  let '(year, mon, day) := civil_from_days (s / 86400) in
  let r := s mod 86400 in
  if (year - 1900 <? - 2 ^ 31) || (2 ^ 31 - 1 <? year - 1900) then None
  else Some (Tm year mon day (r / 3600) (r / 60 mod 60) (r mod 60) off zone).

Definition gmtime_r (t : Z) : option tm := broken_down t 0 (str "GMT"%string).

(** The local time zone: at a time, the seconds east of Greenwich and the
    abbreviation. *)
Class TimeZone := zone_at : Z -> Z * list Z.

Definition localtime_r `{TimeZone} (t : Z) : option tm :=
  let '(off, zone) := zone_at t in broken_down t off zone.

(** [strftime (buf, max, "%Y-%m-%d %H:%M:%S", tm)] and the same format followed
    by [" %z %Z"]; none when the text and its NUL do not fit. *)
Definition date_text (t : tm) : list Z :=
  dec (tm_year t) ++ [45] ++ dec_pad 2 (tm_mon t) ++ [45] ++ dec_pad 2 (tm_mday t) ++ [32]
  ++ dec_pad 2 (tm_hour t) ++ [58] ++ dec_pad 2 (tm_min t) ++ [58] ++ dec_pad 2 (tm_sec t).

Definition zone_text (t : tm) : list Z :=
  let o := Z.abs (tm_gmtoff t) in
  [32; if tm_gmtoff t <? 0 then 45 else 43] ++ dec_pad 2 (o / 3600) ++ dec_pad 2 (o / 60 mod 60)
  ++ [32] ++ tm_zone t.

Definition strftime (max : nat) (text : list Z) : option (list Z) :=
  if decide (length text < max)%nat then Some text else None.

(** ** Strings in arrays *)

(** The characters before the first NUL. *)
Definition c_string (a : list Z) : list Z := take_while (fun c => negb (c =? 0)) a.

(** Character [i] of a string; index [length s] is its NUL. *)
Definition char_at (s : list Z) (i : nat) : option Z := (s ++ [0]) !! i.

(** ** Facts *)

Lemma take_while_all p s : Forall (fun c => p c = true) s -> take_while p s = s.
Proof. induction 1 as [|c s Hc Hs IH]; [done|]. cbn. by rewrite Hc, IH. Qed.

Lemma drop_while_all p s : Forall (fun c => p c = true) s -> drop_while p s = [].
Proof. induction 1 as [|c s Hc Hs IH]; [done|]. cbn. by rewrite Hc. Qed.

Lemma c_string_nul s : Forall (fun c => c <> 0) s -> c_string (s ++ [0]) = s.
Proof.
  unfold c_string. induction 1 as [|c s Hc Hs IH]; [done|]. cbn [app take_while].
  rewrite (proj2 (Z.eqb_neq c 0) Hc). cbn [negb]. by rewrite IH.
Qed.

(** Decimal text is the digits of the number. *)
Lemma udec_digits fuel n :
  (0 < fuel)%nat -> 0 <= n < 10 ^ Z.of_nat fuel ->
  exists ds, udec fuel n = map (fun d => 48 + d) ds /\ digits 10 ds /\ val 10 ds = n /\ ds <> [].
Proof.
  revert n. induction fuel as [|fuel IH]; intros n Hf Hn; [lia|]. cbn [udec].
  pose proof (Z.mod_pos_bound n 10 ltac:(lia)) as Hm.
  destruct (Z.ltb_spec n 10) as [Hlt|Hge].
  - exists [n mod 10]. split_and!; [done|by constructor; [exact Hm|constructor]| |done].
    unfold val. cbn [foldl]. rewrite Z.mod_small by lia. lia.
  - rewrite Nat2Z.inj_succ, Z.pow_succ_r in Hn by lia.
    destruct (IH (n / 10)) as (ds & -> & Hd & Hv & _).
    { destruct fuel; [cbn in Hn; lia | lia]. }
    { split; [apply Z.div_pos; lia|]. apply Z.div_lt_upper_bound; lia. }
    exists (ds ++ [n mod 10]). split_and!.
    + by rewrite map_app.
    + apply Forall_app. split; [done|]. by constructor; [exact Hm|constructor].
    + rewrite val_snoc, Hv. pose proof (Z.div_mod n 10 ltac:(lia)). lia.
    + by destruct ds.
Qed.

Lemma long_max_digits `{!c_long} : 0 <= LONG_MAX < 10 ^ Z.of_nat 20.
Proof. unfold LONG_MAX. by destruct long_bits_ok as [-> | ->]. Qed.

Lemma dec_digits `{!c_long} n :
  0 <= n <= LONG_MAX ->
  exists ds, dec n = map (fun d => 48 + d) ds /\ digits 10 ds /\ val 10 ds = n /\ ds <> [].
Proof.
  intros Hn. unfold dec. destruct (Z.ltb_spec n 0); [lia|]. apply udec_digits; [lia|].
  pose proof long_max_digits. lia.
Qed.

(** [strtol] reads back what [%ld] prints. *)
Lemma strtol_dec `{!c_long} n : 0 <= n <= LONG_MAX -> strtol (dec n) = (n, [], false).
Proof.
  intros Hn. destruct (dec_digits n Hn) as (ds & -> & Hd & Hv & Hne).
  assert (Forall (fun c => isdigit c = true) (map (fun d => 48 + d) ds)) as Hall.
  { apply Forall_map. eapply Forall_impl; [|exact Hd]. intros d Hd0. cbv beta in *. unfold isdigit. lia. }
  assert (val 10 (map (fun c => c - 48) (map (fun d => 48 + d) ds)) = n) as Ev.
  { rewrite map_map, (map_ext _ id), map_id by (intros; unfold id; lia). done. }
  destruct ds as [|d ds]; [done|]. apply Forall_cons_1 in Hd as [Hd0 _].
  cbn [map] in *. set (t := map (fun d => 48 + d) ds) in *. clearbody t.
  unfold strtol. cbn [drop_while].
  assert (isspace (48 + d) = false) as -> by (unfold isspace; lia).
  destruct (Z.eqb_spec (48 + d) 45); [lia|]. destruct (Z.eqb_spec (48 + d) 43); [lia|].
  rewrite take_while_all, drop_while_all by done. cbv beta iota zeta. cbn [map].
  rewrite Ev. destruct (Z.ltb_spec LONG_MAX n); [lia|].
  pose proof long_max_digits.
  destruct (Z.ltb_spec n LONG_MIN); [unfold LONG_MIN, LONG_MAX in *; lia|]. done.
Qed.

(** 1645557742 is 2022-02-22 19:22:22 UTC. *)
Example gmtime_example :
  date_text <$> gmtime_r 1645557742 = Some (str "2022-02-22 19:22:22"%string).
Proof. vm_compute. reflexivity. Qed.

(** The civil dates of day -1, of the leap day of 2000 and of the day after. *)
Example civil_examples :
  map civil_from_days [-1; 11016; 11017] = [(1969, 12, 31); (2000, 2, 29); (2000, 3, 1)].
Proof. vm_compute. reflexivity. Qed.
