(* ===== verification/Calendar.v ===== *)
(** * The calendar of the C library model

    [civil_from_days] of Stdio.v computes the date of a day number in closed
    form.  It is the proleptic Gregorian calendar: day 0 is 1970-01-01 and the
    date of the next day is the next date. *)
From S2P Require Import Prelude Stdio.

Definition leap (y : Z) : bool :=
  (y mod 4 =? 0) && (negb (y mod 100 =? 0) || (y mod 400 =? 0)).

Definition month_len (y m : Z) : Z :=
  if m =? 2 then (if leap y then 29 else 28)
  else if (m =? 4) || (m =? 6) || (m =? 9) || (m =? 11) then 30 else 31.

Definition next_date (date : Z * Z * Z) : Z * Z * Z :=
  let '(y, m, d) := date in
  if d <? month_len y m then (y, m, d + 1)
  else if m <? 12 then (y, m + 1, 1) else (y + 1, 1, 1).

Definition valid_date (date : Z * Z * Z) : Prop :=
  let '(y, m, d) := date in 1 <= m <= 12 /\ 1 <= d <= month_len y m.

(** ** Years that begin in March

    Year [y] here ends with the February of the civil year [y + 1]; [start y]
    is its first day, counted from the first day of year 0. *)
Definition start (y : Z) : Z := 365 * y + y / 4 - y / 100 + y / 400.
Definition year_len (y : Z) : Z := if leap (y + 1) then 366 else 365.

Lemma start_next y : start (y + 1) = start y + year_len y.
Proof.
  unfold start, year_len, leap.
  destruct (Z.eqb_spec ((y + 1) mod 4) 0), (Z.eqb_spec ((y + 1) mod 100) 0),
    (Z.eqb_spec ((y + 1) mod 400) 0); cbn [andb orb negb];
    Z.to_euclidean_division_equations; lia.
Qed.

Lemma start_monotone a b : a < b -> start a < start b.
Proof. intros H. unfold start. Z.to_euclidean_division_equations. lia. Qed.

Lemma start_era y era : start (y + era * 400) = start y + era * 146097.
Proof. unfold start. Z.to_euclidean_division_equations. lia. Qed.

(** The year and the day of the year of a day are unique. *)
Lemma march_unique y y' d d' :
  start y + d = start y' + d' -> 0 <= d < year_len y -> 0 <= d' < year_len y' -> y = y' /\ d = d'.
Proof.
  intros E Hd Hd'. pose proof (start_next y). pose proof (start_next y').
  destruct (Z.lt_trichotomy y y') as [H1|[->|H1]]; [|lia|].
  - destruct (Z.eq_dec (y + 1) y') as [<-|]; [lia|].
    pose proof (start_monotone (y + 1) y'). lia.
  - destruct (Z.eq_dec (y' + 1) y) as [<-|]; [lia|].
    pose proof (start_monotone (y' + 1) y). lia.
Qed.

(** The month, from 0 in March, and the day of day [doy] of such a year. *)
Definition month_start (mp : Z) : Z := (153 * mp + 2) / 5.

Definition month_of (mp : Z) : Z := if mp <? 10 then mp + 3 else mp - 9.
Definition year_of (y mp : Z) : Z := y + (if month_of mp <=? 2 then 1 else 0).

Definition civil_of (y doy : Z) : Z * Z * Z :=
  let mp := (5 * doy + 2) / 153 in (year_of y mp, month_of mp, doy - month_start mp + 1).

Lemma civil_march d :
  exists y doy, start y + doy = d + 719468 /\ 0 <= doy < year_len y /\
    civil_from_days d = civil_of y doy.
Proof.
  set (era := (d + 719468) / 146097). set (doe := d + 719468 - era * 146097).
  set (yoe := (doe - doe / 1460 + doe / 36524 - doe / 146096) / 365).
  assert (0 <= doe < 146097) as Hdoe by (subst doe era; Z.to_euclidean_division_equations; lia).
  assert (0 <= yoe < 400 /\ start yoe <= doe < start (yoe + 1)) as [Hyoe Hst].
  { subst yoe. unfold start. clearbody doe. Z.to_euclidean_division_equations. lia. }
  pose proof (start_era yoe era) as Hs.
  exists (yoe + era * 400), (doe - start yoe). split_and!.
  - rewrite Hs. subst doe. lia.
  - lia.
  - pose proof (start_next (yoe + era * 400)) as H1. pose proof (start_era (yoe + 1) era) as H2.
    replace (yoe + 1 + era * 400) with (yoe + era * 400 + 1) in H2 by lia. lia.
  - unfold civil_from_days, civil_of, year_of, month_of. fold era. fold doe. fold yoe. unfold month_start.
    assert (doe - (365 * yoe + yoe / 4 - yoe / 100) = doe - start yoe) as ->.
    { unfold start. rewrite (Z.div_small yoe 400) by lia. lia. }
    done.
Qed.

(** ** Months *)

(** Lengths of the months of a March year: five months of 153 days, twice, and
    what is left. *)
Lemma month_of_day doy :
  0 <= doy < 366 ->
  let mp := (5 * doy + 2) / 153 in
  0 <= mp <= 11 /\ month_start mp <= doy < month_start (mp + 1).
Proof. intros H. cbv zeta. unfold month_start. Z.to_euclidean_division_equations. lia. Qed.

Lemma month_unique doy mp :
  0 <= mp <= 11 -> month_start mp <= doy < month_start (mp + 1) -> (5 * doy + 2) / 153 = mp.
Proof. unfold month_start. intros. Z.to_euclidean_division_equations. lia. Qed.

Lemma month_len_march y mp :
  0 <= mp <= 11 ->
  month_len (year_of y mp) (month_of mp) = Z.min (month_start (mp + 1)) (year_len y) - month_start mp.
Proof.
  intros Hmp.
  assert (mp = 0 \/ mp = 1 \/ mp = 2 \/ mp = 3 \/ mp = 4 \/ mp = 5 \/ mp = 6 \/ mp = 7 \/ mp = 8
    \/ mp = 9 \/ mp = 10 \/ mp = 11) as H by lia. clear Hmp.
  unfold year_of, year_len.
  repeat (destruct H as [->|H]; [by destruct (leap _)|]). subst.
  change ((if leap (y + 1) then 29 else 28)
          = Z.min 367 (if leap (y + 1) then 366 else 365) - 337).
  by destruct (leap _).
Qed.

(** The months of a March year end within it, and only the last one at its
    end. *)
Lemma month_start_bounds y mp :
  0 <= mp <= 11 -> month_start mp < year_len y /\
  (mp < 11 -> month_start (mp + 1) < year_len y) /\ (mp = 11 -> year_len y < month_start (mp + 1)).
Proof.
  intros H. unfold year_len, month_start. destruct (leap _);
    split_and!; intros; Z.to_euclidean_division_equations; lia.
Qed.

(** ** The calendar *)

Lemma civil_epoch : civil_from_days 0 = (1970, 1, 1).
Proof. reflexivity. Qed.

Lemma civil_valid d : valid_date (civil_from_days d).
Proof.
  destruct (civil_march d) as (y & doy & _ & Hd & ->). unfold civil_of, valid_date.
  assert (0 <= doy < 366) as Hd' by (unfold year_len in Hd; destruct (leap _); lia).
  destruct (month_of_day doy Hd') as [Hmp Hm]. rewrite month_len_march by done.
  set (mp := (5 * doy + 2) / 153) in *. unfold month_of. destruct (Z.ltb_spec mp 10); lia.
Qed.

Lemma civil_next d : civil_from_days (d + 1) = next_date (civil_from_days d).
Proof.
  destruct (civil_march d) as (y & doy & E & Hd & ->).
  destruct (civil_march (d + 1)) as (y' & doy' & E' & Hd' & ->).
  assert (0 <= doy < 366) as Hd2 by (unfold year_len in Hd; destruct (leap _); lia).
  destruct (month_of_day doy Hd2) as [Hmp Hm].
  set (mp := (5 * doy + 2) / 153) in *.
  destruct (month_start_bounds y mp Hmp) as (_ & Hlt & Heq).
  unfold next_date. unfold civil_of at 2. fold mp. rewrite month_len_march by done.
  destruct (Z.ltb_spec (doy - month_start mp + 1)
              (Z.min (month_start (mp + 1)) (year_len y) - month_start mp)) as [H|H].
  { destruct (march_unique y' y doy' (doy + 1)) as [-> ->]; [lia..|].
    unfold civil_of. rewrite (month_unique (doy + 1) mp) by lia. f_equal. lia. }
  destruct (Z.eq_dec mp 11) as [Emp|Nmp].
  - specialize (Heq Emp). pose proof (start_next y).
    destruct (march_unique y' (y + 1) doy' 0) as [-> ->]; [lia|lia| |].
    { unfold year_len. destruct (leap _); lia. }
    rewrite Emp. unfold civil_of, year_of. cbn. by rewrite Z.add_0_r.
  - specialize (Hlt ltac:(lia)).
    destruct (march_unique y' y doy' (doy + 1)) as [-> ->]; [lia..|].
    unfold civil_of. pose proof (month_start_bounds y (mp + 1) ltac:(lia)) as (Hb & Hb1 & Hb2).
    rewrite (month_unique (doy + 1) (mp + 1)).
    2: lia.
    2: { unfold month_start in *. Z.to_euclidean_division_equations. lia. }
    replace (doy + 1 - month_start (mp + 1) + 1) with 1 by lia.
    unfold year_of, month_of. destruct (Z.ltb_spec mp 10), (Z.ltb_spec (mp + 1) 10);
    repeat match goal with
    | |- context [?a <=? ?b] => destruct (Z.leb_spec a b)
    | |- context [?a <? ?b] => destruct (Z.ltb_spec a b)
    end; rewrite !pair_equal_spec; lia.
Qed.

(** The broken-down time: the fields are in range and make up the time. *)
Lemma broken_down_fields t off zone tm :
  broken_down t off zone = Some tm ->
  (tm_year tm, tm_mon tm, tm_mday tm) = civil_from_days ((t + off) / 86400) /\
  valid_date (tm_year tm, tm_mon tm, tm_mday tm) /\
  0 <= tm_hour tm < 24 /\ 0 <= tm_min tm < 60 /\ 0 <= tm_sec tm < 60 /\
  t + off = (t + off) / 86400 * 86400 + tm_hour tm * 3600 + tm_min tm * 60 + tm_sec tm.
Proof.
  unfold broken_down. pose proof (civil_valid ((t + off) / 86400)) as Hv.
  destruct (civil_from_days _) as [[y m] d]. destruct (_ || _); [done|]. intros [= <-].
  cbn [tm_year tm_mon tm_mday tm_hour tm_min tm_sec]. generalize (t + off). intros s.
  split_and!; try done; Z.to_euclidean_division_equations; lia.
Qed.

(** ** Lengths of the texts *)

Lemma length_udec fuel n k :
  (1 <= k)%nat -> 0 <= n < 10 ^ Z.of_nat k -> (length (udec fuel n) <= k)%nat.
Proof.
  revert n k. induction fuel as [|fuel IH]; intros n k Hk Hn; cbn [udec length]; [lia|].
  rewrite length_app. cbn [length]. destruct (Z.ltb_spec n 10); [cbn; lia|].
  destruct k as [|[|k]]; [lia|cbn in Hn; lia|].
  rewrite Nat2Z.inj_succ, Z.pow_succ_r in Hn by lia.
  enough (length (udec fuel (n / 10)) <= S k)%nat by lia.
  apply IH; [lia|]. split; [apply Z.div_pos; lia | apply Z.div_lt_upper_bound; lia].
Qed.

Lemma length_dec n k :
  (1 <= k)%nat -> 0 <= n < 10 ^ Z.of_nat k -> (length (dec n) <= k)%nat.
Proof. intros Hk Hn. unfold dec. destruct (Z.ltb_spec n 0); [lia|]. by apply length_udec. Qed.

Lemma length_dec_pad w n :
  (1 <= w)%nat -> 0 <= n < 10 ^ Z.of_nat w -> length (dec_pad w n) = w.
Proof.
  intros Hw Hn. pose proof (length_dec n w Hw Hn). unfold dec_pad.
  rewrite length_app, length_replicate. lia.
Qed.

(** Up to the year 99999 a date fits in the 64 characters of the tool. *)
Lemma date_fits t off zone tm :
  broken_down t off zone = Some tm -> 0 <= tm_year tm <= 99999 ->
  strftime 64 (date_text tm) = Some (date_text tm).
Proof.
  intros E Hy. destruct (broken_down_fields _ _ _ _ E) as (_ & [Hm Hd] & Hh & Hmi & Hs & _).
  assert (month_len (tm_year tm) (tm_mon tm) <= 31) as Hlen
    by (unfold month_len; repeat case_match; lia).
  pose proof (length_dec (tm_year tm) 5 ltac:(lia) ltac:(cbn; lia)).
  unfold strftime, date_text. rewrite decide_True; [done|].
  rewrite !length_app, !length_dec_pad by (cbn; lia). cbn [length]. lia.
Qed.

(** The years of a UUIDv7: 48 bits of milliseconds end in the year 10889. *)
Lemma year_bound t :
  0 <= t <= 281474976710 ->
  exists tm, gmtime_r t = Some tm /\ 1969 <= tm_year tm <= 10890.
Proof.
  intros Ht. unfold gmtime_r, broken_down. rewrite Z.add_0_r.
  assert (0 <= t / 86400 <= 3257812) as Hd
    by (Z.to_euclidean_division_equations; lia).
  destruct (civil_march (t / 86400)) as (y & doy & E & Hdoy & ->). unfold civil_of.
  assert (1969 <= y <= 10889) as Hy.
  { unfold year_len in Hdoy. assert (0 <= doy < 366) as Hd2 by (destruct (leap _); lia).
    unfold start in E. Z.to_euclidean_division_equations. lia. }
  assert (y <= year_of y ((5 * doy + 2) / 153) <= y + 1) as Hy2
    by (unfold year_of; destruct (_ <=? 2); lia).
  rewrite (proj2 (Z.ltb_ge _ _)), (proj2 (Z.ltb_ge _ _)) by lia. cbn [orb].
  eexists. split; [done|]. cbn [tm_year]. lia.
Qed.

(** rand_tls.c says that [tv_sec * 1000] "cannot overflow int64_t until year
    292278994 AD": the last second whose product fits is on 17 August of that year
    ([now_ms_exact] of TlsRng is the bound). *)
Example now_ms_last_second :
  let t := INT64_MAX / 1000 in
  int64 (t * 1000) /\ ~ int64 ((t + 1) * 1000) /\
  (tm ← gmtime_r t; Some (tm_year tm, tm_mon tm, tm_mday tm)) = Some (292278994, 8, 17).
Proof.
  split; [vm_compute; split; discriminate|]. split; [|vm_compute; reflexivity].
  vm_compute. by intros [_ []].
Qed.
