(* ===== verification/Cli.v ===== *)
(** * The command-line tool: examples/chronoid-gen.c

    The print functions return the bytes they write to standard output; [main]
    carries both output streams and the environment.  Arguments are strings of
    characters without their NUL. *)
From Stdlib Require Import String.
From S2P Require Import Prelude Radix Stdio Libc Rand KsuidTypes Base62 Ksuid.
From S2P Require Import Hex HexSsse3 Uuidv7.
Open Scope Z_scope.

Variant output_format := FMT_STRING | FMT_INSPECT | FMT_TIME | FMT_TIMESTAMP | FMT_PAYLOAD | FMT_RAW.
Variant id_format := IDFMT_KSUID | IDFMT_UUIDV7.

#[export] Instance id_format_eq_dec : EqDecision id_format.
Proof. solve_decision. Defined.
#[export] Instance output_format_eq_dec : EqDecision output_format.
Proof. solve_decision. Defined.

(** [None] is the -1 of the source. *)
Definition parse_format (s : list Z) : option output_format :=
  if bool_decide (s = str "string") then Some FMT_STRING
  else if bool_decide (s = str "inspect") then Some FMT_INSPECT
  else if bool_decide (s = str "time") then Some FMT_TIME
  else if bool_decide (s = str "timestamp") then Some FMT_TIMESTAMP
  else if bool_decide (s = str "payload") then Some FMT_PAYLOAD
  else if bool_decide (s = str "raw") then Some FMT_RAW
  else None.

Definition parse_idformat (s : list Z) : option id_format :=
  if bool_decide (s = str "ksuid") then Some IDFMT_KSUID
  else if bool_decide (s = str "uuidv7") then Some IDFMT_UUIDV7
  else None.

(** [n] bytes from [bytes + off]. *)
Fixpoint fputs_hex_upper (b : list Z) (off n : nat) : option (list Z) :=
  match n with
  | O => Some []
  | S n' =>
      x ← b !! off;
      hi ← cstr "0123456789ABCDEF" !! Z.to_nat (Z.land (Z.shiftr x 4) 0xf);
      lo ← cstr "0123456789ABCDEF" !! Z.to_nat (Z.land x 0xf);
      rest ← fputs_hex_upper b (S off) n';
      Some (hi :: lo :: rest)
  end.

(** [fwrite (b + off, 1, n, stdout)]. *)
Definition fwrite (b : list Z) (off n : nat) : option (list Z) :=
  if decide (off + n <= length b)%nat then Some (take n (drop off b)) else None.

Section Print.
Context `{!TimeZone} `{!HexEncode16}.

Definition fputs_time_local (unix_seconds : Z) : list Z :=
  match localtime_r unix_seconds with
  | None => dec unix_seconds
  | Some t =>
      match strftime 64 (date_text t ++ zone_text t) with
      | None => dec unix_seconds
      | Some buf => buf
      end
  end.

Definition fputs_time_utc_ms (unix_ms : Z) : list Z :=
  let secs := Z.quot unix_ms 1000 in
  let ms := Z.rem unix_ms 1000 in
  let '(ms, secs) := if ms <? 0 then (ms + 1000, secs - 1) else (ms, secs) in
  match gmtime_r secs with
  | None => dec unix_ms
  | Some t =>
      match strftime 64 (date_text t) with
      | None => dec unix_ms
      | Some buf => buf ++ [46] ++ dec_pad 3 ms ++ str " +0000 UTC"
      end
  end.

(** [char s[28]; chronoid_ksuid_format (id, s); s[27] = 0]: the string. *)
Definition ksuid_string (id : chronoid_ksuid_t) : option (list Z) :=
  s ← at_offset (uninit 28) 0 27 (chronoid_ksuid_format id);
  s ← store s CHRONOID_KSUID_STRING_LEN 0;
  Some (c_string s).

Definition print_string (id : chronoid_ksuid_t) : option (list Z) :=
  s ← ksuid_string id;
  Some (s ++ [10]).

Definition print_inspect (id : chronoid_ksuid_t) : option (list Z) :=
  s ← ksuid_string id;
  raw ← fputs_hex_upper (ksuid_b id) 0 CHRONOID_KSUID_BYTES;
  t ← chronoid_ksuid_time_unix id;
  ts ← chronoid_ksuid_timestamp id;
  let '(p, off) := chronoid_ksuid_payload id in
  pl ← fputs_hex_upper p off CHRONOID_KSUID_PAYLOAD_LEN;
  Some ([10] ++ str "REPRESENTATION:" ++ [10; 10] ++ str "  String: " ++ s ++ [10]
        ++ str "     Raw: " ++ raw
        ++ [10; 10] ++ str "COMPONENTS:" ++ [10; 10] ++ str "       Time: "
        ++ fputs_time_local t
        ++ [10] ++ str "  Timestamp: " ++ dec ts ++ [10] ++ str "    Payload: "
        ++ pl ++ [10; 10]).

Definition print_time (id : chronoid_ksuid_t) : option (list Z) :=
  t ← chronoid_ksuid_time_unix id;
  Some (fputs_time_local t ++ [10]).

Definition print_timestamp (id : chronoid_ksuid_t) : option (list Z) :=
  ts ← chronoid_ksuid_timestamp id;
  Some (dec ts ++ [10]).

Definition print_payload (id : chronoid_ksuid_t) : option (list Z) :=
  let '(p, off) := chronoid_ksuid_payload id in
  fwrite p off CHRONOID_KSUID_PAYLOAD_LEN.

Definition print_raw (id : chronoid_ksuid_t) : option (list Z) :=
  fwrite (ksuid_b id) 0 CHRONOID_KSUID_BYTES.

Definition print_one_ksuid (format : output_format) (id : chronoid_ksuid_t) (verbose : bool)
    : option (list Z) :=
  prefix ← (if verbose then s ← ksuid_string id; Some (s ++ str ": ") else Some []);
  body ← match format with
         | FMT_STRING => print_string id
         | FMT_INSPECT => print_inspect id
         | FMT_TIME => print_time id
         | FMT_TIMESTAMP => print_timestamp id
         | FMT_PAYLOAD => print_payload id
         | FMT_RAW => print_raw id
         end;
  Some (prefix ++ body).

Definition uuidv7_string (id : chronoid_uuidv7_t) : option (list Z) :=
  s ← at_offset (uninit 37) 0 36 (chronoid_uuidv7_format id);
  s ← store s CHRONOID_UUIDV7_STRING_LEN 0;
  Some (c_string s).

Definition print_string_uuidv7 (id : chronoid_uuidv7_t) : option (list Z) :=
  s ← uuidv7_string id;
  Some (s ++ [10]).

Definition print_inspect_uuidv7 (id : chronoid_uuidv7_t) : option (list Z) :=
  s ← uuidv7_string id;
  b6 ← uuidv7_b id !! 6%nat;
  b7 ← uuidv7_b id !! 7%nat;
  let rand_a_12 := u16 (Z.lor (u16 (Z.shiftl (Z.land b6 0x0f) 8)) b7) in
  raw ← fputs_hex_upper (uuidv7_b id) 0 CHRONOID_UUIDV7_BYTES;
  ms ← chronoid_uuidv7_unix_ms id;
  version ← chronoid_uuidv7_version id;
  variant ← chronoid_uuidv7_variant id;
  rand_b ← fputs_hex_upper (uuidv7_b id) 8 8;
  Some ([10] ++ str "REPRESENTATION:" ++ [10; 10] ++ str "  String: " ++ s ++ [10]
        ++ str "     Raw: " ++ raw
        ++ [10; 10] ++ str "COMPONENTS:" ++ [10; 10] ++ str "       Time: "
        ++ fputs_time_utc_ms ms
        ++ [10] ++ str "  Timestamp: " ++ dec ms
        ++ [10] ++ str "    Version: " ++ dec version
        ++ [10] ++ str "    Variant: 0b" ++ dec (Z.land (Z.shiftr variant 1) 1)
        ++ dec (Z.land variant 1) ++ str " (RFC 4122 / 9562)"
        ++ [10] ++ str "     rand_a: 0x" ++ hex3_upper rand_a_12
        ++ [10] ++ str "     rand_b: " ++ rand_b ++ [10; 10]).

Definition print_time_uuidv7 (id : chronoid_uuidv7_t) : option (list Z) :=
  ms ← chronoid_uuidv7_unix_ms id;
  Some (fputs_time_utc_ms ms ++ [10]).

Definition print_timestamp_uuidv7 (id : chronoid_uuidv7_t) : option (list Z) :=
  ms ← chronoid_uuidv7_unix_ms id;
  Some (dec ms ++ [10]).

Definition print_raw_uuidv7 (id : chronoid_uuidv7_t) : option (list Z) :=
  fwrite (uuidv7_b id) 0 CHRONOID_UUIDV7_BYTES.

Definition print_one_uuidv7 (format : output_format) (id : chronoid_uuidv7_t) (verbose : bool)
    : option (list Z) :=
  prefix ← (if verbose then s ← uuidv7_string id; Some (s ++ str ": ") else Some []);
  body ← match format with
         | FMT_STRING => print_string_uuidv7 id
         | FMT_INSPECT => print_inspect_uuidv7 id
         | FMT_TIME => print_time_uuidv7 id
         | FMT_TIMESTAMP => print_timestamp_uuidv7 id
         | FMT_RAW => print_raw_uuidv7 id
         | FMT_PAYLOAD => Some []
         end;
  Some (prefix ++ body).
End Print.

(** ** Options *)

Definition usage (argv0 : list Z) : list Z :=
  str "usage: " ++ argv0 ++ str " [-n N] [-f FORMAT] [--format=ID] [-v] [ID ...]" ++ [10]
  ++ str "  -n N        number of IDs to generate when no args given (default 1)" ++ [10]
  ++ str "  -f FORMAT   output projection: one of string, inspect, time," ++ [10]
  ++ str "              timestamp, payload, raw (default: string)" ++ [10]
  ++ str "              -f payload is KSUID-only; UUIDv7 has no equivalent" ++ [10]
  ++ str "              field, so combining -f payload with a UUIDv7 is an" ++ [10]
  ++ str "              error. Use -f raw for the 16-byte image or -f inspect" ++ [10]
  ++ str "              for rand_a / rand_b." ++ [10]
  ++ str "  --format=ID ID format for generation: one of ksuid, uuidv7" ++ [10]
  ++ str "              (default: ksuid)" ++ [10]
  ++ str "  -v          prefix each line with the ID and ': '" ++ [10]
  ++ str "  -h          show this help" ++ [10]
  ++ str "When ID arguments are supplied they are parsed and formatted; the -n" ++ [10]
  ++ str "flag is ignored. Positional args are auto-detected by length: 27 chars" ++ [10]
  ++ str "= KSUID, 36 chars = UUIDv7. A mismatch between --format and a" ++ [10]
  ++ str "positional argument's detected format is an error." ++ [10].

Definition payload_error : list Z :=
  str "-f payload is not supported for UUIDv7; use -f raw for the" ++ [10]
  ++ str "16-byte image or -f inspect for rand_a / rand_b." ++ [10].

Record options := Options {
  o_count : Z;
  o_format : output_format;
  o_idformat : id_format;
  o_idformat_explicit : bool;
  o_verbose : bool
}.

Definition default_options : options := Options 1 FMT_STRING IDFMT_KSUID false false.

(** The option loop ends at the first positional argument, or returns from
    [main] with what it has written to standard output and standard error. *)
Variant parsed :=
| Positional (o : options) (args : list (list Z))
| Return (code : Z) (out err : list Z).

Definition unknown_option (argv0 a : list Z) : parsed :=
  Return 1 [] (str "unknown option: " ++ a ++ [10] ++ usage argv0).

Section Options.
Context `{!c_long}.

Fixpoint parse_options (argv0 : list Z) (args : list (list Z)) (o : options) : option parsed :=
  match args with
  | [] => Some (Positional o [])
  | a :: args1 =>
      a0 ← char_at a 0;
      if negb (a0 =? 45) then Some (Positional o args)
      else
        a1 ← char_at a 1;
        if a1 =? 0 then Some (Positional o args)
        else if a1 =? 45 then
          if bool_decide (take 9 a = str "--format=") then
            let value := drop 9 a in
            match parse_idformat value with
            | None => Some (Return 1 [] (str "unknown id format: " ++ value ++ [10]))
            | Some f =>
                parse_options argv0 args1
                  (Options (o_count o) (o_format o) f true (o_verbose o))
            end
          else Some (unknown_option argv0 a)
        else
          a2 ← char_at a 2;
          if negb (a2 =? 0) then Some (unknown_option argv0 a)
          else if a1 =? 118 then
            parse_options argv0 args1
              (Options (o_count o) (o_format o) (o_idformat o) (o_idformat_explicit o) true)
          else if a1 =? 104 then Some (Return 0 (usage argv0) [])
          else if (a1 =? 110) || (a1 =? 102) then
            match args1 with
            | [] => Some (Return 1 [] (str "missing argument for -" ++ [a1; 10] ++ usage argv0))
            | value :: args2 =>
                if a1 =? 110 then
                  let '(v, rest, errno) := strtol value in
                  if (errno : bool) || negb (bool_decide (rest = [])) || (v <=? 0)
                  then Some (Return 1 [] (str "invalid -n value: " ++ value ++ [10]))
                  else
                    parse_options argv0 args2
                      (Options v (o_format o) (o_idformat o) (o_idformat_explicit o) (o_verbose o))
                else
                  match parse_format value with
                  | None => Some (Return 1 [] (str "unknown format: " ++ value ++ [10]))
                  | Some f =>
                      parse_options argv0 args2
                        (Options (o_count o) f (o_idformat o) (o_idformat_explicit o) (o_verbose o))
                  end
            end
          else Some (unknown_option argv0 a)
  end.

End Options.

(** ** The two modes *)

Section Main.
Context {W : Type} `{!RandomSource W} `{!Clock W} `{!NowMs W}.
Context `{!TimeZone} `{!HexEncode16} `{!Translate16}.

(** The exit code, standard output, standard error and the environment. *)
Definition outcome : Type := Z * list Z * list Z * W.

(** What was written before comes first. *)
Definition after (out : list Z) (r : outcome) : outcome :=
  let '(code, o, e, w) := r in (code, out ++ o, e, w).

Fixpoint generate (k : nat) (o : options) (w : W) : option outcome :=
  match k with
  | O => Some (0, [], [], w)
  | S k' =>
      match o_idformat o with
      | IDFMT_UUIDV7 =>
          '(e, id, w) ← chronoid_uuidv7_new (Uuidv7 (uninit 16)) w;
          if bool_decide (e <> CHRONOID_UUIDV7_OK)
          then Some (2, [], str "chronoid_uuidv7_new failed (err " ++ dec (uuidv7_err_code e)
                            ++ str ")" ++ [10], w)
          else
            line ← print_one_uuidv7 (o_format o) id (o_verbose o);
            r ← generate k' o w;
            Some (after line r)
      | IDFMT_KSUID =>
          '(e, id, w) ← chronoid_ksuid_new (Ksuid (uninit 20)) w;
          if bool_decide (e <> CHRONOID_KSUID_OK)
          then Some (2, [], str "chronoid_ksuid_new failed (err " ++ dec (ksuid_err_code e)
                            ++ str ")" ++ [10], w)
          else
            line ← print_one_ksuid (o_format o) id (o_verbose o);
            r ← generate k' o w;
            Some (after line r)
      end
  end.

(** The format an argument of this length is taken for. *)
Definition detect (len : nat) : option id_format :=
  if decide (len = CHRONOID_KSUID_STRING_LEN) then Some IDFMT_KSUID
  else if decide (len = CHRONOID_UUIDV7_STRING_LEN) then Some IDFMT_UUIDV7
  else None.

Definition could_not_parse (a : list Z) (code : Z) : list Z :=
  str "could not parse " ++ a ++ str " (err " ++ dec code ++ str ")" ++ [10].

Fixpoint parse_args (args : list (list Z)) (o : options) (w : W) : option outcome :=
  match args with
  | [] => Some (0, [], [], w)
  | a :: args' =>
      let len := length a in
      match detect len with
      | None =>
          Some (1, [], str "could not parse " ++ a
                  ++ str ": expected 27 (KSUID) or 36 (UUIDv7) chars, got "
                  ++ dec (Z.of_nat len) ++ [10], w)
      | Some detected =>
          if o_idformat_explicit o && bool_decide (detected <> o_idformat o) then
            Some (1, [], str "format mismatch: --format="
                    ++ (if decide (o_idformat o = IDFMT_UUIDV7) then str "uuidv7" else str "ksuid")
                    ++ str " but " ++ a ++ str " looks like a "
                    ++ (if decide (detected = IDFMT_UUIDV7) then str "UUIDv7" else str "KSUID")
                    ++ str " (" ++ dec (Z.of_nat len) ++ str " chars)" ++ [10], w)
          else if bool_decide (o_format o = FMT_PAYLOAD) && bool_decide (detected = IDFMT_UUIDV7)
          then Some (1, [], payload_error, w)
          else
            match detected with
            | IDFMT_UUIDV7 =>
                '(e, id) ← chronoid_uuidv7_parse (Uuidv7 (uninit 16)) a len;
                if bool_decide (e <> CHRONOID_UUIDV7_OK)
                then Some (1, [], could_not_parse a (uuidv7_err_code e), w)
                else
                  line ← print_one_uuidv7 (o_format o) id (o_verbose o);
                  r ← parse_args args' o w;
                  Some (after line r)
            | IDFMT_KSUID =>
                '(e, id) ← chronoid_ksuid_parse (Ksuid (uninit 20)) a len;
                if bool_decide (e <> CHRONOID_KSUID_OK)
                then Some (1, [], could_not_parse a (ksuid_err_code e), w)
                else
                  line ← print_one_ksuid (o_format o) id (o_verbose o);
                  r ← parse_args args' o w;
                  Some (after line r)
            end
      end
  end.

Definition main `{!c_long} (argv : list (list Z)) (w : W) : option outcome :=
  match argv with
  | [] => Some (0, [], [], w)
  | argv0 :: args =>
      p ← parse_options argv0 args default_options;
      match p with
      | Return code out err => Some (code, out, err, w)
      | Positional o [] =>
          if bool_decide (o_format o = FMT_PAYLOAD) && bool_decide (o_idformat o = IDFMT_UUIDV7)
          then Some (1, [], payload_error, w)
          else generate (Z.to_nat (o_count o)) o w
      | Positional o rest => parse_args rest o w
      end
  end.
End Main.
