(* ===== verification/Render.v ===== *)
(** * What each projection of the command-line tool prints

    The text of an id in every projection of examples/chronoid-gen.c, written
    with the values of the id's fields, and the proof that the print functions
    produce it from any well-formed id. *)
From Stdlib Require Import String.
From S2P Require Import Prelude Radix Stdio Calendar Rand KsuidTypes Base62 Ksuid.
From S2P Require Import Hex Uuidv7 Cli.
Open Scope Z_scope.

(** ** Strings of ids *)

(** Characters that are neither NUL nor a hyphen. *)
Definition plain (c : Z) : Prop := c <> 0 /\ c <> 45.

Lemma b62_ref_plain b : Forall plain (b62_encode_ref b).
Proof.
  unfold b62_encode_ref. pose proof (digits_to_digits 62 eq_refl 27 (val 256 b)) as H.
  induction H as [|d l Hd Hl IH]; [constructor|]. constructor; [|done].
  destruct (b62_char_spec d Hd) as (_ & _ & _ & Hv). unfold plain.
  split; intros E; rewrite E in Hv; vm_compute in Hv; discriminate Hv.
Qed.

Lemma hex_digits_plain b : bytes b -> Forall plain (hex_digits b).
Proof.
  assert (forall d, 0 <= d < 16 -> plain (hex_char d)) as Hc.
  { intros d Hd. destruct (hex_char_spec d Hd) as (_ & _ & _ & Hv). unfold plain.
    split; intros E; rewrite E in Hv; vm_compute in Hv; discriminate Hv. }
  induction 1 as [|x b Hx Hb IH]; [constructor|]. cbn [hex_digits].
  destruct (nibbles x Hx). by repeat (constructor; [by apply Hc|]).
Qed.

Lemma hex_ref_nonzero b : bytes b -> Forall (fun c => c <> 0) (hex_ref b).
Proof.
  intros Hb. pose proof (hex_digits_plain b Hb) as H.
  assert (Forall (fun c => c <> 0) (hex_digits b)) as Hn
    by (eapply Forall_impl; [|exact H]; intros c [? _]; done).
  unfold hex_ref, dashed.
  repeat first [apply Forall_app; split | apply Forall_cons; [done|]];
    try apply Forall_take; try apply Forall_drop; done.
Qed.

Section Strings.
Context `{!HexEncode16} `{!Translate16}.

Lemma ksuid_string_spec id : wf_ksuid id -> ksuid_string id = Some (b62_encode_ref (ksuid_b id)).
Proof.
  intros Hid. unfold ksuid_string.
  rewrite (at_offset_Some [] (uninit 27) [0xcc] _ (b62_encode_ref (ksuid_b id)))
    by (done || by apply format_spec).
  cbn [app mbind option_bind]. pose proof (b62_encode_ref_length (ksuid_b id)) as Hl.
  rewrite <- (app_nil_r [0xcc]). unfold CHRONOID_KSUID_STRING_LEN.
  rewrite <- (Nat.add_0_r 27), store_middle by (done || (cbn; lia)).
  cbn [mbind option_bind insert list_insert app]. f_equal. apply c_string_nul.
  eapply Forall_impl; [|apply b62_ref_plain]. by intros c [? _].
Qed.

Lemma uuidv7_string_spec id : wf_uuidv7 id -> uuidv7_string id = Some (hex_ref (uuidv7_b id)).
Proof.
  intros Hid. unfold uuidv7_string.
  rewrite (at_offset_Some [] (uninit 36) [0xcc] _ (hex_ref (uuidv7_b id)))
    by (done || by apply uuidv7_format_spec).
  cbn [app mbind option_bind].
  pose proof (length_hex_ref (uuidv7_b id) ltac:(apply Hid)) as Hl.
  rewrite <- (app_nil_r [0xcc]). unfold CHRONOID_UUIDV7_STRING_LEN.
  rewrite <- (Nat.add_0_r 36), store_middle by (done || (cbn; lia)).
  cbn [mbind option_bind insert list_insert app]. f_equal. apply c_string_nul.
  apply hex_ref_nonzero, Hid.
Qed.
End Strings.

(** An id and its text. *)
Variant id := KsuidId (k : chronoid_ksuid_t) | UuidId (u : chronoid_uuidv7_t).

Definition wf_id (i : id) : Prop :=
  match i with KsuidId k => wf_ksuid k | UuidId u => wf_uuidv7 u end.

Definition id_text (i : id) : list Z :=
  match i with KsuidId k => b62_encode_ref (ksuid_b k) | UuidId u => hex_ref (uuidv7_b u) end.

Lemma id_text_positional i :
  wf_id i -> exists c s, id_text i = c :: s /\ c <> 45.
Proof.
  destruct i as [k|u]; cbn [wf_id id_text].
  - intros _. pose proof (b62_ref_plain (ksuid_b k)) as H.
    pose proof (b62_encode_ref_length (ksuid_b k)) as Hl.
    destruct (b62_encode_ref (ksuid_b k)) as [|c s]; [done|].
    apply Forall_cons_1 in H as [[_ Hc] _]. by exists c, s.
  - intros [Hl Hb]. pose proof (hex_digits_plain _ Hb) as H. unfold hex_ref, dashed.
    destruct (uuidv7_b u) as [|x b]; [done|]. cbn [hex_digits] in *.
    apply Forall_cons_1 in H as [[_ Hc] _]. cbn [take app]. by eexists _, _.
Qed.

Lemma id_text_bytes i : wf_id i -> bytes (id_text i).
Proof. destruct i; cbn; intros [Hl Hb]; [apply b62_encode_ref_bytes | by apply bytes_hex_ref]. Qed.

(** ** The projections *)

Definition upper_hex (b : list Z) : list Z :=
  concat (map (fun x => [hex_digit_upper (x / 16); hex_digit_upper (x mod 16)]) b).

Lemma upper_digit d :
  0 <= d < 16 -> cstr "0123456789ABCDEF" !! Z.to_nat d = Some (hex_digit_upper d).
Proof.
  intros Hd. assert (d = 0 \/ d = 1 \/ d = 2 \/ d = 3 \/ d = 4 \/ d = 5 \/ d = 6 \/ d = 7 \/ d = 8
    \/ d = 9 \/ d = 10 \/ d = 11 \/ d = 12 \/ d = 13 \/ d = 14 \/ d = 15) as H by lia.
  by repeat (destruct H as [->|H]; [reflexivity|]); subst.
Qed.

Lemma fputs_hex_upper_spec n b off :
  bytes b -> (off + n <= length b)%nat ->
  fputs_hex_upper b off n = Some (upper_hex (take n (drop off b))).
Proof.
  intros Hb. revert off. induction n as [|n IH]; intros off Hl; [done|].
  destruct (lookup_lt_is_Some_2 b off ltac:(lia)) as [x Hx].
  pose proof (bytes_lookup _ _ _ Hb Hx) as Hu. destruct (nibbles x Hu).
  cbn [fputs_hex_upper]. rewrite Hx. cbn [mbind option_bind].
  rewrite high_nibble, low_nibble by done. rewrite !upper_digit by done.
  cbn [mbind option_bind]. rewrite IH by lia. cbn [mbind option_bind].
  by rewrite (drop_S b x off Hx).
Qed.

Lemma fputs_hex_upper_full b n :
  bytes b -> length b = n -> fputs_hex_upper b 0 n = Some (upper_hex b).
Proof. intros Hb <-. rewrite fputs_hex_upper_spec by (done || lia). by rewrite drop_0, firstn_all. Qed.

Definition id_bytes (i : id) : list Z :=
  match i with KsuidId k => ksuid_b k | UuidId u => uuidv7_b u end.

(** The number in the time field: seconds after the KSUID epoch, or
    milliseconds after the Unix epoch. *)
Definition stamp (i : id) : Z := match i with KsuidId k => ksuid_ts k | UuidId u => uuidv7_ms u end.

Section Render.
Context `{!TimeZone}.

Definition time_text (i : id) : list Z :=
  match i with
  | KsuidId k => fputs_time_local (ksuid_ts k + CHRONOID_KSUID_EPOCH_SECONDS)
  | UuidId u => fputs_time_utc_ms (uuidv7_ms u)
  end.

Definition field (name value : list Z) : list Z := [10] ++ name ++ value.

Definition inspect_fields (i : id) : list Z :=
  match i with
  | KsuidId k => field (str "    Payload: ") (upper_hex (drop 4 (ksuid_b k)))
  | UuidId u =>
      let b n := nth n (uuidv7_b u) 0 in
      field (str "    Version: ") (dec (b 6%nat / 16))
      ++ field (str "    Variant: 0b")
           (dec (b 8%nat / 128) ++ dec (b 8%nat / 64 mod 2) ++ str " (RFC 4122 / 9562)")
      ++ field (str "     rand_a: 0x") (hex3_upper (b 6%nat mod 16 * 256 + b 7%nat))
      ++ field (str "     rand_b: ") (upper_hex (drop 8 (uuidv7_b u)))
  end.

Definition body (f : output_format) (i : id) : list Z :=
  match f with
  | FMT_STRING => id_text i ++ [10]
  | FMT_INSPECT =>
      field (str "REPRESENTATION:") [10] ++ field (str "  String: ") (id_text i)
      ++ field (str "     Raw: ") (upper_hex (id_bytes i)) ++ [10]
      ++ field (str "COMPONENTS:") [10] ++ field (str "       Time: ") (time_text i)
      ++ field (str "  Timestamp: ") (dec (stamp i)) ++ inspect_fields i ++ [10; 10]
  | FMT_TIME => time_text i ++ [10]
  | FMT_TIMESTAMP => dec (stamp i) ++ [10]
  | FMT_PAYLOAD => match i with KsuidId k => drop 4 (ksuid_b k) | UuidId _ => [] end
  | FMT_RAW => id_bytes i
  end.

Definition render (f : output_format) (verbose : bool) (i : id) : list Z :=
  (if verbose then id_text i ++ str ": " else []) ++ body f i.

Context `{!HexEncode16}.

Lemma time_unix_spec k :
  wf_ksuid k -> chronoid_ksuid_time_unix k = Some (ksuid_ts k + CHRONOID_KSUID_EPOCH_SECONDS).
Proof.
  intros Hk. unfold chronoid_ksuid_time_unix. rewrite timestamp_spec by done.
  pose proof (ksuid_ts_range k Hk) as Hr. unfold uint in Hr.
  apply i64_Some. unfold int64, INT64_MIN, INT64_MAX, CHRONOID_KSUID_EPOCH_SECONDS. lia.
Qed.

(** The print functions of a KSUID write its projection. *)
Lemma print_one_ksuid_spec f v k :
  wf_ksuid k -> print_one_ksuid f k v = Some (render f v (KsuidId k)).
Proof.
  intros Hk. pose proof Hk as [Hl Hb]. unfold print_one_ksuid, render.
  assert ((if v then s ← ksuid_string k; Some (s ++ str ": ") else Some [])
          = Some (if v then b62_encode_ref (ksuid_b k) ++ str ": " else [])) as ->
    by (destruct v; [by rewrite ksuid_string_spec|done]).
  assert (fwrite (ksuid_b k) 4 16 = Some (drop 4 (ksuid_b k))) as Hp.
  { unfold fwrite. rewrite decide_True by lia. by rewrite take_ge by (rewrite length_drop; lia). }
  cbn [mbind option_bind id_text]. destruct f; cbn [body].
  - unfold print_string. by rewrite ksuid_string_spec.
  - unfold print_inspect, chronoid_ksuid_payload.
    rewrite ksuid_string_spec, fputs_hex_upper_full, time_unix_spec, timestamp_spec,
      fputs_hex_upper_spec by (done || (unfold CHRONOID_KSUID_TIMESTAMP_LEN, CHRONOID_KSUID_PAYLOAD_LEN; lia)).
    cbn [mbind option_bind]. unfold CHRONOID_KSUID_TIMESTAMP_LEN, CHRONOID_KSUID_PAYLOAD_LEN.
    rewrite (take_ge (drop 4 _)) by (rewrite length_drop; lia).
    reflexivity.
  - unfold print_time. by rewrite time_unix_spec.
  - unfold print_timestamp. by rewrite timestamp_spec.
  - exact (f_equal (mbind (fun b => Some (_ ++ b))) Hp).
  - unfold print_raw, fwrite. rewrite decide_True by (unfold CHRONOID_KSUID_BYTES; lia).
    rewrite drop_0, take_ge by (unfold CHRONOID_KSUID_BYTES; lia). done.
Qed.

(** The time of a UUID is always printed as a date: the text of its second in
    the Gregorian calendar, and its millisecond in three digits. *)
Lemma uuid_time_text u :
  wf_uuidv7 u ->
  exists tm, gmtime_r (uuidv7_ms u / 1000) = Some tm /\ 1969 <= tm_year tm <= 10890 /\
    time_text (UuidId u)
    = date_text tm ++ [46] ++ dec_pad 3 (uuidv7_ms u mod 1000) ++ str " +0000 UTC".
Proof.
  intros [Hl Hb]. cbn [time_text].
  pose proof (val_bound 256 eq_refl (take 6 (uuidv7_b u)) (bytes_take _ _ Hb)) as Hv.
  rewrite length_take, Hl in Hv. change (256 ^ Z.of_nat (6 `min` 16)) with (2 ^ 48) in Hv.
  fold (uuidv7_ms u) in Hv. generalize dependent (uuidv7_ms u). intros ms Hms.
  assert (0 <= ms / 1000 <= 281474976710) as Hq by (Z.to_euclidean_division_equations; lia).
  destruct (year_bound (ms / 1000) Hq) as (tm & E & Hy). exists tm. split; [exact E|]. split; [exact Hy|].
  unfold fputs_time_utc_ms. rewrite Z.quot_div_nonneg, Z.rem_mod_nonneg by lia.
  pose proof (Z.mod_pos_bound ms 1000 ltac:(lia)).
  rewrite (proj2 (Z.ltb_ge _ _)) by lia. rewrite E.
  by rewrite (date_fits _ _ _ _ E) by lia.
Qed.

(** The fields of the inspect projection, byte by byte. *)
Lemma uuid_fields u :
  wf_uuidv7 u ->
  let b n := nth n (uuidv7_b u) 0 in
  uuidv7_b u !! 6%nat = Some (b 6%nat) /\ uuidv7_b u !! 7%nat = Some (b 7%nat) /\
  u16 (Z.lor (u16 (Z.shiftl (Z.land (b 6%nat) 0x0f) 8)) (b 7%nat)) = b 6%nat mod 16 * 256 + b 7%nat /\
  chronoid_uuidv7_version u = Some (b 6%nat / 16) /\
  exists v, chronoid_uuidv7_variant u = Some v /\
    Z.land (Z.shiftr v 1) 1 = b 8%nat / 128 /\ Z.land v 1 = b 8%nat / 64 mod 2.
Proof.
  destruct u as [l]. intros [Hl Hb]. unfold chronoid_uuidv7_version, chronoid_uuidv7_variant.
  cbn [uuidv7_b] in *. explode l. repeat rewrite bytes_cons in Hb. destruct_and! Hb.
  cbn [nth lookup list_lookup mbind option_bind].
  split_and!; [done..| | |].
  - rewrite low_nibble. pose proof (Z.mod_pos_bound x5 16 ltac:(lia)).
    rewrite Z.shiftl_mul_pow2 by lia. rewrite (wrap_small 16 (_ * _)) by (unfold uint; lia).
    rewrite <- Z.shiftl_mul_pow2, lor_shiftl by (unfold uint in *; lia).
    apply wrap_small. unfold uint in *; lia.
  - rewrite high_nibble by done. destruct (nibbles x5); [done|]. f_equal.
    apply wrap_small. unfold uint; lia.
  - eexists. split; [done|].
    rewrite (Z.shiftr_div_pow2 x7 6) by lia. change 0x03 with (Z.ones 2).
    rewrite Z.land_ones by lia. change (2 ^ 6) with 64. change (2 ^ 2) with 4.
    assert (0 <= x7 / 64 < 4) as Hq.
    { unfold uint in *. split; [apply Z.div_pos; lia|]. apply Z.div_lt_upper_bound; lia. }
    rewrite (Z.mod_small (x7 / 64) 4), (wrap_small 8 (x7 / 64)) by (unfold uint; lia).
    change 128 with (64 * 2). rewrite <- Z.div_div by lia. revert Hq.
    generalize (x7 / 64). intros q Hq.
    assert (q = 0 \/ q = 1 \/ q = 2 \/ q = 3) as [->|[->|[->| ->]]] by lia; done.
Qed.

(** The print functions of a UUID write its projection. *)
Lemma print_one_uuidv7_spec f v u :
  wf_uuidv7 u -> print_one_uuidv7 f u v = Some (render f v (UuidId u)).
Proof.
  intros Hu. pose proof Hu as [Hl Hb]. unfold print_one_uuidv7, render.
  assert ((if v then s ← uuidv7_string u; Some (s ++ str ": ") else Some [])
          = Some (if v then hex_ref (uuidv7_b u) ++ str ": " else [])) as ->
    by (destruct v; [by rewrite uuidv7_string_spec|done]).
  cbn [mbind option_bind id_text]. destruct f; cbn [body].
  - unfold print_string_uuidv7. by rewrite uuidv7_string_spec.
  - destruct (uuid_fields u Hu) as (E6 & E7 & Ea & Ev & w & Ew & E1 & E0).
    unfold print_inspect_uuidv7. rewrite uuidv7_string_spec, E6, E7 by done.
    cbn [mbind option_bind]. rewrite Ea, Ev, Ew.
    rewrite fputs_hex_upper_full, unix_ms_spec, fputs_hex_upper_spec by (done || lia).
    cbn [mbind option_bind]. rewrite E1, E0, (take_ge (drop 8 _)) by (rewrite length_drop; lia).
    cbn [id_text id_bytes stamp time_text inspect_fields]. unfold field.
    by rewrite <- !app_assoc.
  - unfold print_time_uuidv7. by rewrite unix_ms_spec.
  - unfold print_timestamp_uuidv7. by rewrite unix_ms_spec.
  - reflexivity.
  - unfold print_raw_uuidv7, fwrite. rewrite decide_True by (unfold CHRONOID_UUIDV7_BYTES; lia).
    rewrite drop_0, take_ge by (unfold CHRONOID_UUIDV7_BYTES; lia). done.
Qed.
End Render.
