(* ===== verification/CliSpec.v ===== *)
(** * What the command-line tool does: examples/chronoid-gen.c

    Parse mode on every list of arguments, generation mode, the option parser,
    and the command lines of the integration test. *)
From Stdlib Require Import String.
From S2P Require Import Prelude Radix Stdio Libc Rand KsuidTypes Base62 Ksuid.
From S2P Require Import Hex HexSsse3 Uuidv7 Cli Render.
Open Scope Z_scope.

(** ** Arguments as ids *)

Definition id_kind (i : id) : id_format :=
  match i with KsuidId _ => IDFMT_KSUID | UuidId _ => IDFMT_UUIDV7 end.

(** The id a text denotes. *)
Definition text_id (a : list Z) : option id :=
  match detect (length a) with
  | Some IDFMT_KSUID => b ← b62_decode_ref a; Some (KsuidId (Ksuid b))
  | Some IDFMT_UUIDV7 =>
      if is_uuid_text a then Some (UuidId (Uuidv7 (map (hex_pair a) kCharOff))) else None
  | None => None
  end.

(** UUIDs have no payload; an explicit format admits no other. *)
Definition no_payload (f : output_format) (k : id_format) : bool :=
  bool_decide (f = FMT_PAYLOAD) && bool_decide (k = IDFMT_UUIDV7).
Definition admitted (o : options) (i : id) : bool :=
  negb (o_idformat_explicit o && bool_decide (id_kind i <> o_idformat o))
  && negb (no_payload (o_format o) (id_kind i)).

(** The ids of the arguments up to the first one that is refused, and the
    arguments from that one on. *)
Fixpoint read_args (o : options) (args : list (list Z)) : list id * list (list Z) :=
  match args with
  | [] => ([], [])
  | a :: args' =>
      match text_id a with
      | Some i => if admitted o i then let '(ids, rest) := read_args o args' in (i :: ids, rest)
                  else ([], args)
      | None => ([], args)
      end
  end.

Lemma detect_cases n :
  detect n = Some IDFMT_KSUID /\ n = 27%nat \/ detect n = Some IDFMT_UUIDV7 /\ n = 36%nat \/
  detect n = None.
Proof.
  unfold detect. destruct (decide (n = CHRONOID_KSUID_STRING_LEN)); [by left|].
  destruct (decide _); [by right; left | by right; right].
Qed.

Lemma text_id_wf a i : bytes a -> text_id a = Some i -> wf_id i.
Proof.
  intros Hb. unfold text_id.
  destruct (detect_cases (length a)) as [[-> Hl]|[[-> Hl]| ->]]; [| |done].
  - destruct (b62_decode_ref a) as [b|] eqn:E; [|done]. intros [= <-].
    by destruct (b62_encode_decode a b Hl Hb E) as (_ & ? & ?).
  - destruct (is_uuid_text a) eqn:E; [|done]. intros [= <-].
    split; cbn [uuidv7_b]; [done|]. by apply hex_pairs_bytes.
Qed.

(** The text of an id is read as that id. *)
Lemma text_id_text i : wf_id i -> text_id (id_text i) = Some i.
Proof.
  destruct i as [[b]|[b]]; cbn [wf_id id_text ksuid_b uuidv7_b]; intros [Hl Hb]; unfold text_id;
    cbn [ksuid_b uuidv7_b] in *.
  - rewrite b62_encode_ref_length. change (detect 27) with (Some IDFMT_KSUID). cbv beta iota.
    by rewrite b62_decode_encode.
  - rewrite length_hex_ref by done. change (detect 36) with (Some IDFMT_UUIDV7). cbv beta iota.
    by destruct (hex_decode_encode b Hl Hb) as [-> ->].
Qed.

Lemma read_args_text o ids :
  Forall wf_id ids -> Forall (fun i => admitted o i = true) ids ->
  read_args o (map id_text ids) = (ids, []).
Proof.
  induction 1 as [|i ids Hi Hids IH]; [done|]. intros [Ha Has]%Forall_cons_1.
  cbn [map read_args]. rewrite text_id_text, Ha, IH by done. done.
Qed.

Section Modes.
Context {W : Type} `{!RandomSource W} `{!Clock W} `{!NowMs W}.
Context `{!TimeZone} `{!HexEncode16} `{!Translate16}.

Definition output (o : options) (ids : list id) : list Z :=
  concat (map (render (o_format o) (o_verbose o)) ids).

Lemma uninit_ksuid_wf : wf_ksuid (Ksuid (uninit 20)).
Proof. split; [done | apply bytes_replicate; unfold uint; cbn; lia]. Qed.

Lemma uninit_uuidv7_wf : wf_uuidv7 (Uuidv7 (uninit 16)).
Proof. split; [done | apply bytes_replicate; unfold uint; cbn; lia]. Qed.

(** One argument: its projection is printed and the loop goes on, or the loop
    ends with exit code 1 and a message. *)
Lemma parse_args_step a args o (w : W) :
  bytes a ->
  match text_id a with
  | Some i => if admitted o i then
                parse_args (a :: args) o w
                = (r ← parse_args args o w; Some (after (render (o_format o) (o_verbose o) i) r))
              else exists c err, parse_args (a :: args) o w = Some (1, [], c :: err, w)
  | None => exists c err, parse_args (a :: args) o w = Some (1, [], c :: err, w)
  end.
Proof.
  intros Hb. pose proof (text_id_wf a) as Hwf. unfold text_id in *. cbn [parse_args].
  destruct (detect_cases (length a)) as [[E Hl]|[[E Hl]|E]]; rewrite E in *; [| |by do 2 eexists].
  - rewrite parse_spec by done. rewrite Hl. cbn [Nat.eqb negb].
    destruct (b62_decode_ref a) as [b|]; cbn [mbind option_bind].
    + unfold admitted. cbn [id_kind].
      destruct (o_idformat_explicit o && _); [by do 2 eexists|]. cbn [negb andb].
      fold (no_payload (o_format o) IDFMT_KSUID).
      destruct (no_payload _ _); [by do 2 eexists|]. cbn [negb bool_decide decide].
      by rewrite print_one_ksuid_spec by (by apply (Hwf (KsuidId (Ksuid b)))).
    + destruct (_ && _); [by do 2 eexists|]. destruct (_ && _); by do 2 eexists.
  - rewrite uuidv7_parse_spec by (done || apply uninit_uuidv7_wf). rewrite Hl. cbn [Nat.eqb negb].
    destruct (is_uuid_text a); cbn [mbind option_bind].
    + unfold admitted. cbn [id_kind].
      destruct (o_idformat_explicit o && _); [by do 2 eexists|]. cbn [negb andb].
      fold (no_payload (o_format o) IDFMT_UUIDV7).
      destruct (no_payload _ _); [by do 2 eexists|]. cbn [negb bool_decide decide].
      by rewrite print_one_uuidv7_spec by (by apply (Hwf (UuidId _))).
    + destruct (_ && _); [by do 2 eexists|]. destruct (_ && _); by do 2 eexists.
Qed.

Lemma parse_args_spec args o (w : W) :
  Forall bytes args ->
  let '(ids, rest) := read_args o args in
  exists err, parse_args args o w
              = Some (if decide (rest = []) then 0 else 1, output o ids, err, w) /\
    (err = [] <-> rest = []).
Proof.
  induction 1 as [|a args Ha Hargs IH]; [by exists []|].
  pose proof (parse_args_step a args o w Ha) as Hs. cbn [read_args].
  destruct (text_id a) as [i|]; [destruct (admitted o i)|].
  2-3: destruct Hs as (c & err & ->); by exists (c :: err).
  destruct (read_args o args) as [ids rest]. destruct IH as (err & E & Herr).
  rewrite Hs, E. by exists err.
Qed.

(** Generation returns when the environment answers. *)
Class Answers : Prop := {
  fill_random_answers : forall n (w : W), exists r, fill_random n w = Some r;
  now_ms_answers : forall w : W, exists r, now_ms w = Some r;
  clock_answers : forall (w : W) t ns w',
    timespec_get w = (Some (t, ns), w') -> INT64_MIN + CHRONOID_KSUID_EPOCH_SECONDS <= t
}.

Lemma ksuid_new_answer `{!Answers} (w : W) :
  exists e k w', chronoid_ksuid_new (Ksuid (uninit 20)) w = Some (e, k, w') /\
    (e = CHRONOID_KSUID_OK -> wf_ksuid k).
Proof.
  unfold chronoid_ksuid_new. destruct (timespec_get w) as [[[t ns]|] w1] eqn:Et.
  2: { by do 3 eexists. }
  pose proof (clock_answers _ _ _ _ Et) as Hlo.
  destruct (timespec_get_ok _ _ _ _ Et) as [Ht _].
  rewrite new_with_time_spec by (done || apply uninit_ksuid_wf).
  destruct (in_lifetime t); [|by do 3 eexists].
  destruct (fill_random_answers 16 w1) as [[[r p] w2] E]. rewrite E.
  destruct r; try by do 3 eexists. do 3 eexists. split; [done|]. intros _.
  destruct (fill_random_ok _ _ _ _ _ E). by apply ksuid_of_wf.
Qed.

Lemma uuidv7_new_answer `{!Answers} (w : W) :
  exists e u w', chronoid_uuidv7_new (Uuidv7 (uninit 16)) w = Some (e, u, w') /\
    (e = CHRONOID_UUIDV7_OK -> wf_uuidv7 u).
Proof.
  unfold chronoid_uuidv7_new. destruct (now_ms_answers w) as [[t w1] Et]. rewrite Et.
  cbn [mbind option_bind]. destruct (_ || _); [by do 3 eexists|].
  rewrite uuidv7_new_with_time_spec by (apply uninit_uuidv7_wf || by eapply now_ms_ok).
  destruct (_ && _) eqn:Er; [|by do 3 eexists].
  destruct (fill_random_answers 10 w1) as [[[r rnd] w2] E]. rewrite E.
  destruct r; try by do 3 eexists. do 3 eexists. split; [done|]. intros _.
  destruct (fill_random_ok _ _ _ _ _ E) as [Hl Hb].
  apply uuidv7_of_wf; [apply Z.mod_pos_bound; lia | by rewrite length_drop, Hl | by apply bytes_drop].
Qed.

Definition of_format (f : id_format) (i : id) : Prop :=
  match f, i with
  | IDFMT_KSUID, KsuidId k => wf_ksuid k
  | IDFMT_UUIDV7, UuidId u => wf_uuidv7 u
  | _, _ => False
  end.

(** What a generation run of [k] ids returns: all of them, or the ones before
    the first failure. *)
Definition generated (o : options) (k : nat) (r : option (@outcome W)) : Prop :=
  exists code err w' ids, r = Some (code, output o ids, err, w') /\
    Forall (of_format (o_idformat o)) ids /\
    (code = 0 /\ length ids = k /\ err = [] \/ code = 2 /\ (length ids < k)%nat /\ err <> []).

Lemma generated_failure o k c err (w : W) : generated o (S k) (Some (2, [], c :: err, w)).
Proof.
  exists 2, (c :: err), w, []. split; [done|]. split; [constructor|].
  right. split_and!; [done|cbn; lia|done].
Qed.

Lemma generated_cons o k i r :
  of_format (o_idformat o) i -> generated o k r ->
  generated o (S k) (q ← r; Some (after (render (o_format o) (o_verbose o) i) q)).
Proof.
  intros Hi (code & err & w2 & ids & -> & Hids & Hc).
  exists code, err, w2, (i :: ids). split; [done|]. split; [by constructor|]. cbn [length].
  destruct Hc as [(-> & <- & ->)|(-> & Hlt & Herr)]; [by left|right]. split_and!; [done|lia|done].
Qed.

Lemma generate_spec `{!Answers} k o (w : W) : generated o k (generate k o w).
Proof.
  revert w. induction k as [|k IH]; intros w.
  { exists 0, [], w, []. split_and!; auto. }
  cbn [generate]. destruct (o_idformat o) eqn:Ei.
  - destruct (ksuid_new_answer w) as (e & b & w1 & -> & Hb). cbn [mbind option_bind].
    case_bool_decide as He; [apply generated_failure|].
    rewrite print_one_ksuid_spec by (by apply Hb). cbn [mbind option_bind].
    apply (generated_cons o k (KsuidId b)); [rewrite Ei; by apply Hb|apply IH].
  - destruct (uuidv7_new_answer w) as (e & b & w1 & -> & Hb). cbn [mbind option_bind].
    case_bool_decide as He; [apply generated_failure|].
    rewrite print_one_uuidv7_spec by (by apply Hb). cbn [mbind option_bind].
    apply (generated_cons o k (UuidId b)); [rewrite Ei; by apply Hb|apply IH].
Qed.
End Modes.

(** ** Options as the user writes them *)

Variant option_item := OptCount (n : Z) | OptFormat (f : output_format) | OptId (i : id_format)
| OptVerbose.

Definition format_name (f : output_format) : list Z :=
  match f with
  | FMT_STRING => str "string" | FMT_INSPECT => str "inspect" | FMT_TIME => str "time"
  | FMT_TIMESTAMP => str "timestamp" | FMT_PAYLOAD => str "payload" | FMT_RAW => str "raw"
  end.

Definition idformat_name (i : id_format) : list Z :=
  match i with IDFMT_KSUID => str "ksuid" | IDFMT_UUIDV7 => str "uuidv7" end.

Definition option_args (i : option_item) : list (list Z) :=
  match i with
  | OptCount n => [str "-n"; dec n]
  | OptFormat f => [str "-f"; format_name f]
  | OptId i => [str "--format=" ++ idformat_name i]
  | OptVerbose => [str "-v"]
  end.

Definition option_ok `{!c_long} (i : option_item) : Prop :=
  match i with OptCount n => 1 <= n <= LONG_MAX | _ => True end.

Definition set_option (o : options) (i : option_item) : options :=
  match i with
  | OptCount n => Options n (o_format o) (o_idformat o) (o_idformat_explicit o) (o_verbose o)
  | OptFormat f => Options (o_count o) f (o_idformat o) (o_idformat_explicit o) (o_verbose o)
  | OptId i => Options (o_count o) (o_format o) i true (o_verbose o)
  | OptVerbose => Options (o_count o) (o_format o) (o_idformat o) (o_idformat_explicit o) true
  end.

(** What the option loop stops at: no argument, a lone hyphen, or one that does
    not begin with a hyphen. *)
Definition starts_positional (args : list (list Z)) : Prop :=
  match args with
  | [] => True
  | a :: _ => a = [45] \/ match a with c :: _ => c <> 45 | [] => True end
  end.

Lemma parse_options_item `{!c_long} argv0 i args o :
  option_ok i ->
  parse_options argv0 (option_args i ++ args) o = parse_options argv0 args (set_option o i).
Proof.
  destruct i as [n|f|i|]; cbn [option_ok option_args app]; intros Hi.
  - change (str "-n") with [45; 110]. cbn [parse_options char_at app lookup list_lookup
      mbind option_bind Z.eqb negb Pos.eqb orb].
    rewrite strtol_dec by lia. cbn [orb negb]. rewrite bool_decide_eq_true_2 by done.
    destruct (Z.leb_spec n 0); [lia|]. done.
  - change (str "-f") with [45; 102]. cbn [parse_options char_at app lookup list_lookup
      mbind option_bind Z.eqb negb Pos.eqb orb].
    by destruct f.
  - by destruct i.
  - done.
Qed.

Lemma parse_options_items `{!c_long} argv0 items args o :
  Forall option_ok items ->
  parse_options argv0 (concat (map option_args items) ++ args) o
  = parse_options argv0 args (fold_left set_option items o).
Proof.
  intros Hok. revert o. induction Hok as [|i items Hi Hitems IH]; intros o; [done|].
  cbn [map concat fold_left]. rewrite <- app_assoc, parse_options_item by done. apply IH.
Qed.

Lemma parse_options_stop `{!c_long} argv0 args o :
  starts_positional args -> parse_options argv0 args o = Some (Positional o args).
Proof.
  destruct args as [|a args]; [done|]. cbn [starts_positional].
  intros [->|Ha]; [done|]. destruct a as [|c a]; [done|].
  cbn [parse_options char_at app lookup list_lookup mbind option_bind].
  destruct (Z.eqb_spec c 45); [done|]. done.
Qed.

(** The option loop always ends, having read only characters of its arguments
    and their NULs: it stops at a suffix of the arguments, or shows the help and
    returns 0, or reports and returns 1. *)
Lemma char_at_nonzero s i c : char_at s i = Some c -> c <> 0 -> exists d, char_at s (S i) = Some d.
Proof.
  unfold char_at. intros E Hc. apply lookup_lt_is_Some_2. rewrite length_app. cbn [length].
  destruct (decide (i < length s)%nat); [lia|].
  rewrite lookup_app_r in E by lia. apply list_lookup_singleton_Some in E as [_ <-]. done.
Qed.

Lemma char_at_0 s : exists c, char_at s 0 = Some c.
Proof. destruct s; by eexists. Qed.

Definition parsed_ok (args : list (list Z)) (r : option parsed) : Prop :=
  match r with
  | Some (Positional _ rest) => rest `suffix_of` args
  | Some (Return code out err) => code = 0 /\ err = [] \/ code = 1 /\ out = [] /\ err <> []
  | None => False
  end.

Lemma parsed_ok_suffix args args' r :
  args' `suffix_of` args -> parsed_ok args' r -> parsed_ok args r.
Proof. intros Hs. destruct r as [[o rest|]|]; cbn [parsed_ok]; try done. by intros ?; etrans. Qed.

Lemma parse_options_total `{!c_long} argv0 args o : parsed_ok args (parse_options argv0 args o).
Proof.
  remember (length args) as n eqn:En. assert (length args <= n)%nat as Hn by lia. clear En.
  revert args o Hn. induction n as [|n IH]; intros [|a args] o Hn;
    [apply suffix_nil|cbn in Hn; lia|apply suffix_nil|]. cbn [length] in Hn.
  assert (forall o', parsed_ok (a :: args) (parse_options argv0 args o')) as Hnext.
  { intros o'. apply (parsed_ok_suffix _ args); [by apply suffix_cons_r|]. apply IH. lia. }
  assert (parsed_ok (a :: args) (Some (unknown_option argv0 a))) as Hu by (right; done).
  assert (forall e x l, parsed_ok (a :: args) (Some (Return 1 [] (str (String e x) ++ l)))) as Hr
    by (intros; right; done).
  cbn [parse_options].
  destruct (char_at_0 a) as [a0 E0]. rewrite E0. cbn [mbind option_bind].
  destruct (Z.eqb_spec a0 45) as [->|]; cbn [negb]; [|apply (reflexivity (R := suffix))].
  destruct (char_at_nonzero a 0 45 E0 ltac:(done)) as [a1 E1]. rewrite E1. cbn [mbind option_bind].
  destruct (Z.eqb_spec a1 0) as [|H1]; [apply (reflexivity (R := suffix))|].
  destruct (a1 =? 45).
  { destruct (bool_decide _); [|exact Hu]. destruct (parse_idformat _); [apply Hnext|apply Hr]. }
  destruct (char_at_nonzero a 1 a1 E1 H1) as [a2 E2]. rewrite E2. cbn [mbind option_bind].
  destruct (negb (a2 =? 0)); [exact Hu|]. destruct (a1 =? 118); [apply Hnext|].
  destruct (a1 =? 104); [by left|]. destruct ((a1 =? 110) || (a1 =? 102)); [|exact Hu].
  destruct args as [|value args]; [apply Hr|].
  assert (forall o', parsed_ok (a :: value :: args) (parse_options argv0 args o')) as Hnext2.
  { intros o'. apply (parsed_ok_suffix _ args); [by do 2 apply suffix_cons_r|].
    apply IH. cbn [length] in Hn. lia. }
  destruct (a1 =? 110).
  - destruct (strtol value) as [[v rest] errno].
    destruct (errno || _ || _); [apply Hr|apply Hnext2].
  - destruct (parse_format value); [apply Hnext2|apply Hr].
Qed.

(** ** The theorems *)

(** C39: The option parser reads back every command line made of the documented
    options: for any list of options in any order, with counts from 1 to
    LONG_MAX, followed by positional arguments, [main] starts the mode the
    positional arguments ask for with exactly the settings the options denote,
    a later option overriding an earlier one. *)
Theorem cli_options_roundtrip `{!c_long} argv0 items args :
  Forall option_ok items -> starts_positional args ->
  parse_options argv0 (concat (map option_args items) ++ args) default_options
  = Some (Positional (fold_left set_option items default_options) args).
Proof.
  intros Hi Ha. rewrite parse_options_items by done. by apply parse_options_stop.
Qed.

Section Theorems.
Context {W : Type} `{!RandomSource W} `{!Clock W} `{!NowMs W}.
Context `{!TimeZone} `{!HexEncode16} `{!Translate16} `{!c_long}.

Lemma main_positional argv0 items a args (w : W) :
  Forall option_ok items -> starts_positional (a :: args) ->
  main (argv0 :: concat (map option_args items) ++ a :: args) w
  = parse_args (a :: args) (fold_left set_option items default_options) w.
Proof.
  intros Hi Ha. cbn [main]. by rewrite parse_options_items, parse_options_stop.
Qed.

Lemma main_echo argv0 items ids (w : W) :
  let o := fold_left set_option items default_options in
  Forall option_ok items -> ids <> [] -> Forall wf_id ids ->
  Forall (fun i => admitted o i = true) ids ->
  main (argv0 :: concat (map option_args items) ++ map id_text ids) w
  = Some (0, output o ids, [], w).
Proof.
  cbv zeta. intros Hi Hne Hids Hadm.
  pose proof (parse_args_spec (map id_text ids) (fold_left set_option items default_options) w) as Hs.
  rewrite read_args_text in Hs by done.
  destruct Hs as (err & E & Herr).
  { apply Forall_map. eapply Forall_impl; [|exact Hids]. intros i. apply id_text_bytes. }
  rewrite (proj2 Herr eq_refl) in E. destruct ids as [|i ids]; [done|].
  apply Forall_cons_1 in Hids as [Hwf _]. cbn [map].
  rewrite main_positional; [exact E|done|].
  destruct (id_text_positional i Hwf) as (c & s & -> & Hc). by right.
Qed.

(** C37: Parse mode, for every list of options and every list of arguments.
    The tool prints, in the projection the options ask for, the ids the
    arguments denote up to the first argument that is refused: one that is no
    text of an id, contradicts an explicit format, or is a UUID whose payload
    is asked for.  It exits with 0 and no message when there is none, else with
    1 and a message, without looking at the arguments behind it; it consults
    neither the clock nor the random source, and a count is ignored.  Canonical
    texts of admitted ids are read as those ids, so that the string projection
    prints them back. *)
Theorem cli_parse_mode argv0 items args (w : W) :
  let o := fold_left set_option items default_options in
  Forall option_ok items -> args <> [] -> starts_positional args -> Forall bytes args ->
  let '(ids, rest) := read_args o args in
  (exists err, main (argv0 :: concat (map option_args items) ++ args) w
               = Some (if decide (rest = []) then 0 else 1, output o ids, err, w) /\
     (err = [] <-> rest = [])) /\
  forall ids, Forall wf_id ids -> Forall (fun i => admitted o i = true) ids ->
    read_args o (map id_text ids) = (ids, []).
Proof.
  cbv zeta. intros Hi Hne Hpos Hb. destruct args as [|a args]; [done|].
  rewrite main_positional by done.
  pose proof (parse_args_spec _ (fold_left set_option items default_options) w Hb) as Hs.
  destruct (read_args _ (a :: args)) as [ids rest]. split; [exact Hs|].
  intros l. apply read_args_text.
Qed.

(** Parse mode is the identity on canonical texts. *)
Corollary cli_echoes_ids argv0 items ids (w : W) :
  let o := fold_left set_option items default_options in
  Forall option_ok items -> ids <> [] -> Forall wf_id ids ->
  o_format o = FMT_STRING -> o_verbose o = false ->
  (o_idformat_explicit o = true -> Forall (of_format (o_idformat o)) ids) ->
  main (argv0 :: concat (map option_args items) ++ map id_text ids) w
  = Some (0, concat (map (fun i => id_text i ++ [10]) ids), [], w).
Proof.
  cbv zeta. intros Hi Hne Hids Hf Hv Hx. rewrite main_echo; try done.
  - unfold output. by rewrite Hf, Hv.
  - unfold admitted, no_payload. rewrite Hf. apply Forall_forall. intros i Hin.
    destruct (o_idformat_explicit _); [|done]. specialize (Hx eq_refl).
    rewrite Forall_forall in Hx. specialize (Hx i Hin).
    by destruct (o_idformat _), i.
Qed.

(** No positional argument starts generation mode. *)
Lemma main_generates argv0 items (w : W) :
  let o := fold_left set_option items default_options in
  Forall option_ok items -> no_payload (o_format o) (o_idformat o) = false ->
  main (argv0 :: concat (map option_args items)) w = generate (Z.to_nat (o_count o)) o w.
Proof.
  cbv zeta. intros Hi Hnp. cbn [main].
  rewrite <- (app_nil_r (concat _)), parse_options_items by done.
  cbn [parse_options mbind option_bind]. unfold no_payload in Hnp. by rewrite Hnp.
Qed.

Lemma count_positive items :
  Forall option_ok items -> 1 <= o_count (fold_left set_option items default_options).
Proof.
  assert (1 <= o_count default_options) as Ho by (cbn; lia). revert Ho.
  generalize default_options. intros o Ho Hi. revert o Ho.
  induction Hi as [|i items Hok Hi IH]; intros o Ho; [done|].
  apply IH. destruct i; cbn in *; lia.
Qed.

(** C38: Generation mode, for every list of options.  Asking for the payload of
    UUIDs is refused before anything is printed.  Otherwise, in an environment
    that answers, the tool either prints exactly the requested number of ids in
    the projection asked for and exits with 0, or stops at the first failure of
    the generator, exits with 2 and reports on standard error, with the ids
    before it printed in full.  Every id is well formed and of the requested
    kind, and the texts of the ids given back as arguments are printed
    again. *)
Theorem cli_generates_lines `{!Answers (W := W)} argv0 items (w : W) :
  let o := fold_left set_option items default_options in
  Forall option_ok items ->
  let r := main (argv0 :: concat (map option_args items)) w in
  if no_payload (o_format o) (o_idformat o) then r = Some (1, [], payload_error, w)
  else exists code err w' ids, r = Some (code, output o ids, err, w') /\
    Forall (of_format (o_idformat o)) ids /\
    (code = 0 /\ length ids = Z.to_nat (o_count o) /\ err = [] \/
     code = 2 /\ (length ids < Z.to_nat (o_count o))%nat /\ err <> []) /\
    (ids <> [] ->
     main (argv0 :: map id_text ids) w' = Some (0, output default_options ids, [], w')).
Proof.
  cbv zeta. intros Hi. destruct (no_payload _ _) eqn:Hnp.
  - cbn [main]. rewrite <- (app_nil_r (concat _)), parse_options_items by done.
    cbn [parse_options mbind option_bind]. unfold no_payload in Hnp. by rewrite Hnp.
  - rewrite main_generates by done.
    destruct (generate_spec (Z.to_nat (o_count (fold_left set_option items default_options)))
                (fold_left set_option items default_options) w)
      as (code & err & w' & ids & E & Hids & Hc).
    exists code, err, w', ids. split_and!; [done..|].
    intros Hne. apply (main_echo argv0 [] ids w'); [done|done| |by apply Forall_true].
    eapply Forall_impl; [|exact Hids]. intros [] Hof; by destruct (o_idformat _).
Qed.

(** C40: The tool is total.  Given any command line of bytes, in an environment
    that answers, it returns without reading outside a string or an array; its
    exit code is 0, 1 or 2, and it writes to standard error exactly when the
    code is not 0. *)
Theorem cli_total `{!Answers (W := W)} argv (w : W) :
  Forall bytes argv ->
  exists code out err w', main argv w = Some (code, out, err, w') /\
    (code = 0 \/ code = 1 \/ code = 2) /\ (err = [] <-> code = 0).
Proof.
  intros Hb. destruct argv as [|argv0 args]; [exists 0, [], [], w; split_and!; [done|by left|done]|].
  apply Forall_cons_1 in Hb as [_ Hb]. cbn [main].
  pose proof (parse_options_total argv0 args default_options) as Hp.
  destruct (parse_options argv0 args default_options) as [[o rest|code out err]|];
    cbn [parsed_ok mbind option_bind] in *; [| |done].
  2: { exists code, out, err, w. split; [done|].
       destruct Hp as [[-> ->]|(-> & -> & Herr)]; (split; [auto|]); by split; [|intros]. }
  destruct rest as [|a rest].
  { destruct (_ && _); [by exists 1, [], payload_error, w; split; [|split; [auto|]]|].
    destruct (generate_spec (Z.to_nat (o_count o)) o w)
      as (code & err & w' & ids & E & _ & Hc).
    exists code, (output o ids), err, w'. split; [exact E|].
    destruct Hc as [(-> & _ & ->)|(-> & _ & Herr)]; (split; [auto|]); by split; [|intros]. }
  assert (Forall bytes (a :: rest)) as Hb'.
  { destruct Hp as [l ->]. by apply Forall_app in Hb as [_ Hb]. }
  pose proof (parse_args_spec _ o w Hb') as Hs. destruct (read_args o (a :: rest)) as [ids r].
  destruct Hs as (err & -> & Herr). do 4 eexists. split; [done|].
  destruct (decide (r = [])); (split; [auto|]); by rewrite Herr.
Qed.
End Theorems.

(** ** Witnesses, and the command lines of the integration test *)

(** An environment that always gives the same answers. *)
Variant steady := Steady.

#[local] Instance steady_random : RandomSource steady.
Proof.
  refine {| fill_random := fun n w => Some (0, replicate n 7, w) |}.
  intros n w r buf w' E. simplify_eq. split; [apply length_replicate|].
  apply bytes_replicate. unfold uint. lia.
Defined.
#[local] Instance steady_clock : Clock steady.
Proof.
  refine {| timespec_get := fun w => (Some (1700000000, 0), w) |}.
  intros w s ns w' E. simplify_eq. unfold int64, INT64_MIN, INT64_MAX. lia.
Defined.
#[local] Instance steady_now : NowMs steady.
Proof.
  refine {| now_ms := fun w => Some (1700000000000, w) |}.
  intros w t w' E. simplify_eq. unfold int64, INT64_MIN, INT64_MAX. lia.
Defined.
#[local] Instance utc : TimeZone := fun _ => (0, str "UTC").
#[local] Existing Instance lp64.

Example cli_options_roundtrip_witness :
  Forall option_ok [OptVerbose; OptCount 12; OptId IDFMT_UUIDV7; OptCount 3] /\
  parse_options (str "chronoid-gen")
    (concat (map option_args [OptVerbose; OptCount 12; OptId IDFMT_UUIDV7; OptCount 3]) ++ [])
    default_options
  = Some (Positional (Options 3 FMT_STRING IDFMT_UUIDV7 true true) []).
Proof.
  assert (Forall option_ok [OptVerbose; OptCount 12; OptId IDFMT_UUIDV7; OptCount 3]) as H
    by (repeat constructor; done).
  split; [exact H|].
  exact (cli_options_roundtrip (str "chronoid-gen")
           [OptVerbose; OptCount 12; OptId IDFMT_UUIDV7; OptCount 3] [] H I).
Defined.

(** The same command line where [long] has 32 and 64 bits. *)
Example count_past_32_bits :
  (match @parse_options llp64 (str "chronoid-gen") [str "-n"; str "4294967296"] default_options with
   | Some (Return 1 [] _) => true | _ => false end) = true /\
  @parse_options lp64 (str "chronoid-gen") [str "-n"; str "4294967296"] default_options
  = Some (Positional (Options 4294967296 FMT_STRING IDFMT_KSUID false false) []).
Proof. split; vm_compute; reflexivity. Qed.

Lemma steady_answers : Answers (W := steady).
Proof.
  split; [by eexists|by eexists|]. intros w t ns w' E. cbn in E. simplify_eq.
  unfold INT64_MIN, CHRONOID_KSUID_EPOCH_SECONDS. lia.
Qed.

(** The UUID of RFC 9562, appendix A.6, and the golden KSUID. *)
Definition rfc_uuid : list Z := str "017f22e2-79b0-7cc3-98c4-dc0c0c07398f".
Definition golden_ksuid : list Z := str "0ujtsYcgvSTl8PAuAdqWYSMnLOv".

Lemma golden_bytes : Forall bytes [golden_ksuid; rfc_uuid; str "x"].
Proof. apply Forall_forall. intros l [<-|[<-|[<-|[]]]]; vm_compute; repeat constructor; done. Qed.

(** Two timestamps, then an argument that is refused. *)
Lemma cli_parse_mode_witness :
  exists err ids,
    main (str "chronoid-gen" :: concat (map option_args [OptFormat FMT_TIMESTAMP])
          ++ [golden_ksuid; rfc_uuid; str "x"]) Steady
    = Some (1, output (Options 1 FMT_TIMESTAMP IDFMT_KSUID false false) ids, err, Steady) /\
    length ids = 2%nat /\ err <> [].
Proof.
  assert (Forall option_ok [OptFormat FMT_TIMESTAMP]) as H by (repeat constructor).
  pose proof (cli_parse_mode (str "chronoid-gen") [OptFormat FMT_TIMESTAMP]
                [golden_ksuid; rfc_uuid; str "x"] Steady H ltac:(done)
                ltac:(right; done) golden_bytes) as T.
  cbv zeta in T. cbn [fold_left set_option default_options o_count o_idformat o_verbose
    o_idformat_explicit] in T.
  destruct (read_args (Options 1 FMT_TIMESTAMP IDFMT_KSUID false false)
              [golden_ksuid; rfc_uuid; str "x"]) as [ids rest] eqn:E.
  assert (length ids = 2%nat /\ rest = [str "x"]) as [Hl ->].
  { vm_compute in E. injection E as <- <-. split; reflexivity. }
  destruct T as [(err & Hm & Herr) _]. exists err, ids. split; [exact Hm|].
  split; [exact Hl|]. intros ->. discriminate (proj1 Herr eq_refl).
Defined.

Lemma cli_total_witness :
  exists code out err w', main [str "chronoid-gen"; str "-n"] Steady = Some (code, out, err, w') /\
    (code = 0 \/ code = 1 \/ code = 2) /\ (err = [] <-> code = 0).
Proof.
  apply (@cli_total steady _ _ _ _ _ _ lp64 steady_answers [str "chronoid-gen"; str "-n"] Steady).
  apply Forall_forall. intros l [<-|[<-|[]]]; vm_compute; repeat constructor; done.
Defined.

Lemma cli_generates_lines_witness :
  Forall option_ok [OptCount 2] /\
  exists code err w' ids,
    main (str "chronoid-gen" :: concat (map option_args [OptCount 2])) Steady
    = Some (code, output (Options 2 FMT_STRING IDFMT_KSUID false false) ids, err, w') /\
    Forall (of_format IDFMT_KSUID) ids /\
    (code = 0 /\ length ids = 2%nat /\ err = [] \/
     code = 2 /\ (length ids < 2)%nat /\ err <> []) /\
    (ids <> [] -> main (str "chronoid-gen" :: map id_text ids) w'
                  = Some (0, output default_options ids, [], w')).
Proof.
  assert (Forall option_ok [OptCount 2]) as H by (repeat constructor; done).
  split; [exact H|].
  exact (@cli_generates_lines steady _ _ _ _ _ _ lp64 steady_answers (str "chronoid-gen")
           [OptCount 2] Steady H).
Defined.

Definition run (args : list (list Z)) : option (Z * list Z) :=
  '(code, out, _, _) ← main (str "chronoid-gen" :: args) Steady; Some (code, out).

Example cli_time : run [str "-f"; str "time"; rfc_uuid]
  = Some (0, str "2022-02-22 19:22:22.000 +0000 UTC" ++ [10]).
Proof. vm_compute. reflexivity. Qed.

Example cli_timestamps :
  run [str "-f"; str "timestamp"; rfc_uuid; golden_ksuid]
  = Some (0, str "1645557742000" ++ [10] ++ str "107608047" ++ [10]).
Proof. vm_compute. reflexivity. Qed.

Example cli_rejections :
  map (option_map fst)
    (map run [[str "toolong-toolong-toolong-toolong"]; [str "-f"; str "wat"];
              [str "--format=ksuid"; rfc_uuid]; [str "--format=wat"];
              [str "--format=uuidv7"; str "-f"; str "payload"];
              [str "-f"; str "payload"; rfc_uuid]; [str "-n"]; [str "-n"; str "0"];
              [str "-n"; str "3x"]; [str "-vh"]; [str "--format"; str "ksuid"]])
  = replicate 11 (Some 1).
Proof. vm_compute. reflexivity. Qed.

(** The argument that fails comes after lines already printed. *)
Example cli_partial_output :
  run [golden_ksuid; str "-"; golden_ksuid] = Some (1, golden_ksuid ++ [10]).
Proof. vm_compute. reflexivity. Qed.

Example cli_inspect_ksuid :
  run [str "-f"; str "inspect"; golden_ksuid]
  = Some (0, [10] ++ str "REPRESENTATION:" ++ [10; 10]
      ++ str "  String: 0ujtsYcgvSTl8PAuAdqWYSMnLOv" ++ [10]
      ++ str "     Raw: 0669F7EFB5A1CD34B5F99D1154FB6853345C9735" ++ [10; 10]
      ++ str "COMPONENTS:" ++ [10; 10]
      ++ str "       Time: 2017-10-10 04:00:47 +0000 UTC" ++ [10]
      ++ str "  Timestamp: 107608047" ++ [10]
      ++ str "    Payload: B5A1CD34B5F99D1154FB6853345C9735" ++ [10; 10]).
Proof. vm_compute. reflexivity. Qed.
