(* ===== verification/StdoutMode.v ===== *)
(** * The mode of standard output: set_stdout_binary_for_raw_output of
    examples/chronoid-gen.c

    On Windows standard output starts in text mode, in which a line feed leaves
    the process as carriage return and line feed; the two projections that write
    raw bytes switch it to binary mode first.  Characters wait in a buffer, and
    the translation is made when the buffer is written out, at moments the C
    library chooses and at exit. *)
From Stdlib Require Import String.
From S2P Require Import Prelude Radix Stdio Rand KsuidTypes Base62 Ksuid Hex Uuidv7 Cli Render.
Open Scope Z_scope.

(** ** The stream *)

Variant platform := POSIX | WIN32.

#[export] Instance platform_eq_dec : EqDecision platform.
Proof. solve_decision. Defined.

(** What the program does to the stream, and what the C library does. *)
Variant stdout_event := Put (c : Z) | SetBinary | Flush.

Record stream := Stream { binary : bool; pending : list Z; device : list Z }.

Definition crlf (b : list Z) : list Z :=
  concat (map (fun c => if c =? 10 then [13; 10] else [c]) b).

Definition stream_step (st : stream) (e : stdout_event) : stream :=
  match e with
  | Put c => Stream (binary st) (pending st ++ [c]) (device st)
  | SetBinary => Stream true (pending st) (device st)
  | Flush => Stream (binary st) [] (device st ++ if binary st then pending st else crlf (pending st))
  end.

Definition stdout_start (pl : platform) : stream :=
  Stream (bool_decide (pl = POSIX)) [] [].

(** What the device has got when the process has exited. *)
Definition written (st : stream) (es : list stdout_event) : list Z :=
  device (stream_step (fold_left stream_step es st) Flush).

(** The program's part of a schedule, and the characters in it. *)
Fixpoint unflushed (es : list stdout_event) : list stdout_event :=
  match es with
  | [] => []
  | Flush :: es => unflushed es
  | e :: es => e :: unflushed es
  end.
Definition characters (es : list stdout_event) : list Z :=
  omap (fun e => match e with Put c => Some c | _ => None end) es.

(** ** The print functions on the stream *)

Definition puts (b : list Z) : list stdout_event := map Put b.

Definition set_stdout_binary_for_raw_output (pl : platform) : list stdout_event :=
  match pl with WIN32 => [SetBinary] | POSIX => [] end.

Section Print.
Context `{!TimeZone} `{!HexEncode16}.

Definition print_payload_events (pl : platform) (k : chronoid_ksuid_t) : option (list stdout_event) :=
  b ← print_payload k; Some (set_stdout_binary_for_raw_output pl ++ puts b).

Definition print_raw_events (pl : platform) (k : chronoid_ksuid_t) : option (list stdout_event) :=
  b ← print_raw k; Some (set_stdout_binary_for_raw_output pl ++ puts b).

Definition print_raw_uuidv7_events (pl : platform) (u : chronoid_uuidv7_t)
    : option (list stdout_event) :=
  b ← print_raw_uuidv7 u; Some (set_stdout_binary_for_raw_output pl ++ puts b).

(** [print_one_ksuid] and [print_one_uuidv7]; the projections that do not touch
    the mode are one piece. *)
Definition print_one_ksuid_events (pl : platform) (f : output_format) (k : chronoid_ksuid_t)
    (verbose : bool) : option (list stdout_event) :=
  prefix ← (if verbose then s ← ksuid_string k; Some (s ++ str ": ") else Some []);
  body ← match f with
         | FMT_PAYLOAD => print_payload_events pl k
         | FMT_RAW => print_raw_events pl k
         | _ => b ← print_one_ksuid f k false; Some (puts b)
         end;
  Some (puts prefix ++ body).

Definition print_one_uuidv7_events (pl : platform) (f : output_format) (u : chronoid_uuidv7_t)
    (verbose : bool) : option (list stdout_event) :=
  prefix ← (if verbose then s ← uuidv7_string u; Some (s ++ str ": ") else Some []);
  body ← match f with
         | FMT_RAW => print_raw_uuidv7_events pl u
         | _ => b ← print_one_uuidv7 f u false; Some (puts b)
         end;
  Some (puts prefix ++ body).

Definition print_one_events (pl : platform) (f : output_format) (v : bool) (i : id)
    : option (list stdout_event) :=
  match i with
  | KsuidId k => print_one_ksuid_events pl f k v
  | UuidId u => print_one_uuidv7_events pl f u v
  end.

(** Does the projection write raw bytes? *)
Definition raw_projection (f : output_format) : bool :=
  match f with FMT_PAYLOAD | FMT_RAW => true | _ => false end.

(** ** What reaches the device *)

Lemma crlf_app a b : crlf (a ++ b) = crlf a ++ crlf b.
Proof. unfold crlf. by rewrite map_app, concat_app. Qed.

Lemma crlf_no_lf b : Forall (fun c => c <> 10) b -> crlf b = b.
Proof.
  induction 1 as [|c b Hc Hb IH]; [done|]. unfold crlf in *. cbn [map concat].
  by rewrite (proj2 (Z.eqb_neq c 10)), IH.
Qed.

Lemma written_cons st e es : written st (e :: es) = written (stream_step st e) es.
Proof. done. Qed.

Lemma written_binary st es :
  binary st = true -> written st es = device st ++ pending st ++ characters es.
Proof.
  revert st. induction es as [|e es IH]; intros st Hb.
  - unfold written. cbn. by rewrite Hb, app_nil_r.
  - rewrite written_cons, IH by (by destruct e). destruct e; cbn; rewrite ?Hb, <- ?app_assoc; done.
Qed.

Lemma written_text st es :
  binary st = false -> SetBinary ∉ es ->
  written st es = device st ++ crlf (pending st ++ characters es).
Proof.
  revert st. induction es as [|e es IH]; intros st Hb He.
  - unfold written. cbn. by rewrite Hb, app_nil_r.
  - apply not_elem_of_cons in He as [He Hes]. rewrite written_cons.
    rewrite IH by (by destruct e).
    destruct e; cbn [stream_step device pending characters omap list_omap app].
    + by rewrite <- app_assoc.
    + done.
    + by rewrite Hb, crlf_app, <- app_assoc.
Qed.

(** No line feed before the switch to binary mode. *)
Fixpoint safe (es : list stdout_event) : Prop :=
  match es with
  | [] | SetBinary :: _ => True
  | Put c :: es => c <> 10 /\ safe es
  | Flush :: es => safe es
  end.

Lemma written_safe st es :
  binary st = false -> Forall (fun c => c <> 10) (pending st) -> safe es ->
  written st es = device st ++ pending st ++ characters es.
Proof.
  revert st. induction es as [|e es IH]; intros st Hb Hp He.
  - unfold written. cbn. by rewrite Hb, app_nil_r, crlf_no_lf.
  - rewrite written_cons. destruct e; cbn [safe] in He.
    + rewrite IH; [cbn; by rewrite <- app_assoc|done| |apply He].
      apply Forall_app. split; [done|]. apply Forall_singleton, He.
    + by rewrite written_binary.
    + rewrite IH; [|done|done|done]. cbn. by rewrite Hb, crlf_no_lf, <- app_assoc.
Qed.

Lemma unflushed_characters es : characters (unflushed es) = characters es.
Proof. induction es as [|[c| |] es IH]; [done|exact (f_equal (cons c) IH)|exact IH|exact IH]. Qed.

Lemma unflushed_safe es : safe (unflushed es) -> safe es.
Proof. induction es as [|[] es IH]; cbn; tauto. Qed.

Lemma unflushed_binary es : SetBinary ∉ unflushed es -> SetBinary ∉ es.
Proof.
  induction es as [|e es IH]; intros Hn Hin; [by apply Hn|].
  apply elem_of_cons in Hin as [<-|Hin]; [apply Hn; by left|].
  destruct e; cbn [unflushed] in Hn; rewrite ?not_elem_of_cons in Hn; tauto.
Qed.

Lemma characters_puts b : characters (puts b) = b.
Proof. induction b as [|c b IH]; [done|exact (f_equal (cons c) IH)]. Qed.

Lemma characters_app a b : characters (a ++ b) = characters a ++ characters b.
Proof. apply omap_app. Qed.

Lemma puts_no_binary b : SetBinary ∉ puts b.
Proof. unfold puts. intros Hin. apply list_elem_of_fmap in Hin as (c & Hc & _). done. Qed.

Lemma safe_puts_app b es : Forall (fun c => c <> 10) b -> safe es -> safe (puts b ++ es).
Proof. intros Hb He. induction Hb as [|c b Hc Hb IH]; [done|exact (conj Hc IH)]. Qed.

(** ** The prefix of verbose mode *)

Lemma id_text_no_lf i : wf_id i -> Forall (fun c => c <> 10) (id_text i).
Proof.
  destruct i as [k|u]; cbn [wf_id id_text].
  - intros _. unfold b62_encode_ref.
    pose proof (digits_to_digits 62 eq_refl 27 (val 256 (ksuid_b k))) as Hdig.
    induction Hdig as [|d l Hd Hl IH]; [constructor|]. constructor; [|done].
    destruct (b62_char_spec d Hd) as (_ & _ & _ & Hv). intros E. rewrite E in Hv. vm_compute in Hv; discriminate Hv.
  - intros [_ Hb].
    assert (Forall (fun c => c <> 10) (hex_digits (uuidv7_b u))) as Hn.
    { assert (forall d, 0 <= d < 16 -> hex_char d <> 10) as Hc.
      { intros d Hd. destruct (hex_char_spec d Hd) as (_ & _ & _ & Hv).
        intros E. rewrite E in Hv. vm_compute in Hv; discriminate Hv. }
      induction Hb as [|x b Hx Hb IH]; [constructor|]. cbn [hex_digits].
      destruct (nibbles x Hx). by repeat (constructor; [by apply Hc|]). }
    unfold hex_ref, dashed.
    repeat first [apply Forall_app; split | apply Forall_cons; [done|]];
      try apply Forall_take; try apply Forall_drop; done.
Qed.

Definition prefix (v : bool) (i : id) : list Z := if v then id_text i ++ str ": " else [].

Lemma prefix_no_lf v i : wf_id i -> Forall (fun c => c <> 10) (prefix v i).
Proof.
  intros Hi. destruct v; [|constructor]. apply Forall_app. split; [by apply id_text_no_lf|].
  by repeat constructor.
Qed.

(** What the print functions do, in one line. *)
Lemma print_one_events_spec pl f v i :
  wf_id i ->
  print_one_events pl f v i
  = Some (puts (prefix v i)
          ++ (if raw_projection f && match i with KsuidId _ => true | UuidId _ => bool_decide (f = FMT_RAW) end
              then set_stdout_binary_for_raw_output pl else [])
          ++ puts (body f i)).
Proof.
  intros Hi. destruct i as [k|u]; cbn [print_one_events wf_id] in *;
    unfold print_one_ksuid_events, print_one_uuidv7_events.
  - assert ((if v then s ← ksuid_string k; Some (s ++ str ": ") else Some [])
            = Some (prefix v (KsuidId k))) as -> by (destruct v; [by rewrite ksuid_string_spec|done]).
    pose proof (print_one_ksuid_spec FMT_PAYLOAD false k Hi) as Ep.
    pose proof (print_one_ksuid_spec FMT_RAW false k Hi) as Er.
    unfold print_one_ksuid, render in Ep, Er. cbn [mbind option_bind app] in Ep, Er.
    cbn [mbind option_bind].
    destruct f; cbn [raw_projection andb]; try (by rewrite print_one_ksuid_spec).
    + unfold print_payload_events. destruct (print_payload k) as [b|]; [|done].
      cbn [mbind option_bind] in *. injection Ep as ->. reflexivity.
    + unfold print_raw_events. destruct (print_raw k) as [b|]; [|done].
      cbn [mbind option_bind] in *. injection Er as ->. reflexivity.
  - assert ((if v then s ← uuidv7_string u; Some (s ++ str ": ") else Some [])
            = Some (prefix v (UuidId u))) as -> by (destruct v; [by rewrite uuidv7_string_spec|done]).
    pose proof (print_one_uuidv7_spec FMT_RAW false u Hi) as Er.
    unfold print_one_uuidv7, render in Er. cbn [mbind option_bind app] in Er.
    cbn [mbind option_bind].
    destruct f; cbn [raw_projection andb]; try (by rewrite print_one_uuidv7_spec).
    unfold print_raw_uuidv7_events. destruct (print_raw_uuidv7 u) as [b|]; [|done].
    cbn [mbind option_bind] in *. injection Er as ->. reflexivity.
Qed.

(** The events of several ids; their characters are the rendered ids. *)
Lemma print_all_events pl f v ids :
  Forall wf_id ids ->
  exists ess, mapM (print_one_events pl f v) ids = Some ess /\
    characters (concat ess) = concat (map (render f v) ids) /\
    (raw_projection f = true -> pl = WIN32 -> safe (concat ess)) /\
    (raw_projection f = false \/ pl = POSIX -> SetBinary ∉ concat ess).
Proof.
  induction 1 as [|i ids Hi Hids (ess & E & Hch & Hsafe & Hbin)].
  { exists []. split_and!; try done. intros _. apply not_elem_of_nil. }
  cbn [mapM]. rewrite print_one_events_spec by done. cbn [mbind option_bind]. rewrite E.
  cbn [mbind option_bind mret option_ret].
  eexists. split; [reflexivity|]. cbn [concat map].
  set (sb := if raw_projection f && _ then _ else _).
  assert (characters sb = []) as Hsb by (unfold sb; destruct (_ && _), pl; done).
  split; [|split].
  - rewrite !characters_app, !characters_puts, Hch, Hsb. reflexivity.
  - intros Hf ->. specialize (Hsafe Hf eq_refl). rewrite <- !app_assoc.
    apply safe_puts_app; [by apply prefix_no_lf|]. unfold sb. rewrite Hf.
    destruct i; [done|]. by destruct f.
  - intros Hc. rewrite !not_elem_of_app. split_and!; try apply puts_no_binary; [|by apply Hbin].
    unfold sb. destruct Hc as [->| ->]; [|destruct (_ && _)]; by apply not_elem_of_nil.
Qed.
End Print.

(** The unencoded projections write the bytes of the ids, on Windows too.
    Whatever ids are printed, with or without the verbose prefix, and whenever the
    C library writes out its buffer: with [-f raw] and [-f payload] the device gets
    exactly the rendered ids, byte for byte; the other projections are text, in
    which Windows puts a carriage return before every line feed, and POSIX
    nothing. *)
Theorem stdout_raw_exact `{TimeZone} `{HexEncode16} pl f v ids :
  Forall wf_id ids ->
  exists ess, mapM (print_one_events pl f v) ids = Some ess /\
    forall es, unflushed es = concat ess ->
      written (stdout_start pl) es
      = if raw_projection f || bool_decide (pl = POSIX)
        then concat (map (render f v) ids) else crlf (concat (map (render f v) ids)).
Proof.
  intros Hids. destruct (print_all_events pl f v ids Hids) as (ess & E & Hch & Hsafe & Hbin).
  exists ess. split; [done|]. intros es Hes.
  assert (characters es = concat (map (render f v) ids)) as Hc
    by (by rewrite <- unflushed_characters, Hes).
  destruct pl; cbn [stdout_start].
  - rewrite written_binary by done. rewrite orb_true_r. exact Hc.
  - destruct (raw_projection f) eqn:Ef; cbn [orb].
    + rewrite written_safe; [exact Hc|done|constructor|].
      apply unflushed_safe. rewrite Hes. by apply Hsafe.
    + rewrite written_text; [cbn; by rewrite Hc|done|].
      apply unflushed_binary. rewrite Hes. apply Hbin. by left.
Qed.

#[local] Instance utc : TimeZone := fun _ => (0, str "UTC").

(** The verbose raw line of the largest KSUID but one byte, a line feed; the
    buffer is written out in the middle. *)
Lemma stdout_raw_exact_witness :
  let i := KsuidId (Ksuid (10 :: replicate 19 0xff)) in
  Forall wf_id [i] /\
  exists ess, mapM (print_one_events WIN32 FMT_RAW true) [i] = Some ess /\
    forall es, unflushed es = concat ess ->
      written (stdout_start WIN32) es
      = if raw_projection FMT_RAW || bool_decide (WIN32 = POSIX)
        then concat (map (render FMT_RAW true) [i]) else crlf (concat (map (render FMT_RAW true) [i])).
Proof.
  assert (Forall wf_id [KsuidId (Ksuid (10 :: replicate 19 0xff))]) as Hi.
  { apply Forall_singleton. split; [reflexivity|]. cbn [ksuid_b]. rewrite bytes_cons.
    split; [unfold uint; lia|]. apply bytes_replicate. unfold uint. lia. }
  split; [exact Hi|]. apply stdout_raw_exact. exact Hi.
Defined.

(** Without the switch the line feed would not survive. *)
Example text_mode_corrupts :
  written (stdout_start WIN32) (puts [10; 7]) = [13; 10; 7].
Proof. reflexivity. Qed.
