(* ===== verification/EndToEnd.v ===== *)
(** * The command-line tool on the whole stack

    examples/chronoid-gen.c over the generators, the override slots, the
    per-thread ChaCha20 generator, the entropy of rand_os.c and the system
    calls: a machine whose clock stands still, from the start of the process to
    the printed lines. *)
From Stdlib Require Import String.
From S2P Require Import Prelude Radix ByteOrder Stdio Wipe Chacha20 RandOs Rand RandTls Keystream Machine.
From S2P Require Import TlsRng Override KsuidTypes Base62 Ksuid Hex HexSsse3 Uuidv7 Cli Render CliSpec.

Open Scope Z_scope.

#[local] Opaque keystream next_state.

Section EndToEnd.
Context {OS : Type} `{!Syscalls OS} `{!os_config} `{!OsFuel} `{!wipe_config}.
Context `{!TimeZone} `{!HexEncode16}.
Implicit Types (q : process (machine OS)) (p : program (machine OS)).

(** ** What a draw leaves alone *)

(** The process id, the clock and the clock override. *)
Definition surroundings q : Z * option (Z * Z) * option (time_source (machine OS)) :=
  (m_pid (env q), m_clock (env q), chronoid_time_source_override_ q).

Lemma now_seconds_machine (m : machine OS) : (chronoid_now_seconds m).2 = m.
Proof.
  unfold chronoid_now_seconds. cbn. unfold machine_timespec.
  destruct (m_clock m) as [[s ns]|]; [by destruct (_ && _)|done].
Qed.

Lemma register_surroundings q :
  surroundings (chronoid_tls_register_thread_exit q) = surroundings q.
Proof.
  destruct q as [[st b bp e t pd sd dr] d n o i f w]. unfold chronoid_tls_register_thread_exit.
  cbn. by destruct dr.
Qed.

Lemma seed_surroundings q rc kn q' :
  chronoid_tls_rng_seed q = Some (rc, kn, q') -> surroundings q' = surroundings q.
Proof.
  unfold chronoid_tls_rng_seed. intros E.
  apply bind_Some in E as ([[r k] m] & Em & E). unfold os_random_bytes in Em. cbn in Em.
  unfold machine_os_random in Em. apply bind_Some in Em as ([[r1 k1] o] & _ & Em).
  injection Em as <- <- <-.
  destruct (r1 <? 0); [apply bind_Some in E as (k2 & _ & E); injection E as <- <- <-; by destruct q|].
  repeat (apply bind_Some in E as (? & _ & E)).
  unfold getpid, machine_pid in E.
  destruct (chronoid_now_seconds _) as [now w2] eqn:En.
  apply (f_equal snd) in En. rewrite now_seconds_machine in En. cbn in En. subst w2.
  injection E as <- <- <-.
  match goal with |- context [chronoid_tls_register_thread_exit ?x] =>
    transitivity (surroundings (chronoid_tls_register_thread_exit x));
      [by destruct (chronoid_tls_register_thread_exit x)|]; rewrite register_surroundings end.
  by destruct q.
Qed.

Lemma should_reseed_surroundings q b q' :
  chronoid_tls_rng_should_reseed q = Some (b, q') -> surroundings q' = surroundings q.
Proof.
  unfold chronoid_tls_rng_should_reseed. intros E. destruct q as [r d n o i f w].
  cbn [chronoid_tls_rng_ env] in E. unfold getpid, machine_pid in E.
  destruct (chronoid_now_seconds w) as [now w2] eqn:En.
  apply (f_equal snd) in En. rewrite now_seconds_machine in En. cbn in En. subst w2.
  repeat case_match; try (injection E as <- <-; reflexivity).
  apply bind_Some in E as (? & _ & E). by injection E as <- <-.
Qed.

Lemma random_bytes_surroundings b n q r b' q' :
  chronoid_random_bytes b n q = Some (r, b', q') -> surroundings q' = surroundings q.
Proof.
  unfold chronoid_random_bytes. destruct (chronoid_tls_in_destructor_ q); [by intros [= <- <- <-]|].
  intros E. apply bind_Some in E as ([re q1] & E1 & E).
  apply should_reseed_surroundings in E1. rewrite <- E1. clear E1.
  apply bind_Some in E as ([rc q2] & E2 & E).
  assert (surroundings q2 = surroundings q1) as <-.
  { destruct re; [|by injection E2 as <- <-].
    apply bind_Some in E2 as ([[rc1 kn] q3] & E3 & E2). injection E2 as <- <-.
    by eapply seed_surroundings. }
  destruct (rc <? 0); [by injection E as <- <- <-|].
  apply bind_Some in E as ([o1 r1] & _ & E). injection E as <- <- <-. by destruct q2.
Qed.

(** ** The clock of the program *)

Lemma set_env_keeps m (t : tls_thread (machine OS)) :
  rng_ok (chronoid_tls_rng_ (set_env m (thread_process t))).
Proof. destruct t as [[] Ht]. exact Ht. Qed.

Definition program_timespec p : option (Z * Z) * program (machine OS) :=
  let '(ts, m) := timespec_get (env (thread_process (caller p))) in
  (ts, Program (g_rng_fn p) (g_rng_ctx p)
         (Thread (set_env m (thread_process (caller p))) (set_env_keeps m (caller p)))).

Lemma program_timespec_ok p s ns p' :
  program_timespec p = (Some (s, ns), p') -> int64 s /\ 0 <= ns <= 999999999.
Proof.
  unfold program_timespec. destruct (timespec_get _) as [ts m] eqn:E.
  intros [= -> _]. by apply timespec_get_ok in E.
Qed.

#[export] Instance program_clock : Clock (program (machine OS)) :=
  { timespec_get := program_timespec; timespec_get_ok := program_timespec_ok }.

(** ** A process that draws from one seed *)

(** The program's clock shows [t] seconds and [ns] nanoseconds, no override and
    no wipe is in the way, and the next byte drawn is byte [pos] of the
    keystream of [s]: the generator stands there, or it is not seeded yet and
    the operating system is about to deliver the seed. *)
Definition standing (t ns : Z) (s : list Z) (pos : nat) p : Prop :=
  let q := thread_process (caller p) in
  let r := chronoid_tls_rng_ q in
  g_rng_fn p = None /\ chronoid_tls_in_destructor_ q = false /\
  chronoid_time_source_override_ q = None /\ m_clock (env q) = Some (t, ns) /\
  (seeded r = false /\ pos = 0%nat /\
   (exists kn m, os_random_bytes (uninit 44) 44 (env q) = Some (0, kn, m) /\ s = seed_state kn) \/
   seeded r = true /\ at_position s pos r /\ seed_pid r = m_pid (env q) /\ seed_time r = t).

Definition clock_ok (t ns : Z) : Prop := int64 t /\ 0 <= ns <= 999999999.

Lemma machine_timespec_ok2 t ns (m : machine OS) :
  clock_ok t ns -> m_clock m = Some (t, ns) -> timespec_get m = (Some (t, ns), m).
Proof.
  intros [Ht Hns] E. cbn. unfold machine_timespec. rewrite E. unfold int64 in Ht.
  by rewrite !(proj2 (Z.leb_le _ _)) by lia.
Qed.

Lemma now_seconds_clock t ns (m : machine OS) :
  clock_ok t ns -> m_clock m = Some (t, ns) -> chronoid_now_seconds m = (t, m).
Proof. intros Hc E. unfold chronoid_now_seconds. by rewrite (machine_timespec_ok2 t ns). Qed.

Lemma standing_no_reseed t ns s pos q :
  clock_ok t ns -> m_clock (env q) = Some (t, ns) -> Z.of_nat pos < CHRONOID_RNG_RESEED_BYTES ->
  seeded (chronoid_tls_rng_ q) = true -> at_position s pos (chronoid_tls_rng_ q) ->
  seed_pid (chronoid_tls_rng_ q) = m_pid (env q) -> seed_time (chronoid_tls_rng_ q) = t ->
  chronoid_tls_rng_should_reseed q = Some (false, q).
Proof.
  intros Hc Hm Hpos Hs Hat Hpid Ht. unfold chronoid_tls_rng_should_reseed.
  assert (bytes_emitted (chronoid_tls_rng_ q) = Z.of_nat pos) as Hem.
  { destruct Hat as (_ & k & i & b & _ & _ & _ & _ & _ & _ & -> & _).
    apply wrap_small. unfold uint. unfold CHRONOID_RNG_RESEED_BYTES in Hpos. lia. }
  rewrite Hs, Hem, (proj2 (Z.leb_gt _ _)) by lia. cbn [negb].
  unfold getpid, machine_pid. rewrite Hpid, Z.eqb_refl. cbn [negb].
  rewrite (now_seconds_clock t ns) by done. rewrite Ht, Z.ltb_irrefl.
  unfold i64_sub. rewrite Z.sub_diag. cbn. by destruct q.
Qed.

(** A draw of [n] bytes. *)
Lemma standing_fill t ns s pos n p :
  clock_ok t ns -> standing t ns s pos p -> Z.of_nat pos < CHRONOID_RNG_RESEED_BYTES ->
  exists p', fill_random n p = Some (0, slice s pos n, p') /\ standing t ns s (pos + n) p'.
Proof.
  intros Hc (Hg & Hd & Ho & Hm & Hat) Hpos.
  set (q := thread_process (caller p)) in *.
  assert (n <= length (uninit n))%nat as Hn by (by rewrite length_uninit).
  assert (forall q', chronoid_random_bytes (uninit n) n q = Some (0, slice s pos n ++ drop n (uninit n), q') ->
    chronoid_tls_in_destructor_ q' = false -> seeded (chronoid_tls_rng_ q') = true ->
    at_position s (pos + n) (chronoid_tls_rng_ q') ->
    seed_pid (chronoid_tls_rng_ q') = m_pid (env q) -> seed_time (chronoid_tls_rng_ q') = t ->
    exists p', fill_random n p = Some (0, slice s pos n, p') /\ standing t ns s (pos + n) p')
    as Hend.
  { intros q' E Hd' Hs' Hat' Hpid Ht. pose proof (random_bytes_surroundings _ _ _ _ _ _ E) as Hsur.
    injection Hsur as Epid Eclk Eo.
    rewrite drop_ge, app_nil_r in E by (by rewrite length_uninit).
    destruct (fill_random_thread n p _ _ _ Hg E) as (th & Ef & Hth).
    exists (Program None (g_rng_ctx p) th). split; [exact Ef|].
    unfold standing. cbn [caller g_rng_fn]. rewrite Hth. split_and!; [done|done|congruence..|].
    right. split_and!; congruence. }
  destruct Hat as [(Hs & -> & kn & m & Eo & ->)|(Hs & Hat & Hpid & Ht)].
  - pose proof (thread_ok (caller p)) as (Hst & Hb & _).
    assert (chronoid_tls_rng_should_reseed q = Some (true, q)) as Er
      by (unfold chronoid_tls_rng_should_reseed; by rewrite Hs).
    pose proof (random_bytes_fresh q q (uninit n) n Hd Hn Hst Hb Er) as Hf.
    rewrite Eo in Hf. destruct Hf as (q' & E & Hat & Hs' & Hpid & Ht & Hd').
    assert (m_pid m = m_pid (env q) /\ m_clock m = Some (t, ns)) as [Epid Eclk].
    { cbn in Eo. unfold machine_os_random in Eo. apply bind_Some in Eo as ([[r1 k1] o] & _ & Eo).
      by injection Eo as _ _ <-. }
    apply (Hend q'); try done.
    + by rewrite Hpid.
    + rewrite Ht. cbn [getpid machine_pid snd]. by rewrite (now_seconds_clock t ns).
  - pose proof (standing_no_reseed t ns s pos q Hc Hm Hpos Hs Hat Hpid Ht) as Er.
    destruct (random_bytes_reuse q q s pos (uninit n) n Hd Hn Er Hat)
      as (q' & E & Hat' & (Et & Ep & Es & _) & Hd').
    apply (Hend q'); congruence.
Qed.
(** Reading the clock. *)
Lemma standing_timespec t ns s pos p :
  clock_ok t ns -> standing t ns s pos p ->
  exists p', timespec_get p = (Some (t, ns), p') /\ standing t ns s pos p'.
Proof.
  intros Hc (Hg & Hd & Ho & Hm & Hat). cbn [timespec_get program_clock]. unfold program_timespec.
  rewrite (machine_timespec_ok2 t ns) by done. eexists. split; [done|].
  unfold standing. cbn [g_rng_fn caller thread_process].
  destruct (thread_process (caller p)). by split_and!.
Qed.

Definition clock_ms (t ns : Z) : Z := t * 1000 + ns / 1000000.

Lemma now_ms_clock t ns q :
  clock_ok t ns -> 0 <= clock_ms t ns <= UUIDV7_MAX_UNIX_MS ->
  chronoid_time_source_override_ q = None -> m_clock (env q) = Some (t, ns) ->
  chronoid_now_ms q = Some (clock_ms t ns, q).
Proof.
  intros Hc Hms Ho Hm. pose proof Hc as [_ Hns]. rewrite max_unix_ms in Hms. unfold clock_ms in *.
  assert (0 <= ns / 1000000 < 1000) as Hq
    by (split; [apply Z.div_pos; lia | apply Z.div_lt_upper_bound; lia]).
  unfold chronoid_now_ms. rewrite Ho, (machine_timespec_ok2 t ns) by done.
  unfold i64_mul, i64_add. rewrite i64_Some by (unfold int64, INT64_MIN, INT64_MAX; lia).
  cbn [mbind option_bind]. rewrite i64_Some by (unfold int64, INT64_MIN, INT64_MAX; lia).
  cbn [mbind option_bind]. by destruct q.
Qed.

(** The call of a program that leaves its thread as it is. *)
Lemma program_now_ms_clock t ns p :
  clock_ok t ns -> 0 <= clock_ms t ns <= UUIDV7_MAX_UNIX_MS ->
  chronoid_time_source_override_ (thread_process (caller p)) = None ->
  m_clock (env (thread_process (caller p))) = Some (t, ns) ->
  exists p', now_ms p = Some (clock_ms t ns, p') /\ g_rng_fn p' = g_rng_fn p /\
    thread_process (caller p') = thread_process (caller p).
Proof.
  intros Hc Hms Ho Hm. pose proof (now_ms_clock t ns _ Hc Hms Ho Hm) as E.
  cbn [now_ms program_now]. unfold program_now_ms.
  destruct (keep_ok_Some _ (now_ms_keeps (caller p)) _ _ E) as (th & -> & Hth).
  cbn [mbind option_bind]. by eexists.
Qed.

Lemma standing_now_ms t ns s pos p :
  clock_ok t ns -> 0 <= clock_ms t ns <= UUIDV7_MAX_UNIX_MS -> standing t ns s pos p ->
  exists p', now_ms p = Some (clock_ms t ns, p') /\ standing t ns s pos p'.
Proof.
  intros Hc Hms (Hg & Hd & Ho & Hm & Hat).
  destruct (program_now_ms_clock t ns p Hc Hms Ho Hm) as (p' & E & Hg' & Hp').
  exists p'. split; [exact E|]. unfold standing. rewrite Hp', Hg'. by split_and!.
Qed.

(** ** The ids of one seed *)

Definition id_size (f : id_format) : nat :=
  match f with IDFMT_KSUID => 16 | IDFMT_UUIDV7 => 10 end.

(** The time of the clock is one the format can hold. *)
Definition time_ok (f : id_format) (t ns : Z) : Prop :=
  match f with
  | IDFMT_KSUID => in_lifetime t = true
  | IDFMT_UUIDV7 => 0 <= clock_ms t ns <= UUIDV7_MAX_UNIX_MS
  end.

(** The id of the clock's time whose random part is the keystream of [s] from
    byte [pos] on: 16 bytes for a KSUID, and for a UUID 12 bits of the first two
    bytes and 62 bits of the other eight. *)
Definition keystream_id (f : id_format) (t ns : Z) (s : list Z) (pos : nat) : id :=
  match f with
  | IDFMT_KSUID => KsuidId (ksuid_of (t - CHRONOID_KSUID_EPOCH_SECONDS) (slice s pos 16))
  | IDFMT_UUIDV7 =>
      UuidId (uuidv7_of (clock_ms t ns) (val 256 (slice s pos 2) mod 4096) (slice s (pos + 2) 8))
  end.

Fixpoint keystream_ids (f : id_format) (t ns : Z) (s : list Z) (pos k : nat) : list id :=
  match k with
  | O => []
  | S k' => keystream_id f t ns s pos :: keystream_ids f t ns s (pos + id_size f) k'
  end.

Lemma standing_new_ksuid t ns s pos p :
  clock_ok t ns -> in_lifetime t = true -> standing t ns s pos p ->
  Z.of_nat pos < CHRONOID_RNG_RESEED_BYTES ->
  exists p', chronoid_ksuid_new (Ksuid (uninit 20)) p
             = Some (CHRONOID_KSUID_OK,
                     ksuid_of (t - CHRONOID_KSUID_EPOCH_SECONDS) (slice s pos 16), p') /\
    standing t ns s (pos + 16) p'.
Proof.
  intros Hc Ht Hp Hpos. unfold chronoid_ksuid_new.
  destruct (standing_timespec t ns s pos p Hc Hp) as (p1 & -> & Hp1).
  destruct (standing_fill t ns s pos 16 p1 Hc Hp1 Hpos) as (p2 & E & Hp2).
  exists p2. split; [|done].
  pose proof Ht as Hl. unfold in_lifetime in Hl.
  apply andb_true_iff in Hl as [Hlo%Z.leb_le _]. unfold CHRONOID_KSUID_EPOCH_SECONDS in Hlo.
  rewrite new_with_time_spec;
    [|apply uninit_ksuid_wf|apply Hc|unfold INT64_MIN, CHRONOID_KSUID_EPOCH_SECONDS; lia].
  by rewrite Ht, E.
Qed.

Lemma standing_new_uuidv7 t ns s pos p :
  clock_ok t ns -> 0 <= clock_ms t ns <= UUIDV7_MAX_UNIX_MS -> standing t ns s pos p ->
  Z.of_nat pos < CHRONOID_RNG_RESEED_BYTES ->
  exists p', chronoid_uuidv7_new (Uuidv7 (uninit 16)) p
             = Some (CHRONOID_UUIDV7_OK,
                     uuidv7_of (clock_ms t ns) (val 256 (slice s pos 2) mod 4096)
                       (slice s (pos + 2) 8), p') /\
    standing t ns s (pos + 10) p'.
Proof.
  intros Hc Ht Hp Hpos. unfold chronoid_uuidv7_new.
  destruct (standing_now_ms t ns s pos p Hc Ht Hp) as (p1 & E1 & Hp1).
  rewrite E1. cbn [mbind option_bind]. pose proof (now_ms_ok _ _ _ E1) as Hms.
  destruct (standing_fill t ns s pos 10 p1 Hc Hp1 Hpos) as (p2 & E & Hp2).
  exists p2. split; [|done].
  rewrite (proj2 (Z.ltb_ge _ _)), (proj2 (Z.ltb_ge _ _)) by apply Ht. cbn [orb].
  rewrite uuidv7_new_with_time_spec by (apply uninit_uuidv7_wf || done).
  rewrite !(proj2 (Z.leb_le _ _)) by apply Ht. cbn [andb]. rewrite E.
  rewrite (slice_app s pos 2 8 : slice s pos 10 = _), take_app_length', drop_app_length' by (by rewrite length_slice).
  done.
Qed.

Lemma standing_generate k o t ns s pos p :
  clock_ok t ns -> time_ok (o_idformat o) t ns -> standing t ns s pos p ->
  Z.of_nat (pos + id_size (o_idformat o) * k) <= CHRONOID_RNG_RESEED_BYTES ->
  exists p', generate k o p
             = Some (0, output o (keystream_ids (o_idformat o) t ns s pos k), [], p') /\
    standing t ns s (pos + id_size (o_idformat o) * k) p'.
Proof.
  intros Hc Ht. revert pos p. induction k as [|k IH]; intros pos p Hp Hk.
  { rewrite Nat.mul_0_r, Nat.add_0_r in *. by exists p. }
  replace (pos + id_size (o_idformat o) * S k)%nat
    with (pos + id_size (o_idformat o) + id_size (o_idformat o) * k)%nat in * by lia.
  assert (Z.of_nat pos < CHRONOID_RNG_RESEED_BYTES) as Hpos
    by (destruct (o_idformat o); cbn [id_size] in Hk; lia).
  cbn [generate keystream_ids]. destruct (o_idformat o) eqn:Ef; cbn [time_ok id_size] in *.
  - destruct (standing_new_ksuid t ns s pos p Hc Ht Hp Hpos) as (p1 & -> & Hp1).
    cbn [mbind option_bind]. rewrite bool_decide_eq_false_2 by auto.
    rewrite print_one_ksuid_spec by (apply ksuid_of_wf; [apply length_slice|apply slice_bytes]).
    cbn [mbind option_bind]. destruct (IH _ _ Hp1 Hk) as (p2 & -> & Hp2). by exists p2.
  - destruct (standing_new_uuidv7 t ns s pos p Hc Ht Hp Hpos) as (p1 & -> & Hp1).
    cbn [mbind option_bind]. rewrite bool_decide_eq_false_2 by auto.
    rewrite print_one_uuidv7_spec
      by (apply uuidv7_of_wf; [apply Z.mod_pos_bound; lia|apply length_slice|apply slice_bytes]).
    cbn [mbind option_bind]. destruct (IH _ _ Hp1 Hk) as (p2 & -> & Hp2). by exists p2.
Qed.
(** ** From the start of the process *)

Lemma fresh_thread_ok (m : machine OS) : rng_ok (chronoid_tls_rng_ (fresh_thread m)).
Proof. split_and!; [done..|]. intros [=]. Qed.

(** No override is installed and no thread has drawn. *)
Definition start (m : machine OS) : program (machine OS) :=
  Program None 0 (Thread (fresh_thread m) (fresh_thread_ok m)).

Lemma start_standing t ns kn m m1 :
  m_clock m = Some (t, ns) -> os_random_bytes (uninit 44) 44 m = Some (0, kn, m1) ->
  standing t ns (seed_state kn) 0 (start m).
Proof. intros Hm E. unfold standing. split_and!; try done. left. split_and!; [done..|]. by exists kn, m1. Qed.

(** A process at its start whose entropy source fails or does not return. *)
Lemma start_fill_failure n (p : program (machine OS)) m :
  thread_process (caller p) = fresh_thread m -> g_rng_fn p = None ->
  match os_random_bytes (uninit 44) 44 m with
  | None => fill_random n p = None
  | Some (rc, _, _) => rc <> 0 -> exists p', fill_random n p = Some (-1, uninit n, p')
  end.
Proof.
  intros Hp Hg.
  assert (n <= length (uninit n))%nat as Hn by (by rewrite length_uninit).
  pose proof (random_bytes_fresh (fresh_thread m) (fresh_thread m) (uninit n) n eq_refl Hn
                eq_refl eq_refl eq_refl) as Hf.
  rewrite <- Hp in Hf.
  replace (env (thread_process (caller p))) with m in Hf by (by rewrite Hp).
  destruct (os_random_bytes (uninit 44) 44 m) as [[[rc kn] m1]|].
  - intros Hrc. rewrite (proj2 (Z.eqb_neq _ _)) in Hf by done.
    destruct Hf as (q & E & _). destruct (fill_random_thread n p _ _ _ Hg E) as (th & Ef & _).
    by eexists.
  - cbn [fill_random program_random]. unfold chronoid_internal_fill_random. rewrite Hg.
    unfold thread_random_bytes. case_decide as Hn'; [|done].
    destruct (keep_ok _ _) as [[[r b] th]|] eqn:Ek; [|done].
    apply keep_ok_inv in Ek. by rewrite Hf in Ek.
Qed.

Lemma start_generate_failure k o t ns m :
  clock_ok t ns -> m_clock m = Some (t, ns) -> time_ok (o_idformat o) t ns ->
  match os_random_bytes (uninit 44) 44 m with
  | None => generate (S k) o (start m) = None
  | Some (rc, _, _) => rc <> 0 ->
      exists c err p', generate (S k) o (start m) = Some (2, [], c :: err, p')
  end.
Proof.
  intros Hc Hm Ht. cbn [generate]. destruct (o_idformat o) eqn:Ef; cbn [time_ok] in Ht.
  - unfold chronoid_ksuid_new. cbn [timespec_get program_clock]. unfold program_timespec.
    change (env (thread_process (caller (start m)))) with m.
    rewrite (machine_timespec_ok2 t ns) by done.
    match goal with |- context [chronoid_ksuid_new_with_time _ _ ?p] =>
      pose proof (start_fill_failure 16 p m eq_refl eq_refl) as Hf; set (p1 := p) in * end.
    pose proof Ht as Hl. unfold in_lifetime in Hl.
    apply andb_true_iff in Hl as [Hlo%Z.leb_le _]. unfold CHRONOID_KSUID_EPOCH_SECONDS in Hlo.
    rewrite new_with_time_spec;
      [|apply uninit_ksuid_wf|apply Hc|unfold INT64_MIN, CHRONOID_KSUID_EPOCH_SECONDS; lia].
    rewrite Ht. destruct (os_random_bytes (uninit 44) 44 m) as [[[rc kn] m1]|]; [|by rewrite Hf].
    intros Hrc. destruct (Hf Hrc) as (p' & ->). by do 3 eexists.
  - unfold chronoid_uuidv7_new.
    destruct (program_now_ms_clock t ns (start m) Hc Ht eq_refl Hm) as (p1 & E1 & Hg1 & Hp1).
    rewrite E1. cbn [mbind option_bind]. pose proof (now_ms_ok _ _ _ E1) as Hms.
    pose proof (start_fill_failure 10 p1 m Hp1 Hg1) as Hf.
    rewrite (proj2 (Z.ltb_ge _ _)), (proj2 (Z.ltb_ge _ _)) by apply Ht. cbn [orb].
    rewrite uuidv7_new_with_time_spec by (apply uninit_uuidv7_wf || done).
    rewrite !(proj2 (Z.leb_le _ _)) by apply Ht. cbn [andb].
    destruct (os_random_bytes (uninit 44) 44 m) as [[[rc kn] m1]|]; [|by rewrite Hf].
    intros Hrc. destruct (Hf Hrc) as (p' & ->). by do 3 eexists.
Qed.

(** C34: From the start of the process to the printed lines.  On a machine whose
    clock shows a time the format can hold, a command line of options makes the
    tool ask the operating system for 44 bytes of entropy once, and print the
    requested number of ids, for up to 1 MiB of random bytes, whose random parts
    are consecutive pieces of the one ChaCha20 keystream of those bytes, in
    order and without overlap.  If the system reports a failure the tool prints
    nothing, reports, and exits with 2; if it does not answer, neither does the
    tool. *)
Theorem cli_output_is_keystream `{!c_long} argv0 items t ns m :
  let o := fold_left set_option items default_options in
  Forall option_ok items -> no_payload (o_format o) (o_idformat o) = false ->
  clock_ok t ns -> m_clock m = Some (t, ns) -> time_ok (o_idformat o) t ns ->
  Z.of_nat (id_size (o_idformat o)) * o_count o <= CHRONOID_RNG_RESEED_BYTES ->
  let r := main (argv0 :: concat (map option_args items)) (start m) in
  match chronoid_os_random_bytes os_fuel (uninit 44) 44 (m_os m) with
  | None => r = None
  | Some (rc, seed, _) =>
      if rc =? 0
      then exists p', r = Some (0, output o (keystream_ids (o_idformat o) t ns (seed_state seed) 0
                                               (Z.to_nat (o_count o))), [], p')
      else exists c err p', r = Some (2, [], c :: err, p')
  end.
Proof.
  cbv zeta. intros Hi Hnp Hc Hm Ht Hk.
  pose proof (count_positive items Hi) as Hpos.
  rewrite main_generates by done.
  set (o := fold_left set_option items default_options) in *.
  destruct (Z.to_nat (o_count o)) as [|k] eqn:Ek; [lia|].
  pose proof (start_generate_failure k o t ns m Hc Hm Ht) as Hfail.
  assert (forall rc kn os, chronoid_os_random_bytes os_fuel (uninit 44) 44 (m_os m) = Some (rc, kn, os) ->
    os_random_bytes (uninit 44) 44 m = Some (rc, kn, Machine os (m_pid m) (m_clock m))) as Hos.
  { intros rc kn os E. cbn [os_random_bytes machine_entropy]. unfold machine_os_random. by rewrite E. }
  destruct (chronoid_os_random_bytes os_fuel (uninit 44) 44 (m_os m)) as [[[rc kn] os]|] eqn:E.
  - rewrite (Hos _ _ _ eq_refl) in Hfail. destruct (Z.eqb_spec rc 0) as [->|Hrc].
    + destruct (standing_generate (S k) o t ns (seed_state kn) 0 (start m) Hc Ht
                  (start_standing _ _ _ _ _ Hm (Hos _ _ _ eq_refl))) as (p' & Eg & _); [lia|].
      by exists p'.
    + by apply Hfail.
  - assert (os_random_bytes (uninit 44) 44 m = None) as En
      by (cbn [os_random_bytes machine_entropy]; unfold machine_os_random; by rewrite E).
    by rewrite En in Hfail.
Qed.
End EndToEnd.

(** ** A run *)

#[local] Existing Instances portable_wipe linux_config demo_fuel.
#[local] Instance utc : TimeZone := fun _ => (0, str "UTC").
#[local] Existing Instance lp64.

(** A system that interrupts one call and delivers the seed in two pieces. *)
Definition demo_machine : machine toy_os :=
  Machine (ToyOs [-4; 30] 7 ∅) 100 (Some (1700000000, 500000000)).

Lemma cli_output_is_keystream_witness :
  Forall option_ok [OptId IDFMT_UUIDV7; OptCount 3] /\
  exists p', main (str "chronoid-gen" :: concat (map option_args [OptId IDFMT_UUIDV7; OptCount 3]))
                  (start demo_machine)
    = Some (0, output (Options 3 FMT_STRING IDFMT_UUIDV7 true false)
                 [keystream_id IDFMT_UUIDV7 1700000000 500000000 (seed_state (replicate 44 7)) 0;
                  keystream_id IDFMT_UUIDV7 1700000000 500000000 (seed_state (replicate 44 7)) 10;
                  keystream_id IDFMT_UUIDV7 1700000000 500000000 (seed_state (replicate 44 7)) 20],
            [], p').
Proof.
  assert (Forall option_ok [OptId IDFMT_UUIDV7; OptCount 3]) as H by (repeat constructor; done).
  split; [exact H|].
  pose proof (cli_output_is_keystream (str "chronoid-gen") [OptId IDFMT_UUIDV7; OptCount 3]
                1700000000 500000000 demo_machine H eq_refl
                ltac:(unfold clock_ok, int64, INT64_MIN, INT64_MAX; lia) eq_refl
                ltac:(split; vm_compute; discriminate) ltac:(vm_compute; discriminate)) as T.
  cbv zeta in T.
  replace (chronoid_os_random_bytes os_fuel (uninit 44) 44 (m_os demo_machine))
    with (Some (0, replicate 44 7, ToyOs [] 7 ∅)) in T by (vm_compute; reflexivity).
  exact T.
Defined.
