(* ===== verification/SequenceStack.v ===== *)
(** * A UUIDv7 sequence on the whole stack

    uuidv7/uuidv7_sequence.c over the override slots, the per-thread ChaCha20
    generator, the entropy of rand_os.c and the system calls, on a machine whose
    clock stands still: which bytes of the keystream end up in which id. *)
From Stdlib Require Import String.
From S2P Require Import Prelude Radix ByteOrder Wipe Chacha20 RandOs Libc Rand RandTls Keystream Machine.
From S2P Require Import TlsRng Override Uuidv7 Uuidv7Sequence EndToEnd.

Open Scope Z_scope.

#[local] Opaque keystream next_state.

(** ** What the sequence should do *)

(** The state drawn at millisecond [ms] from byte [pos] of the keystream on: 8
    bytes of tail, then 2 bytes of which 12 bits are the counter. *)
Definition redrawn (ms : Z) (s : list Z) (pos : nat) : chronoid_uuidv7_sequence_t :=
  UuidSeq ms (val 256 (slice s (pos + 8) 2) mod 4096) (slice s pos 8).

(** One call while the clock shows [t]: the state afterwards and how many bytes
    it took.  The millisecond of the sequence is ahead of the clock once the
    counter has run over. *)
Definition spec_next (t : Z) (s : list Z) (pos : nat) (q : chronoid_uuidv7_sequence_t)
    : chronoid_uuidv7_sequence_t * nat :=
  if useq_last_ms q <? t then (redrawn t s pos, (pos + 10)%nat)
  else if useq_counter q <? 4095
  then (UuidSeq (useq_last_ms q) (useq_counter q + 1) (useq_rand_b q), pos)
  else (redrawn (useq_last_ms q + 1) s pos, (pos + 10)%nat).

(** The ids of [n] calls. *)
Fixpoint spec_ids (n : nat) (t : Z) (s : list Z) (pos : nat) (q : chronoid_uuidv7_sequence_t)
    : list chronoid_uuidv7_t :=
  match n with
  | O => []
  | S n' => let '(q, pos) := spec_next t s pos q in useq_id q :: spec_ids n' t s pos q
  end.

(** The state [chronoid_uuidv7_sequence_init] leaves: counter first, then tail. *)
Definition spec_init (s : list Z) (pos : nat) : chronoid_uuidv7_sequence_t :=
  UuidSeq 0 (val 256 (slice s pos 2) mod 4096) (slice s (pos + 2) 8).

Lemma counter_wf s pos : 0 <= val 256 (slice s pos 2) mod 4096 < 4096.
Proof. apply Z.mod_pos_bound. lia. Qed.

Lemma redrawn_wf ms s pos : 0 <= ms <= UUIDV7_MAX_UNIX_MS -> wf_useq (redrawn ms s pos).
Proof.
  intros Hms. split; [done|]. split; [apply counter_wf|].
  split; [apply length_slice | apply slice_bytes].
Qed.

Lemma spec_init_wf s pos : wf_useq (spec_init s pos).
Proof.
  split; [done|]. split; [apply counter_wf|]. split; [apply length_slice | apply slice_bytes].
Qed.

(** ** The operations on a process that draws from one seed *)

Section Stack.
Context {OS : Type} `{!Syscalls OS} `{!os_config} `{!OsFuel} `{!wipe_config}.
Implicit Types (p : program (machine OS)) (q : chronoid_uuidv7_sequence_t).
Context (t ns : Z) (Hclock : clock_ok t ns) (Hms : 0 <= clock_ms t ns <= UUIDV7_MAX_UNIX_MS).

Lemma standing_draw_random n s pos p :
  standing t ns s pos p -> Z.of_nat pos < CHRONOID_RNG_RESEED_BYTES ->
  exists p', chronoid_uuidv7_sequence_draw_random n p = Some (CHRONOID_UUIDV7_OK, slice s pos n, p') /\
    standing t ns s (pos + n) p'.
Proof using Hclock.
  intros Hp Hpos. destruct (standing_fill t ns s pos n p Hclock Hp Hpos) as (p' & E & Hp').
  exists p'. split; [|done]. unfold chronoid_uuidv7_sequence_draw_random. by rewrite E.
Qed.

Lemma standing_draw_counter out s pos p :
  standing t ns s pos p -> Z.of_nat pos < CHRONOID_RNG_RESEED_BYTES ->
  exists p', chronoid_uuidv7_sequence_draw_counter out p
             = Some (CHRONOID_UUIDV7_OK, val 256 (slice s pos 2) mod 4096, p') /\
    standing t ns s (pos + 2) p'.
Proof using Hclock.
  intros Hp Hpos. destruct (standing_draw_random 2 s pos p Hp Hpos) as (p' & E & Hp').
  exists p'. split; [|done]. unfold chronoid_uuidv7_sequence_draw_counter. rewrite E.
  cbn [mbind option_bind]. rewrite bool_decide_eq_false_2 by (by intros []).
  pose proof (slice_bytes s pos 2) as Hb. pose proof (length_slice s pos 2) as Hl.
  destruct (slice s pos 2) as [|x [|y [|]]]; try done.
  rewrite !bytes_cons in Hb. destruct Hb as (Hx & Hy & _).
  cbn [lookup list_lookup mbind option_bind]. by rewrite two_byte_counter.
Qed.

Lemma standing_init q s pos p :
  standing t ns s pos p -> Z.of_nat pos + 2 < CHRONOID_RNG_RESEED_BYTES ->
  exists p', chronoid_uuidv7_sequence_init q p = Some (CHRONOID_UUIDV7_OK, spec_init s pos, p') /\
    standing t ns s (pos + 10) p'.
Proof using Hclock.
  intros Hp Hpos. destruct (standing_draw_counter 0xcc s pos p Hp) as (p1 & E1 & Hp1); [lia|].
  destruct (standing_draw_random 8 s (pos + 2) p1 Hp1) as (p2 & E2 & Hp2); [lia|].
  replace (pos + 2 + 8)%nat with (pos + 10)%nat in Hp2 by lia.
  exists p2. split; [|done]. unfold chronoid_uuidv7_sequence_init. rewrite E1.
  cbn [mbind option_bind]. rewrite bool_decide_eq_false_2 by (by intros []). rewrite E2.
  cbn [mbind option_bind]. by rewrite bool_decide_eq_false_2 by (by intros []).
Qed.

Lemma standing_redraw q ms s pos p :
  wf_useq q -> standing t ns s pos p -> Z.of_nat pos + 10 <= CHRONOID_RNG_RESEED_BYTES ->
  exists p', sequence_redraw q ms p = Some (CHRONOID_UUIDV7_OK, redrawn ms s pos, p') /\
    standing t ns s (pos + 10) p'.
Proof using Hclock.
  intros (_ & _ & Hl & _) Hp Hpos.
  destruct (standing_draw_random 8 s pos p Hp) as (p1 & E1 & Hp1); [lia|].
  destruct (standing_draw_counter 0xcc s (pos + 8) p1 Hp1) as (p2 & E2 & Hp2); [lia|].
  replace (pos + 8 + 2)%nat with (pos + 10)%nat in Hp2 by lia.
  exists p2. split; [|done]. unfold sequence_redraw. rewrite E1.
  cbn [mbind option_bind]. rewrite bool_decide_eq_false_2 by (by intros []). rewrite E2.
  cbn [mbind option_bind]. rewrite bool_decide_eq_false_2 by (by intros []).
  by rewrite memcpy_full by (by rewrite ?length_slice).
Qed.

(** Not yet at the last millisecond of the format, or not with the last
    counter value. *)
Definition room q : Prop := useq_last_ms q < UUIDV7_MAX_UNIX_MS.

Lemma standing_next q out s pos p :
  wf_useq q -> room q -> wf_uuidv7 out -> standing t ns s pos p ->
  Z.of_nat pos + 10 <= CHRONOID_RNG_RESEED_BYTES ->
  let r := spec_next (clock_ms t ns) s pos q in
  exists p', chronoid_uuidv7_sequence_next q out p
             = Some (CHRONOID_UUIDV7_OK, r.1, useq_id r.1, p') /\
    standing t ns s r.2 p' /\ wf_useq r.1 /\ (r.2 <= pos + 10)%nat /\
    (useq_last_ms r.1 <= Z.max (clock_ms t ns) (useq_last_ms q + 1)).
Proof using Hclock Hms.
  intros Hq Hroom Hout Hp Hpos r. pose proof Hq as (Hlast & Hcnt & Hlr & Hbr). unfold room in Hroom.
  destruct (standing_now_ms t ns s pos p Hclock Hms Hp) as (p1 & E1 & Hp1).
  unfold chronoid_uuidv7_sequence_next. rewrite E1. cbn [mbind option_bind].
  change UUIDV7_MAX_UNIX_MS_INTERNAL with UUIDV7_MAX_UNIX_MS.
  set (eff := if (clock_ms t ns <? useq_last_ms q) || (UUIDV7_MAX_UNIX_MS <? clock_ms t ns)
              then useq_last_ms q else clock_ms t ns).
  assert (eff = Z.max (useq_last_ms q) (clock_ms t ns)) as Heff.
  { unfold eff. rewrite (proj2 (Z.ltb_ge UUIDV7_MAX_UNIX_MS _)) by lia. rewrite orb_false_r.
    destruct (Z.ltb_spec (clock_ms t ns) (useq_last_ms q)); lia. }
  rewrite Heff, (proj2 (Z.ltb_ge _ 0)), (proj2 (Z.ltb_ge UUIDV7_MAX_UNIX_MS _)) by lia. cbn [orb].
  assert (wf_useq r.1 /\ exists p2,
            sequence_advance q (Z.max (useq_last_ms q) (clock_ms t ns)) p1
            = Some (CHRONOID_UUIDV7_OK, r.1, p2) /\ standing t ns s r.2 p2 /\
            (r.2 <= pos + 10)%nat /\
            useq_last_ms r.1 <= Z.max (clock_ms t ns) (useq_last_ms q + 1)) as (Hr & p2 & E2 & Hp2 & Hle).
  { unfold r, spec_next, sequence_advance.
    destruct (Z.ltb_spec (useq_last_ms q) (clock_ms t ns)) as [Hlt|Hge].
    - rewrite Z.max_r, (proj2 (Z.ltb_lt _ _)) by lia. cbn [fst snd].
      split; [by apply redrawn_wf|].
      destruct (standing_redraw q (clock_ms t ns) s pos p1 Hq Hp1 Hpos) as (p2 & E2 & Hp2).
      exists p2. split_and!; [done|done|lia|cbn; lia].
    - rewrite Z.max_l, Z.ltb_irrefl by lia. cbv zeta.
      rewrite (wrap_small 32) by (unfold uint; lia). unfold UUIDV7_COUNTER_MASK.
      destruct (Z.ltb_spec (useq_counter q) 4095) as [Hc|Hc]; cbn [fst snd].
      + rewrite (proj2 (Z.ltb_ge _ _)), (wrap_small 16) by (unfold uint; lia).
        split; [by split_and!; cbn; try lia|]. exists p1. split_and!; [done|done|lia|cbn; lia].
      + rewrite (proj2 (Z.ltb_lt _ _)) by lia.
        change UUIDV7_MAX_UNIX_MS_INTERNAL with UUIDV7_MAX_UNIX_MS.
        rewrite (proj2 (Z.leb_gt _ _)) by lia. unfold i64_add.
        rewrite i64_Some by (rewrite max_unix_ms in *; unfold int64, INT64_MIN, INT64_MAX; lia).
        cbn [mbind option_bind]. split; [apply redrawn_wf; lia|].
        destruct (standing_redraw q (useq_last_ms q + 1) s pos p1 Hq Hp1 Hpos) as (p2 & E2 & Hp2).
        exists p2. split_and!; [done|done|lia|cbn; lia]. }
  exists p2. rewrite E2. cbn [mbind option_bind]. rewrite bool_decide_eq_false_2 by (by intros []).
  pose proof Hr as (Hr1 & Hr2 & Hr3 & Hr4). rewrite emit_spec by done. by split_and!; try apply Hle.
Qed.

Lemma standing_calls n q out s pos p :
  wf_useq q -> wf_uuidv7 out -> standing t ns s pos p ->
  Z.of_nat (pos + 10 * n) <= CHRONOID_RNG_RESEED_BYTES ->
  Z.max (clock_ms t ns) (useq_last_ms q) + Z.of_nat n <= UUIDV7_MAX_UNIX_MS ->
  exists q' p', uuidv7_sequence_calls n q out p
    = Some (map (pair CHRONOID_UUIDV7_OK) (spec_ids n (clock_ms t ns) s pos q), q', p').
Proof using Hclock Hms.
  revert q out pos p. induction n as [|n IH]; intros q out pos p Hq Hout Hp Hpos Hroom.
  { by exists q, p. }
  assert (room q) as Hr by (unfold room; lia).
  destruct (standing_next q out s pos p Hq Hr Hout Hp ltac:(lia)) as (p1 & E & Hp1 & Hq1 & Hle & Hl1).
  cbn [uuidv7_sequence_calls spec_ids map].
  destruct (spec_next (clock_ms t ns) s pos q) as [q1 pos1]. cbn [fst snd] in *.
  destruct (IH q1 (useq_id q1) pos1 p1 Hq1 (useq_id_wf _ Hq1) Hp1) as (q' & p' & E'); [lia|lia|].
  exists q', p'. rewrite E. cbn [mbind option_bind]. by rewrite E'.
Qed.
End Stack.

(** C35: What a UUIDv7 sequence is on the whole stack, from the start of the
    process.  With the clock standing at a time of the format and the operating
    system delivering 44 bytes, [chronoid_uuidv7_sequence_init] succeeds and
    [n] further calls succeed and emit exactly the ids of the specification: the
    first call of a millisecond takes 10 bytes of the keystream of those 44
    bytes, 8 for the tail and 12 of the next 16 bits for the counter; calls of
    the same millisecond add one to the counter and take nothing; behind counter
    4095 the sequence moves to the next millisecond, ahead of the clock, and
    takes 10 bytes again.  This is for up to 1 MiB of keystream. *)
Theorem uuidv7_sequence_is_keystream {OS} `{Syscalls OS} `{os_config} `{OsFuel} `{wipe_config}
    (m : machine OS) t ns seed os n q0 out :
  clock_ok t ns -> m_clock m = Some (t, ns) -> 0 <= clock_ms t ns ->
  clock_ms t ns + Z.of_nat n <= UUIDV7_MAX_UNIX_MS ->
  Z.of_nat (10 + 10 * n) <= CHRONOID_RNG_RESEED_BYTES -> wf_uuidv7 out ->
  chronoid_os_random_bytes os_fuel (uninit 44) 44 (m_os m) = Some (0, seed, os) ->
  let s := seed_state seed in
  exists p0 q p',
    chronoid_uuidv7_sequence_init q0 (start m) = Some (CHRONOID_UUIDV7_OK, spec_init s 0, p0) /\
    uuidv7_sequence_calls n (spec_init s 0) out p0
    = Some (map (pair CHRONOID_UUIDV7_OK) (spec_ids n (clock_ms t ns) s 10 (spec_init s 0)), q, p').
Proof.
  intros Hc Hm Hlo Hhi Hn Hout Eos s.
  assert (os_random_bytes (uninit 44) 44 m = Some (0, seed, Machine os (m_pid m) (m_clock m))) as E
    by (cbn [os_random_bytes machine_entropy]; unfold machine_os_random; by rewrite Eos).
  pose proof (start_standing t ns seed m _ Hm E) as Hs.
  destruct (standing_init t ns Hc q0 s 0 (start m) Hs) as (p0 & E0 & Hp0); [done|].
  destruct (standing_calls t ns Hc ltac:(lia) n (spec_init s 0) out s 10 p0) as (q & p' & E');
    [apply spec_init_wf|done|done|done|cbn; lia|].
  by exists p0, q, p'.
Qed.

(** ** A run *)

#[local] Existing Instances portable_wipe linux_config demo_fuel.

(** The machine of EndToEnd; two ids of one millisecond. *)
Lemma uuidv7_sequence_is_keystream_witness :
  let s := seed_state (replicate 44 7) in
  exists p0 q p',
    chronoid_uuidv7_sequence_init (UuidSeq 0 0 (replicate 8 0)) (start demo_machine)
    = Some (CHRONOID_UUIDV7_OK, spec_init s 0, p0) /\
    uuidv7_sequence_calls 2 (spec_init s 0) CHRONOID_UUIDV7_NIL p0
    = Some (map (pair CHRONOID_UUIDV7_OK)
              (spec_ids 2 (clock_ms 1700000000 500000000) s 10 (spec_init s 0)), q, p').
Proof.
  assert (exists os, chronoid_os_random_bytes os_fuel (uninit 44) 44 (m_os demo_machine)
                     = Some (0, replicate 44 7, os)) as [os E] by (eexists; vm_compute; reflexivity).
  eapply (uuidv7_sequence_is_keystream demo_machine 1700000000 500000000 (replicate 44 7) os 2).
  - split; [unfold int64, INT64_MIN, INT64_MAX|]; lia.
  - reflexivity.
  - vm_compute. discriminate.
  - vm_compute. discriminate.
  - vm_compute. discriminate.
  - apply uuidv7_nil_wf.
  - exact E.
Defined.
