(* ===== verification/Vectors.v ===== *)
(** * The test vectors of the repository: tests/

    The concrete assertions of the test programs that fix a value, as boolean
    functions over the model, each evaluated for every kernel of the library, and
    the generation part of test_cli.sh on the whole stack.  They pin the model to
    bytes that were not derived from it: the vectors of segmentio/ksuid, of
    RFC 9562 and of RFC 8439. *)
From Stdlib Require Import String.
From S2P Require Import Prelude Libc KsuidTypes Base62 Base62Simd Compare Rand Ksuid.
From S2P Require Import KsuidSequence Hex HexSsse3 Uuidv7 Uuidv7Sequence Wipe Chacha20 Stdio.
From S2P Require Import RandOs RandTls Machine TlsRng Override Cli CliSpec EndToEnd.

(** [ASSERT_EQ_INT], [ASSERT_EQ_BYTES], [ASSERT_EQ_STRN]. *)
Definition ASSERT_EQ {A} `{EqDecision A} (x : option A) (y : A) : bool := bool_decide (x = Some y).

#[local] Instance uuidv7_eq_dec : EqDecision chronoid_uuidv7_t.
Proof. solve_decision. Defined.

(** ** KSUID: test_base62.c, test_parse_format.c, test_parts.c, test_sequence.c *)

Definition kSampleBytes : list Z :=
  [0x06; 0x69; 0xF7; 0xEF; 0xB5; 0xA1; 0xCD; 0x34; 0xB5; 0xF9; 0x9D; 0x11;
   0x54; 0xFB; 0x68; 0x53; 0x34; 0x5C; 0x97; 0x35].
Definition kSampleStr : list Z := str "0ujtsYcgvSTl8PAuAdqWYSMnLOv".
Definition kNilStr : list Z := str "000000000000000000000000000".
Definition kMaxStr : list Z := str "aWgEPTl1tmebfsQzFP4bxwgy80V".

Definition ksuid_golden : list (list Z * list Z) :=
  [(replicate 20 0, kNilStr); (replicate 20 0xff, kMaxStr); (kSampleBytes, kSampleStr)].

(** Strings the decoder refuses: a foreign character at the end, a value past
    the maximum, and the largest digit everywhere. *)
Definition base62_bad : list (list Z) :=
  map (fun c => replicate 26 48 ++ [c]) [33; 0x80; 47; 58] ++
  [str "aWgEPTl1tmebfsQzFP4bxwgy80W"; str "aWgEPTl1tmebfsQzFP4bxwgy80!";
   replicate 27 97; replicate 27 122; replicate 27 33].

Definition test_base62 `{Translate16} : bool :=
  forallb (fun '(b, s) =>
    ASSERT_EQ (chronoid_base62_encode (uninit 27) b) s &&
    ASSERT_EQ (chronoid_base62_decode (uninit 20) s) (CHRONOID_KSUID_OK, b)) ksuid_golden &&
  forallb (fun s =>
    ASSERT_EQ (fst <$> chronoid_base62_decode (uninit 20) s) CHRONOID_KSUID_ERR_STR_VALUE) base62_bad.

Definition test_parse_format `{Translate16} : bool :=
  forallb (fun '(b, s) =>
    ASSERT_EQ (chronoid_ksuid_parse CHRONOID_KSUID_NIL s 27) (CHRONOID_KSUID_OK, Ksuid b) &&
    ASSERT_EQ (chronoid_ksuid_format (Ksuid b) (uninit 27)) s) ksuid_golden &&
  forallb (fun n =>
    ASSERT_EQ (chronoid_ksuid_parse CHRONOID_KSUID_MAX kSampleStr n)
      (CHRONOID_KSUID_ERR_STR_SIZE, CHRONOID_KSUID_MAX)) [0%nat; 26%nat; 28%nat] &&
  forallb (fun s =>
    ASSERT_EQ (chronoid_ksuid_parse CHRONOID_KSUID_MAX s 27)
      (CHRONOID_KSUID_ERR_STR_VALUE, CHRONOID_KSUID_MAX)) base62_bad.

Definition SAMPLE_TS : Z := 107608047.
Definition kPayload : list Z := drop 4 kSampleBytes.

Definition test_parts : bool :=
  ASSERT_EQ (chronoid_ksuid_from_bytes CHRONOID_KSUID_NIL kSampleBytes 20)
    (CHRONOID_KSUID_OK, Ksuid kSampleBytes) &&
  forallb (fun n => ASSERT_EQ (chronoid_ksuid_from_bytes CHRONOID_KSUID_MAX kSampleBytes n)
    (CHRONOID_KSUID_ERR_SIZE, CHRONOID_KSUID_MAX)) [0%nat; 19%nat; 21%nat] &&
  ASSERT_EQ (chronoid_ksuid_from_parts CHRONOID_KSUID_NIL (SAMPLE_TS + CHRONOID_KSUID_EPOCH_SECONDS)
    kPayload 16) (CHRONOID_KSUID_OK, Ksuid kSampleBytes) &&
  ASSERT_EQ (chronoid_ksuid_from_parts CHRONOID_KSUID_MAX CHRONOID_KSUID_EPOCH_SECONDS kPayload 15)
    (CHRONOID_KSUID_ERR_PAYLOAD_SIZE, CHRONOID_KSUID_MAX) &&
  forallb (fun '(t, e) =>
    ASSERT_EQ (fst <$> chronoid_ksuid_from_parts CHRONOID_KSUID_NIL t (replicate 16 0) 16) e)
    [(0, CHRONOID_KSUID_ERR_TIME_RANGE);
     (CHRONOID_KSUID_EPOCH_SECONDS + UINT32_MAX + 1, CHRONOID_KSUID_ERR_TIME_RANGE);
     (CHRONOID_KSUID_EPOCH_SECONDS, CHRONOID_KSUID_OK);
     (CHRONOID_KSUID_EPOCH_SECONDS + UINT32_MAX, CHRONOID_KSUID_OK)] &&
  forallb (fun '(id, ts) =>
    ASSERT_EQ (chronoid_ksuid_timestamp id) ts &&
    ASSERT_EQ (chronoid_ksuid_time_unix id) (ts + CHRONOID_KSUID_EPOCH_SECONDS))
    [(Ksuid kSampleBytes, SAMPLE_TS); (CHRONOID_KSUID_NIL, 0); (CHRONOID_KSUID_MAX, UINT32_MAX)].

(** The seed 0x10, 0x11, ..., and that seed with the two bytes at the end. *)
Definition make_seed : list Z := map (fun i => 0x10 + Z.of_nat i) (seq 0 20).
Definition seed_with (hi lo : Z) : chronoid_ksuid_t := Ksuid (take 18 make_seed ++ [hi; lo]).

Definition test_sequence : bool :=
  let s := chronoid_ksuid_sequence_init (KsuidSeq CHRONOID_KSUID_MAX 77) (Ksuid make_seed) in
  let next c := '(e, _, out) ← chronoid_ksuid_sequence_next (KsuidSeq (kseq_seed s) c)
                                 CHRONOID_KSUID_NIL; Some (e, out) in
  let bounds c := chronoid_ksuid_sequence_bounds (KsuidSeq (kseq_seed s) c) in
  ASSERT_EQ (next (kseq_count s)) (CHRONOID_KSUID_OK, seed_with 0 0) &&
  ASSERT_EQ (next 0x0102) (CHRONOID_KSUID_OK, seed_with 0x01 0x02) &&
  ASSERT_EQ (next UINT16_MAX) (CHRONOID_KSUID_OK, seed_with 0xff 0xff) &&
  ASSERT_EQ (fst <$> next (UINT16_MAX + 1)) CHRONOID_KSUID_ERR_EXHAUSTED &&
  ASSERT_EQ (bounds 0) (seed_with 0 0, seed_with 0xff 0xff) &&
  ASSERT_EQ (bounds (UINT16_MAX + 5)) (seed_with 0xff 0xff, seed_with 0xff 0xff).

(** Every vector, with each of the validation kernels. *)
Example ksuid_tests_pass :
  forallb (fun t : Translate16 => @test_base62 t && @test_parse_format t)
    [translate16_scalar; translate16_sse2; translate16_neon; translate16_armv7] = true /\
  test_parts = true /\ test_sequence = true.
Proof. split_and!; vm_compute; reflexivity. Qed.

(** The order at the ends, with each of the comparison kernels (test_smoke.c,
    test_compare_parity.c). *)
Definition test_compare `{Compare20} : bool :=
  forallb (fun '(a, b, c) => ASSERT_EQ (chronoid_ksuid_compare a b) c)
    [(CHRONOID_KSUID_NIL, CHRONOID_KSUID_MAX, -1); (CHRONOID_KSUID_MAX, CHRONOID_KSUID_NIL, 1);
     (CHRONOID_KSUID_NIL, CHRONOID_KSUID_NIL, 0); (CHRONOID_KSUID_MAX, CHRONOID_KSUID_MAX, 0)] &&
  forallb (fun k =>
    let a := Ksuid (<[k := 0x10]> (replicate 20 0x55)) in
    let b := Ksuid (<[k := 0x20]> (replicate 20 0x55)) in
    ASSERT_EQ (chronoid_ksuid_compare a b) (-1) && ASSERT_EQ (chronoid_ksuid_compare b a) 1)
    (seq 0 20).

Example compare_tests_pass :
  forallb (fun t : Compare20 => @test_compare t)
    [compare20_scalar; compare20_sse2; compare20_neon; compare20_armv7] = true.
Proof. vm_compute. reflexivity. Qed.

(** ** UUIDv7: test_uuidv7_rfc_layout.c, test_uuidv7_parse_format.c *)

Record rfc_vector := RfcVector {
  v_name : string;
  v_unix_ms : Z;
  v_rand_a_12bit : Z;
  v_rand_b : list Z;
  v_expected_bytes : list Z;
  v_expected_string : list Z
}.

Definition kVectors : list rfc_vector :=
  [RfcVector "rfc9562 appendix A.1 published example"
     0x017F22E279B0 0x0CC3 [0x18; 0xC4; 0xDC; 0x0C; 0x0C; 0x07; 0x39; 0x8F]
     [0x01; 0x7F; 0x22; 0xE2; 0x79; 0xB0; 0x7C; 0xC3; 0x98; 0xC4; 0xDC; 0x0C; 0x0C; 0x07; 0x39; 0x8F]
     (str "017f22e2-79b0-7cc3-98c4-dc0c0c07398f");
   RfcVector "all-zero inputs"
     0 0 (replicate 8 0)
     [0; 0; 0; 0; 0; 0; 0x70; 0; 0x80; 0; 0; 0; 0; 0; 0; 0]
     (str "00000000-0000-7000-8000-000000000000");
   RfcVector "all-max inputs (within RFC ranges)"
     (2 ^ 48 - 1) 0x0FFF (replicate 8 0xFF)
     (replicate 6 0xFF ++ [0x7F; 0xFF; 0xBF] ++ replicate 7 0xFF)
     (str "ffffffff-ffff-7fff-bfff-ffffffffffff");
   RfcVector "boundary timestamp unix_ms = 1"
     1 0x0123 [0x33; 0x44; 0x55; 0x66; 0x77; 0x88; 0x99; 0xAA]
     [0; 0; 0; 0; 0; 0x01; 0x71; 0x23; 0xB3; 0x44; 0x55; 0x66; 0x77; 0x88; 0x99; 0xAA]
     (str "00000000-0001-7123-b344-5566778899aa");
   RfcVector "version nibble masking: caller bits ignored"
     0x000123456789 0xFFFF [0x00; 0x11; 0x22; 0x33; 0x44; 0x55; 0x66; 0x77]
     [0x00; 0x01; 0x23; 0x45; 0x67; 0x89; 0x7F; 0xFF; 0x80; 0x11; 0x22; 0x33; 0x44; 0x55; 0x66; 0x77]
     (str "00012345-6789-7fff-8011-223344556677");
   RfcVector "variant bits masking: caller bits ignored"
     0x010000000000 0x0456 [0xFF; 0xAA; 0xBB; 0xCC; 0xDD; 0xEE; 0xFF; 0x11]
     [0x01; 0; 0; 0; 0; 0; 0x74; 0x56; 0xBF; 0xAA; 0xBB; 0xCC; 0xDD; 0xEE; 0xFF; 0x11]
     (str "01000000-0000-7456-bfaa-bbccddeeff11")].

Definition exercise_vector `{HexEncode16} (v : rfc_vector) : bool :=
  let id := Uuidv7 (v_expected_bytes v) in
  ASSERT_EQ (chronoid_uuidv7_from_parts CHRONOID_UUIDV7_NIL (v_unix_ms v) (v_rand_a_12bit v)
    (v_rand_b v)) (CHRONOID_UUIDV7_OK, id) &&
  ASSERT_EQ (chronoid_uuidv7_format id (uninit 36)) (v_expected_string v) &&
  ASSERT_EQ (chronoid_uuidv7_parse CHRONOID_UUIDV7_NIL (v_expected_string v) 36)
    (CHRONOID_UUIDV7_OK, id) &&
  ASSERT_EQ (chronoid_uuidv7_unix_ms id) (v_unix_ms v) &&
  ASSERT_EQ (chronoid_uuidv7_version id) 7 && ASSERT_EQ (chronoid_uuidv7_variant id) 2.

Definition uuid_sample : list Z := str "018cc251-f400-7c00-80c0-112233445566".

(** The sample with characters replaced: hyphens moved, dropped or doubled,
    foreign characters, NUL, white space. *)
Definition uuid_bad : list (list Z) :=
  map (foldr (fun '(i, c) s => <[i := c]> s) uuid_sample)
    [[(7%nat, 45); (8%nat, 49)]; [(23%nat, 49); (24%nat, 45)]; [(8%nat, 48)]; [(13%nat, 97)];
     [(0%nat, 45)]; [(0%nat, 103)]; [(1%nat, 33)]; [(2%nat, 0)]; [(35%nat, 32)]; [(5%nat, 9)];
     [(0%nat, 71)]] ++ [32 :: take 35 uuid_sample].

Definition test_uuidv7_parse_format `{HexEncode16} : bool :=
  let id := Uuidv7 [0x01; 0x8c; 0xc2; 0x51; 0xf4; 0x00; 0x7c; 0x00;
                    0x80; 0xc0; 0x11; 0x22; 0x33; 0x44; 0x55; 0x66] in
  ASSERT_EQ (chronoid_uuidv7_format id (uninit 36)) uuid_sample &&
  forallb (fun s =>
    ASSERT_EQ (chronoid_uuidv7_parse CHRONOID_UUIDV7_NIL s 36) (CHRONOID_UUIDV7_OK, id))
    [uuid_sample; str "018CC251-F400-7C00-80C0-112233445566"] &&
  ASSERT_EQ (drop 36 <$> chronoid_uuidv7_format CHRONOID_UUIDV7_MAX (uninit 37)) [0xCC] &&
  forallb (fun n =>
    ASSERT_EQ (chronoid_uuidv7_parse CHRONOID_UUIDV7_MAX uuid_sample n)
      (CHRONOID_UUIDV7_ERR_STR_SIZE, CHRONOID_UUIDV7_MAX)) [0%nat; 35%nat; 37%nat] &&
  forallb (fun s =>
    ASSERT_EQ (chronoid_uuidv7_parse CHRONOID_UUIDV7_MAX s 36)
      (CHRONOID_UUIDV7_ERR_STR_VALUE, CHRONOID_UUIDV7_MAX)) uuid_bad.

Example uuidv7_tests_pass :
  forallb (fun k : HexEncode16 =>
    forallb (@exercise_vector k) kVectors && @test_uuidv7_parse_format k)
    [hex_encode16_scalar; hex_encode16_ssse3] = true.
Proof. vm_compute. reflexivity. Qed.

(** ** UUIDv7 sequences: test_uuidv7_sequence.c *)

(** One emit with the clock pinned: the state, the time in the id and its
    counter. *)
Definition pinned (ms : Z) (s : chronoid_uuidv7_sequence_t)
    : option (chronoid_uuidv7_sequence_t * Z * Z) :=
  '(e, s, id, _) ← chronoid_uuidv7_sequence_next s CHRONOID_UUIDV7_NIL (ToyEnv 0x5A ms);
  t ← chronoid_uuidv7_unix_ms id;
  if bool_decide (e = CHRONOID_UUIDV7_OK) then Some (s, t, useq_counter s) else None.

Definition test_uuidv7_sequence : bool :=
  ASSERT_EQ (
    '(_, s, _) ← chronoid_uuidv7_sequence_init (UuidSeq 9 9 []) (ToyEnv 0x5A 0);
    '(s, a, ca) ← pinned 1000 s;
    '(s, b, cb) ← pinned 500 s;
    '(s, c, _) ← pinned 2000 s;
    Some (a, b, cb - ca, c, useq_last_ms s)) (1000, 1000, 1, 2000, 2000).

Example uuidv7_sequence_tests_pass : test_uuidv7_sequence = true.
Proof. vm_compute. reflexivity. Qed.

(** ** ChaCha20: test_chacha20.c *)

Definition zero_key_state (c : Z) : list Z :=
  [CHRONOID_CHACHA20_C0; CHRONOID_CHACHA20_C1; CHRONOID_CHACHA20_C2; CHRONOID_CHACHA20_C3] ++
  replicate 8 0 ++ [c; 0; 0; 0].

Definition test_chacha20 `{wipe_config} : bool :=
  ASSERT_EQ ('(out, state, _) ← chronoid_chacha20_block (uninit 64) rfc_vector_state;
             Some (out, nth 12 state 0)) (rfc_vector_block, 2) &&
  ASSERT_EQ ('(_, state, _) ← chronoid_chacha20_block (uninit 64) (zero_key_state 0);
             '(_, state2, _) ← chronoid_chacha20_block (uninit 64) state;
             Some (nth 12 state 0, nth 12 state2 0)) (1, 2) &&
  bool_decide (chronoid_chacha20_block (uninit 64) (zero_key_state 0)
               <> chronoid_chacha20_block (uninit 64) (zero_key_state 1)).

Example chacha20_tests_pass : @test_chacha20 portable_wipe = true.
Proof. vm_compute. reflexivity. Qed.

(** ** The command-line tool: test_cli.sh

    The generation tests, from the start of the process on a machine with one
    entropy byte; the parse tests are in CliSpec ([cli_time], [cli_timestamps],
    [cli_rejections], [cli_inspect_ksuid]). *)
#[local] Existing Instances portable_wipe linux_config demo_fuel.
#[local] Instance utc : TimeZone := fun _ => (0, str "UTC").
#[local] Existing Instance lp64.

Definition chronoid_gen (args : list string) : option (Z * list Z) :=
  '(code, out, _, _) ← main (map str ("chronoid-gen"%string :: args)) (start demo_machine);
  Some (code, out).

Fixpoint lines_from (line out : list Z) : list (list Z) :=
  match out with
  | [] => []
  | c :: out => if c =? 10 then line :: lines_from [] out else lines_from (line ++ [c]) out
  end.

(** The lines of a run that ended well. *)
Definition lines (args : list string) : option (list (list Z)) :=
  '(code, out) ← chronoid_gen args;
  if code =? 0 then Some (lines_from [] out) else None.

(** [n] different lines of [len] characters. *)
Definition distinct_lines (n len : nat) (ls : list (list Z)) : bool :=
  (length ls =? n)%nat && bool_decide (NoDup ls) &&
  forallb (fun l => (length l =? len)%nat) ls.

Definition test_cli_generation : bool :=
  let check args p := match lines args with Some ls => p ls | None => false end in
  check [] (fun ls => distinct_lines 1 27 ls && forallb (forallb b62_valid) ls) &&
  check ["-n"; "4"]%string (distinct_lines 4 27) &&
  check ["--format=uuidv7"]%string
    (fun ls => distinct_lines 1 36 ls && forallb (fun l => bool_decide (l !! 14%nat = Some 55)) ls) &&
  check ["-n"; "3"; "--format=uuidv7"]%string (distinct_lines 3 36) &&
  ASSERT_EQ (lines ["0ujtsYcgvSTl8PAuAdqWYSMnLOv"]%string) [kSampleStr] &&
  ASSERT_EQ (lines ["-v"; "-f"; "timestamp"; "0ujtsYcgvSTl8PAuAdqWYSMnLOv"]%string)
    [kSampleStr ++ str ": 107608047"] &&
  ASSERT_EQ (snd <$> chronoid_gen ["-f"; "raw"; "0ujtsYcgvSTl8PAuAdqWYSMnLOv"]%string) kSampleBytes &&
  ASSERT_EQ (snd <$> chronoid_gen ["-f"; "payload"; "0ujtsYcgvSTl8PAuAdqWYSMnLOv"]%string) kPayload &&
  ASSERT_EQ (chronoid_gen ["--format=uuidv7"; "-f"; "payload"]%string) (1, []).

Example cli_generation_tests_pass : test_cli_generation = true.
Proof. vm_compute. reflexivity. Qed.
